(* ===== verification/_CoqProject ===== *)
-Q . S2P
Prelude.v
PyStr.v
PyFloat.v
Json.v
Domain.v
Database.v
WellFormed.v
Ledger.v
Repositories.v
Migrations.v
Evolution.v
World.v
Effects.v
Ports.v
Fixtures.v
JobService.v
Requests.v
WorkerService.v
PipelineServices.v
Messaging.v
OutboxRelay.v
Relays.v
JobStore.v
System.v
Fencing.v
Fleet.v
Delivery.v
Settings.v
Runtime.v
Retry.v
Consumer.v
Interleaving.v
Processing.v
Batching.v
Semaphore.v
KafkaTopics.v
Api.v
Http.v
EndToEnd.v
Life.v
Service.v
Recovery.v
LoadScript.v
