(* ===== verification/Prelude.v ===== *)
(** * MorphFlow: a verification of the job pipeline

    MorphFlow (the Python code under [src/]) is an asynchronous job service. An HTTP
    interface accepts a request, writes a job, an event and a message to publish in one
    database transaction, and answers. A relay moves the messages from the outbox table
    to Kafka. Workers consume them: depending on the architecture mode one worker does
    the whole job, or an inference stage hands its result to a downstream stage. A
    failed attempt is retried through a retry topic and finally ends in a dead-letter
    topic. What makes this hard is what the development is about: a worker may die or be
    overtaken while it holds a job, every external call may fail before or after its
    effect, and a message may be delivered more than once.

    ** How the program is modelled

    Values are Python's: text is a list of code points, JSON values are trees whose
    accessors raise what Python raises, integers are unbounded, floats are IEEE binary64.
    A coroutine is a function of the monad [World.M]: it takes the world (committed
    database, open transaction, Redis, Kafka, clocks, metrics) and returns a result or an
    exception with the new world. The world carries its environment: the ids [uuid4()]
    draws and, for the [n]-th external call, whether it is done, fails without effect, or
    takes effect and still raises ([World.fate]). A theorem for every world is therefore a
    theorem for every pattern of failures; a theorem for a [calm] world says what happens
    when nothing fails. Redis, Kafka's consumer, its admin client, a task processor and
    the publisher are interfaces (type classes with laws); each has a concrete
    instance on which the hypotheses of the theorems are exercised.

    ** Files, in dependency order

    - [Prelude]: results and exceptions, lemmas on lists. [PyStr]: UTF-8 with replacement,
      [str.strip], [int(str)] and [str(int)] with their round trips. [PyFloat]: binary64
      arithmetic, [min], [max], [pow], [int(float)]. [Json]: JSON values and dicts.
    - [Domain]: [app/domain/models.py] and [events.py]: statuses, the transition table,
      leases, the event envelope.
    - [Database]: [app/adapters/db]: the tables and the effect of every repository
      statement. [WellFormed]: what holds of every table: which columns of a row go with
      which status, which topic a message of the outbox goes to, distinct ids.
    - [Ledger]: the specification of a job that says nothing of columns, leases or
      clocks: an attempt begins, and a finished job begins none. [Evolution]: how a committed
      database may change (rows keep their identity, the epoch of a row only grows, SUCCESS
      is final, logs only grow, tables stay well formed, each row refines its ledger).
    - [Repositories]: [app/ports/repositories.py] as classes with laws; the statements of
      [Database] are their instance. [Migrations]: [alembic/versions], [alembic/env.py]
      and the schema the models declare.
    - [World], [Effects]: sessions, transactions, external calls; the two ways of
      reasoning about them (invariance under a relation; symbolic execution).
    - [Ports]: [app/ports] and [app/adapters/cache/redis_idempotency.py].
      [Fixtures]: concrete instances for the examples.
    - [JobService], [WorkerService], [PipelineServices]: [app/application], one
      definition for each transaction of each handler and one for the handler. [Requests]:
      [create_job] cut at its calls, so that requests with one key interleave.
    - [Messaging]: [app/adapters/messaging/kafka.py]. [OutboxRelay]: [outbox_relay.py].
      [Relays]: [drain_once] cut at its awaits, with the row locks its read takes.
    - [JobStore]: the contract of the job repository: claims, updates, renewals.
    - [System]: a step relation on the world and the leases the workers hold. Its steps are the
      transactions and calls of the handlers, each one named; the handlers are shown to be made of them
      ([System.handlers_are_steps]), so its invariants hold in every interleaving.
      [Fencing]: what a hand-off does that is not fenced. [Fleet]: any number of relays next to
      these transactions, with crashes. [Delivery]: events
      that reach the workers repeatedly and out of order.
    - [Settings]: [app/core/config.py], [app/workers/roles.py], [app/core/container.py],
      [app/adapters/processing/factory.py].
    - [Runtime]: [app/main.py]'s lifespan, the set-up and tear-down of [run_worker],
      the instrumentation of [app/core/tracing.py], starting and stopping the relay task.
    - [Retry], [Consumer]: [app/workers/runner.py]: one message, one partition, one turn.
      [Interleaving]: the partitions of a turn as machines that interleave.
    - [Processing], [Batching]: [app/adapters/processing]: the dummies, the GPU simulator and
      its micro-batching as a step relation. [Semaphore]: the places of the simulator.
    - [KafkaTopics]: [app/core/kafka_topics.py]. [Api]: [app/api].
      [Http]: [app/main.py], the routers behind the counting middleware, and [app/core/metrics.py].
    - [EndToEnd]: a request, the relay, the workers of a mode and the answer, composed; the
      role classes of [app/workers/roles.py]. [Life]: the worker's loop turn after turn, with
      crashes and restarts. [Service]: the interface, the relay and that loop side by side.
      [Recovery]: the event of a job whose worker
      died, its retries and their times. [LoadScript]: [scripts/run_k6_load.py].

    ** What the theorems show

    - Exclusive ownership: of two workers with leases of one job at most one can still
      record a result or a failure, or change the job at all ([System.one_writer_per_job]); a hand-off
      between the stages, which carries no token, can still be committed, and may win
      ([Fencing.stale_handoff_wins]). A claim excludes others until it expires; a
      stale lease is fenced off; a finished job stays finished; updates are
      compare-and-set along the transition table. A claim ends in at most one recorded
      outcome ([System.one_outcome_per_claim]).
    - Refinement: in every interleaving of handlers, relays and crashes the rows of a job
      take only steps of its ledger ([System.jobs_follow_ledger]), and the tables stay well
      formed ([System.tables_well_formed]). The SQL repositories keep the contract their
      ports state.
    - End to end: without failures a request becomes a job that the workers finish
      and whose result is answered, with one worker and with two stages
      ([EndToEnd.job_completes], [EndToEnd.staged_job_completes]).
    - No loss and no false reports: a job, its event and its message are committed
      together or not at all, and so is a hand-off between the stages; what the outbox
      calls published is in Kafka; without failures the relay empties the outbox in order,
      each message once; relays that
      drain the outbox side by side, on a database with row locks, never hold the same message and
      hand each one to the broker once, unless it was refused or a relay was lost
      ([Fleet.relays_do_not_overlap]); the consumer passes no message over and commits no offset
      beyond a handled prefix, however the partitions of a turn interleave.
    - Idempotency of requests: a repeated request gets the job of the first one, and of
      requests with one key that interleave in any way one at most creates a job
      ([Requests.one_job_per_key]). The functional behaviour of each handler on success, on
      a processor's failure and on refusal.
    - Crashes and repeated delivery: events delivered at least once, in any order, have the
      effect of being delivered exactly once ([Delivery.at_least_once_suffices]). A worker
      that reads a log of requests, dies and is restarted at its committed offsets processes
      every request exactly once and reaches the end of the log
      ([Life.requests_processed_once]). When requests arrive, with or without a key and with payloads
      the processor can answer, the relay drains the outbox and
      may die half way, and the worker reads, dies and is restarted, in any order, every job
      waits or has been processed exactly once, and once requests stop every job is finished
      ([Service.accepted_jobs_finish]). From every
      state the system reaches, an unfinished job whose lease has expired is finished by the
      next worker that gets its event, and its former holders can change no job any more
      ([Recovery.unfinished_job_recovers]). Whether it gets the event in time is a race of
      retries and lease, decided by [Recovery.takeover_needs_late_retry].
    - Retries: a message that always fails is retried exactly as often as configured and
      then isolated; headers survive the broker; back-off is bounded; a deferred
      partition is resumed in time.
    - Micro-batching: each request gets its own answer once, in order of arrival, only a request on which
      the simulator itself raises ends the flush task and the next request starts a new one, and every
      queued request is served in a bounded number of steps of the flush task. The
      simulator serves no more requests at once than it has places, in order of arrival.
    - Schema and processes: the migrations build the tables the models declare, a downgrade
      inverts its upgrade, and the lease columns are added without touching the rows; a
      worker stops what it started, in order; a process runs at most one relay task and
      instruments itself once.
    - Provisioning, configuration and the HTTP interface: topics never shrink and
      provisioning is idempotent; the ingress is the same in every mode; an accepted job
      can be asked for; readiness is the conjunction of the dependencies; the middleware
      counts each answer once.
    - Flaws the modelling showed, each with a lemma or theorem: a worker that has lost its job still
      hands it on, and its result may win ([Fencing.stale_handoff_wins]), a downstream retry that succeeds is
      lost, with the default settings the retries for a crashed worker's job end before its
      lease does ([Recovery.crashed_job_isolated]), a duplicate request is refused until
      the first one has committed ([Requests.concurrent_duplicate_refused]), a failed first
      transaction blocks its idempotency key, a retry message without
      its origin disappears, one bad request blocks its whole batch, a FAILED event is
      logged for a job that does not exist, clients stay open when one fails to start
      ([Runtime.failed_start_leaks]), the load script's default paths are not those of its
      container ([LoadScript.default_paths_unmounted]), a request that fails with 500 is not
      counted ([Http.server_errors_uncounted]).

    ** Bounds and fuel

    [OutboxRelay.relay_loop] counts turns, [Retry.attempts] deliveries, [Batching.serve]
    steps of the flush task, [Requests.parts] the parts of a request, [Relays.all_parts]
    those of a relay's pass, [Life.turns] turns of the
    worker's loop, and
    [Recovery.redelivered] recurses over the delays of the attempts. The theorems state how
    much is enough: as many turns as there are pending messages, one delivery more than the
    retries configured, two steps for each queued request and two more, five parts of a request, three parts of a pass and
    one for each message of a batch, as many
    turns as there are messages, in [Service] after as many of the relay as rows are pending. The program's own loops run for ever; any
    number of their turns is modelled. Numbers are not truncated: an epoch beyond the range of PostgreSQL's
    integer and a number of seconds outside the range of [datetime] raise as they do there,
    and numerals beyond Python's limit of 4300 digits are not read.

    ** What is not modelled

    The contents of spans and of log lines (nothing depends on them), the text of the
    metrics (the client library's), the argument parser and the printed lines of the load script, symbolic links in
    its paths, the locking of DDL. Time passes between transactions, not inside a
    computation. [Consumer.poll_turn] handles the partitions of a turn one after the other;
    [Interleaving] lets them interleave at every await, with any answer of the handlers, and
    shows that it makes no difference to the consumer; [System] covers the interleavings of
    the handlers' transactions. The statements of one transaction are taken to be isolated from other
    transactions: each handler decides by one conditional update; of locks, those of the relay's reads
    are modelled. What happens when a cluster refuses a topic is left out. [Service] runs one worker in a
    unified mode and no failing calls other than crashes, and no request on which the processor fails; repeated delivery in the staged modes is
    treated for each stage, not composed. The duration of the
    simulator's sleeps is left out, and so is the cancellation of a waiting request, which only
    the end of the process causes. *)
From stdpp Require Export base tactics strings list gmap.
From Stdlib Require Export ZArith Lia.

(** Python text is a sequence of Unicode code points. *)
Abbreviation pystr := (list N).

(** [u "text"] is the Python literal ["text"]. *)
Definition u (s : string) : pystr := Ascii.N_of_ascii <$> String.list_ascii_of_string s.
Arguments u : simpl never.

(** ** Exceptions and results *)

(** An [Exception] instance: [type(exc).__name__] and [str(exc)]. *)
Record exn := Exn { exn_type : pystr; exn_msg : pystr }.

Inductive result (A : Type) :=
  | Ok (a : A)
  | Raise (e : exn).
Arguments Ok {A} a.
Arguments Raise {A} e.

#[global] Instance result_ret : MRet result := λ A a, Ok a.
#[global] Instance result_bind : MBind result := λ A B f m,
  match m with Ok a => f a | Raise e => Raise e end.

Definition is_ok {A} (r : result A) : bool := match r with Ok _ => true | Raise _ => false end.

Definition ValueError (msg : pystr) : exn := Exn (u "ValueError") msg.
Definition TypeError (msg : pystr) : exn := Exn (u "TypeError") msg.
Definition AttributeError (msg : pystr) : exn := Exn (u "AttributeError") msg.
Definition KeyError (msg : pystr) : exn := Exn (u "KeyError") msg.
Definition OverflowError (msg : pystr) : exn := Exn (u "OverflowError") msg.
Definition RuntimeError (msg : pystr) : exn := Exn (u "RuntimeError") msg.
Definition IntegrityError (msg : pystr) : exn := Exn (u "IntegrityError") msg.
Definition UnicodeEncodeError (msg : pystr) : exn := Exn (u "UnicodeEncodeError") msg.

#[global] Instance exn_eq_dec : EqDecision exn.
Proof. solve_decision. Defined.

Lemma result_bind_ok {A B} (m : result A) (f : A → result B) b :
  (m ≫= f) = Ok b → ∃ a, m = Ok a ∧ f a = Ok b.
Proof. destruct m; simpl; [eauto | discriminate]. Qed.

(** ** Automation *)

Create HintDb mflow discriminated.

(** Case analysis on the first [match] or [if] of the goal or of [H]. *)
Ltac case_on_match :=
  match goal with
  | |- context [match ?x with _ => _ end] => destruct x eqn:?
  end.

(** Boolean comparisons of the context as propositions, for [lia]. *)
Ltac to_prop :=
  repeat match goal with
  | H : (_ && _)%bool = true |- _ => apply andb_true_iff in H as [? ?]
  | H : (_ && _)%bool = false |- _ => apply andb_false_iff in H as [H|H]
  | H : (_ || _)%bool = true |- _ => apply orb_true_iff in H as [H|H]
  | H : (_ || _)%bool = false |- _ => apply orb_false_iff in H as [? ?]
  | H : negb _ = true |- _ => apply negb_true_iff in H
  | H : negb _ = false |- _ => apply negb_false_iff in H
  | H : (_ <=? _)%N = true |- _ => apply N.leb_le in H
  | H : (_ <=? _)%N = false |- _ => apply N.leb_gt in H
  | H : (_ <? _)%N = true |- _ => apply N.ltb_lt in H
  | H : (_ <? _)%N = false |- _ => apply N.ltb_ge in H
  | H : (_ =? _)%N = true |- _ => apply N.eqb_eq in H
  | H : (_ =? _)%N = false |- _ => apply N.eqb_neq in H
  | H : (_ <=? _)%Z = true |- _ => apply Z.leb_le in H
  | H : (_ <=? _)%Z = false |- _ => apply Z.leb_gt in H
  | H : (_ <? _)%Z = true |- _ => apply Z.ltb_lt in H
  | H : (_ <? _)%Z = false |- _ => apply Z.ltb_ge in H
  | H : (_ =? _)%Z = true |- _ => apply Z.eqb_eq in H
  | H : (_ =? _)%Z = false |- _ => apply Z.eqb_neq in H
  end.

(** Decide a closed-form chain of boolean tests by arithmetic. *)
Ltac bool_cases := repeat case_match; to_prop; simplify_eq/=.

(** ** Lists *)

(** Marking the first [n] elements that satisfy [P] so that they no longer do,
    by their key, leaves the others. *)
Lemma filter_mark_take {A K} `{EqDecision K} (key : A → K) (mark : A → A)
    (P : A → Prop) `{∀ x, Decision (P x)} (l : list A) n :
  NoDup (key <$> l) → (∀ x, ¬ P (mark x)) →
  filter P ((λ x, if decide (key x ∈ key <$> take n (filter P l)) then mark x else x) <$> l)
  = drop n (filter P l).
Proof.
  intros Hnd Hm. revert n. induction l as [|x l IH]; intros n; [by destruct n|].
  rewrite fmap_cons in Hnd. apply NoDup_cons in Hnd as [Hx Hnd]. specialize (IH Hnd).
  assert (∀ k, key x ∉ key <$> take k (filter P l)) as Hout.
  { intros k (y & Hy & Hin)%list_elem_of_fmap. apply Hx. rewrite Hy. apply list_elem_of_fmap_2.
    apply (subseteq_take k (filter P l)) in Hin. by apply list_elem_of_filter in Hin as [_ ?]. }
  destruct (decide (P x)) as [Hp|Hp].
  - rewrite (filter_cons_True P x l) by done. destruct n as [|n].
    + rewrite take_0, drop_0, fmap_cons. rewrite decide_False by apply not_elem_of_nil.
      rewrite filter_cons_True by done. f_equal. specialize (IH 0%nat). by rewrite take_0, drop_0 in IH.
    + rewrite fmap_cons, firstn_cons, skipn_cons, fmap_cons. rewrite decide_True by set_solver.
      rewrite filter_cons_False by done.
      rewrite <- (IH n). f_equal. apply list_fmap_ext. intros i y Hy.
      assert (key y ≠ key x) as Hne.
      { intros He. apply Hx. rewrite <- He. apply list_elem_of_fmap_2. by eapply list_elem_of_lookup_2. }
      repeat case_decide; set_solver.
  - rewrite (filter_cons_False P x l) by done. rewrite fmap_cons.
    rewrite decide_False by apply Hout. rewrite filter_cons_False by done. apply IH.
Qed.

Lemma filter_ext_in {A} (P Q : A → Prop) `{∀ x, Decision (P x), ∀ x, Decision (Q x)} (l : list A) :
  (∀ x, x ∈ l → P x ↔ Q x) → filter P l = filter Q l.
Proof.
  induction l as [|x l IH]; intros Hl; [done|]. rewrite !filter_cons, IH by set_solver.
  assert (P x ↔ Q x) as Hx by set_solver. repeat case_decide; tauto.
Qed.

Lemma filter_all {A} (P : A → Prop) `{∀ x, Decision (P x)} (l : list A) :
  (∀ x, x ∈ l → P x) → filter P l = l.
Proof.
  induction l as [|x l IH]; intros Hl; [done|]. rewrite filter_cons_True by set_solver. by rewrite IH by set_solver.
Qed.

Lemma Forall_sublist {A} (P : A → Prop) l k : Forall P k → l `sublist_of` k → Forall P l.
Proof. intros Hk Hs. induction Hs; decompose_Forall_hyps; auto. Qed.

(** Filtering and mapping the values of a list of pairs keeps the order of the keys. *)
Lemma omap_keys_sublist {K A B} (f : K * A → option (K * B)) (l : list (K * A)) :
  (∀ x y, f x = Some y → y.1 = x.1) → (omap f l).*1 `sublist_of` l.*1.
Proof.
  intros Hf. induction l as [|x l IH]; [done|]. rewrite fmap_cons. cbn [omap list_omap].
  destruct (f x) as [y|] eqn:E; [|by apply sublist_cons]. rewrite fmap_cons, (Hf x y E). by apply sublist_skip.
Qed.
