(* ===== verification/PyStr.v ===== *)
(** * Python text: UTF-8 with replacement, [int(str)], [str(int)], [str.strip]

    Text is a list of code points ([pystr]); bytes are code points below 256.
    The codecs follow CPython 3.12, the interpreter the Dockerfile names:
    [utf8_encode] is [str.encode("utf-8")] (strict), [utf8_decode] is
    [bytes.decode("utf-8", errors="replace")] with one U+FFFD per maximal
    ill-formed subpart, and [py_int] is [int(text)] in base ten. *)
From S2P Require Import Prelude.
#[local] Open Scope N_scope.

Abbreviation pybytes := (list N).

(** ** UTF-8 *)

Definition is_surrogate (c : N) : bool := (0xD800 <=? c) && (c <=? 0xDFFF).

(** A code point of a Python [str]; [scalar] excludes the surrogates, which a
    [str] can hold but UTF-8 cannot. *)
Definition scalar (c : N) : Prop := c < 0x110000 ∧ is_surrogate c = false.

#[global] Instance scalar_dec c : Decision (scalar c).
Proof. unfold scalar. apply _. Defined.

(** One code point to its UTF-8 bytes; [None] for a surrogate. *)
Definition encode_char (c : N) : option pybytes :=
  if c <? 0x80 then Some [c]
  else if c <? 0x800 then Some [0xC0 + c / 64; 0x80 + c mod 64]
  else if is_surrogate c then None
  else if c <? 0x10000 then Some [0xE0 + c / 4096; 0x80 + (c / 64) mod 64; 0x80 + c mod 64]
  else Some [0xF0 + c / 262144; 0x80 + (c / 4096) mod 64; 0x80 + (c / 64) mod 64; 0x80 + c mod 64].

Definition surrogates_not_allowed : exn :=
  UnicodeEncodeError (u "'utf-8' codec can't encode character: surrogates not allowed").

(** [text.encode("utf-8")] *)
Fixpoint utf8_encode (s : pystr) : result pybytes :=
  match s with
  | [] => Ok []
  | c :: s' =>
      match encode_char c with
      | None => Raise surrogates_not_allowed
      | Some bs => match utf8_encode s' with Ok r => Ok (bs ++ r) | Raise e => Raise e end
      end
  end.

Definition replacement_char : N := 0xFFFD.

Definition in_range (lo hi b : N) : bool := (lo <=? b) && (b <=? hi).

(** Lead byte [b0]: number of continuation bytes and range of the first one. *)
Definition lead (b0 : N) : option (nat * N * N) :=
  if in_range 0xC2 0xDF b0 then Some (1%nat, 0x80, 0xBF)
  else if b0 =? 0xE0 then Some (2%nat, 0xA0, 0xBF)
  else if b0 =? 0xED then Some (2%nat, 0x80, 0x9F)
  else if in_range 0xE1 0xEF b0 then Some (2%nat, 0x80, 0xBF)
  else if b0 =? 0xF0 then Some (3%nat, 0x90, 0xBF)
  else if in_range 0xF1 0xF3 b0 then Some (3%nat, 0x80, 0xBF)
  else if b0 =? 0xF4 then Some (3%nat, 0x80, 0x8F)
  else None.

(** The payload bits of a lead byte with [n] continuation bytes. *)
Definition lead_bits (n : nat) (b0 : N) : N :=
  match n with 1%nat => b0 - 0xC0 | 2%nat => b0 - 0xE0 | _ => b0 - 0xF0 end.

(** [bytes.decode("utf-8", errors="replace")]: [pending] is the ill- or
    well-formed sequence being read ([need] continuation bytes missing, the
    next one in [lo..hi], the bits so far in [acc]). *)
Fixpoint decode_from (pending : option (nat * N * N * N)) (bs : pybytes) : pystr :=
  match bs, pending with
  | [], None => []
  | [], Some _ => [replacement_char]
  | b :: bs', Some (need, lo, hi, acc) =>
      if in_range lo hi b then
        let acc' := acc * 64 + (b - 0x80) in
        match need with
        | S (S n) => decode_from (Some (S n, 0x80, 0xBF, acc')) bs'
        | _ => acc' :: decode_from None bs'
        end
      else replacement_char ::
        (if b <? 0x80 then b :: decode_from None bs'
         else match lead b with
              | Some (n, lo', hi') => decode_from (Some (n, lo', hi', lead_bits n b)) bs'
              | None => replacement_char :: decode_from None bs'
              end)
  | b :: bs', None =>
      if b <? 0x80 then b :: decode_from None bs'
      else match lead b with
           | Some (n, lo', hi') => decode_from (Some (n, lo', hi', lead_bits n b)) bs'
           | None => replacement_char :: decode_from None bs'
           end
  end.

Definition utf8_decode (bs : pybytes) : pystr := decode_from None bs.

Example decode_truncated : utf8_decode [0x61; 0xE0; 0xA0] = [0x61; 0xFFFD].
Proof. reflexivity. Qed.

Example decode_bad_second : utf8_decode [0xE0; 0x80; 0x41; 0xF1; 0x80; 0x80; 0x41]
  = [0xFFFD; 0xFFFD; 0x41; 0xFFFD; 0x41].
Proof. reflexivity. Qed.

(** ** Decoding inverts encoding *)

Ltac Zify.zify_post_hook ::= Z.to_euclidean_division_equations.

Lemma mid_digit c : (c / 64) mod 64 = c / 64 - 64 * (c / 4096) ∧ 64 * (c / 4096) ≤ c / 64.
Proof. rewrite N.Div0.mod_eq, N.Div0.div_div by lia. change (64 * 64) with 4096. lia. Qed.

Lemma high_digit c :
  (c / 4096) mod 64 = c / 4096 - 64 * (c / 262144) ∧ 64 * (c / 262144) ≤ c / 4096.
Proof. rewrite N.Div0.mod_eq, N.Div0.div_div by lia. change (4096 * 64) with 262144. lia. Qed.

(** The leads that [encode_char] produces. *)
Lemma lead_two c : 0x80 ≤ c < 0x800 → lead (0xC0 + c / 64) = Some (1%nat, 0x80, 0xBF).
Proof. intros. unfold lead, in_range. bool_cases; try done; lia. Qed.

Lemma lead_three c : 0x800 ≤ c < 0x10000 → is_surrogate c = false →
  ∃ lo hi, lead (0xE0 + c / 4096) = Some (2%nat, lo, hi)
    ∧ lo ≤ 0x80 + (c / 64) mod 64 ≤ hi.
Proof.
  intros Hc Hs. destruct (mid_digit c). unfold lead, in_range, is_surrogate in *.
  bool_cases; try (do 2 eexists; split; [reflexivity|lia]); lia.
Qed.

Lemma lead_four c : 0x10000 ≤ c < 0x110000 →
  ∃ lo hi, lead (0xF0 + c / 262144) = Some (3%nat, lo, hi)
    ∧ lo ≤ 0x80 + (c / 4096) mod 64 ≤ hi.
Proof.
  intros Hc. destruct (high_digit c). unfold lead, in_range.
  bool_cases; try (do 2 eexists; split; [reflexivity|lia]); lia.
Qed.

Lemma in_range_true lo hi b : lo ≤ b ≤ hi → in_range lo hi b = true.
Proof. intros. unfold in_range. apply andb_true_iff. rewrite !N.leb_le. lia. Qed.

Lemma ltb_false a b : b ≤ a → (a <? b) = false.
Proof. apply N.ltb_ge. Qed.

(** A well-formed sequence of a lead and its continuation bytes. *)
Lemma decode_lead b0 n lo hi bs :
  0x80 ≤ b0 → lead b0 = Some (n, lo, hi) →
  decode_from None (b0 :: bs) = decode_from (Some (n, lo, hi, lead_bits n b0)) bs.
Proof. intros H Hl. simpl. by rewrite ltb_false, Hl. Qed.

Lemma decode_cont n lo hi acc b bs :
  lo ≤ b ≤ hi →
  decode_from (Some (S (S n), lo, hi, acc)) (b :: bs)
    = decode_from (Some (S n, 0x80, 0xBF, acc * 64 + (b - 0x80))) bs.
Proof. intros. simpl. by rewrite in_range_true. Qed.

Lemma decode_last lo hi acc b bs :
  lo ≤ b ≤ hi →
  decode_from (Some (1%nat, lo, hi, acc)) (b :: bs)
    = (acc * 64 + (b - 0x80)) :: decode_from None bs.
Proof. intros. simpl. by rewrite in_range_true. Qed.

Lemma decode_encode_char c bs rest :
  scalar c → encode_char c = Some bs →
  decode_from None (bs ++ rest) = c :: decode_from None rest.
Proof.
  intros [Hc Hs] He. unfold encode_char in He. rewrite Hs in He.
  destruct (N.ltb_spec c 0x80); simplify_eq/=.
  { by destruct (N.ltb_spec c 0x80); [|lia]. }
  destruct (N.ltb_spec c 0x800); simplify_eq; simpl app.
  { erewrite decode_lead by (try apply lead_two; lia).
    rewrite decode_last by lia. f_equal. unfold lead_bits. lia. }
  destruct (N.ltb_spec c 0x10000); simplify_eq; simpl app.
  - destruct (lead_three c) as (lo & hi & Hl & ?); [lia|done|].
    erewrite decode_lead by (done || lia).
    destruct (mid_digit c).
    rewrite decode_cont, decode_last by lia. f_equal. unfold lead_bits. lia.
  - destruct (lead_four c) as (lo & hi & Hl & ?); [lia|].
    erewrite decode_lead by (done || lia).
    destruct (mid_digit c), (high_digit c).
    rewrite !decode_cont, decode_last by lia. f_equal. unfold lead_bits. lia.
Qed.

(** Decoding what [utf8_encode] produced gives the text back. *)
Lemma utf8_decode_encode s bs : Forall scalar s → utf8_encode s = Ok bs → utf8_decode bs = s.
Proof.
  unfold utf8_decode. intros Hs. revert bs. induction Hs as [|c s Hc Hs IH]; intros bs He.
  - by simplify_eq/=.
  - simpl in He. destruct (encode_char c) as [cb|] eqn:Hcb; [|done].
    destruct (utf8_encode s) as [r|]; simplify_eq.
    erewrite decode_encode_char by done. f_equal. by apply IH.
Qed.

(** Every surrogate-free text can be encoded. *)
Lemma utf8_encode_total s : Forall scalar s → ∃ bs, utf8_encode s = Ok bs.
Proof.
  induction 1 as [|c s [Hc Hsur] Hs [bs IH]]; [by eexists|].
  assert (∃ cb, encode_char c = Some cb) as [cb Hcb].
  { unfold encode_char. rewrite Hsur. repeat case_match; eauto. }
  exists (cb ++ bs). simpl. by rewrite IH, Hcb.
Qed.

(** ** [int(text)] and [str(n)] *)

(** The code points [int] skips at both ends: the ASCII white space of C's
    [isspace] and the non-ASCII white space of [str.isspace]. *)
Definition int_space (c : N) : bool :=
  in_range 9 13 c || (c =? 32) || (c =? 0x85) || (c =? 0xA0) || (c =? 0x1680)
  || in_range 0x2000 0x200A c || (c =? 0x2028) || (c =? 0x2029) || (c =? 0x202F)
  || (c =? 0x205F) || (c =? 0x3000).

(** [str.strip()] also removes the four ASCII separators. *)
Definition strip_space (c : N) : bool := int_space c || in_range 0x1C 0x1F c.

Fixpoint lstrip (p : N → bool) (s : pystr) : pystr :=
  match s with c :: s' => if p c then lstrip p s' else s | [] => [] end.

Definition strip_by (p : N → bool) (s : pystr) : pystr :=
  reverse (lstrip p (reverse (lstrip p s))).

Definition strip (s : pystr) : pystr := strip_by strip_space s.

(** The zeros of the decimal digit runs of Unicode 15.0 (category Nd). *)
Definition decimal_zeros : list N :=
  [0x30; 0x660; 0x6F0; 0x7C0; 0x966; 0x9E6; 0xA66; 0xAE6; 0xB66; 0xBE6; 0xC66; 0xCE6;
   0xD66; 0xDE6; 0xE50; 0xED0; 0xF20; 0x1040; 0x1090; 0x17E0; 0x1810; 0x1946; 0x19D0;
   0x1A80; 0x1A90; 0x1B50; 0x1BB0; 0x1C40; 0x1C50; 0xA620; 0xA8D0; 0xA900; 0xA9D0;
   0xA9F0; 0xAA50; 0xABF0; 0xFF10; 0x104A0; 0x10D30; 0x11066; 0x110F0; 0x11136; 0x111D0;
   0x112F0; 0x11450; 0x114D0; 0x11650; 0x116C0; 0x11730; 0x118E0; 0x11950; 0x11C50;
   0x11D50; 0x11DA0; 0x11F50; 0x16A60; 0x16AC0; 0x16B50; 0x1D7CE; 0x1D7D8; 0x1D7E2;
   0x1D7EC; 0x1D7F6; 0x1E140; 0x1E2F0; 0x1E4F0; 0x1E950; 0x1FBF0].

Definition digit_value (c : N) : option N :=
  (λ z, c - z) <$> List.find (λ z, in_range z (z + 9) c) decimal_zeros.

(** Digits with single underscores between them. [acc] is the value read so far
    and [n] the number of digits; the text must not end after an underscore. *)
Fixpoint read_digits (acc : N) (n : N) (s : pystr) : option (N * N) :=
  match s with
  | [] => Some (acc, n)
  | c :: s' =>
      match digit_value c with
      | Some d => read_digits (acc * 10 + d) (n + 1) s'
      | None =>
          if c =? 95 then
            match s' with
            | c' :: s'' =>
                match digit_value c' with
                | Some d => read_digits (acc * 10 + d) (n + 1) s''
                | None => None
                end
            | [] => None
            end
          else None
      end
  end.

(** [sys.get_int_max_str_digits()]: more digits are a [ValueError]. *)
Definition int_max_str_digits : N := 4300.

Definition read_nat (s : pystr) : option N :=
  match s with
  | [] => None
  | c :: s' =>
      match digit_value c with
      | None => None
      | Some d =>
          match read_digits d 1 s' with
          | Some (v, n) => if n <=? int_max_str_digits then Some v else None
          | None => None
          end
      end
  end.

(** [int(text)]; [None] stands for the [ValueError]. *)
Definition py_int (s : pystr) : option Z :=
  match strip_by int_space s with
  | [] => None
  | c :: s' =>
      if c =? 43 then Z.of_N <$> read_nat s'
      else if c =? 45 then (λ n, - Z.of_N n)%Z <$> read_nat s'
      else Z.of_N <$> read_nat (c :: s')
  end.

(** Decimal digits of a natural number, most significant first. *)
Fixpoint print_digits (fuel : nat) (n : N) (acc : pystr) : pystr :=
  match fuel with
  | O => acc
  | S fuel' =>
      let acc' := (48 + n mod 10) :: acc in
      if n <? 10 then acc' else print_digits fuel' (n / 10) acc'
  end.

Definition print_nat (n : N) : pystr := print_digits (S (N.to_nat (N.size n))) n [].

(** [str(n)] of an [int]. *)
Definition py_str_int (z : Z) : pystr :=
  if (z <? 0)%Z then 45 :: print_nat (Z.abs_N z) else print_nat (Z.abs_N z).

Example py_int_examples :
  [py_int (u " +5 "); py_int (u "1_0"); py_int (u "-42"); py_int (u "1__0"); py_int (u "_1");
   py_int (u "5_"); py_int (u ""); py_int (u "+ 5"); py_int (u "2.0"); py_int [0xFF15]]
  = [Some 5; Some 10; Some (-42); None; None; None; None; None; None; Some 5]%Z.
Proof. vm_compute. reflexivity. Qed.

Example py_str_int_examples :
  [py_str_int 0; py_str_int 1234567890; py_str_int (-7)] = [u "0"; u "1234567890"; u "-7"].
Proof. vm_compute. reflexivity. Qed.

(** *** Parsing what was printed *)

Definition ascii_digit (c : N) : Prop := 48 ≤ c ≤ 57.

Lemma digit_value_ascii c : ascii_digit c → digit_value c = Some (c - 48).
Proof. intros H. unfold digit_value, decimal_zeros. cbn [List.find]. by rewrite in_range_true by (unfold ascii_digit in H; lia). Qed.

Lemma print_digits_ascii fuel n acc :
  Forall ascii_digit acc → Forall ascii_digit (print_digits fuel n acc).
Proof.
  revert n acc. induction fuel as [|fuel IH]; intros n acc Hacc; simpl; [done|].
  assert (Forall ascii_digit ((48 + n mod 10) :: acc)).
  { constructor; [|done]. unfold ascii_digit. lia. }
  case_match; auto.
Qed.

(** Reading printed digits accumulates the number: [k] digits were printed. *)
Lemma read_print_digits fuel n acc :
  n < 10 ^ N.of_nat fuel → (0 < fuel)%nat →
  ∃ k, (∀ a m, read_digits a m (print_digits fuel n acc) = read_digits (a * 10 ^ k + n) (m + k) acc)
    ∧ (k = 1 ∨ 10 ^ (k - 1) ≤ n).
Proof.
  revert n acc. induction fuel as [|fuel IH]; intros n acc Hn Hf; [lia|].
  cbn [print_digits]. destruct (N.ltb_spec n 10) as [Hlt|Hge].
  - exists 1. split; [|by left]. intros a m. cbn [read_digits].
    rewrite digit_value_ascii by (unfold ascii_digit; lia). f_equal.
    rewrite N.mod_small by done. lia.
  - rewrite Nat2N.inj_succ, N.pow_succ_r' in Hn.
    destruct fuel as [|fuel]; [change (10 ^ N.of_nat 0) with 1 in Hn; lia|].
    destruct (IH (n / 10) ((48 + n mod 10) :: acc)) as (k & Hk & Hb); [lia|lia|].
    exists (k + 1). split.
    + intros a m. rewrite Hk. cbn [read_digits].
      rewrite digit_value_ascii by (unfold ascii_digit; lia).
      rewrite N.pow_add_r, N.pow_1_r. f_equal; lia.
    + right. rewrite N.add_sub. destruct Hb as [->|Hb]; [rewrite N.pow_1_r; lia|].
      destruct (N.eq_dec k 0) as [->|]; [rewrite N.pow_0_r; lia|].
      replace k with (N.succ (k - 1)) by lia. rewrite N.pow_succ_r'. lia.
Qed.

Lemma size_bound n : n < 10 ^ N.of_nat (S (N.to_nat (N.size n))).
Proof.
  rewrite Nat2N.inj_succ, N2Nat.id, N.pow_succ_r'.
  pose proof (N.size_gt n). pose proof (N.pow_le_mono_l 2 10 (N.size n)). lia.
Qed.

Lemma print_nat_ascii n : Forall ascii_digit (print_nat n).
Proof. apply print_digits_ascii. constructor. Qed.

Lemma read_print_nat n :
  ∃ k, (∀ a m, read_digits a m (print_nat n) = Some (a * 10 ^ k + n, m + k))
    ∧ (k = 1 ∨ 10 ^ (k - 1) ≤ n).
Proof.
  destruct (read_print_digits (S (N.to_nat (N.size n))) n []) as (k & Hk & Hb);
    [apply size_bound|lia|].
  exists k. split; [|done]. intros a m. unfold print_nat. by rewrite Hk.
Qed.

Lemma print_nat_cons n : ∃ c s, print_nat n = c :: s ∧ ascii_digit c.
Proof.
  pose proof (print_nat_ascii n) as Ha.
  destruct (print_nat n) as [|c s] eqn:E; [|inversion Ha; eauto].
  exfalso. destruct (read_print_nat n) as (k & Hk & Hb).
  rewrite E in Hk. specialize (Hk 0 0). simpl in Hk. simplify_eq.
  destruct Hb as [->|Hb]; [done|]. assert (k = 0) as -> by lia. simpl in Hb. lia.
Qed.

(** The numbers whose decimal form has at most 4300 digits. *)
Definition printable (n : N) : Prop := n < 10 ^ int_max_str_digits.

Lemma read_nat_print_nat n : printable n → read_nat (print_nat n) = Some n.
Proof.
  intros Hn. destruct (print_nat_cons n) as (c & s & E & Hc).
  destruct (read_print_nat n) as (k & Hk & Hb).
  rewrite E in *. specialize (Hk 0 0). cbn [read_digits] in Hk.
  cbn [read_nat]. rewrite digit_value_ascii in * by done.
  rewrite !N.mul_0_l, !N.add_0_l in Hk. rewrite Hk.
  assert (k ≤ int_max_str_digits) as Hle; [|by apply N.leb_le in Hle as ->].
  unfold printable in Hn. destruct Hb as [->|Hb]; [by vm_compute|].
  apply N.nlt_ge. intros Hlt. apply N.lt_nge in Hn. apply Hn.
  etrans; [|exact Hb]. apply N.pow_le_mono_r; [done|].
  clear -Hlt. generalize dependent int_max_str_digits. lia.
Qed.

Lemma int_space_digit c : ascii_digit c → int_space c = false.
Proof.
  unfold ascii_digit, int_space, in_range. intros H.
  repeat (apply orb_false_iff; split); try (apply N.eqb_neq; lia);
    apply andb_false_iff; rewrite !N.leb_gt; lia.
Qed.

Lemma lstrip_id p s : (∀ c, head s = Some c → p c = false) → lstrip p s = s.
Proof. destruct s as [|c s]; simpl; [done|]. intros H. by rewrite (H c). Qed.

Lemma strip_by_id p s : Forall (λ c, p c = false) s → strip_by p s = s.
Proof.
  intros H. unfold strip_by. rewrite (lstrip_id p s).
  - rewrite lstrip_id; [apply reverse_involutive|].
    apply Forall_reverse in H. intros c Hc. destruct H; simplify_eq/=. done.
  - intros c Hc. destruct H; simplify_eq/=. done.
Qed.

Lemma print_nat_strip n : strip_by int_space (print_nat n) = print_nat n.
Proof.
  apply strip_by_id. eapply Forall_impl; [apply print_nat_ascii|].
  intros c. apply int_space_digit.
Qed.

(** [int(str(z)) == z], for every integer Python is willing to print. *)
Lemma py_int_str_int z : printable (Z.abs_N z) → py_int (py_str_int z) = Some z.
Proof.
  intros Hz. unfold py_int, py_str_int. destruct (Z.ltb_spec z 0).
  - rewrite strip_by_id.
    + change (45 =? 43) with false. change (45 =? 45) with true. cbv iota.
      rewrite read_nat_print_nat by done. simpl. f_equal. lia.
    + constructor; [done|]. eapply Forall_impl; [apply print_nat_ascii|].
      intros c. apply int_space_digit.
  - rewrite print_nat_strip. destruct (print_nat_cons (Z.abs_N z)) as (c & s & E & Hc).
    rewrite E. unfold ascii_digit in Hc.
    destruct (N.eqb_spec c 43); [lia|]. destruct (N.eqb_spec c 45); [lia|].
    rewrite <- E, read_nat_print_nat by done. simpl. f_equal. lia.
Qed.

(** What [str(int)] prints is ASCII, hence can be sent in a header. *)
Lemma py_str_int_scalar z : Forall scalar (py_str_int z).
Proof.
  assert (∀ n, Forall scalar (print_nat n)) as H.
  { intros n. eapply Forall_impl; [apply print_nat_ascii|].
    intros c Hc. unfold ascii_digit, scalar, is_surrogate in *. split; [lia|].
    apply andb_false_iff. rewrite !N.leb_gt. lia. }
  unfold py_str_int. case_match; [constructor; [by vm_compute|]|]; auto.
Qed.

(** [printable] is unary in size when unfolded; keep it folded. *)
#[global] Opaque int_max_str_digits.
#[export] Hint Resolve py_str_int_scalar : mflow.
