(* ===== verification/PyFloat.v ===== *)
(** * Python floats: IEEE 754 binary64 on [SpecFloat]

    [float] is [spec_float] at precision 53 and exponent bound 1024. The
    operations are the ones the program uses: product with rounding to nearest
    even, the comparisons behind [min] and [max], [float ** int] on top of the C
    library's [pow] (a parameter), [int(float)] and [float(int)]. *)
From S2P Require Import Prelude.
From Stdlib Require Import SpecFloat.
#[local] Open Scope Z_scope.

Abbreviation float := spec_float.

Definition prec : Z := 53.
Definition emax : Z := 1024.

Definition f_mul : float → float → float := SFmul prec emax.

(** The float nearest to [m * 2 ^ e]. *)
Definition f_of (m e : Z) : float := binary_normalize prec emax m e false.

Definition f_zero : float := S754_zero false.
Definition f_one : float := f_of 1 0.

Definition is_inf (x : float) : bool := match x with S754_infinity _ => true | _ => false end.
Definition is_nan (x : float) : bool := match x with S754_nan => true | _ => false end.
Definition is_zero (x : float) : bool := match x with S754_zero _ => true | _ => false end.
Definition is_finite (x : float) : bool :=
  match x with S754_zero _ | S754_finite _ _ _ => true | _ => false end.

(** [sign_of x] is [true] when the sign bit is set (never for a NaN). *)
Definition sign_of (x : float) : bool :=
  match x with S754_zero s | S754_infinity s | S754_finite s _ _ => s | S754_nan => false end.

(** [a < b] *)
Definition f_lt (a b : float) : bool := SFltb a b.
(** [a <= b] *)
Definition f_le (a b : float) : bool := SFleb a b.

(** [min(a, b)]: Python keeps [a] unless [b < a]. *)
Definition f_min (a b : float) : float := if f_lt b a then b else a.
(** [max(a, b)]: Python keeps [a] unless [b > a]. *)
Definition f_max (a b : float) : float := if f_lt a b then b else a.

(** [float(n)]: an integer out of range is an [OverflowError]. *)
Definition f_of_int (n : Z) : result float :=
  let x := f_of n 0 in
  if is_inf x then Raise (OverflowError (u "int too large to convert to float")) else Ok x.

(** The integer part of a finite float, towards zero. *)
Definition f_trunc (x : float) : Z :=
  match x with
  | S754_finite s m e =>
      let a := if 0 <=? e then Z.pos m * 2 ^ e else Z.pos m / 2 ^ (- e) in
      if s then - a else a
  | _ => 0
  end.

(** [int(x)] *)
Definition int_of_float (x : float) : result Z :=
  match x with
  | S754_nan => Raise (ValueError (u "cannot convert float NaN to integer"))
  | S754_infinity _ => Raise (OverflowError (u "cannot convert float infinity to integer"))
  | _ => Ok (f_trunc x)
  end.

(** [x * n] with an [int] on the right. *)
Definition f_mul_int (x : float) (n : Z) : result float :=
  match f_of_int n with Ok y => Ok (f_mul x y) | Raise e => Raise e end.

(** [n / 1000] of integers raises unless the quotient rounds to a finite float. *)
Definition millis_quotient_ok (n : Z) : bool := Z.abs n <? (2 ^ emax - 2 ^ (emax - prec - 1)) * 1000.
Definition division_overflow : exn := OverflowError (u "integer division result too large for a float").

(** [x ** n] for [n >= 0], as in CPython's [float_pow]. [pow] is the C
    library's; a finite base whose power is infinite is an [OverflowError]. *)
Definition f_pow_int (pow : float → float → float) (x : float) (n : Z) : result float :=
  match f_of_int n with
  | Raise e => Raise e
  | Ok y =>
      if is_zero y then Ok f_one
      else if is_nan x then Ok x
      else if is_inf x then
        Ok (if Z.odd n then x else S754_infinity false)
      else if is_zero x then
        Ok (if Z.odd n then x else f_zero)
      else if SFeqb x f_one then Ok f_one
      else
        let magnitude := pow (SFabs x) y in
        let r := if sign_of x && Z.odd n then SFopp magnitude else magnitude in
        if is_inf r then Raise (OverflowError (u "(34, 'Numerical result out of range')"))
        else Ok r
  end.

(** A concrete [pow] by repeated multiplication, exact for small powers of two;
    it instantiates the parameter in the examples. *)
Definition pow_by_mul (x y : float) : float :=
  Z.iter (f_trunc y) (f_mul x) f_one.

Example f_mul_test : f_mul (f_of 3 (-1)) (f_of 1000 0) = f_of 1500 0.
Proof. vm_compute. reflexivity. Qed.

Example f_pow_test : f_pow_int pow_by_mul (f_of 2 0) 9 = Ok (f_of 512 0).
Proof. vm_compute. reflexivity. Qed.

Example int_of_float_test :
  (int_of_float (f_of 7 (-1)), int_of_float (f_of (-7) (-1))) = (Ok 3, Ok (-3)).
Proof. vm_compute. reflexivity. Qed.

(** ** Order *)

Lemma compare_antisym x y :
  SFcompare y x = (λ c, CompOpp c) <$> SFcompare x y.
Proof.
  destruct x as [[]|[]| |[] m e], y as [[]|[]| |[] m' e']; simpl; try done.
  all: rewrite (Z.compare_antisym e e'); destruct (Z.compare e e'); simpl; try done;
    by rewrite ?(Pos.compare_cont_antisym m m' Eq); destruct (Pos.compare_cont Eq m m').
Qed.

Lemma compare_None x y : SFcompare x y = None → is_nan x || is_nan y = true.
Proof.
  destruct x as [[]|[]| |[] ??], y as [[]|[]| |[] ??]; simpl; try done;
    by destruct (Z.compare _ _).
Qed.

Lemma f_lt_le a b : f_lt a b = true → f_le a b = true.
Proof. unfold f_lt, f_le, SFltb, SFleb. by destruct (SFcompare a b) as [[]|]. Qed.

Lemma f_not_lt_le a b : is_nan a = false → is_nan b = false → f_lt a b = false → f_le b a = true.
Proof.
  unfold f_lt, f_le, SFltb, SFleb. intros Ha Hb. rewrite (compare_antisym a b).
  destruct (SFcompare a b) as [[]|] eqn:E; simpl; try done.
  apply compare_None in E. by rewrite Ha, Hb in E.
Qed.

Lemma f_le_refl a : is_nan a = false → f_le a a = true.
Proof.
  destruct a as [[]|[]| |[] m e]; try done; intros _; unfold f_le, SFleb; simpl;
    rewrite Z.compare_refl; by rewrite Pos.compare_cont_refl.
Qed.

(** [min] is a lower bound of its arguments, NaN aside. *)
Lemma f_min_le a b : is_nan a = false → is_nan b = false →
  f_le (f_min a b) a = true ∧ f_le (f_min a b) b = true.
Proof.
  intros Ha Hb. unfold f_min. destruct (f_lt b a) eqn:E.
  - split; [by apply f_lt_le|by apply f_le_refl].
  - split; [by apply f_le_refl|]. by apply f_not_lt_le.
Qed.

Lemma f_max_ge a b : is_nan a = false → is_nan b = false →
  f_le a (f_max a b) = true ∧ f_le b (f_max a b) = true.
Proof.
  intros Ha Hb. unfold f_max. destruct (f_lt a b) eqn:E.
  - split; [by apply f_lt_le|by apply f_le_refl].
  - split; [by apply f_le_refl|]. by apply f_not_lt_le.
Qed.

(** ** Signs *)

Lemma round_aux_sign sx mx ex lx :
  is_nan (binary_round_aux prec emax sx mx ex lx) = true
  ∨ sign_of (binary_round_aux prec emax sx mx ex lx) = sx.
Proof. unfold binary_round_aux. repeat case_match; simpl; auto. Qed.

Lemma f_mul_sign x y :
  is_nan (f_mul x y) = true ∨ sign_of (f_mul x y) = xorb (sign_of x) (sign_of y).
Proof.
  unfold f_mul, SFmul.
  destruct x as [[]|[]| |[] ??], y as [[]|[]| |[] ??]; simpl; auto using round_aux_sign.
Qed.

(** Rounding a nonnegative mantissa never yields NaN. *)
Lemma shr_nonneg mrs e n : 0 ≤ shr_m mrs → 0 ≤ shr_m (shr mrs e n).1.
Proof.
  intros H. destruct n as [|p|p]; simpl; try done.
  assert (∀ p m, 0 ≤ shr_m m → 0 ≤ shr_m (iter_pos shr_1 p m)) as Hi; [|by apply Hi].
  assert (∀ m, 0 ≤ shr_m m → 0 ≤ shr_m (shr_1 m)) as H1.
  { intros [m r s']. simpl. intros Hm. by destruct m as [|[]|[]]. }
  intros q. induction q as [q IH|q IH|]; intros m Hm; simpl; auto.
Qed.

Lemma shr_fexp_nonneg m e l : 0 ≤ m → 0 ≤ shr_m (shr_fexp prec emax m e l).1.
Proof.
  intros H. unfold shr_fexp. apply shr_nonneg. by destruct l as [|[]].
Qed.

Lemma round_aux_not_nan sx mx ex lx : 0 ≤ mx → is_nan (binary_round_aux prec emax sx mx ex lx) = false.
Proof.
  intros H. unfold binary_round_aux.
  pose proof (shr_fexp_nonneg mx ex lx H) as H1. destruct (shr_fexp prec emax mx ex lx) as [m1 e1]. simpl in H1.
  set (r := round_nearest_even (shr_m m1) (loc_of_shr_record m1)).
  assert (0 ≤ r) as Hr.
  { unfold r, round_nearest_even. destruct (loc_of_shr_record m1) as [|[]]; try lia.
    destruct (Z.even (shr_m m1)); lia. }
  pose proof (shr_fexp_nonneg r e1 loc_Exact Hr) as H2. destruct (shr_fexp prec emax r e1 loc_Exact) as [m2 e2].
  simpl in H2. destruct (shr_m m2); [done| |lia]. by destruct (_ <=? _).
Qed.

Lemma f_of_not_nan m e : is_nan (f_of m e) = false.
Proof.
  unfold f_of, binary_normalize. destruct m as [|m|m]; [done| |];
    unfold binary_round; destruct (shl_align _ _ _); by apply round_aux_not_nan.
Qed.

Lemma f_of_int_finite n y : f_of_int n = Ok y → is_finite y = true.
Proof.
  unfold f_of_int. pose proof (f_of_not_nan n 0) as H. by destruct (f_of n 0); intros [= <-].
Qed.

Lemma f_mul_not_nan x y : is_finite x = true → is_finite y = true → is_nan (f_mul x y) = false.
Proof.
  unfold f_mul, SFmul. destruct x as [| | |sx mx ex], y as [| | |sy my ey]; simpl; try done.
  intros _ _. by apply round_aux_not_nan.
Qed.

Lemma f_mul_nonneg x y :
  is_finite x = true → is_finite y = true → sign_of x = false → sign_of y = false → sign_of (f_mul x y) = false.
Proof.
  intros Fx Fy Sx Sy. pose proof (f_mul_not_nan x y Fx Fy) as Hn.
  destruct (f_mul_sign x y) as [H|H]; [congruence|]. by rewrite H, Sx, Sy.
Qed.

Lemma f_min_sign a b : sign_of a = false → sign_of b = false → sign_of (f_min a b) = false.
Proof. unfold f_min. by destruct (f_lt b a). Qed.

Lemma f_min_not_nan a b : is_nan a = false → is_nan b = false → is_nan (f_min a b) = false.
Proof. unfold f_min. by destruct (f_lt b a). Qed.

Lemma f_trunc_nonneg x : sign_of x = false → 0 ≤ f_trunc x.
Proof.
  destruct x as [| | |s m e]; simpl; try done. intros ->.
  destruct (Z.leb_spec 0 e); [|apply Z.div_pos]; lia.
Qed.

#[export] Hint Resolve f_lt_le f_le_refl f_trunc_nonneg : mflow.
