(* ===== verification/Json.v ===== *)
(** * JSON values as Python objects

    What [json.loads] builds and what the program then does with it: [d[k]],
    [d.get(k, default)], [len(x)], [isinstance(x, (int, float))], with the
    exceptions Python raises on the other types. A [dict] keeps insertion
    order and unique keys. *)
From S2P Require Import Prelude PyFloat.

#[local] Set Warnings "-register-all".
Inductive json :=
  | JNull
  | JBool (b : bool)
  | JInt (z : Z)
  | JFloat (f : float)
  | JStr (s : pystr)
  | JList (l : list json)
  | JDict (d : list (pystr * json)).

(** [type(x).__name__] *)
Definition type_name (j : json) : pystr :=
  match j with
  | JNull => u "NoneType" | JBool _ => u "bool" | JInt _ => u "int" | JFloat _ => u "float"
  | JStr _ => u "str" | JList _ => u "list" | JDict _ => u "dict"
  end.

(** ** Dictionaries *)

Section dict.
Context {A : Type}.

Fixpoint dict_lookup (d : list (pystr * A)) (k : pystr) : option A :=
  match d with
  | [] => None
  | (k', v) :: d' => if decide (k' = k) then Some v else dict_lookup d' k
  end.

(** [d[k] = v]: an existing key keeps its position. *)
Fixpoint dict_set (d : list (pystr * A)) (k : pystr) (v : A) : list (pystr * A) :=
  match d with
  | [] => [(k, v)]
  | (k', v') :: d' => if decide (k' = k) then (k, v) :: d' else (k', v') :: dict_set d' k v
  end.

(** A dict display [{k1: v1, ...}]: later entries win. *)
Definition dict_of (l : list (pystr * A)) : list (pystr * A) :=
  fold_left (λ d kv, dict_set d kv.1 kv.2) l [].

Lemma dict_lookup_set d k v k' :
  dict_lookup (dict_set d k v) k' = if decide (k = k') then Some v else dict_lookup d k'.
Proof.
  induction d as [|[k0 v0] d IH]; simpl; [done|].
  repeat (case_decide; simplify_eq/=; try done).
Qed.

Lemma dict_lookup_elem d k v : dict_lookup d k = Some v → (k, v) ∈ d.
Proof.
  induction d as [|[k0 v0] d IH]; simpl; [done|].
  case_decide; [intros [= ->]; subst; by left|right; auto].
Qed.

Lemma dict_lookup_None d k : dict_lookup d k = None ↔ k ∉ d.*1.
Proof.
  induction d as [|[k0 v0] d IH]; csimpl; [split; [set_solver|done]|].
  rewrite not_elem_of_cons, <- IH. case_decide; naive_solver.
Qed.

Lemma dict_set_keys d k v : (dict_set d k v).*1 = if decide (k ∈ d.*1) then d.*1 else d.*1 ++ [k].
Proof.
  induction d as [|[k0 v0] d IH]; csimpl; [done|].
  destruct (decide (k0 = k)) as [->|Hne]; csimpl.
  - by rewrite decide_True by set_solver.
  - rewrite IH. destruct (decide (k ∈ d.*1)).
    + by rewrite decide_True by set_solver.
    + by rewrite decide_False by set_solver.
Qed.

Lemma dict_set_NoDup d k v : NoDup d.*1 → NoDup (dict_set d k v).*1.
Proof.
  rewrite dict_set_keys. case_decide; [done|]. intros.
  apply NoDup_app. split_and!; [done|set_solver|apply NoDup_singleton].
Qed.

Lemma dict_of_NoDup l : NoDup (dict_of l).*1.
Proof.
  unfold dict_of. assert (NoDup (@nil (pystr * A)).*1) as H by constructor.
  revert H. generalize (@nil (pystr * A)). induction l as [|[k v] l IH]; simpl; [done|].
  intros d Hd. apply IH. by apply dict_set_NoDup.
Qed.

Lemma dict_set_new d k v : k ∉ d.*1 → dict_set d k v = d ++ [(k, v)].
Proof.
  induction d as [|[k0 v0] d IH]; csimpl; [done|]. intros [Hne Hk]%not_elem_of_cons.
  rewrite decide_False by done. by rewrite IH.
Qed.

(** A display with distinct keys is the dictionary. *)
Lemma dict_of_nodup l : NoDup l.*1 → dict_of l = l.
Proof.
  unfold dict_of. intros H. change l with ([] ++ l) at 2. revert H. change l.*1 with (([] ++ l).*1).
  generalize (@nil (pystr * A)). induction l as [|[k v] l IH]; intros d H; simpl; [by rewrite app_nil_r|].
  rewrite fmap_app in H. csimpl in H.
  rewrite dict_set_new by (apply NoDup_app in H as (_ & H & _); set_solver).
  rewrite (IH (d ++ [(k, v)])); [by rewrite <- app_assoc|].
  rewrite <- app_assoc. simpl. by rewrite fmap_app.
Qed.

Lemma dict_elem_lookup d k v : NoDup d.*1 → (k, v) ∈ d ↔ dict_lookup d k = Some v.
Proof.
  intros Hnd. split; [|apply dict_lookup_elem]. induction d as [|[k0 v0] d IH]; csimpl in *.
  { by intros ?%not_elem_of_nil. }
  apply NoDup_cons in Hnd as [Hk Hnd]. intros [[= <- <-]|Hin]%elem_of_cons; [by rewrite decide_True|].
  rewrite decide_False; [by apply IH|]. intros ->. apply Hk, list_elem_of_fmap. by exists (k, v).
Qed.

Lemma dict_set_Forall (P : A → Prop) d k v :
  P v → Forall (λ kv, P kv.2) d → Forall (λ kv, P kv.2) (dict_set d k v).
Proof. intros Hv. induction 1 as [|[k0 v0] d H0 Hd IH]; simpl; [by constructor|]. case_decide; by constructor. Qed.

(** The values of a display are values of its entries. *)
Lemma dict_of_Forall (P : A → Prop) l : Forall (λ kv, P kv.2) l → Forall (λ kv, P kv.2) (dict_of l).
Proof.
  unfold dict_of. assert (Forall (λ kv, P kv.2) (@nil (pystr * A))) as H by constructor. revert H.
  generalize (@nil (pystr * A)). induction l as [|[k v] l IH]; simpl; intros d Hd Hl; [done|].
  apply Forall_cons in Hl as [Hv Hl]. apply IH; [by apply dict_set_Forall|done].
Qed.

Lemma dict_of_lookup l k : NoDup l.*1 → dict_lookup (dict_of l) k = dict_lookup l k.
Proof. intros H. by rewrite dict_of_nodup. Qed.
End dict.

(** ** Operations on values *)

Definition quoted (s : pystr) : pystr := u "'" ++ s ++ u "'".

(** [j[k]] with a string key. *)
Definition getitem (j : json) (k : pystr) : result json :=
  match j with
  | JDict d => match dict_lookup d k with Some v => Ok v | None => Raise (KeyError (quoted k)) end
  | JList _ => Raise (TypeError (u "list indices must be integers or slices, not str"))
  | JStr _ => Raise (TypeError (u "string indices must be integers, not 'str'"))
  | _ => Raise (TypeError (quoted (type_name j) ++ u " object is not subscriptable"))
  end.

(** [j.get(k, dflt)] *)
Definition get (j : json) (k : pystr) (dflt : json) : result json :=
  match j with
  | JDict d => Ok (default dflt (dict_lookup d k))
  | _ => Raise (AttributeError (quoted (type_name j) ++ u " object has no attribute 'get'"))
  end.

(** [len(j)] *)
Definition py_len (j : json) : result Z :=
  match j with
  | JStr s => Ok (Z.of_nat (length s))
  | JList l => Ok (Z.of_nat (length l))
  | JDict d => Ok (Z.of_nat (length d))
  | _ => Raise (TypeError (u "object of type " ++ quoted (type_name j) ++ u " has no len()"))
  end.

(** [bool(j)] *)
Definition truthy (j : json) : bool :=
  match j with
  | JNull | JStr [] | JList [] | JDict [] => false
  | JBool b => b
  | JInt z => negb (z =? 0)%Z
  | JFloat f => negb (is_zero f)
  | _ => true
  end.

(** [isinstance(j, (int, float))] as a number; [bool] is a subclass of [int]. *)
Inductive number := NInt (z : Z) | NFloat (f : float).

Definition as_number (j : json) : option number :=
  match j with
  | JBool b => Some (NInt (if b then 1 else 0)%Z)
  | JInt z => Some (NInt z)
  | JFloat f => Some (NFloat f)
  | _ => None
  end.

(** [int(n)] and [float(n)] of a number. *)
Definition number_int (n : number) : result Z :=
  match n with NInt z => Ok z | NFloat f => int_of_float f end.
Definition number_float (n : number) : result float :=
  match n with NInt z => f_of_int z | NFloat f => Ok f end.

Lemma getitem_ok j k v : getitem j k = Ok v ↔ ∃ d, j = JDict d ∧ dict_lookup d k = Some v.
Proof.
  split.
  - destruct j; simpl; intros; simplify_eq. case_match; simplify_eq; eauto.
  - intros (d & -> & Hd). simpl. by rewrite Hd.
Qed.

Lemma get_dict d k dflt : get (JDict d) k dflt = Ok (default dflt (dict_lookup d k)).
Proof. done. Qed.
