(* ===== verification/Domain.v ===== *)
(** * Domain model: [app/domain/models.py] and [app/domain/events.py]

    Job statuses and the table of allowed transitions, the [Job] and [JobLease]
    values, the event types and the event envelope [build_event] makes. *)
From S2P Require Import Prelude PyStr PyFloat Json.

(** ** [JobStatus] *)

Inductive JobStatus := PENDING | PROCESSING | SUCCESS | FAILED.

#[global] Instance JobStatus_eq_dec : EqDecision JobStatus.
Proof. solve_decision. Defined.

Definition status_code (s : JobStatus) : positive :=
  match s with PENDING => 1 | PROCESSING => 2 | SUCCESS => 3 | FAILED => 4 end.
Definition status_of_code (p : positive) : option JobStatus :=
  match p with 1 => Some PENDING | 2 => Some PROCESSING | 3 => Some SUCCESS | _ => Some FAILED end%positive.
#[global] Instance JobStatus_countable : Countable JobStatus.
Proof. refine (inj_countable' status_code (λ p, default FAILED (status_of_code p)) _). by intros []. Defined.

(** [status.value] *)
Definition status_value (s : JobStatus) : pystr :=
  match s with
  | PENDING => u "PENDING" | PROCESSING => u "PROCESSING"
  | SUCCESS => u "SUCCESS" | FAILED => u "FAILED"
  end.

Arguments status_value : simpl never.

(** [JobStatus(text)]: a [ValueError] outside the four values. *)
Definition status_of_value (s : pystr) : result JobStatus :=
  if decide (s = u "PENDING") then Ok PENDING
  else if decide (s = u "PROCESSING") then Ok PROCESSING
  else if decide (s = u "SUCCESS") then Ok SUCCESS
  else if decide (s = u "FAILED") then Ok FAILED
  else Raise (ValueError (quoted s ++ u " is not a valid JobStatus")).

Lemma status_of_value_value s : status_of_value (status_value s) = Ok s.
Proof. by destruct s. Qed.

#[global] Instance status_value_inj : Inj (=) (=) status_value.
Proof. by intros [] []. Qed.

(** ** Transitions *)

(** Target status to the set of statuses it can be reached from. *)
Definition ALLOWED_TRANSITIONS : gmap JobStatus (gset JobStatus) :=
  <[PROCESSING := {[PENDING; FAILED; PROCESSING]}]>
  (<[SUCCESS := {[PROCESSING]}]>
  (<[FAILED := {[PENDING; PROCESSING]}]> ∅)).

Definition TERMINAL_STATUSES : gset JobStatus := {[SUCCESS]}.

(** [ALLOWED_TRANSITIONS.get(target, frozenset())] *)
Definition allowed_source_statuses (target : JobStatus) : gset JobStatus :=
  default ∅ (ALLOWED_TRANSITIONS !! target).

Lemma allowed_sources_eq target :
  allowed_source_statuses target =
    match target with
    | PENDING => ∅
    | PROCESSING => {[PENDING; FAILED; PROCESSING]}
    | SUCCESS => {[PROCESSING]}
    | FAILED => {[PENDING; PROCESSING]}
    end.
Proof. by destruct target. Qed.

(** Nothing leaves a terminal status. *)
Lemma terminal_no_exit s target :
  s ∈ TERMINAL_STATUSES → s ∉ allowed_source_statuses target.
Proof. rewrite allowed_sources_eq. unfold TERMINAL_STATUSES. destruct target; set_solver. Qed.

(** ** [Job] and [JobLease] *)

(** Instants are microseconds since the Unix epoch. *)
Record Job := MkJob {
  job_id : pystr;
  job_status : JobStatus;
  job_request_payload : json;
  job_result : option json;
  job_error : option pystr;
  job_retry_count : Z;
  job_created_at : Z;
  job_updated_at : Z;
}.

Record JobLease := MkJobLease {
  lease_job_id : pystr;
  lease_owner : pystr;
  lease_epoch : Z;
  lease_expires_at : option Z;
}.

(** ** Instants *)

#[local] Open Scope Z_scope.

Definition MICROS : Z := 1000000.

(** [datetime.min] and [datetime.max] in UTC. *)
Definition datetime_min : Z := -62135596800 * MICROS.
Definition datetime_max : Z := 253402300800 * MICROS - 1.

(** [timedelta] holds at most 999999999 days either way. *)
Definition timedelta_days_max : Z := 999999999.

(** [t + timedelta(seconds=s)] *)
Definition datetime_add_seconds (t s : Z) : result Z :=
  if Z.abs (s / 86400) >? timedelta_days_max then
    Raise (OverflowError (u "days=" ++ py_str_int (s / 86400) ++ u "; must have magnitude <= 999999999"))
  else
    let t' := t + s * MICROS in
    if (datetime_min <=? t') && (t' <=? datetime_max) then Ok t'
    else Raise (OverflowError (u "date value out of range")).

Lemma datetime_add_ok t s t' : datetime_add_seconds t s = Ok t' → t' = t + s * MICROS.
Proof. unfold datetime_add_seconds. repeat case_match; congruence. Qed.

(** Proleptic Gregorian date of a day number counted from 1970-01-01. *)
Definition civil_of_days (days : Z) : Z * Z * Z :=
  let z := days + 719468 in
  let era := z / 146097 in
  let doe := z mod 146097 in
  let yoe := (doe - doe / 1460 + doe / 36524 - doe / 146096) / 365 in
  let doy := doe - (365 * yoe + yoe / 4 - yoe / 100) in
  let mp := (5 * doy + 2) / 153 in
  let d := doy - (153 * mp + 2) / 5 + 1 in
  let m := if mp <? 10 then mp + 3 else mp - 9 in
  (yoe + era * 400 + (if m <=? 2 then 1 else 0), m, d).

(** [format(n, "0<width>d")] *)
Definition pad_to (width : nat) (n : Z) : pystr :=
  let s := py_str_int n in replicate (width - length s) 48%N ++ s.

(** [datetime.isoformat()] of an aware UTC instant. *)
Definition isoformat (t : Z) : pystr :=
  let days := t / (86400 * MICROS) in
  let rest := t mod (86400 * MICROS) in
  let '(y, m, d) := civil_of_days days in
  let secs := rest / MICROS in
  let us := rest mod MICROS in
  pad_to 4 y ++ u "-" ++ pad_to 2 m ++ u "-" ++ pad_to 2 d ++ u "T"
    ++ pad_to 2 (secs / 3600) ++ u ":" ++ pad_to 2 (secs / 60 mod 60) ++ u ":" ++ pad_to 2 (secs mod 60)
    ++ (if us =? 0 then [] else u "." ++ pad_to 6 us) ++ u "+00:00".

Example isoformat_examples :
  [isoformat 0; isoformat 1773144000000001; isoformat (951827696 * MICROS); isoformat datetime_max]
  = [u "1970-01-01T00:00:00+00:00"; u "2026-03-10T12:00:00.000001+00:00";
     u "2000-02-29T12:34:56+00:00"; u "9999-12-31T23:59:59.999999+00:00"].
Proof. vm_compute. reflexivity. Qed.

(** ** Events *)

Inductive EventType :=
  | REQUESTED | PROCESSING_STARTED | PROCESSING_COMPLETED
  | INFERENCE_COMPLETED | DOWNSTREAM_COMPLETED | EVENT_FAILED.

Definition event_type_value (e : EventType) : pystr :=
  match e with
  | REQUESTED => u "REQUESTED"
  | PROCESSING_STARTED => u "PROCESSING_STARTED"
  | PROCESSING_COMPLETED => u "PROCESSING_COMPLETED"
  | INFERENCE_COMPLETED => u "INFERENCE_COMPLETED"
  | DOWNSTREAM_COMPLETED => u "DOWNSTREAM_COMPLETED"
  | EVENT_FAILED => u "FAILED"
  end.

(** [build_event]; [event_id] is the fresh [uuid4], [now] the clock. *)
Definition build_event (event_id : pystr) (now : Z) (job_id : json) (event_type : EventType)
    (source : pystr) (trace_id : json) (payload : json) : json :=
  JDict [(u "event_id", JStr event_id);
         (u "job_id", job_id);
         (u "event_type", JStr (event_type_value event_type));
         (u "trace_id", trace_id);
         (u "source", JStr source);
         (u "created_at", JStr (isoformat now));
         (u "payload", payload)].

Arguments build_event : simpl never.
Arguments status_of_value : simpl never.

#[export] Hint Rewrite status_of_value_value : mflow.
