(* ===== verification/Database.v ===== *)
(** * Tables and repositories: [app/adapters/db]

    The three tables of [models.py] and, for each method of [repositories.py],
    the effect of its statement on them: a conditional [UPDATE ... RETURNING] is
    a test on the row with the given primary key and, if it holds, one update.
    A transaction is a sequence of these functions (see [World]). *)
From S2P Require Import Prelude PyStr PyFloat Json Domain.
#[local] Open Scope Z_scope.

(** ** Rows *)

(** [JobModel] *)
Record job_row := MkJobRow {
  jr_id : pystr;
  jr_request_payload : json;
  jr_status : pystr;
  jr_retry_count : Z;
  jr_result : option json;
  jr_error_message : option pystr;
  jr_lease_owner : option pystr;
  jr_lease_expires_at : option Z;
  jr_lease_epoch : Z;
  jr_created_at : Z;
  jr_updated_at : Z;
}.

(** [OutboxMessageModel] *)
Record outbox_row := MkOutboxRow {
  ob_id : Z;
  ob_message_id : pystr;
  ob_topic : pystr;
  ob_payload : json;
  ob_headers : option (list (pystr * pystr));
  ob_status : pystr;
  ob_attempts : Z;
  ob_last_error : option pystr;
  ob_created_at : Z;
  ob_published_at : option Z;
}.

(** [JobEventModel] *)
Record event_row := MkEventRow {
  je_id : Z;
  je_event_id : pystr;
  je_job_id : pystr;
  je_event_type : pystr;
  je_source : pystr;
  je_trace_id : pystr;
  je_payload : json;
  je_created_at : Z;
}.

(** The database: [jobs] by primary key, the two append-only tables in the
    order of their serial keys, and the next value of each serial. *)
Record db := MkDb {
  jobs : gmap pystr job_row;
  job_events : list event_row;
  outbox_messages : list outbox_row;
  next_event_id : Z;
  next_outbox_id : Z;
}.

Definition set_jobs (f : gmap pystr job_row → gmap pystr job_row) (d : db) : db :=
  MkDb (f (jobs d)) (job_events d) (outbox_messages d) (next_event_id d) (next_outbox_id d).
Definition set_outbox (f : list outbox_row → list outbox_row) (d : db) : db :=
  MkDb (jobs d) (job_events d) (f (outbox_messages d)) (next_event_id d) (next_outbox_id d).

(** PostgreSQL's [integer]. *)
Definition int4_max : Z := 2147483647.
Definition integer_out_of_range : exn := Exn (u "DBAPIError") (u "integer out of range").

(** ** [SqlAlchemyJobRepository] *)

(** The row [add] inserts; [now] is the server's [now()]. *)
Definition job_row_of (now : Z) (job : Job) : job_row :=
  MkJobRow (job_id job) (job_request_payload job) (status_value (job_status job))
    (job_retry_count job) (job_result job) (job_error job) None None 0 now now.

(** [INSERT INTO jobs]: the primary key is unique. *)
Definition insert_job (row : job_row) (d : db) : result db :=
  match jobs d !! jr_id row with
  | Some _ => Raise (IntegrityError (u "duplicate key value violates unique constraint jobs_pkey"))
  | None => Ok (set_jobs <[jr_id row := row]> d)
  end.

(** The [Job] a row stands for. *)
Definition job_of_row (row : job_row) : result Job :=
  match status_of_value (jr_status row) with
  | Raise e => Raise e
  | Ok s => Ok (MkJob (jr_id row) s (jr_request_payload row) (jr_result row)
                  (jr_error_message row) (jr_retry_count row) (jr_created_at row) (jr_updated_at row))
  end.

(** [get] *)
Definition job_get (id : pystr) (d : db) : result (option Job) :=
  match jobs d !! id with
  | None => Ok None
  | Some row => match job_of_row row with Ok j => Ok (Some j) | Raise e => Raise e end
  end.

(** The keyword arguments of [update_status]. *)
Record status_update := MkStatusUpdate {
  up_result : option json;
  up_error : option pystr;
  up_clear_error : bool;
  up_expected_statuses : option (list pystr);
  up_lease_owner : option pystr;
  up_lease_epoch : option Z;
  up_release_lease : bool;
}.

(** The statuses the transition may start from. *)
Definition source_statuses (target : JobStatus) (expected : option (list pystr)) : result (gset JobStatus) :=
  match expected with
  | None => Ok (allowed_source_statuses target)
  | Some l => sts ← mapM status_of_value l; Ok (list_to_set sts)
  end.

(** The [WHERE] clause, on the row with the requested id. *)
Definition status_guard (sources : gset JobStatus) (up : status_update) (row : job_row) : bool :=
  bool_decide (jr_status row ∈ status_value <$> elements sources)
  && match up_lease_owner up with Some o => bool_decide (jr_lease_owner row = Some o) | None => true end
  && match up_lease_epoch up with Some e => jr_lease_epoch row =? e | None => true end.

(** The [SET] clause. *)
Definition status_values (now : Z) (target : JobStatus) (up : status_update) (row : job_row) : job_row :=
  MkJobRow (jr_id row) (jr_request_payload row) (status_value target) (jr_retry_count row)
    (match up_result up with Some r => Some r | None => jr_result row end)
    (if up_clear_error up then None
     else match up_error up with Some e => Some e | None => jr_error_message row end)
    (if up_release_lease up then None else jr_lease_owner row)
    (if up_release_lease up then None else jr_lease_expires_at row)
    (jr_lease_epoch row) (jr_created_at row) now.

(** [update_status]: the new [Job] if a row changed, [None] otherwise. *)
Definition update_status (now : Z) (id status : pystr) (up : status_update) (d : db)
    : result (option Job * db) :=
  match status_of_value status with
  | Raise e => Raise e
  | Ok target =>
      match source_statuses target (up_expected_statuses up) with
      | Raise e => Raise e
      | Ok sources =>
          if decide (sources = ∅) then
            Raise (ValueError (u "no allowed source status for transition to " ++ status_value target))
          else
            match jobs d !! id with
            | None => Ok (None, d)
            | Some row =>
                if status_guard sources up row then
                  let row' := status_values now target up row in
                  match job_of_row row' with
                  | Ok j => Ok (Some j, set_jobs <[id := row']> d)
                  | Raise e => Raise e
                  end
                else Ok (None, d)
            end
      end
  end.

(** Whether [claim_for_processing]'s [WHERE] clause accepts a row: not started,
    failed, or in process with no lease or an expired one. *)
Definition claimable (now : Z) (row : job_row) : bool :=
  bool_decide (jr_status row = status_value PENDING)
  || bool_decide (jr_status row = status_value FAILED)
  || (bool_decide (jr_status row = status_value PROCESSING)
      && match jr_lease_expires_at row with None => true | Some t => t <? now end).

(** The row after a claim; the epoch is the fencing token. *)
Definition claimed_row (db_now : Z) (owner : pystr) (expires_at : Z) (row : job_row) : job_row :=
  MkJobRow (jr_id row) (jr_request_payload row) (status_value PROCESSING) (jr_retry_count row)
    (jr_result row) (jr_error_message row) (Some owner) (Some expires_at)
    (jr_lease_epoch row + 1) (jr_created_at row) db_now.

(** [claim_for_processing]; [now] is the worker's clock, [db_now] the server's. *)
Definition claim_for_processing (now db_now : Z) (id owner : pystr) (lease_seconds : Z) (d : db)
    : result (option JobLease * db) :=
  match datetime_add_seconds now lease_seconds with
  | Raise e => Raise e
  | Ok expires_at =>
      match jobs d !! id with
      | None => Ok (None, d)
      | Some row =>
          if claimable now row then
            if jr_lease_epoch row + 1 <=? int4_max then
              let row' := claimed_row db_now owner expires_at row in
              Ok (Some (MkJobLease (jr_id row') owner (jr_lease_epoch row') (jr_lease_expires_at row')),
                  set_jobs <[id := row']> d)
            else Raise integer_out_of_range
          else Ok (None, d)
      end
  end.

(** [renew_lease]: extends the lease of its current holder; [updated_at] has an
    [onupdate] default. *)
Definition renew_lease (now db_now : Z) (id owner : pystr) (epoch lease_seconds : Z) (d : db)
    : result (bool * db) :=
  match datetime_add_seconds now lease_seconds with
  | Raise e => Raise e
  | Ok expires_at =>
      match jobs d !! id with
      | None => Ok (false, d)
      | Some row =>
          if bool_decide (jr_lease_owner row = Some owner) && (jr_lease_epoch row =? epoch) then
            let row' := MkJobRow (jr_id row) (jr_request_payload row) (jr_status row)
                          (jr_retry_count row) (jr_result row) (jr_error_message row)
                          (jr_lease_owner row) (Some expires_at) (jr_lease_epoch row)
                          (jr_created_at row) db_now in
            Ok (true, set_jobs <[id := row']> d)
          else Ok (false, d)
      end
  end.

(** ** [SqlAlchemyJobEventRepository] *)

(** The attributes [add] reads from the event dict, unconverted. *)
Record new_event := MkNewEvent {
  ne_event_id : json; ne_job_id : json; ne_event_type : json;
  ne_source : json; ne_trace_id : json; ne_payload : json;
}.

(** [JobEventModel(event_id=event["event_id"], ...)] *)
Definition new_event_of (event : json) : result new_event :=
  event_id ← getitem event (u "event_id");
  job_id ← getitem event (u "job_id");
  event_type ← getitem event (u "event_type");
  source ← getitem event (u "source");
  trace_id ← getitem event (u "trace_id");
  payload ← getitem event (u "payload");
  Ok (MkNewEvent event_id job_id event_type source trace_id payload).

(** The log with one more entry. *)
Definition append_event (now : Z) (event_id job_id event_type source trace_id : pystr) (payload : json)
    (d : db) : db :=
  MkDb (jobs d)
    (job_events d ++ [MkEventRow (next_event_id d) event_id job_id event_type source trace_id payload now])
    (outbox_messages d) (next_event_id d + 1) (next_outbox_id d).

(** [INSERT INTO job_events]: the event id is unique. *)
Definition insert_event (now : Z) (event_id job_id event_type source trace_id : pystr) (payload : json)
    (d : db) : result db :=
  if decide (event_id ∈ je_event_id <$> job_events d) then
    Raise (IntegrityError (u "duplicate key value violates unique constraint uq_job_events_event_id"))
  else Ok (append_event now event_id job_id event_type source trace_id payload d).

(** [list_for_job] *)
Definition list_for_job (id : pystr) (d : db) : list event_row :=
  filter (λ e, je_job_id e = id) (job_events d).

(** ** [SqlAlchemyOutboxRepository] *)

Definition OUTBOX_PENDING : pystr := u "PENDING".
Definition OUTBOX_PUBLISHED : pystr := u "PUBLISHED".

(** The row [add] makes, before the database numbers it. *)
Record new_message := MkNewMessage {
  nm_message_id : pystr; nm_topic : pystr; nm_payload : json; nm_headers : option (list (pystr * pystr));
}.

(** The outbox with one more pending message. *)
Definition append_outbox (now : Z) (m : new_message) (d : db) : db :=
  MkDb (jobs d) (job_events d)
    (outbox_messages d ++ [MkOutboxRow (next_outbox_id d) (nm_message_id m) (nm_topic m)
       (nm_payload m) (nm_headers m) OUTBOX_PENDING 0 None now None])
    (next_event_id d) (next_outbox_id d + 1).

(** [INSERT INTO outbox_messages] *)
Definition insert_outbox (now : Z) (m : new_message) (d : db) : result db :=
  if decide (nm_message_id m ∈ ob_message_id <$> outbox_messages d) then
    Raise (IntegrityError (u "duplicate key value violates unique constraint uq_outbox_messages_message_id"))
  else Ok (append_outbox now m d).

(** The dict [fetch_pending] makes of a row. *)
Record message := MkMessage {
  m_id : Z; m_message_id : pystr; m_topic : pystr; m_payload : json;
  m_headers : option (list (pystr * pystr)); m_attempts : Z;
}.

Definition message_of_row (r : outbox_row) : message :=
  MkMessage (ob_id r) (ob_message_id r) (ob_topic r) (ob_payload r) (ob_headers r) (ob_attempts r).

Definition is_pending (r : outbox_row) : Prop := ob_status r = OUTBOX_PENDING.
#[global] Instance is_pending_dec r : Decision (is_pending r).
Proof. unfold is_pending. apply _. Defined.

(** The dialects with [SELECT ... FOR UPDATE SKIP LOCKED]. *)
Definition _ROW_LOCK_DIALECTS : gset pystr := {[u "postgresql"; u "mysql"; u "mariadb"]}.

(** [fetch_pending]: the first [limit] pending rows by id. With row locks, the
    rows other transactions hold ([locked]) are skipped. *)
Definition fetch_pending (dialect : pystr) (locked : gset Z) (limit : Z) (d : db) : list message :=
  let visible := if decide (dialect ∈ _ROW_LOCK_DIALECTS) then locked else ∅ in
  message_of_row <$>
    take (Z.to_nat limit) (filter (λ r, is_pending r ∧ ob_id r ∉ visible) (outbox_messages d)).

(** The rows that reading them locks until the end of the transaction: [with_for_update] on those dialects. *)
Definition row_locks (dialect : pystr) (messages : list message) : gset Z :=
  if decide (dialect ∈ _ROW_LOCK_DIALECTS) then list_to_set (m_id <$> messages) else ∅.

(** [mark_published] *)
Definition mark_published (now : Z) (ids : list Z) (d : db) : db :=
  match ids with
  | [] => d
  | _ => set_outbox (fmap (λ r,
           if decide (ob_id r ∈ ids) then
             MkOutboxRow (ob_id r) (ob_message_id r) (ob_topic r) (ob_payload r) (ob_headers r)
               OUTBOX_PUBLISHED (ob_attempts r) None (ob_created_at r) (Some now)
           else r)) d
  end.

(** [mark_failed]: the row stays pending; [error[:500]]. *)
Definition mark_failed (id : Z) (error : pystr) (d : db) : db :=
  set_outbox (fmap (λ r,
    if decide (ob_id r = id) then
      MkOutboxRow (ob_id r) (ob_message_id r) (ob_topic r) (ob_payload r) (ob_headers r)
        (ob_status r) (ob_attempts r + 1) (Some (take 500 error)) (ob_created_at r) (ob_published_at r)
    else r)) d.

(** ** Facts about the job statements *)

Lemma job_of_row_ok row s :
  jr_status row = status_value s → ∃ j, job_of_row row = Ok j ∧ job_id j = jr_id row
    ∧ job_status j = s ∧ job_result j = jr_result row ∧ job_error j = jr_error_message row.
Proof. intros H. unfold job_of_row. rewrite H, status_of_value_value. eauto 10. Qed.

Lemma job_status_row row job : job_of_row row = Ok job → jr_status row = status_value (job_status job).
Proof.
  unfold job_of_row, status_of_value. destruct (decide _) as [->|]; [by intros [= <-]|].
  destruct (decide _) as [->|]; [by intros [= <-]|]. destruct (decide _) as [->|]; [by intros [= <-]|].
  destruct (decide _) as [->|]; [by intros [= <-]|done].
Qed.

Lemma status_guard_spec sources up row :
  status_guard sources up row = true ↔
    (∃ s, s ∈ sources ∧ jr_status row = status_value s)
    ∧ (∀ o, up_lease_owner up = Some o → jr_lease_owner row = Some o)
    ∧ (∀ e, up_lease_epoch up = Some e → jr_lease_epoch row = e).
Proof.
  unfold status_guard. rewrite !andb_true_iff, bool_decide_eq_true, list_elem_of_fmap.
  setoid_rewrite elem_of_elements. destruct (up_lease_owner up), (up_lease_epoch up);
    rewrite ?bool_decide_eq_true, ?Z.eqb_eq; naive_solver.
Qed.

Lemma claimable_spec now row :
  claimable now row = true ↔
    jr_status row = status_value PENDING ∨ jr_status row = status_value FAILED
    ∨ (jr_status row = status_value PROCESSING
       ∧ ∀ t, jr_lease_expires_at row = Some t → t < now).
Proof.
  unfold claimable. rewrite !orb_true_iff, andb_true_iff, !bool_decide_eq_true.
  destruct (jr_lease_expires_at row) as [t|]; [rewrite Z.ltb_lt|]; naive_solver.
Qed.

(** A finished job cannot be claimed. *)
Lemma claimable_success now row : jr_status row = status_value SUCCESS → claimable now row = false.
Proof.
  intros H. apply not_true_iff_false. rewrite claimable_spec, H.
  intros [?|[?|[? _]]]; by simplify_eq.
Qed.

(** ** The statements as functions of the row *)

(** The [Job] of a row with a valid status. *)
Definition job_after (now : Z) (target : JobStatus) (up : status_update) (row : job_row) : Job :=
  let row' := status_values now target up row in
  MkJob (jr_id row') target (jr_request_payload row') (jr_result row') (jr_error_message row')
    (jr_retry_count row') (jr_created_at row') (jr_updated_at row').

Lemma job_of_status_values now target up row :
  job_of_row (status_values now target up row) = Ok (job_after now target up row).
Proof. unfold job_of_row. simpl. by rewrite status_of_value_value. Qed.

Lemma allowed_sources_nonempty target : target ≠ PENDING → allowed_source_statuses target ≠ ∅.
Proof. rewrite allowed_sources_eq. destruct target; set_solver. Qed.

Lemma update_status_eq now id target up d :
  up_expected_statuses up = None → target ≠ PENDING →
  update_status now id (status_value target) up d =
    match jobs d !! id with
    | Some row =>
        if status_guard (allowed_source_statuses target) up row then
          Ok (Some (job_after now target up row), set_jobs <[id := status_values now target up row]> d)
        else Ok (None, d)
    | None => Ok (None, d)
    end.
Proof.
  intros He Hp. unfold update_status, source_statuses.
  rewrite status_of_value_value, He, decide_False by by apply allowed_sources_nonempty.
  destruct (jobs d !! id); [|done]. destruct (status_guard _ _ _); [|done].
  by rewrite job_of_status_values.
Qed.

Lemma update_status_hit now id target up d row :
  up_expected_statuses up = None → target ≠ PENDING → jobs d !! id = Some row →
  status_guard (allowed_source_statuses target) up row = true →
  update_status now id (status_value target) up d =
    Ok (Some (job_after now target up row), set_jobs <[id := status_values now target up row]> d).
Proof. intros ?? Hr Hg. rewrite update_status_eq by done. by rewrite Hr, Hg. Qed.

(** The row does not exist or does not satisfy the condition. *)
Definition misses (target : JobStatus) (up : status_update) (id : pystr) (d : db) : Prop :=
  ∀ row, jobs d !! id = Some row → status_guard (allowed_source_statuses target) up row = false.

Lemma update_status_miss now id target up d :
  up_expected_statuses up = None → target ≠ PENDING → misses target up id d →
  update_status now id (status_value target) up d = Ok (None, d).
Proof.
  intros He Hp Hm. rewrite update_status_eq by done. destruct (jobs d !! id) eqn:E; [|done].
  by rewrite (Hm _ E).
Qed.

Lemma claim_hit now db_now id owner secs expires row d :
  datetime_add_seconds now secs = Ok expires → jobs d !! id = Some row →
  claimable now row = true → jr_lease_epoch row < int4_max →
  claim_for_processing now db_now id owner secs d =
    Ok (Some (MkJobLease (jr_id row) owner (jr_lease_epoch row + 1) (Some expires)),
        set_jobs <[id := claimed_row db_now owner expires row]> d).
Proof.
  intros Ht Hr Hc He. unfold claim_for_processing. rewrite Ht, Hr, Hc.
  by rewrite (proj2 (Z.leb_le _ _)) by lia.
Qed.

Definition not_claimable (now : Z) (id : pystr) (d : db) : Prop :=
  ∀ row, jobs d !! id = Some row → claimable now row = false.

Lemma claim_miss now db_now id owner secs expires d :
  datetime_add_seconds now secs = Ok expires → not_claimable now id d →
  claim_for_processing now db_now id owner secs d = Ok (None, d).
Proof.
  intros Ht Hn. unfold claim_for_processing. rewrite Ht. destruct (jobs d !! id) eqn:E; [|done].
  by rewrite (Hn _ E).
Qed.

(** What a successful claim says about the row it found. *)
Lemma claim_inv now db_now id owner secs d l d' :
  claim_for_processing now db_now id owner secs d = Ok (Some l, d') →
  ∃ row expires, jobs d !! id = Some row ∧ claimable now row = true
    ∧ expires = now + secs * MICROS
    ∧ d' = set_jobs <[id := claimed_row db_now owner expires row]> d
    ∧ l = MkJobLease (jr_id row) owner (jr_lease_epoch row + 1) (Some expires).
Proof.
  unfold claim_for_processing. destruct (datetime_add_seconds _ _) as [t|] eqn:Et; [|done].
  destruct (jobs d !! id) as [row|] eqn:Er; [|intros; simplify_eq].
  destruct (claimable now row) eqn:Ec; [|intros; simplify_eq].
  destruct (_ <=? _); intros; simplify_eq. exists row, t. apply datetime_add_ok in Et. done.
Qed.
