(* ===== verification/WellFormed.v ===== *)
(** * Well-formed tables

    The invariant of the three tables, by which the status of a row tells the rest of
    it: rows are stored under their id, with a status of the enumeration; a job in
    process has an owner and a claim behind it, a finished one no error, a failed one
    an error; serials and unique ids are unique. Every statement of the
    repositories keeps it. *)
From S2P Require Import Prelude PyStr PyFloat Json Domain Database.
#[local] Open Scope Z_scope.

(** ** Rows *)

Record row_wf (id : pystr) (r : job_row) : Prop := {
  wf_id : jr_id r = id;
  wf_status : ∃ s, jr_status r = status_value s;
  wf_claims : 0 ≤ jr_lease_epoch r ≤ int4_max;
  wf_lease : jr_lease_owner r = None ↔ jr_lease_expires_at r = None;
  wf_pending : jr_status r = status_value PENDING →
    jr_lease_epoch r = 0 ∧ jr_lease_owner r = None ∧ jr_result r = None ∧ jr_error_message r = None;
  wf_processing : jr_status r = status_value PROCESSING → jr_lease_owner r ≠ None ∧ 1 ≤ jr_lease_epoch r;
  wf_success : jr_status r = status_value SUCCESS → jr_error_message r = None ∧ 1 ≤ jr_lease_epoch r;
  wf_failed : jr_status r = status_value FAILED → jr_error_message r ≠ None;
}.

(** A message is pending or has the time of its publication. *)
Record message_wf (r : outbox_row) : Prop := {
  wf_published : ob_status r = OUTBOX_PENDING ∧ ob_published_at r = None
                 ∨ ob_status r = OUTBOX_PUBLISHED ∧ ob_published_at r ≠ None;
  wf_attempts : 0 ≤ ob_attempts r;
}.

(** The outbox rows are numbered and the next number is free. *)
Definition outbox_ids (d : db) : Prop :=
  NoDup (ob_id <$> outbox_messages d) ∧ Forall (λ r, ob_id r < next_outbox_id d) (outbox_messages d).

(** The log entries likewise. *)
Definition event_ids (d : db) : Prop :=
  NoDup (je_id <$> job_events d) ∧ Forall (λ e, je_id e < next_event_id d) (job_events d).

Record db_wf (d : db) : Prop := {
  wf_jobs : map_Forall row_wf (jobs d);
  wf_event_ids : event_ids d;
  wf_event_keys : NoDup (je_event_id <$> job_events d);
  wf_outbox_ids : outbox_ids d;
  wf_message_ids : NoDup (ob_message_id <$> outbox_messages d);
  wf_messages : Forall message_wf (outbox_messages d);
}.

(** ** The arguments the application passes *)

(** The keyword arguments [update_status] is called with: a success clears the error,
    a failure gives one. *)
Definition update_ok (target : JobStatus) (up : status_update) : Prop :=
  up_expected_statuses up = None ∧
  match target with
  | SUCCESS => up_clear_error up = true
  | FAILED => up_clear_error up = false ∧ up_result up = None ∧ up_error up ≠ None
  | _ => False
  end.

(** The jobs that are added. *)
Definition job_ok (j : Job) : Prop := job_status j = PENDING ∧ job_result j = None ∧ job_error j = None.

(** ** The statements on a row *)

Lemma status_values_wf now target up id r :
  update_ok target up → status_guard (allowed_source_statuses target) up r = true →
  row_wf id r → row_wf id (status_values now target up r).
Proof.
  intros [_ Ho] Hg W. rewrite status_guard_spec, allowed_sources_eq in Hg. destruct Hg as [(s & Hs & Hst) _].
  pose proof (wf_claims _ _ W). pose proof (wf_processing _ _ W) as Hp.
  split; simpl; [apply (wf_id _ _ W)|by exists target|done| | | | |].
  - destruct (up_release_lease up); [done|apply (wf_lease _ _ W)].
  - intros ->%(inj _). done.
  - intros ->%(inj _). done.
  - intros ->%(inj _). rewrite Ho. apply elem_of_singleton in Hs as ->. by destruct (Hp Hst).
  - intros ->%(inj _). destruct Ho as (-> & _ & He). by destruct (up_error up).
Qed.

Lemma claimed_row_wf now db_now owner expires id r :
  claimable now r = true → jr_lease_epoch r + 1 ≤ int4_max → row_wf id r →
  row_wf id (claimed_row db_now owner expires r).
Proof.
  intros Hc He W. pose proof (wf_claims _ _ W).
  split; simpl; try (intros E%(inj status_value); done); [apply (wf_id _ _ W)|by exists PROCESSING|lia|done|].
  intros _. split; [done|lia].
Qed.

Lemma job_row_wf now j : job_ok j → row_wf (job_id j) (job_row_of now j).
Proof.
  intros (Hs & Hr & He). split; simpl; rewrite ?Hs; try (intros E%(inj status_value); done); try done.
  by exists PENDING.
Qed.

(** ** The statements on the tables *)

Lemma set_row_wf d id r' : (∀ r, jobs d !! id = Some r → row_wf id r → row_wf id r') →
  is_Some (jobs d !! id) → db_wf d → db_wf (set_jobs <[id := r']> d).
Proof.
  intros Hr [r Hl] []. split; simpl; try done. apply map_Forall_insert_2; [|done]. by eapply Hr, wf_jobs0.
Qed.

Lemma insert_job_wf now j d d' : job_ok j → insert_job (job_row_of now j) d = Ok d' → db_wf d → db_wf d'.
Proof.
  intros Hj H []. unfold insert_job in H. destruct (jobs d !! _); [done|]. injection H as <-.
  split; simpl; try done. apply map_Forall_insert_2; [by apply job_row_wf|done].
Qed.

(** A list of numbered rows with one more at the end. *)
Lemma numbered_app {A} (f : A → Z) (n : Z) (l : list A) (a : A) :
  f a = n → NoDup (f <$> l) ∧ Forall (λ x, f x < n) l →
  NoDup (f <$> l ++ [a]) ∧ Forall (λ x, f x < n + 1) (l ++ [a]).
Proof.
  intros Ha [Hn Hf]. split.
  - rewrite fmap_app. apply NoDup_app. split_and!; [done| |apply NoDup_singleton].
    intros i (x & -> & Hx)%list_elem_of_fmap H%list_elem_of_singleton.
    rewrite Forall_forall in Hf. specialize (Hf x Hx). simpl in Hf. lia.
  - apply Forall_app. split; [|repeat constructor; lia]. eapply Forall_impl; [exact Hf|]. intros x ?. simpl in *. lia.
Qed.

Lemma unique_app {A B} (f : A → B) (l : list A) (a : A) :
  f a ∉ f <$> l → NoDup (f <$> l) → NoDup (f <$> l ++ [a]).
Proof.
  intros Ha Hn. rewrite fmap_app. apply NoDup_app. split_and!; [done| |apply NoDup_singleton].
  by intros x Hx ->%list_elem_of_singleton.
Qed.

Lemma append_outbox_ids now m d : outbox_ids d → outbox_ids (append_outbox now m d).
Proof. by apply (numbered_app ob_id). Qed.

Lemma insert_event_wf now e j t s tr p d d' : insert_event now e j t s tr p d = Ok d' → db_wf d → db_wf d'.
Proof.
  unfold insert_event. case_decide; intros [= <-] []. split; simpl; try done.
  - by apply (numbered_app je_id).
  - by apply unique_app.
Qed.

Lemma insert_outbox_wf now m d d' : insert_outbox now m d = Ok d' → db_wf d → db_wf d'.
Proof.
  unfold insert_outbox. case_decide; intros [= <-] []. split; simpl; try done.
  - by apply append_outbox_ids.
  - by apply unique_app.
  - apply Forall_app. split; [done|]. apply Forall_singleton. split; simpl; [by left|lia].
Qed.

(** The id tells the row. *)
Lemma same_row d r r' : outbox_ids d → r ∈ outbox_messages d → r' ∈ outbox_messages d → ob_id r = ob_id r' → r = r'.
Proof.
  intros [Hnd _] [i Hi]%list_elem_of_lookup_1 [j Hj]%list_elem_of_lookup_1 E.
  assert (i = j) as ->; [|congruence]. eapply NoDup_lookup; [exact Hnd| |]; rewrite list_lookup_fmap; [by rewrite Hi|].
  by rewrite Hj, E.
Qed.

(** The messages change in place. *)
Lemma set_outbox_ids f d :
  (∀ r, ob_id (f r) = ob_id r) → outbox_ids d → outbox_ids (set_outbox (fmap f) d).
Proof.
  intros Hf [Hn Hl]. split; simpl.
  - rewrite <- list_fmap_compose. by rewrite (list_fmap_ext _ ob_id) by (intros; apply Hf).
  - apply Forall_fmap. eapply Forall_impl; [exact Hl|]. intros r. simpl. by rewrite Hf.
Qed.

Lemma set_outbox_wf f d :
  (∀ r, ob_id (f r) = ob_id r ∧ ob_message_id (f r) = ob_message_id r ∧ (message_wf r → message_wf (f r))) →
  db_wf d → db_wf (set_outbox (fmap f) d).
Proof.
  intros Hf []. split; simpl; try done.
  - apply set_outbox_ids; [|done]. intros r. by destruct (Hf r).
  - rewrite <- list_fmap_compose. by rewrite (list_fmap_ext _ ob_message_id) by (intros; apply Hf).
  - apply Forall_fmap. eapply Forall_impl; [exact wf_messages0|]. intros r. simpl. apply Hf.
Qed.

Lemma mark_published_wf now ids d : db_wf d → db_wf (mark_published now ids d).
Proof.
  unfold mark_published. destruct ids; [done|]. apply set_outbox_wf. intros r.
  case_decide; [|done]. split_and!; [done..|]. intros []. split; simpl; [by right|done].
Qed.

Lemma mark_failed_wf id error d : db_wf d → db_wf (mark_failed id error d).
Proof.
  unfold mark_failed. apply set_outbox_wf. intros r. case_decide; [|done].
  split_and!; [done..|]. intros []. split; simpl; [done|lia].
Qed.

#[export] Hint Resolve insert_event_wf insert_outbox_wf mark_published_wf mark_failed_wf : mflow.
