(* ===== verification/Ledger.v ===== *)
(** * The ledger: what the jobs table means

    The abstract specification of the jobs: a finite map from ids to the status of the job,
    the number of its claims, its result and its error. A job is opened; as long
    as it has not succeeded it can be claimed, which counts; a claimed job succeeds, and
    a job that is waiting or claimed fails. [ledger] reads the map off the table, and
    every statement of the repositories that changes a row is shown to take such a step. *)
From S2P Require Import Prelude PyStr PyFloat Json Domain Database WellFormed.
#[local] Open Scope Z_scope.

(** ** The specification *)

Record entry := MkEntry {
  en_status : JobStatus;
  en_claims : Z;
  en_result : option json;
  en_error : option pystr;
}.

Definition opened : entry := MkEntry PENDING 0 None None.

Inductive entry_step : relation entry :=
  | en_claim s n r e : s ≠ SUCCESS → entry_step (MkEntry s n r e) (MkEntry PROCESSING (n + 1) r e)
  | en_succeed n r e r' : entry_step (MkEntry PROCESSING n r e) (MkEntry SUCCESS n r' None)
  | en_fail s n r e e' : s = PENDING ∨ s = PROCESSING → entry_step (MkEntry s n r e) (MkEntry FAILED n r (Some e')).

Inductive ledger_step : relation (gmap pystr entry) :=
  | lg_open id l : l !! id = None → ledger_step l (<[id := opened]> l)
  | lg_job id e e' l : l !! id = Some e → entry_step e e' → ledger_step l (<[id := e']> l).

(** ** What the specification allows *)

(** A job that has succeeded is at its end. *)
Lemma entry_success_final e e' : rtc entry_step e e' → en_status e = SUCCESS → e' = e.
Proof. intros [|? ? ? [] _] Hs; simpl in Hs; naive_solver. Qed.

(** Claims are counted, and a job only leaves its first state for good. *)
Lemma entry_claims e e' :
  rtc entry_step e e' → en_claims e ≤ en_claims e' ∧ (en_status e' = PENDING → e' = e).
Proof.
  induction 1 as [|? ? ? S _ [IH1 IH2]]; [by split; [lia|]|]. split.
  - destruct S; simpl in *; lia.
  - intros Hp. specialize (IH2 Hp). subst. by destruct S.
Qed.

(** Between two states with as many claims there was none: the job moved from PROCESSING or
    PENDING to its end, once. *)
Lemma entry_same_claims e e' :
  rtc entry_step e e' → en_claims e' = en_claims e →
  e' = e ∨ (en_status e = PROCESSING ∧ en_status e' = SUCCESS)
  ∨ ((en_status e = PENDING ∨ en_status e = PROCESSING) ∧ en_status e' = FAILED).
Proof.
  intros [?|? y ? S R] Hc; [by left|]. pose proof (proj1 (entry_claims _ _ R)) as Hle.
  destruct S; simpl in *; [lia| |].
  - apply entry_success_final in R as ->; [|done]. auto.
  - inversion R as [|? ? ? S R']; subst; [auto|]. pose proof (proj1 (entry_claims _ _ R')).
    inversion S; subst; simpl in *; [lia|naive_solver].
Qed.

(** The history of a job in a ledger. *)
Lemma ledger_entry l l' id :
  rtc ledger_step l l' → ∃ o, (o = l !! id ∨ o = Some opened ∧ l !! id = None)
    ∧ option_Forall2 (rtc entry_step) o (l' !! id).
Proof.
  intros R. revert id. induction R as [l|l1 l2 l3 S _ IH]; intros id; [exists (l !! id); by split; [left|]|].
  destruct (IH id) as (o & Ho & F). destruct S as [id' l Hn|id' e e' l He S].
  - destruct (decide (id = id')) as [->|]; [|rewrite lookup_insert_ne in Ho by done; eauto].
    rewrite lookup_insert_eq in Ho. destruct Ho as [->|[_ [=]]]. exists (Some opened). auto.
  - destruct (decide (id = id')) as [->|]; [|rewrite lookup_insert_ne in Ho by done; eauto].
    rewrite lookup_insert_eq in Ho. destruct Ho as [->|[_ [=]]]. exists (Some e). split; [by left|].
    inversion F; subst. constructor. by eapply rtc_l.
Qed.

Lemma ledger_history l l' id e :
  rtc ledger_step l l' → l !! id = Some e → ∃ e', l' !! id = Some e' ∧ rtc entry_step e e'.
Proof.
  intros R Hl. destruct (ledger_entry _ _ id R) as (o & [->|[_ ?]] & F); [|congruence].
  rewrite Hl in F. inversion F; eauto.
Qed.

Lemma ledger_job id e e' l :
  l !! id = Some e → rtc entry_step e e' → rtc ledger_step l (<[id := e']> l).
Proof.
  intros Hl R. revert l Hl. induction R as [e|e1 e2 e3 S _ IH]; intros l Hl.
  - by rewrite insert_id.
  - eapply rtc_l; [by eapply lg_job|]. rewrite <- (insert_insert_eq l id e3 e2). apply IH, lookup_insert_eq.
Qed.

(** ** The ledger of the table *)

Definition entry_of (r : job_row) : option entry :=
  match status_of_value (jr_status r) with
  | Ok s => Some (MkEntry s (jr_lease_epoch r) (jr_result r) (jr_error_message r))
  | Raise _ => None
  end.

Definition ledger (d : db) : gmap pystr entry := omap entry_of (jobs d).

Lemma entry_of_valid r s :
  jr_status r = status_value s →
  entry_of r = Some (MkEntry s (jr_lease_epoch r) (jr_result r) (jr_error_message r)).
Proof. intros H. unfold entry_of. by rewrite H, status_of_value_value. Qed.

(** The row's entry moves along the specification. *)
Definition entry_evolves (r r' : job_row) : Prop := option_Forall2 (rtc entry_step) (entry_of r) (entry_of r').

#[global] Instance entry_evolves_preorder : PreOrder entry_evolves.
Proof. unfold entry_evolves. split; [by intros r|]. intros r1 r2 r3 H1 H2. by etrans. Qed.

Lemma ledger_set_row d id r r' :
  jobs d !! id = Some r → entry_evolves r r' → rtc ledger_step (ledger d) (ledger (set_jobs <[id := r']> d)).
Proof.
  intros Hr He. unfold ledger. simpl. rewrite omap_insert. unfold entry_evolves in He.
  assert (omap entry_of (jobs d) !! id = entry_of r) as Hl by by rewrite lookup_omap, Hr.
  inversion He as [e e' S E E'|E E'].
  - apply (ledger_job id e); [congruence|done].
  - rewrite delete_id; [done|congruence].
Qed.

Lemma ledger_insert_job now j d d' :
  job_ok j → insert_job (job_row_of now j) d = Ok d' → rtc ledger_step (ledger d) (ledger d').
Proof.
  intros (Hs & Hr & He) H. unfold insert_job in H. simpl in H. destruct (jobs d !! _) eqn:E; [done|]. injection H as <-.
  unfold ledger. simpl. rewrite omap_insert. rewrite (entry_of_valid _ PENDING) by by simpl; rewrite Hs.
  simpl. rewrite Hr, He. apply rtc_once, lg_open. by rewrite lookup_omap, E.
Qed.

(** ** The statements on a row *)

Lemma status_values_entry now target up r :
  update_ok target up → status_guard (allowed_source_statuses target) up r = true →
  entry_evolves r (status_values now target up r).
Proof.
  intros [_ Ho] Hg. rewrite status_guard_spec, allowed_sources_eq in Hg. destruct Hg as [(s & Hs & Hst) _].
  unfold entry_evolves. rewrite (entry_of_valid _ _ Hst), (entry_of_valid _ target) by done.
  constructor. apply rtc_once. destruct target; simpl; try done.
  - apply elem_of_singleton in Hs as ->. rewrite Ho. apply en_succeed.
  - destruct Ho as (-> & -> & He). destruct (up_error up); [|done]. apply en_fail. set_solver.
Qed.

Lemma claimed_row_entry now db_now owner expires r :
  claimable now r = true → entry_evolves r (claimed_row db_now owner expires r).
Proof.
  intros Hc. unfold entry_evolves. rewrite (entry_of_valid (claimed_row _ _ _ _) PROCESSING) by done.
  assert (∃ s, jr_status r = status_value s ∧ s ≠ SUCCESS) as (s & Hst & Hs).
  { apply claimable_spec in Hc as [Hc|[Hc|[Hc _]]]; eauto. }
  rewrite (entry_of_valid _ _ Hst). constructor. by apply rtc_once, en_claim.
Qed.
