(* ===== verification/Repositories.v ===== *)
(** * Repository ports: [app/ports/repositories.py]

    The contracts of the ports as type classes of operations and laws: a job store with a
    conditional change of status, and an outbox whose readers do not overlap. The
    SQLAlchemy repositories are shown to satisfy the laws, and what follows from the
    contract is proved for every store that does. *)
From S2P Require Import Prelude PyStr PyFloat Json Domain Database WellFormed.
#[local] Open Scope Z_scope.

(** ** [JobRepositoryPort] *)

(** The keyword arguments of the port's [update_status]. *)
Record port_update := MkPortUpdate {
  pu_result : option json; pu_error : option pystr; pu_clear_error : bool; pu_expected : option (list pystr);
}.

(** The statuses a change may start from: those that are expected or, when none are given,
    those of the domain's transition rules. *)
Definition port_sources (target : JobStatus) (a : port_update) : result (gset JobStatus) :=
  source_statuses target (pu_expected a).

(** A store of jobs; [now] is its clock. *)
Class JobRepositoryPort (S : Type) := {
  add_job : Z → Job → S → result S;
  get_job : pystr → S → result (option Job);
  update_job_status : Z → pystr → pystr → port_update → S → result (option Job * S);
}.

(** Reading any job but [id] gives the same before and after. *)
Definition only_touches {S} `{JobRepositoryPort S} (id : pystr) (s s' : S) : Prop :=
  ∀ id', id' ≠ id → get_job id' s' = get_job id' s.

Class JobRepositoryLaws (S : Type) `{JobRepositoryPort S} := {
  (** an added job can be read, unless there was one with its id *)
  add_law now j s s' : add_job now j s = Ok s' →
    get_job (job_id j) s = Ok None
    ∧ (∃ j', get_job (job_id j) s' = Ok (Some j') ∧ job_id j' = job_id j ∧ job_status j' = job_status j
         ∧ job_request_payload j' = job_request_payload j ∧ job_result j' = job_result j ∧ job_error j' = job_error j)
    ∧ only_touches (job_id j) s s';
  (** the status changes if it is among the expected ones *)
  update_law now id target a sources s : port_sources target a = Ok sources → sources ≠ ∅ →
    (∃ j j' s', get_job id s = Ok (Some j) ∧ job_status j ∈ sources
       ∧ update_job_status now id (status_value target) a s = Ok (Some j', s')
       ∧ job_status j' = target ∧ get_job id s' = Ok (Some j') ∧ only_touches id s s')
    ∨ ((∀ j, get_job id s = Ok (Some j) → job_status j ∉ sources)
       ∧ update_job_status now id (status_value target) a s = Ok (None, s));
}.

(** *** Consequences of the contract *)

Section clients.
Context {S : Type} `{JobRepositoryLaws S}.

(** A conditional change that takes the job out of the expected statuses succeeds once. *)
Lemma run_one_winner now now' id target target' a a' sources sources' s j s' :
  port_sources target a = Ok sources → sources ≠ ∅ →
  port_sources target' a' = Ok sources' → sources' ≠ ∅ → target ∉ sources' →
  update_job_status now id (status_value target) a s = Ok (Some j, s') →
  update_job_status now' id (status_value target') a' s' = Ok (None, s').
Proof.
  intros Hs Hne Hs' Hne' Ht E.
  destruct (update_law now id target a sources s Hs Hne) as [(j0 & j1 & s1 & _ & _ & E1 & Hj & Hg & _)|[_ E1]];
    rewrite E in E1; [|done]. injection E1 as <- <-.
  destruct (update_law now' id target' a' sources' s' Hs' Hne') as [(j2 & j3 & s3 & Hg2 & Hin & _)|[_ E2]]; [|done].
  exfalso. rewrite Hg in Hg2. by simplify_eq.
Qed.
End clients.

(** *** [SqlAlchemyJobRepository] implements it *)

Definition update_of (a : port_update) : status_update :=
  MkStatusUpdate (pu_result a) (pu_error a) (pu_clear_error a) (pu_expected a) None None false.

#[global] Instance SqlAlchemyJobRepository : JobRepositoryPort db := {
  add_job now j := insert_job (job_row_of now j);
  get_job := job_get;
  update_job_status now id status a := update_status now id status (update_of a);
}.

Lemma job_of_row_of now j : ∃ j', job_of_row (job_row_of now j) = Ok j' ∧ job_id j' = job_id j
  ∧ job_status j' = job_status j ∧ job_request_payload j' = job_request_payload j
  ∧ job_result j' = job_result j ∧ job_error j' = job_error j.
Proof. unfold job_of_row. simpl. rewrite status_of_value_value. by eexists. Qed.

Lemma job_get_set id row d job :
  job_of_row row = Ok job → job_get id (set_jobs <[id := row]> d) = Ok (Some job).
Proof. intros E. unfold job_get. simpl. by rewrite lookup_insert_eq, E. Qed.

Lemma set_only_touches id row d : only_touches id d (set_jobs <[id := row]> d).
Proof. intros id' Hne. simpl. unfold job_get. simpl. by rewrite lookup_insert_ne. Qed.

(** Without the fields of a lease, the guard only looks at the status. *)
Lemma port_guard sources a row job :
  job_of_row row = Ok job → status_guard sources (update_of a) row = bool_decide (job_status job ∈ sources).
Proof.
  intros E. apply job_status_row in E. apply eq_true_iff_eq. rewrite status_guard_spec, bool_decide_eq_true, E. simpl.
  split; [intros [(s & Hs & <-%(inj status_value)) _]; done|]. intros Hs. split_and!; [by exists (job_status job)|done|done].
Qed.

Lemma port_guard_invalid sources a row e :
  job_of_row row = Raise e → status_guard sources (update_of a) row = false.
Proof.
  intros E. apply not_true_iff_false. rewrite status_guard_spec. intros [(s & _ & Hs) _].
  destruct (job_of_row_ok row s Hs) as (j & Hj & _). congruence.
Qed.

#[global] Instance SqlAlchemyJobRepository_laws : JobRepositoryLaws db.
Proof.
  split.
  - intros now j d d' E. simpl in *. unfold insert_job in E. simpl in E.
    destruct (jobs d !! job_id j) eqn:Hn; [done|]. injection E as <-. split_and!.
    + unfold job_get. by rewrite Hn.
    + destruct (job_of_row_of now j) as (j' & Ej & H). exists j'. split; [by apply job_get_set|done].
    + apply set_only_touches.
  - intros now id target a sources d Hs Hne. simpl. unfold update_status, port_sources in *. simpl.
    rewrite status_of_value_value, Hs, decide_False by done. unfold job_get at 1 3.
    destruct (jobs d !! id) as [row|] eqn:Hr; [|by right].
    destruct (job_of_row row) as [job|e] eqn:Ej.
    2:{ right. by rewrite (port_guard_invalid _ _ _ _ Ej). }
    rewrite (port_guard _ _ _ _ Ej). case_bool_decide as Hin; [|right; split; [intros j [= <-]|]; done].
    left. rewrite job_of_status_values. eexists job, _, _. split_and!; [done..| |apply set_only_touches].
    apply job_get_set, job_of_status_values.
Qed.

(** ** [OutboxRepositoryPort] *)

(** A store of messages; [locked] are the rows other readers hold. *)
Class OutboxRepositoryPort (S : Type) := {
  add_message : Z → new_message → S → result S;
  fetch_messages : gset Z → Z → S → list message;
  mark_messages : Z → list Z → S → S;
  mark_message_failed : Z → pystr → S → S;
}.

(** The ids that wait to be published, in their order. *)
Class OutboxRepositoryLaws (S : Type) `{OutboxRepositoryPort S} := {
  store_ok : S → Prop;
  waiting : S → list Z;
  (** an added message is behind those that wait *)
  add_message_law now m s s' : store_ok s → add_message now m s = Ok s' →
    store_ok s' ∧ ∃ id, id ∉ waiting s ∧ waiting s' = waiting s ++ [id];
  (** a reader gets the first ones that no other reader holds *)
  fetch_law locked limit s : store_ok s →
    m_id <$> fetch_messages locked limit s = take (Z.to_nat limit) (filter (λ id, id ∉ locked) (waiting s));
  (** the ones that are marked no longer wait; a failed one still does *)
  mark_law now ids s : store_ok s →
    store_ok (mark_messages now ids s) ∧ waiting (mark_messages now ids s) = filter (λ id, id ∉ ids) (waiting s);
  mark_failed_law id e s : store_ok s →
    store_ok (mark_message_failed id e s) ∧ waiting (mark_message_failed id e s) = waiting s;
}.

Section readers.
Context {S : Type} `{OutboxRepositoryLaws S}.

(** Two readers at a time get different messages. *)
Lemma run_readers_disjoint locked limit limit' s i :
  store_ok s →
  i ∈ m_id <$> fetch_messages locked limit s →
  i ∉ m_id <$> fetch_messages (locked ∪ list_to_set (m_id <$> fetch_messages locked limit s)) limit' s.
Proof.
  intros Hok Hi Hi'. rewrite (fetch_law (_ ∪ _)) in Hi' by done. apply (subseteq_take _ _) in Hi'.
  apply list_elem_of_filter in Hi' as [Hn _]. apply Hn. set_solver.
Qed.

(** Reading a batch and marking it, [n] messages at most, takes them off the front. *)
Lemma run_read_and_mark now limit s :
  store_ok s → NoDup (waiting s) →
  waiting (mark_messages now (m_id <$> fetch_messages ∅ limit s) s) = drop (Z.to_nat limit) (waiting s).
Proof.
  intros Hok Hnd. destruct (mark_law now (m_id <$> fetch_messages ∅ limit s) s Hok) as [_ ->].
  rewrite fetch_law by done. rewrite (filter_all (λ id, id ∉ ∅)) by set_solver.
  generalize (Z.to_nat limit) as n. induction Hnd as [|x l Hx Hnd IH]; intros n; [by destruct n|].
  destruct n as [|n].
  - rewrite take_0, drop_0. apply filter_all. set_solver.
  - rewrite firstn_cons, skipn_cons, <- (IH n). rewrite filter_cons_False by set_solver.
    apply filter_ext_in. set_solver.
Qed.
End readers.

(** *** [SqlAlchemyOutboxRepository] on a dialect with row locks implements it *)

#[global] Instance SqlAlchemyOutboxRepository : OutboxRepositoryPort db := {
  add_message := insert_outbox;
  fetch_messages := fetch_pending (u "postgresql");
  mark_messages := mark_published;
  mark_message_failed := mark_failed;
}.

Lemma pending_ids_map (f : outbox_row → outbox_row) (l : list outbox_row) :
  (∀ r, is_pending (f r) ↔ is_pending r) → (∀ r, ob_id (f r) = ob_id r) →
  ob_id <$> filter is_pending (f <$> l) = ob_id <$> filter is_pending l.
Proof.
  intros Hp Hi. induction l as [|r l IH]; [done|]. rewrite fmap_cons, !filter_cons.
  specialize (Hp r). repeat case_decide; try tauto. by rewrite !fmap_cons, Hi, IH.
Qed.

(** The outbox is numbered in the order it was filled. *)
#[global] Program Instance SqlAlchemyOutboxRepository_laws : OutboxRepositoryLaws db := {|
  store_ok := outbox_ids;
  waiting d := ob_id <$> filter is_pending (outbox_messages d);
|}.
Next Obligation.
  simpl. intros now m d d' Hok E. unfold insert_outbox in E. case_decide; [done|]. injection E as <-.
  split; [by apply append_outbox_ids|]. exists (next_outbox_id d). split.
  - destruct Hok as [_ Hlt]. rewrite Forall_forall in Hlt.
    intros (r & Hr & [_ Hin]%list_elem_of_filter)%list_elem_of_fmap. specialize (Hlt r Hin). lia.
  - simpl. rewrite filter_app, fmap_app. by rewrite (filter_cons_True _ _ []) by done.
Qed.
Next Obligation.
  simpl. intros locked limit d _. unfold fetch_pending. rewrite decide_True by set_solver.
  rewrite <- list_fmap_compose, fmap_take. change (m_id ∘ message_of_row) with ob_id. f_equal.
  induction (outbox_messages d) as [|r l IH]; [done|]. rewrite !filter_cons.
  destruct (decide (is_pending r)) as [Hp|Hp]; [|by rewrite decide_False by tauto].
  rewrite fmap_cons, filter_cons. repeat case_decide; try tauto. by rewrite fmap_cons, IH.
Qed.
Next Obligation.
  simpl. intros now ids d Hok. unfold mark_published. destruct ids as [|i ids].
  { split; [done|]. symmetry. apply filter_all. set_solver. }
  set (ids' := i :: ids). split; [apply set_outbox_ids; [|done]; intros r; by case_decide|]. simpl.
  induction (outbox_messages d) as [|r l IH]; [done|]. rewrite fmap_cons, !filter_cons.
  destruct (decide (ob_id r ∈ ids')) as [Hi|Hi].
  - rewrite decide_False by done. rewrite IH. destruct (decide (is_pending r)); [|done].
    rewrite fmap_cons, filter_cons. by rewrite decide_False by tauto.
  - destruct (decide (is_pending r)); [|done]. rewrite !fmap_cons, filter_cons, IH. by rewrite decide_True.
Qed.
Next Obligation.
  simpl. intros id e d Hok. unfold mark_failed.
  split; [apply set_outbox_ids; [|done]; intros r; by case_decide|]. simpl.
  apply pending_ids_map; intros r; by case_decide.
Qed.

(** ** What the repositories promise *)

(** C22: the job repository is a compare-and-swap store. On the tables, as the port says: a job that
    was added is read back and must be new; a status change succeeds exactly when the
    job's status is among the expected ones (given, or from the transition rules), and
    then the new job is what is read; otherwise it returns [None] and changes nothing;
    and no other job is touched. So of two changes whose targets exclude each other's
    sources only the first succeeds, in whatever order they come. *)
Theorem repository_contract :
  JobRepositoryLaws db
  ∧ ∀ now now' id target target' a a' sources sources' (d : db) j d',
      port_sources target a = Ok sources → sources ≠ ∅ →
      port_sources target' a' = Ok sources' → sources' ≠ ∅ → target ∉ sources' →
      update_job_status now id (status_value target) a d = Ok (Some j, d') →
      update_job_status now' id (status_value target') a' d' = Ok (None, d').
Proof. split; [apply _|]. intros *. apply run_one_winner. Qed.

(** ** An outbox *)

Definition demo_row (id : Z) : outbox_row :=
  MkOutboxRow id (u "m" ++ py_str_int id) (u "jobs") (JInt id) None OUTBOX_PENDING 0 None 0 None.
Definition demo_queue : db := MkDb ∅ [] [demo_row 1; demo_row 2; demo_row 3] 1 4.
