(* ===== verification/Migrations.v ===== *)
(** * Migrations: [alembic/versions] and the schema of [app/adapters/db/models.py]

    Each revision as the data definition statements it issues, in order, on a schema:
    tables with their columns, keys, indexes and rows. [upgrade_head] is the chain of the
    three revisions; the tables it leaves are compared with those of [models.py], and
    each [downgrade] with the state before its [upgrade]. *)
From S2P Require Import Prelude PyStr PyFloat Json.
#[local] Open Scope Z_scope.

(** ** Schemas *)

(** The column types of SQLAlchemy that occur. *)
Inductive sql_type :=
  | String_ (length : Z) | Text | JSON_ | Integer | DateTime (timezone : bool).

#[global] Instance sql_type_eq_dec : EqDecision sql_type.
Proof. solve_decision. Defined.

(** [server_default="0"] and [server_default=sa.text("now()")] *)
Inductive server_default := DefaultLiteral (s : pystr) | DefaultText (s : pystr).

#[global] Instance server_default_eq_dec : EqDecision server_default.
Proof. solve_decision. Defined.

(** [sa.Column(name, type, nullable=..., autoincrement=..., server_default=...)] *)
Record column := MkColumn {
  c_name : pystr;
  c_type : sql_type;
  c_nullable : bool;
  c_autoincrement : bool;
  c_server_default : option server_default;
}.

#[global] Instance column_eq_dec : EqDecision column.
Proof. solve_decision. Defined.

Record index := MkIndex { ix_columns : list pystr; ix_unique : bool; ix_where : option pystr }.

#[global] Instance index_eq_dec : EqDecision index.
Proof. solve_decision. Defined.

(** A row gives each column a value, or none: [NULL]. *)
Abbreviation row := (gmap pystr (option json)).

Record table := MkTable {
  t_columns : gmap pystr column;
  t_primary_key : list pystr;
  t_uniques : gmap pystr (list pystr);
  t_indexes : gmap pystr index;
  t_rows : list row;
}.

Abbreviation schema := (gmap pystr table).

Definition set_indexes (f : gmap pystr index → gmap pystr index) (t : table) : table :=
  MkTable (t_columns t) (t_primary_key t) (t_uniques t) (f (t_indexes t)) (t_rows t).

Definition ProgrammingError (msg : pystr) : exn := Exn (u "ProgrammingError") msg.

(** ** The operations of [alembic.op] *)

Section ops.
(** What the database stores for a new column in the rows there are. *)
Variable default_value : server_default → json.

(** The name is neither that of a table nor that of an index. *)
Definition name_free (name : pystr) (s : schema) : Prop :=
  s !! name = None ∧ map_Forall (λ _ t, t_indexes t !! name = None) s.
#[global] Instance name_free_dec name s : Decision (name_free name s) := _.

Definition already_exists (name : pystr) : exn := ProgrammingError (u "relation " ++ name ++ u " already exists").
Definition does_not_exist (name : pystr) : exn := ProgrammingError (name ++ u " does not exist").

Definition columns_of (columns : list column) : gmap pystr column :=
  list_to_map ((λ c, (c_name c, c)) <$> columns).

(** [op.create_table(name, *columns, sa.PrimaryKeyConstraint(...), sa.UniqueConstraint(..., name=...))] *)
Definition create_table (name : pystr) (columns : list column) (primary_key : list pystr)
    (uniques : list (pystr * list pystr)) (s : schema) : result schema :=
  if decide (name_free name s) then
    if decide (NoDup (c_name <$> columns)) then
      Ok (<[name := MkTable (columns_of columns) primary_key (list_to_map uniques) ∅ []]> s)
    else Raise (ProgrammingError (u "column specified more than once"))
  else Raise (already_exists name).

(** [op.drop_table(name)] *)
Definition drop_table (name : pystr) (s : schema) : result schema :=
  match s !! name with None => Raise (does_not_exist name) | Some _ => Ok (delete name s) end.

(** [op.create_index(name, table, columns, unique=..., postgresql_where=...)] *)
Definition create_index (name tab : pystr) (columns : list pystr) (unique : bool) (cond : option pystr)
    (s : schema) : result schema :=
  match s !! tab with
  | None => Raise (does_not_exist tab)
  | Some t =>
      if decide (name_free name s) then
        if decide (Forall (λ c, is_Some (t_columns t !! c)) columns) then
          Ok (<[tab := set_indexes <[name := MkIndex columns unique cond]> t]> s)
        else Raise (does_not_exist tab)
      else Raise (already_exists name)
  end.

(** [op.drop_index(name, table_name=...)] *)
Definition drop_index (name tab : pystr) (s : schema) : result schema :=
  match s !! tab with
  | None => Raise (does_not_exist name)
  | Some t =>
      match t_indexes t !! name with
      | None => Raise (does_not_exist name)
      | Some _ => Ok (<[tab := set_indexes (delete name) t]> s)
      end
  end.

(** [op.add_column(table, column)]: the rows there are get the default, which a column
    that must not be [NULL] needs then. *)
Definition add_column (tab : pystr) (c : column) (s : schema) : result schema :=
  match s !! tab with
  | None => Raise (does_not_exist tab)
  | Some t =>
      if decide (is_Some (t_columns t !! c_name c)) then Raise (ProgrammingError (u "column already exists"))
      else if decide (c_nullable c = false ∧ c_server_default c = None ∧ t_rows t ≠ [])
      then Raise (IntegrityError (u "column contains null values"))
      else Ok (<[tab := MkTable (<[c_name c := c]> (t_columns t)) (t_primary_key t) (t_uniques t) (t_indexes t)
                          (<[c_name c := default_value <$> c_server_default c]> <$> t_rows t)]> s)
  end.

(** [op.drop_column(table, name)]: the indexes on it go with it. *)
Definition drop_column (tab name : pystr) (s : schema) : result schema :=
  match s !! tab with
  | None => Raise (does_not_exist tab)
  | Some t =>
      match t_columns t !! name with
      | None => Raise (does_not_exist name)
      | Some _ =>
          Ok (<[tab := MkTable (delete name (t_columns t)) (t_primary_key t) (t_uniques t)
                         (filter (λ ki, name ∉ ix_columns ki.2) (t_indexes t)) (delete name <$> t_rows t)]> s)
      end
  end.

(** ** The revisions *)

Definition col (name : string) (ty : sql_type) (nullable : bool) : column := MkColumn (u name) ty nullable false None.
Definition col_default (name : string) (ty : sql_type) (d : server_default) : column :=
  MkColumn (u name) ty false false (Some d).
Definition serial (name : string) : column := MkColumn (u name) Integer false true None.
Definition now_default : server_default := DefaultText (u "now()").

(** [20260310_0001_initial_job_event_schema.py] *)
Definition upgrade_0001 (s : schema) : result schema :=
  s ← create_table (u "jobs")
        [col "id" (String_ 64) false;
         col "request_payload" JSON_ false;
         col "status" (String_ 32) false;
         col_default "retry_count" Integer (DefaultLiteral (u "0"));
         col "result" JSON_ true;
         col "error_message" Text true;
         col_default "created_at" (DateTime true) now_default;
         col_default "updated_at" (DateTime true) now_default]
        [u "id"] [] s;
  s ← create_index (u "ix_jobs_status") (u "jobs") [u "status"] false None s;
  s ← create_table (u "job_events")
        [serial "id";
         col "event_id" (String_ 64) false;
         col "job_id" (String_ 64) false;
         col "event_type" (String_ 64) false;
         col "source" (String_ 64) false;
         col "trace_id" (String_ 64) false;
         col "payload" JSON_ false;
         col_default "created_at" (DateTime true) now_default]
        [u "id"] [(u "uq_job_events_event_id", [u "event_id"])] s;
  s ← create_index (u "ix_job_events_event_type") (u "job_events") [u "event_type"] false None s;
  s ← create_index (u "ix_job_events_job_id") (u "job_events") [u "job_id"] false None s;
  create_index (u "ix_job_events_trace_id") (u "job_events") [u "trace_id"] false None s.

Definition downgrade_0001 (s : schema) : result schema :=
  s ← drop_index (u "ix_job_events_trace_id") (u "job_events") s;
  s ← drop_index (u "ix_job_events_job_id") (u "job_events") s;
  s ← drop_index (u "ix_job_events_event_type") (u "job_events") s;
  s ← drop_table (u "job_events") s;
  s ← drop_index (u "ix_jobs_status") (u "jobs") s;
  drop_table (u "jobs") s.

(** [20260913_0002_outbox_messages.py] *)
Definition upgrade_0002 (s : schema) : result schema :=
  s ← create_table (u "outbox_messages")
        [serial "id";
         col "message_id" (String_ 64) false;
         col "topic" (String_ 128) false;
         col "payload" JSON_ false;
         col "headers" JSON_ true;
         col_default "status" (String_ 16) (DefaultLiteral (u "PENDING"));
         col_default "attempts" Integer (DefaultLiteral (u "0"));
         col "last_error" Text true;
         col_default "created_at" (DateTime true) now_default;
         col "published_at" (DateTime true) true]
        [u "id"] [(u "uq_outbox_messages_message_id", [u "message_id"])] s;
  create_index (u "ix_outbox_messages_pending") (u "outbox_messages") [u "id"] false (Some (u "status = 'PENDING'")) s.

Definition downgrade_0002 (s : schema) : result schema :=
  s ← drop_index (u "ix_outbox_messages_pending") (u "outbox_messages") s;
  drop_table (u "outbox_messages") s.

(** [20260913_0003_job_lease.py] *)
Definition upgrade_0003 (s : schema) : result schema :=
  s ← add_column (u "jobs") (col "lease_owner" (String_ 64) true) s;
  s ← add_column (u "jobs") (col "lease_expires_at" (DateTime true) true) s;
  s ← add_column (u "jobs") (col_default "lease_epoch" Integer (DefaultLiteral (u "0"))) s;
  create_index (u "ix_jobs_lease_expires_at") (u "jobs") [u "lease_expires_at"] false None s.

Definition downgrade_0003 (s : schema) : result schema :=
  s ← drop_index (u "ix_jobs_lease_expires_at") (u "jobs") s;
  s ← drop_column (u "jobs") (u "lease_epoch") s;
  s ← drop_column (u "jobs") (u "lease_expires_at") s;
  drop_column (u "jobs") (u "lease_owner") s.

(** ** The chain *)

(** [revision], [down_revision], [upgrade] and [downgrade] of a module. *)
Record revision := MkRevision {
  rev_id : pystr;
  rev_down : option pystr;
  rev_upgrade : schema → result schema;
  rev_downgrade : schema → result schema;
}.

Definition revision_0001 : revision := MkRevision (u "20260310_0001") None upgrade_0001 downgrade_0001.
Definition revision_0002 : revision :=
  MkRevision (u "20260913_0002") (Some (u "20260310_0001")) upgrade_0002 downgrade_0002.
Definition revision_0003 : revision :=
  MkRevision (u "20260913_0003") (Some (u "20260913_0002")) upgrade_0003 downgrade_0003.

Definition versions : list revision := [revision_0001; revision_0002; revision_0003].

(** From the base: each revision is built on the one before it. *)
Fixpoint linear (below : option pystr) (rs : list revision) : Prop :=
  match rs with
  | [] => True
  | r :: rs' => rev_down r = below ∧ linear (Some (rev_id r)) rs'
  end.

Fixpoint upgrade_all (rs : list revision) (s : schema) : result schema :=
  match rs with [] => Ok s | r :: rs' => s ← rev_upgrade r s; upgrade_all rs' s end.

Fixpoint downgrade_all (rs : list revision) (s : schema) : result schema :=
  match rs with [] => Ok s | r :: rs' => s ← downgrade_all rs' s; rev_downgrade r s end.

(** [alembic upgrade head] and [alembic downgrade base] *)
Definition upgrade_head : schema → result schema := upgrade_all versions.
Definition downgrade_base : schema → result schema := downgrade_all versions.
End ops.

(** ** [alembic/env.py] *)

(** The arguments of [context.configure] beside the metadata. *)
Record context_options := MkContextOptions {
  co_url : option pystr;
  co_literal_binds : bool;
  co_paramstyle : option pystr;
  co_compare_type : bool;
}.

(** [with context.begin_transaction(): context.run_migrations()], for the given
    migrations: what they changed is undone when one of them raises. *)
Definition begin_transaction (migrations : schema → result schema) (s : schema) : result unit * schema :=
  match migrations s with Ok s' => (Ok tt, s') | Raise e => (Raise e, s) end.

(** The statements are written out, none is executed. *)
Definition run_migrations_offline (url : pystr) (s : schema) : context_options * schema :=
  (MkContextOptions (Some url) true (Some (u "named")) true, s).

Definition do_run_migrations (migrations : schema → result schema) (s : schema)
    : context_options * (result unit * schema) :=
  (MkContextOptions None false None true, begin_transaction migrations s).

(** The engine is disposed of after the migrations, if they have not raised. *)
Definition run_migrations_online (migrations : schema → result schema) (s : schema)
    : result unit * schema * bool :=
  let '(_, (r, s')) := do_run_migrations migrations s in (r, s', is_ok r).

(** ** The tables of [models.py] *)

(** [mapped_column(..., index=True)]: the index is named after the table and the column. *)
Definition column_index (tab name : string) : pystr * index :=
  ((u "ix_" ++ u tab ++ u "_" ++ u name)%list, MkIndex [u name] false None).

(** [JobModel.__table__] *)
Definition JobModel : table := MkTable
  (columns_of
     [col "id" (String_ 64) false; col "request_payload" JSON_ false; col "status" (String_ 32) false;
      col "retry_count" Integer false; col "result" JSON_ true; col "error_message" Text true;
      col "lease_owner" (String_ 64) true; col "lease_expires_at" (DateTime true) true;
      col_default "lease_epoch" Integer (DefaultLiteral (u "0"));
      col_default "created_at" (DateTime true) now_default; col_default "updated_at" (DateTime true) now_default])
  [u "id"] ∅ (list_to_map [column_index "jobs" "status"; column_index "jobs" "lease_expires_at"]) [].

(** [OutboxMessageModel.__table__] *)
Definition OutboxMessageModel : table := MkTable
  (columns_of
     [serial "id"; col "message_id" (String_ 64) false; col "topic" (String_ 128) false; col "payload" JSON_ false;
      col "headers" JSON_ true; col "status" (String_ 16) false; col "attempts" Integer false;
      col "last_error" Text true; col_default "created_at" (DateTime true) now_default;
      col "published_at" (DateTime true) true])
  [u "id"] {[u "uq_outbox_messages_message_id" := [u "message_id"]]}
  {[u "ix_outbox_messages_pending" := MkIndex [u "id"] false (Some (u "status = 'PENDING'"))]} [].

(** [JobEventModel.__table__] *)
Definition JobEventModel : table := MkTable
  (columns_of
     [serial "id"; col "event_id" (String_ 64) false; col "job_id" (String_ 64) false;
      col "event_type" (String_ 64) false; col "source" (String_ 64) false; col "trace_id" (String_ 64) false;
      col "payload" JSON_ false; col_default "created_at" (DateTime true) now_default])
  [u "id"] {[u "uq_job_events_event_id" := [u "event_id"]]}
  (list_to_map [column_index "job_events" "job_id"; column_index "job_events" "event_type";
                column_index "job_events" "trace_id"]) [].

(** [Base.metadata.tables] *)
Definition metadata : schema :=
  {[u "jobs" := JobModel; u "outbox_messages" := OutboxMessageModel; u "job_events" := JobEventModel]}.

(** ** Every operation has an inverse *)

(** The indexes are on columns of the table, and the rows have no others. *)
Record table_ok (t : table) : Prop := {
  tb_indexes : map_Forall (λ _ ix, Forall (λ c, is_Some (t_columns t !! c)) (ix_columns ix)) (t_indexes t);
  tb_rows : Forall (λ r : row, ∀ c, is_Some (r !! c) → is_Some (t_columns t !! c)) (t_rows t);
}.
Definition schema_ok (s : schema) : Prop := map_Forall (λ _ t, table_ok t) s.

(** [g] undoes [f], which keeps schemas in order. *)
Definition inverts (f g : schema → result schema) : Prop :=
  ∀ s s', schema_ok s → f s = Ok s' → schema_ok s' ∧ g s' = Ok s.

Lemma inverts_bind f g f' g' :
  inverts f g → inverts f' g' → inverts (λ s, s1 ← f s; f' s1) (λ s, s1 ← g' s; g s1).
Proof.
  intros H H' s s' Hok (s1 & E & E')%result_bind_ok. destruct (H _ _ Hok E) as [Hok1 G].
  destruct (H' _ _ Hok1 E') as [Hok2 G']. split; [done|]. by rewrite G'.
Qed.

Lemma inverts_ext f g g' : inverts f g → (∀ s, g' s = g s) → inverts f g'.
Proof. intros H E s s' Hok Hs. rewrite E. by apply H. Qed.

Lemma result_bind_assoc {A B C} (m : result A) (f : A → result B) (g : B → result C) :
  ((m ≫= f) ≫= g) = (m ≫= λ a, f a ≫= g).
Proof. by destruct m. Qed.

(** A sequence of statements is undone by their inverses, in the other order. *)
Ltac undo :=
  eapply inverts_ext;
  [repeat (apply inverts_bind; [solve [eauto with mflow]|]); solve [eauto with mflow]
  |intros s; cbv beta; by rewrite ?result_bind_assoc].

Section inverses.
Variable default_value : server_default → json.

Lemma create_drop_table name cols pk uqs : inverts (create_table name cols pk uqs) (drop_table name).
Proof.
  intros s s' Hok E. unfold create_table in E. case_decide as Hf; [|done]. case_decide; [|done]. injection E as <-.
  split.
  - apply map_Forall_insert_2; [|done]. split; simpl; [apply map_Forall_empty|constructor].
  - unfold drop_table. rewrite lookup_insert_eq, delete_insert_id by apply Hf. done.
Qed.

Lemma set_indexes_id t : set_indexes (λ m, m) t = t.
Proof. by destruct t. Qed.

Lemma create_drop_index name tab cols uq cond : inverts (create_index name tab cols uq cond) (drop_index name tab).
Proof.
  intros s s' Hok E. unfold create_index in E. destruct (s !! tab) as [t|] eqn:Ht; [|done].
  case_decide as Hf; [|done]. case_decide as Hc; [|done]. injection E as <-.
  assert (t_indexes t !! name = None) as Hn by by apply (proj2 Hf tab).
  split.
  - apply map_Forall_insert_2; [|done]. destruct (Hok tab t Ht) as [Hi Hr]. split; simpl; [|done].
    by apply map_Forall_insert_2.
  - unfold drop_index. rewrite lookup_insert_eq. simpl. rewrite lookup_insert_eq, insert_insert_eq. f_equal.
    unfold set_indexes. simpl. rewrite delete_insert_id by done. destruct t. by apply insert_id.
Qed.

Lemma add_drop_column tab c : inverts (add_column default_value tab c) (drop_column tab (c_name c)).
Proof.
  intros s s' Hok E. unfold add_column in E. destruct (s !! tab) as [t|] eqn:Ht; [|done].
  case_decide as Hc; [done|]. case_decide; [done|]. injection E as <-. apply eq_None_not_Some in Hc.
  destruct (Hok tab t Ht) as [Hi Hr]. split.
  - apply map_Forall_insert_2; [|done]. split; simpl.
    + intros i ix Hix. eapply Forall_impl; [exact (Hi i ix Hix)|]. intros x Hx. simpl.
      destruct (decide (c_name c = x)) as [->|]; [by rewrite lookup_insert_eq|by rewrite lookup_insert_ne].
    + apply Forall_fmap. eapply Forall_impl; [exact Hr|]. intros r Hin x. simpl.
      destruct (decide (c_name c = x)) as [->|]; [by rewrite !lookup_insert_eq|].
      rewrite !lookup_insert_ne by done. apply Hin.
  - unfold drop_column. rewrite lookup_insert_eq. simpl. rewrite lookup_insert_eq, insert_insert_eq. f_equal.
    rewrite delete_insert_id by done. rewrite map_filter_id.
    2:{ intros i ix Hix Hin. pose proof (Hi i ix Hix) as Hf. rewrite Forall_forall in Hf. destruct (Hf _ Hin). congruence. }
    rewrite <- list_fmap_compose. rewrite Forall_fmap_ext_1 with (g := id).
    2:{ eapply Forall_impl; [exact Hr|]. intros r Hin. apply delete_insert_id, eq_None_not_Some. intros [v Hv].
        destruct (Hin (c_name c)); [by eexists|congruence]. }
    rewrite list_fmap_id. destruct t. by apply insert_id.
Qed.

#[local] Hint Resolve create_drop_table create_drop_index add_drop_column : mflow.

Lemma inverts_0001 : inverts upgrade_0001 downgrade_0001.
Proof. unfold upgrade_0001, downgrade_0001. undo. Qed.
Lemma inverts_0002 : inverts upgrade_0002 downgrade_0002.
Proof. unfold upgrade_0002, downgrade_0002. undo. Qed.
Lemma inverts_0003 : inverts (upgrade_0003 default_value) downgrade_0003.
Proof. unfold upgrade_0003, downgrade_0003. undo. Qed.

Lemma inverts_all rs :
  Forall (λ r, inverts (rev_upgrade r) (rev_downgrade r)) rs → inverts (upgrade_all rs) (downgrade_all rs).
Proof.
  induction 1 as [|r rs Hr _ IH]; [by intros s s' Hok [= <-]|]. exact (inverts_bind _ _ _ _ Hr IH).
Qed.

Lemma inverts_versions n : inverts (upgrade_all (take n (versions default_value))) (downgrade_all (take n (versions default_value))).
Proof.
  apply inverts_all, Forall_take.
  apply Forall_cons; split; [apply inverts_0001|]. apply Forall_cons; split; [apply inverts_0002|].
  apply Forall_singleton, inverts_0003.
Qed.
End inverses.

(** ** Running the chain *)

Section head.
Variable default_value : server_default → json.

Lemma name_free_insert name tab t s :
  name_free name s → name ≠ tab → t_indexes t !! name = None → name_free name (<[tab := t]> s).
Proof. intros [Hn Hi] Hne Ht. split; [by rewrite lookup_insert_ne|]. by apply map_Forall_insert_2. Qed.

Lemma run_create_table name cols pk uqs s :
  name_free name s → NoDup (c_name <$> cols) →
  create_table name cols pk uqs s = Ok (<[name := MkTable (columns_of cols) pk (list_to_map uqs) ∅ []]> s).
Proof. intros. unfold create_table. by rewrite !decide_True by done. Qed.

Lemma run_create_index name tab cols uq cond t s :
  s !! tab = Some t → name_free name s → Forall (λ c, is_Some (t_columns t !! c)) cols →
  create_index name tab cols uq cond s = Ok (<[tab := set_indexes <[name := MkIndex cols uq cond]> t]> s).
Proof. intros Ht ??. unfold create_index. rewrite Ht. by rewrite !decide_True by done. Qed.

Lemma run_add_column tab c t s :
  s !! tab = Some t → t_columns t !! c_name c = None → (c_nullable c = true ∨ c_server_default c ≠ None) →
  add_column default_value tab c s =
    Ok (<[tab := MkTable (<[c_name c := c]> (t_columns t)) (t_primary_key t) (t_uniques t) (t_indexes t)
                   (<[c_name c := default_value <$> c_server_default c]> <$> t_rows t)]> s).
Proof.
  intros Ht Hc Hd. unfold add_column. rewrite Ht, decide_False by (rewrite Hc; by intros []).
  rewrite decide_False; [done|]. naive_solver congruence.
Qed.

(** The relations the revisions create. *)
Definition created_names : list pystr :=
  [u "jobs"; u "job_events"; u "outbox_messages"; u "ix_jobs_status"; u "ix_job_events_event_type";
   u "ix_job_events_job_id"; u "ix_job_events_trace_id"; u "ix_outbox_messages_pending"; u "ix_jobs_lease_expires_at"].

Definition names_free (s : schema) : Prop := Forall (λ n, name_free n s) created_names.

(** Adds the lease columns to the rows there are. *)
Definition leased_row (r : row) : row :=
  <[u "lease_epoch" := Some (default_value (DefaultLiteral (u "0")))]>
  (<[u "lease_expires_at" := None]> (<[u "lease_owner" := None]> r)).

(** The table after the last revision. *)
Definition leased_table (t : table) : table :=
  MkTable
    (<[u "lease_epoch" := col_default "lease_epoch" Integer (DefaultLiteral (u "0"))]>
     (<[u "lease_expires_at" := col "lease_expires_at" (DateTime true) true]>
      (<[u "lease_owner" := col "lease_owner" (String_ 64) true]> (t_columns t))))
    (t_primary_key t) (t_uniques t)
    (<[u "ix_jobs_lease_expires_at" := MkIndex [u "lease_expires_at"] false None]> (t_indexes t))
    (leased_row <$> t_rows t).

Lemma run_0003 s t :
  s !! u "jobs" = Some t → name_free (u "ix_jobs_lease_expires_at") s →
  Forall (λ c, t_columns t !! c = None) [u "lease_owner"; u "lease_expires_at"; u "lease_epoch"] →
  upgrade_0003 default_value s = Ok (<[u "jobs" := leased_table t]> s).
Proof.
  intros Ht Hf Hc. decompose_Forall_hyps. unfold upgrade_0003.
  assert (t_indexes t !! u "ix_jobs_lease_expires_at" = None) as Hi by by apply (proj2 Hf (u "jobs")).
  rewrite (run_add_column _ _ t) by (first [done|by left]). cbn [mbind result_bind].
  rewrite (run_add_column _ _ _ _ (lookup_insert_eq _ _ _)) by (first [by simpl; rewrite lookup_insert_ne|by left]).
  cbn [mbind result_bind].
  rewrite (run_add_column _ _ _ _ (lookup_insert_eq _ _ _)) by (first [by simpl; rewrite !lookup_insert_ne|by right]).
  cbn [mbind result_bind].
  rewrite (run_create_index _ _ _ _ _ _ _ (lookup_insert_eq _ _ _)).
  - rewrite !insert_insert_eq. unfold set_indexes, leased_table. simpl. by rewrite <- !list_fmap_compose.
  - by repeat apply name_free_insert.
  - repeat constructor. simpl. rewrite lookup_insert_ne by done. rewrite lookup_insert_eq. by eexists.
Qed.

(** The tables of the first two revisions. *)
Definition with_indexes (ixs : list (string * (list pystr * option pystr))) (t : table) : table :=
  foldl (λ t '(n, (cs, cond)), set_indexes <[u n := MkIndex cs false cond]> t) t ixs.

Definition jobs_0001 : table := with_indexes [("ix_jobs_status", ([u "status"], None))]
  (MkTable (columns_of
    [col "id" (String_ 64) false; col "request_payload" JSON_ false; col "status" (String_ 32) false;
     col_default "retry_count" Integer (DefaultLiteral (u "0")); col "result" JSON_ true;
     col "error_message" Text true; col_default "created_at" (DateTime true) now_default;
     col_default "updated_at" (DateTime true) now_default]) [u "id"] (list_to_map []) ∅ []).

Definition job_events_0001 : table := with_indexes
  [("ix_job_events_event_type", ([u "event_type"], None)); ("ix_job_events_job_id", ([u "job_id"], None));
   ("ix_job_events_trace_id", ([u "trace_id"], None))]
  (MkTable (columns_of
    [serial "id"; col "event_id" (String_ 64) false; col "job_id" (String_ 64) false;
     col "event_type" (String_ 64) false; col "source" (String_ 64) false; col "trace_id" (String_ 64) false;
     col "payload" JSON_ false; col_default "created_at" (DateTime true) now_default])
    [u "id"] (list_to_map [(u "uq_job_events_event_id", [u "event_id"])]) ∅ []).

Definition outbox_0002 : table := with_indexes
  [("ix_outbox_messages_pending", ([u "id"], Some (u "status = 'PENDING'")))]
  (MkTable (columns_of
    [serial "id"; col "message_id" (String_ 64) false; col "topic" (String_ 128) false; col "payload" JSON_ false;
     col "headers" JSON_ true; col_default "status" (String_ 16) (DefaultLiteral (u "PENDING"));
     col_default "attempts" Integer (DefaultLiteral (u "0")); col "last_error" Text true;
     col_default "created_at" (DateTime true) now_default; col "published_at" (DateTime true) true])
    [u "id"] (list_to_map [(u "uq_outbox_messages_message_id", [u "message_id"])]) ∅ []).

#[local] Ltac free := repeat (apply name_free_insert; [|done|reflexivity]); assumption.
#[local] Ltac created := rewrite run_create_table by (first [free | by vm_compute; repeat constructor; set_solver]); cbn [mbind result_bind].
#[local] Ltac indexed :=
  erewrite run_create_index;
  [|apply lookup_insert_eq|free|repeat constructor; by eexists]; cbn [mbind result_bind]; rewrite ?insert_insert_eq.

Lemma run_0001 s :
  names_free s → upgrade_0001 s = Ok (<[u "job_events" := job_events_0001]> (<[u "jobs" := jobs_0001]> s)).
Proof.
  intros Hf. unfold names_free, created_names in Hf. decompose_Forall_hyps. unfold upgrade_0001.
  created. indexed. created. indexed. indexed. indexed. done.
Qed.

Lemma run_head s :
  names_free s →
  upgrade_head default_value s = Ok (<[u "jobs" := leased_table jobs_0001]> (<[u "outbox_messages" := outbox_0002]>
    (<[u "job_events" := job_events_0001]> (<[u "jobs" := jobs_0001]> s)))).
Proof.
  intros Hf. pose proof (run_0001 s Hf) as E. unfold names_free, created_names in Hf. decompose_Forall_hyps.
  unfold upgrade_head, versions. cbn [upgrade_all rev_upgrade revision_0001 revision_0002 revision_0003].
  rewrite E. cbn [mbind result_bind]. unfold upgrade_0002. created. indexed.
  rewrite (run_0003 _ jobs_0001).
  - done.
  - by rewrite !lookup_insert_ne, lookup_insert_eq by done.
  - free.
  - by repeat constructor.
Qed.
End head.

(** ** What the migrations promise *)

(** The column without its server default. *)
Definition client_column (c : column) : column :=
  MkColumn (c_name c) (c_type c) (c_nullable c) (c_autoincrement c) None.

(** The table in the database serves the model: its columns, keys and indexes are those of the
    model, and so are the server defaults the model declares. *)
Definition serves (db model : table) : Prop :=
  client_column <$> t_columns db = client_column <$> t_columns model
  ∧ map_Forall (λ n c, c_server_default c = None ∨ t_columns db !! n = Some c) (t_columns model)
  ∧ t_primary_key db = t_primary_key model ∧ t_uniques db = t_uniques model ∧ t_indexes db = t_indexes model.
#[global] Instance serves_dec db model : Decision (serves db model) := _.

(** C33: the migrations build the tables of the models. In a database in which the names are
    free, whatever else it holds, the chain of revisions succeeds and leaves, for each
    table of the models, a table with the same columns, keys and indexes and at least the
    server defaults the model declares, without rows; other tables are not touched. *)
Theorem head_matches_models default_value s :
  names_free s →
  ∃ s', upgrade_head default_value s = Ok s'
    ∧ (∀ name model, metadata !! name = Some model → ∃ t, s' !! name = Some t ∧ serves t model ∧ t_rows t = [])
    ∧ (∀ name, metadata !! name = None → s' !! name = s !! name).
Proof.
  intros Hf. eexists. split; [by apply run_head|]. split.
  - intros name model Hm. unfold metadata in Hm.
    apply lookup_insert_Some in Hm as [[<- <-]|[_ Hm]];
      [|apply lookup_insert_Some in Hm as [[<- <-]|[_ Hm]];
        [|apply lookup_singleton_Some in Hm as [<- <-]]];
      (eexists; split; [by rewrite ?lookup_insert_ne, lookup_insert_eq by done|];
       split; [|done]; eapply bool_decide_eq_true_1; vm_compute; reflexivity).
  - intros name Hm. unfold metadata in Hm.
    rewrite lookup_insert_None, lookup_insert_None, lookup_singleton_None in Hm. destruct Hm as [[??]?].
    rewrite !lookup_insert_ne by congruence. done.
Qed.

(** C34: a downgrade undoes the upgrade. On every schema whose indexes and rows only mention
    columns that exist, going up any number of revisions and back down gives the
    schema and the rows it started from. *)
Theorem downgrade_inverts_upgrade default_value n s s' :
  schema_ok s → upgrade_all (take n (versions default_value)) s = Ok s' →
  schema_ok s' ∧ downgrade_all (take n (versions default_value)) s' = Ok s.
Proof. apply inverts_versions. Qed.

(** The last revision keeps the jobs. On a table of jobs with any rows, the lease columns are
    added without an error; every row keeps its other columns and starts without an
    owner and with the default epoch. *)
Theorem lease_revision_keeps_rows default_value s t :
  s !! u "jobs" = Some t → name_free (u "ix_jobs_lease_expires_at") s →
  Forall (λ c, t_columns t !! c = None) [u "lease_owner"; u "lease_expires_at"; u "lease_epoch"] →
  ∃ s' t', upgrade_0003 default_value s = Ok s' ∧ s' !! u "jobs" = Some t'
    ∧ length (t_rows t') = length (t_rows t)
    ∧ ∀ i r, t_rows t !! i = Some r → ∃ r', t_rows t' !! i = Some r'
        ∧ r' !! u "lease_owner" = Some None ∧ r' !! u "lease_expires_at" = Some None
        ∧ r' !! u "lease_epoch" = Some (Some (default_value (DefaultLiteral (u "0"))))
        ∧ ∀ c, c ∉ [u "lease_owner"; u "lease_expires_at"; u "lease_epoch"] → r' !! c = r !! c.
Proof.
  intros Ht Hf Hc. exists (<[u "jobs" := leased_table default_value t]> s), (leased_table default_value t).
  split; [by apply run_0003|]. split; [apply lookup_insert_eq|]. split; [apply length_fmap|].
  intros i r Hr. exists (leased_row default_value r). simpl. rewrite list_lookup_fmap, Hr. split; [done|].
  unfold leased_row. split_and!.
  - by rewrite !lookup_insert_ne, lookup_insert_eq by done.
  - by rewrite lookup_insert_ne, lookup_insert_eq by done.
  - by rewrite lookup_insert_eq.
  - intros c Hin. rewrite !not_elem_of_cons in Hin. by rewrite !lookup_insert_ne by naive_solver.
Qed.

(** ** The hypotheses can hold *)

Definition demo_default (d : server_default) : json := match d with DefaultLiteral v | DefaultText v => JStr v end.

(** Beside the table Alembic keeps its version in. *)
Definition demo_schema : schema := {[u "alembic_version" :=
  MkTable (columns_of [col "version_num" (String_ 32) false]) [u "version_num"] ∅ ∅ []]}.

Lemma demo_names_free : names_free demo_schema.
Proof.
  repeat (apply Forall_cons_2; [split; [vm_compute; reflexivity|apply map_Forall_singleton, lookup_empty]|]).
  constructor.
Qed.

Lemma head_matches_models_witness :
  ∃ s' t, upgrade_head demo_default demo_schema = Ok s' ∧ s' !! u "jobs" = Some t ∧ serves t JobModel.
Proof.
  destruct (head_matches_models demo_default demo_schema demo_names_free) as (s' & E & H & _).
  destruct (H (u "jobs") JobModel eq_refl) as (t & Ht & Hs & _). exists s', t. split_and!; assumption.
Defined.

(** A database with one job at the second revision. *)
Definition demo_old_row : row := {[u "id" := Some (JStr (u "job-1")); u "status" := Some (JStr (u "PENDING"))]}.
Definition demo_old : schema :=
  {[u "jobs" := MkTable (t_columns jobs_0001) [u "id"] ∅ (t_indexes jobs_0001) [demo_old_row]]}.

Lemma downgrade_inverts_upgrade_witness :
  ∃ s', upgrade_all (take 3 (versions demo_default)) demo_schema = Ok s'
    ∧ downgrade_all (take 3 (versions demo_default)) s' = Ok demo_schema.
Proof.
  eexists. split; [exact (run_head demo_default demo_schema demo_names_free)|].
  apply (downgrade_inverts_upgrade demo_default 3 demo_schema); [|exact (run_head demo_default demo_schema demo_names_free)].
  apply map_Forall_singleton. split; [apply map_Forall_empty|constructor].
Defined.

Lemma lease_revision_keeps_rows_witness :
  ∃ s' t' r', upgrade_0003 demo_default demo_old = Ok s' ∧ s' !! u "jobs" = Some t' ∧ t_rows t' !! 0%nat = Some r'
    ∧ r' !! u "lease_epoch" = Some (Some (JStr (u "0"))).
Proof.
  destruct (lease_revision_keeps_rows demo_default demo_old
    (MkTable (t_columns jobs_0001) [u "id"] ∅ (t_indexes jobs_0001) [demo_old_row])) as (s' & t' & E & Ht & _ & H).
  - apply lookup_singleton_eq.
  - split; [vm_compute; reflexivity|apply map_Forall_singleton; vm_compute; reflexivity].
  - repeat constructor.
  - destruct (H 0%nat demo_old_row eq_refl) as (r' & Hr & _ & _ & He & _). exists s', t', r'. split_and!; assumption.
Defined.
