(* ===== verification/Evolution.v ===== *)
(** * How the database may evolve

    [db_evolves d d'] is what every statement of the repositories preserves and
    therefore what every reader may rely on between two of its transactions:
    rows are never deleted, a finished job keeps its result, the fencing token
    never decreases, the event log and the outbox only grow, a published message stays
    published, well-formed tables stay well-formed and the jobs follow the
    ledger. It is a preorder, so it composes over any
    interleaving of transactions. *)
From S2P Require Import Prelude PyStr PyFloat Json Domain Database WellFormed Ledger.
#[local] Open Scope Z_scope.

(** ** Relations *)

Record row_evolves (r r' : job_row) : Prop := {
  ev_id : jr_id r' = jr_id r;
  ev_payload : jr_request_payload r' = jr_request_payload r;
  ev_created : jr_created_at r' = jr_created_at r;
  ev_epoch : jr_lease_epoch r ≤ jr_lease_epoch r';
  ev_owner : jr_lease_epoch r' = jr_lease_epoch r →
    jr_lease_owner r' = jr_lease_owner r ∨ jr_lease_owner r' = None;
  ev_valid : (∃ s, jr_status r = status_value s) → ∃ s, jr_status r' = status_value s;
  ev_pending : jr_status r' = status_value PENDING → jr_status r = status_value PENDING;
  ev_success : jr_status r = status_value SUCCESS →
    jr_status r' = status_value SUCCESS ∧ jr_result r' = jr_result r
    ∧ jr_error_message r' = jr_error_message r ∧ jr_lease_epoch r' = jr_lease_epoch r;
  ev_wf id : row_wf id r → row_wf id r';
  ev_entry : entry_evolves r r';
}.

Record message_evolves (r r' : outbox_row) : Prop := {
  mv_id : ob_id r' = ob_id r;
  mv_message_id : ob_message_id r' = ob_message_id r;
  mv_topic : ob_topic r' = ob_topic r;
  mv_payload : ob_payload r' = ob_payload r;
  mv_headers : ob_headers r' = ob_headers r;
  mv_published : ob_status r = OUTBOX_PUBLISHED → ob_status r' = OUTBOX_PUBLISHED;
  mv_attempts : ob_attempts r ≤ ob_attempts r';
}.

Record db_evolves (d d' : db) : Prop := {
  dv_jobs id r : jobs d !! id = Some r → ∃ r', jobs d' !! id = Some r' ∧ row_evolves r r';
  dv_events : job_events d `prefix_of` job_events d';
  dv_outbox : ∃ old new, outbox_messages d' = old ++ new ∧ Forall2 message_evolves (outbox_messages d) old;
  dv_wf : db_wf d → db_wf d';
  dv_ledger : rtc ledger_step (ledger d) (ledger d');
}.

#[global] Instance row_evolves_preorder : PreOrder row_evolves.
Proof.
  split.
  - intros r. split; try reflexivity; auto.
  - intros r1 r2 r3 A B.
    pose proof (ev_epoch _ _ A). pose proof (ev_epoch _ _ B).
    split; try (destruct A, B; congruence || lia || tauto).
    + intros E. destruct (ev_owner _ _ B) as [->|]; [lia| |by right].
      apply (ev_owner _ _ A). lia.
    + intros (Hs & ? & ? & ?)%(ev_success _ _ A).
      apply (ev_success _ _ B) in Hs as (? & ? & ? & ?). split_and!; congruence.
    + intros id W. by apply (ev_wf _ _ B), (ev_wf _ _ A).
    + etrans; [apply (ev_entry _ _ A)|apply (ev_entry _ _ B)].
Qed.

#[global] Instance message_evolves_preorder : PreOrder message_evolves.
Proof.
  split.
  - intros r. split; auto; lia.
  - intros r1 r2 r3 [] []. split; try congruence; try lia; auto.
Qed.

#[global] Instance db_evolves_preorder : PreOrder db_evolves.
Proof.
  split.
  - intros d. split; [|done| |done|done].
    { intros id r Hr. exists r. by split. }
    exists (outbox_messages d), []. by rewrite app_nil_r.
  - intros d1 d2 d3 H1 H2. split.
    + intros id r Hr. destruct (dv_jobs _ _ H1 _ _ Hr) as (r' & Hr' & E').
      destruct (dv_jobs _ _ H2 _ _ Hr') as (r'' & Hr'' & E''). exists r''. split; [done|]. by etrans.
    + etrans; [apply (dv_events _ _ H1)|apply (dv_events _ _ H2)].
    + destruct (dv_outbox _ _ H1) as (o1 & n1 & E1 & F1), (dv_outbox _ _ H2) as (o2 & n2 & E2 & F2).
      rewrite E1 in F2. apply Forall2_app_inv_l in F2 as (a & b & Fa & Fb & ->).
      exists a, (b ++ n2). split; [by rewrite E2, app_assoc|].
      by etrans.
    + intros W. by apply (dv_wf _ _ H2), (dv_wf _ _ H1).
    + etrans; [apply (dv_ledger _ _ H1)|apply (dv_ledger _ _ H2)].
Qed.

(** ** One row changes *)

Lemma update_row_evolves d id r r' :
  jobs d !! id = Some r → row_evolves r r' → db_evolves d (set_jobs <[id := r']> d).
Proof.
  intros Hr E. split; simpl; [|done| | |].
  - intros id' r0 H0. destruct (decide (id' = id)) as [->|Hne].
    + rewrite lookup_insert_eq. exists r'. split; [done|]. by simplify_eq.
    + rewrite lookup_insert_ne by done. by exists r0.
  - exists (outbox_messages d), []. by rewrite app_nil_r.
  - apply set_row_wf; [|by eexists]. intros r0 H0. simplify_eq. apply (ev_wf _ _ E).
  - eapply ledger_set_row; [done|apply (ev_entry _ _ E)].
Qed.

Lemma status_values_evolves now target up r :
  update_ok target up → status_guard (allowed_source_statuses target) up r = true →
  row_evolves r (status_values now target up r).
Proof.
  intros Ho Hg. pose proof Hg as Hg'. rewrite status_guard_spec in Hg'. destruct Hg' as [(s & Hs & Hst) _].
  assert (s ≠ SUCCESS) as Hns.
  { intros ->. apply (terminal_no_exit SUCCESS target); [unfold TERMINAL_STATUSES; set_solver|done]. }
  assert (target ≠ PENDING) as Hnp.
  { intros ->. rewrite allowed_sources_eq in Hs. set_solver. }
  split; simpl; try done; try lia.
  - intros _. destruct (up_release_lease up); auto.
  - intros _. by exists target.
  - intros E. by apply (inj status_value) in E.
  - rewrite Hst. intros E. by apply (inj status_value) in E.
  - intros id. by apply status_values_wf.
  - by apply status_values_entry.
Qed.

Lemma claimed_row_evolves now db_now owner expires r :
  claimable now r = true → jr_lease_epoch r + 1 ≤ int4_max → row_evolves r (claimed_row db_now owner expires r).
Proof.
  intros Hc Hm. split; simpl; try done; try lia.
  - intros _. by exists PROCESSING.
  - intros Hs. by rewrite claimable_success in Hc.
  - intros id. by eapply claimed_row_wf.
  - by eapply claimed_row_entry.
Qed.

(** ** Every statement *)

Lemma update_status_evolves now id target up d j d' :
  update_ok target up →
  update_status now id (status_value target) up d = Ok (j, d') → db_evolves d d'.
Proof.
  intros Ho H. pose proof (proj1 Ho) as He. unfold update_status, source_statuses in H.
  rewrite He, status_of_value_value in H.
  case_decide; [done|]. destruct (jobs d !! id) as [r|] eqn:Hr; simplify_eq; [|done].
  destruct (status_guard _ _ _) eqn:Hg; simplify_eq; [|done].
  destruct (job_of_row _); simplify_eq.
  eapply update_row_evolves; [done|]. by apply status_values_evolves.
Qed.

Lemma claim_evolves now db_now id owner secs d l d' :
  claim_for_processing now db_now id owner secs d = Ok (l, d') → db_evolves d d'.
Proof.
  intros H. unfold claim_for_processing in H.
  destruct (datetime_add_seconds now secs); [|done].
  destruct (jobs d !! id) as [r|] eqn:Hr; simplify_eq; [|done].
  destruct (claimable now r) eqn:Hc; simplify_eq; [|done].
  case_match eqn:Hm; simplify_eq. apply Z.leb_le in Hm.
  eapply update_row_evolves; [done|]. by eapply claimed_row_evolves.
Qed.

Lemma renew_evolves now db_now id owner epoch secs d b d' :
  renew_lease now db_now id owner epoch secs d = Ok (b, d') → db_evolves d d'.
Proof.
  intros H. unfold renew_lease in H.
  destruct (datetime_add_seconds now secs); [|done].
  destruct (jobs d !! id) as [r|] eqn:Hr; simplify_eq; [|done].
  case_match eqn:Ho; simplify_eq; [|done]. apply andb_true_iff in Ho as [Ho%bool_decide_eq_true _].
  eapply update_row_evolves; [done|]. split; simpl; try reflexivity; auto.
  - intros i []. split; simpl; try done. by rewrite Ho.
  - unfold entry_evolves, entry_of. simpl. done.
Qed.

Lemma insert_job_evolves now j d d' : job_ok j → insert_job (job_row_of now j) d = Ok d' → db_evolves d d'.
Proof.
  intros Hj H. split; [| | |by eapply insert_job_wf|by eapply ledger_insert_job];
    unfold insert_job in H; simpl in H; destruct (jobs d !! job_id j) eqn:Hn; simplify_eq; simpl; [|done|].
  - intros id r Hr. rewrite lookup_insert_ne by congruence. by exists r.
  - exists (outbox_messages d), []. by rewrite app_nil_r.
Qed.

Lemma insert_event_evolves now e j t s tr p d d' :
  insert_event now e j t s tr p d = Ok d' → db_evolves d d'.
Proof.
  intros H. split; [| | |by eapply insert_event_wf|]; unfold insert_event in H; case_decide; simplify_eq; simpl.
  - intros id r Hr. by exists r.
  - by apply prefix_app_r.
  - exists (outbox_messages d), []. by rewrite app_nil_r.
  - done.
Qed.

Lemma insert_outbox_evolves now m d d' : insert_outbox now m d = Ok d' → db_evolves d d'.
Proof.
  intros H. split; [| | |by eapply insert_outbox_wf|]; unfold insert_outbox in H; case_decide; simplify_eq; simpl; [|done| |done].
  - intros id r Hr. by exists r.
  - by eexists _, _.
Qed.

Lemma set_outbox_evolves f d :
  (∀ r, message_evolves r (f r)) → (∀ r, message_wf r → message_wf (f r)) →
  db_evolves d (set_outbox (fmap f) d).
Proof.
  intros Hf Hw. split; [|done| | |done]; simpl.
  - intros id r Hr. by exists r.
  - exists (f <$> outbox_messages d), []. rewrite app_nil_r. split; [done|].
    apply Forall2_fmap_r. induction (outbox_messages d); constructor; [apply Hf|done].
  - apply set_outbox_wf. intros r. destruct (Hf r). auto.
Qed.

Lemma mark_published_evolves now ids d : db_evolves d (mark_published now ids d).
Proof.
  unfold mark_published. destruct ids; [done|]. apply set_outbox_evolves.
  - intros r. case_decide; [|done]. by split.
  - intros r. case_decide; [|done]. intros []. split; simpl; [by right|done].
Qed.

Lemma mark_failed_evolves id error d : db_evolves d (mark_failed id error d).
Proof.
  unfold mark_failed. apply set_outbox_evolves.
  - intros r. case_decide; [|done]. split; simpl; try done; lia.
  - intros r. case_decide; [|done]. intros []. split; simpl; [done|lia].
Qed.

#[export] Hint Resolve update_status_evolves claim_evolves renew_evolves insert_job_evolves
  insert_event_evolves insert_outbox_evolves mark_published_evolves mark_failed_evolves : mflow.

(** ** Log entries without their number, id and time *)

Definition entry (e : event_row) : pystr * pystr * pystr * pystr * json :=
  (je_job_id e, je_event_type e, je_source e, je_trace_id e, je_payload e).

(** The finished state of a row. *)
Record finished_row (target : JobStatus) (result : option json) (error : option pystr) (row row' : job_row) : Prop := {
  fr_id : jr_id row' = jr_id row;
  fr_payload : jr_request_payload row' = jr_request_payload row;
  fr_status : jr_status row' = status_value target;
  fr_result : jr_result row' = result;
  fr_error : jr_error_message row' = error;
  fr_owner : jr_lease_owner row' = None;
  fr_expires : jr_lease_expires_at row' = None;
  fr_epoch : jr_lease_epoch row' = jr_lease_epoch row + 1;
}.
