(* ===== verification/World.v ===== *)
(** * The world the services run in

    State: the committed database, the open [AsyncSession], Redis, what Kafka
    has accepted, the clocks, the metrics registry. Effects: a state monad with
    Python exceptions. Every [await] on an external service goes through
    [external], which consults the environment for its fate, so that each
    theorem about a handler can be stated for all failures or for none. *)
From S2P Require Import Prelude PyStr PyFloat Json Domain Database.
#[local] Open Scope Z_scope.

(** ** Redis: an interface *)

(** What the program relies on of [GET], [SET key value EX ttl] and
    [SET key value NX EX ttl], as Redis documents them. Values are the JSON
    texts the store writes and reads back, kept parsed. *)
Class RedisServer := {
  redis : Type;
  redis_get : Z → pystr → redis → option json;
  redis_set : Z → pystr → json → Z → redis → result redis;
  redis_set_nx : Z → pystr → json → Z → redis → result (bool * redis);
  redis_set_ok now k v ttl r : 0 < ttl → ∃ r', redis_set now k v ttl r = Ok r';
  redis_get_set now k v ttl r r' t k' :
    redis_set now k v ttl r = Ok r' → now ≤ t →
    redis_get t k' r' =
      if decide (k' = k) then (if t <? now + ttl * MICROS then Some v else None)
      else redis_get t k' r;
  redis_set_nx_eq now k v ttl r :
    0 < ttl →
    redis_set_nx now k v ttl r =
      match redis_get now k r with
      | Some _ => Ok (false, r)
      | None => r' ← redis_set now k v ttl r; Ok (true, r')
      end;
}.

(** ** Metrics: [app/core/metrics.py] *)

Inductive metric :=
  | JOB_CREATED_TOTAL | JOB_DUPLICATE_TOTAL | JOB_PROCESSING_SECONDS
  | INFERENCE_PROCESSING_SECONDS | INFERENCE_SEMAPHORE_WAIT_SECONDS | INFERENCE_ACTIVE_JOBS
  | INFERENCE_SIMULATED_GPU_UTILIZATION
  | INFERENCE_SIMULATED_FAILURE_TOTAL | DOWNSTREAM_PROCESSING_SECONDS
  | DOWNSTREAM_EVENT_PUBLISHED_TOTAL | DOWNSTREAM_SUCCESS_TOTAL | DOWNSTREAM_FAILURE_TOTAL
  | JOB_SUCCESS_TOTAL | JOB_FAILURE_TOTAL | JOB_EVENT_PUBLISHED_TOTAL
  | RETRY_PUBLISHED_TOTAL | DLQ_MESSAGES_TOTAL | RETRY_FAILURE_TOTAL | RETRY_DEFERRED_TOTAL
  | HTTP_REQUESTS_TOTAL (http_method path : pystr) (status : Z)
  | OUTBOX_PUBLISHED_TOTAL | OUTBOX_PUBLISH_FAILURE_TOTAL | OUTBOX_PENDING_BACKLOG
  | JOB_LEASE_TAKEOVER_TOTAL
  | JOB_TRANSITION_CONFLICT_TOTAL (target_status : pystr).

#[global] Instance metric_eq_dec : EqDecision metric.
Proof. solve_decision. Defined.

(** Counter and gauge values; number of observations for the histograms. *)
Definition metrics : Type := metric → Z.
Definition metric_add (m : metric) (n : Z) (ms : metrics) : metrics :=
  λ m', if decide (m' = m) then ms m' + n else ms m'.
Definition metric_set (m : metric) (n : Z) (ms : metrics) : metrics :=
  λ m', if decide (m' = m) then n else ms m'.

(** ** World *)

(** How one call to an external service ends: it is done; it fails before it
    has an effect; it takes effect but the caller gets an exception. *)
Inductive fate := Done | Failed (e : exn) | Lost (e : exn).

(** The parameters of the model: [uuid4()], the fate of each external call, the
    database driver's answer to a parameter that is not a text, [pow] of the C
    library, [random.random()]. *)
Record env := MkEnv {
  env_uuid4 : nat → pystr;
  env_fate : nat → fate;
  env_bind : json → result pystr;
  env_pow : float → float → float;
  env_random : nat → float;
}.

(** A record accepted by Kafka. *)
Record record := MkRecord {
  r_topic : pystr; r_value : json; r_headers : option (list (pystr * pybytes));
}.

(** An object added to a session and not flushed yet. *)
Inductive pending := NewJob (j : Job) | NewEvent (e : new_event) | NewOutbox (m : new_message).

Record world {RS : RedisServer} := MkWorld {
  w_env : env;
  w_db : db;
  w_tx : db;
  w_new : list pending;
  w_redis : redis;
  w_kafka : list record;
  w_clock : Z;
  w_db_clock : Z;
  w_uuids : nat;
  w_calls : nat;
  w_draws : nat;
  w_metrics : metrics;
}.

Section setters.
Context {RS : RedisServer}.

Definition set_db (d : db) (w : world) : world :=
  MkWorld _ (w_env w) d (w_tx w) (w_new w) (w_redis w) (w_kafka w) (w_clock w) (w_db_clock w)
    (w_uuids w) (w_calls w) (w_draws w) (w_metrics w).
Definition set_session (tx : db) (new : list pending) (w : world) : world :=
  MkWorld _ (w_env w) (w_db w) tx new (w_redis w) (w_kafka w) (w_clock w) (w_db_clock w)
    (w_uuids w) (w_calls w) (w_draws w) (w_metrics w).
Definition set_redis (r : redis) (w : world) : world :=
  MkWorld _ (w_env w) (w_db w) (w_tx w) (w_new w) r (w_kafka w) (w_clock w) (w_db_clock w)
    (w_uuids w) (w_calls w) (w_draws w) (w_metrics w).
Definition set_kafka (k : list record) (w : world) : world :=
  MkWorld _ (w_env w) (w_db w) (w_tx w) (w_new w) (w_redis w) k (w_clock w) (w_db_clock w)
    (w_uuids w) (w_calls w) (w_draws w) (w_metrics w).
Definition set_clock (t dt : Z) (w : world) : world :=
  MkWorld _ (w_env w) (w_db w) (w_tx w) (w_new w) (w_redis w) (w_kafka w) t dt
    (w_uuids w) (w_calls w) (w_draws w) (w_metrics w).
Definition set_counters (uuids calls draws : nat) (w : world) : world :=
  MkWorld _ (w_env w) (w_db w) (w_tx w) (w_new w) (w_redis w) (w_kafka w) (w_clock w) (w_db_clock w)
    uuids calls draws (w_metrics w).
Definition set_metrics (ms : metrics) (w : world) : world :=
  MkWorld _ (w_env w) (w_db w) (w_tx w) (w_new w) (w_redis w) (w_kafka w) (w_clock w) (w_db_clock w)
    (w_uuids w) (w_calls w) (w_draws w) ms.
End setters.

(** ** The monad *)

Definition M {RS : RedisServer} (A : Type) : Type := world → result A * world.

#[global] Instance M_ret {RS : RedisServer} : MRet M := λ A a w, (Ok a, w).
#[global] Instance M_bind {RS : RedisServer} : MBind M := λ A B k m w,
  match m w with (Ok a, w') => k a w' | (Raise e, w') => (Raise e, w') end.

Section effects.
Context {RS : RedisServer}.
Context {A : Type}.

Definition raise (e : exn) : M A := λ w, (Raise e, w).
Definition lift (r : result A) : M A := λ w, (r, w).
Definition reads (f : world → A) : M A := λ w, (Ok (f w), w).
Definition modify (f : world → world) : M unit := λ w, (Ok tt, f w).

(** [try: body except Exception as exc: handler(exc)] *)
Definition try_except (body : M A) (handler : exn → M A) : M A := λ w,
  match body w with
  | (Ok a, w') => (Ok a, w')
  | (Raise e, w') => handler e w'
  end.

(** [try: body finally: cleanup] *)
Definition try_finally (body : M A) (cleanup : M unit) : M A := λ w,
  let '(r, w') := body w in
  match cleanup w' with
  | (Ok _, w'') => (r, w'')
  | (Raise e, w'') => (Raise e, w'')
  end.

(** [await] of an external service. *)
Definition external (op : M A) : M A := λ w,
  let w' := set_counters (w_uuids w) (S (w_calls w)) (w_draws w) w in
  match env_fate (w_env w) (w_calls w) with
  | Done => op w'
  | Failed e => (Raise e, w')
  | Lost e => (Raise e, (op w').2)
  end.
End effects.

Section operations.
Context {RS : RedisServer}.

(** [str(uuid4())] *)
Definition uuid4 : M pystr := λ w,
  (Ok (env_uuid4 (w_env w) (w_uuids w)), set_counters (S (w_uuids w)) (w_calls w) (w_draws w) w).

(** [random.random()] *)
Definition random : M float := λ w,
  (Ok (env_random (w_env w) (w_draws w)), set_counters (w_uuids w) (w_calls w) (S (w_draws w)) w).

(** [datetime.now(UTC)] *)
Definition utcnow : M Z := reads w_clock.

(** [METRIC.inc(n)], [HISTOGRAM.observe(...)] and [GAUGE.set(n)] *)
Definition inc_by (m : metric) (n : Z) : M unit := modify (λ w, set_metrics (metric_add m n (w_metrics w)) w).
Definition inc (m : metric) : M unit := inc_by m 1.
Definition observe (m : metric) : M unit := inc_by m 1.
Definition gauge_set (m : metric) (n : Z) : M unit := modify (λ w, set_metrics (metric_set m n (w_metrics w)) w).
(** A gauge that is set to a float is kept in millionths. *)
Definition gauge_set_float (m : metric) (x : float) : M unit := gauge_set m (f_trunc (f_mul x (f_of 1000000 0))).

(** A value bound to a text column or parameter. *)
Definition bind_text (j : json) : M pystr := λ w,
  match j with JStr s => (Ok s, w) | _ => (env_bind (w_env w) j, w) end.

(** *** [AsyncSession] *)

Definition open_session : M unit := modify (λ w, set_session (w_db w) [] w).

(** [async with session_factory() as session: body]; leaving the block drops
    what was not committed. *)
Definition with_session {A} (body : M A) : M A :=
  open_session ;; try_finally body open_session.

(** [session.add(obj)] *)
Definition session_add (p : pending) : M unit :=
  modify (λ w, set_session (w_tx w) (w_new w ++ [p]) w).

(** A function of the transaction's view of the database. *)
Definition on_tx {A} (f : db → result (A * db)) : M A := λ w,
  match f (w_tx w) with
  | Ok (a, d) => (Ok a, set_session d (w_new w) w)
  | Raise e => (Raise e, w)
  end.

Definition insert (f : db → result db) : M unit :=
  on_tx (λ d, d' ← f d; Ok (tt, d')).

(** One [INSERT] of the flush. *)
Definition flush_one (p : pending) : M unit :=
  now ← reads w_db_clock;
  match p with
  | NewJob j => insert (insert_job (job_row_of now j))
  | NewEvent e =>
      event_id ← bind_text (ne_event_id e);
      job_id ← bind_text (ne_job_id e);
      event_type ← bind_text (ne_event_type e);
      source ← bind_text (ne_source e);
      trace_id ← bind_text (ne_trace_id e);
      insert (insert_event now event_id job_id event_type source trace_id (ne_payload e))
  | NewOutbox m => insert (insert_outbox now m)
  end.

Fixpoint flush_all (ps : list pending) : M unit :=
  match ps with
  | [] => mret tt
  | p :: ps' => flush_one p ;; flush_all ps'
  end.

(** Writing the added objects, in the order they were added. *)
Definition flush : M unit :=
  ps ← reads w_new; modify (λ w, set_session (w_tx w) [] w) ;; flush_all ps.

(** [await session.execute(statement)], after the autoflush. *)
Definition execute {A} (f : db → result (A * db)) : M A := external (flush ;; on_tx f).

(** [await session.commit()] *)
Definition commit : M unit :=
  external (flush ;; modify (λ w, set_session (w_tx w) [] (set_db (w_tx w) w))).

(** [await session.rollback()] *)
Definition rollback : M unit := external open_session.

(** *** The repositories, on the open session *)

(** [event_repository.add(event)] *)
Definition event_add (event : json) : M unit :=
  e ← lift (new_event_of event); session_add (NewEvent e).

(** [outbox_repository.add(topic=..., payload=..., headers=...)] *)
Definition outbox_add (topic : pystr) (payload : json) (headers : option (list (pystr * pystr))) : M pystr :=
  message_id ← uuid4;
  session_add (NewOutbox (MkNewMessage message_id topic payload headers)) ;;
  mret message_id.

(** [job_repository.get(job_id)] *)
Definition repo_get (id : pystr) : M (option Job) :=
  execute (λ d, j ← job_get id d; Ok (j, d)).

(** [job_repository.update_status(job_id, status, ...)] *)
Definition repo_update_status (id : pystr) (status : JobStatus) (up : status_update) : M (option Job) :=
  now ← reads w_db_clock; execute (update_status now id (status_value status) up).

(** [job_repository.claim_for_processing(job_id, owner=..., lease_seconds=...)] *)
Definition repo_claim (id owner : pystr) (lease_seconds : Z) : M (option JobLease) :=
  now ← utcnow; db_now ← reads w_db_clock;
  execute (claim_for_processing now db_now id owner lease_seconds).

(** [job_repository.renew_lease(job_id, owner=..., epoch=..., lease_seconds=...)] *)
Definition repo_renew (id owner : pystr) (epoch lease_seconds : Z) : M bool :=
  now ← utcnow; db_now ← reads w_db_clock;
  execute (renew_lease now db_now id owner epoch lease_seconds).

(** [build_event(...)] with its fresh id and time. *)
Definition new_event_json (job_id : json) (event_type : EventType) (source : pystr)
    (trace_id payload : json) : M json :=
  event_id ← uuid4; now ← utcnow;
  mret (build_event event_id now job_id event_type source trace_id payload).
End operations.

(** [None] for the keyword arguments that are not given. *)
Definition no_update : status_update := MkStatusUpdate None None false None None None false.
