(* ===== verification/Effects.v ===== *)
(** * Reasoning about effects

    Two ways to reason about a computation of the monad. [respects m]: whatever
    the environment does, [m] only lets the committed database evolve
    ([db_evolves]); more generally [stays R m]: [m] only goes along the preorder
    [R]. Both are closed under the operations of [World], so a handler is shown
    to stay within a relation by the tactic [stay]. And, in a calm
    environment (no external failure), the tactic [run] executes a computation
    symbolically with the equations [run_*]. *)
From S2P Require Import Prelude PyStr PyFloat Json Domain Database WellFormed Ledger Evolution World.
#[local] Open Scope Z_scope.

(** ** Relations every step of a computation keeps *)

(** A preorder on worlds that does not look at the counters of the model, which
    only grow. *)
Class StepRelation {RS : RedisServer} (R : relation world) := {
  #[global] step_preorder :: PreOrder R;
  step_counters w n c d : (w_uuids w ≤ n)%nat → R w (set_counters n c d w);
}.

Section stays.
Context {RS : RedisServer} (R : relation world) `{!StepRelation R}.

(** Whatever [m] returns or raises, it has gone from [w] along [R]. *)
Definition stays {A} (m : M A) : Prop := ∀ w, R w (m w).2.

Lemma stays_modify f : (∀ w, R w (f w)) → stays (modify f).
Proof. intros Hf w. apply Hf. Qed.

Lemma stays_bind {A B} (m : M A) (k : A → M B) :
  stays m → (∀ a, stays (k a)) → stays (m ≫= k).
Proof.
  intros Hm Hk w. unfold mbind, M_bind. specialize (Hm w).
  destruct (m w) as [[a|e] w'] eqn:E; simpl in *; [etrans; [exact Hm|apply Hk]|done].
Qed.

Lemma stays_try_except {A} (m : M A) h :
  stays m → (∀ e, stays (h e)) → stays (try_except m h).
Proof.
  intros Hm Hh w. unfold try_except. specialize (Hm w).
  destruct (m w) as [[a|e] w']; simpl in *; [done|]. etrans; [exact Hm|apply Hh].
Qed.

Lemma stays_try_finally {A} (m : M A) c : stays m → stays c → stays (try_finally m c).
Proof.
  intros Hm Hc w. unfold try_finally. specialize (Hm w).
  destruct (m w) as [r w'] eqn:E; simpl in *.
  specialize (Hc w'). destruct (c w') as [[?|?] w'']; simpl in *; by etrans.
Qed.

Lemma stays_external {A} (m : M A) : stays m → stays (external m).
Proof.
  intros Hm w. unfold external.
  destruct (env_fate (w_env w) (w_calls w)); simpl; [|by apply step_counters|];
    (etrans; [by apply step_counters|apply Hm]).
Qed.

Lemma stays_ret {A} (a : A) : stays (mret a).
Proof. by intros w. Qed.
Lemma stays_raise {A} e : stays (A:=A) (raise e).
Proof. by intros w. Qed.
Lemma stays_lift {A} (r : result A) : stays (lift r).
Proof. by intros w. Qed.
Lemma stays_reads {A} (f : world → A) : stays (reads f).
Proof. by intros w. Qed.
Lemma stays_utcnow : stays utcnow.
Proof. apply stays_reads. Qed.
Lemma stays_bind_text j : stays (bind_text j).
Proof. intros w. by destruct j. Qed.
Lemma stays_uuid4 : stays uuid4.
Proof. intros w. apply step_counters. simpl; lia. Qed.
Lemma stays_random : stays random.
Proof. intros w. apply step_counters. simpl; lia. Qed.
End stays.

#[export] Hint Resolve stays_ret stays_raise stays_lift stays_reads stays_utcnow stays_bind_text
  stays_uuid4 stays_random : mflow.

#[export] Hint Extern 0 (StepRelation _) => apply _ : mflow.

(** The two parts of a sequence. *)
Ltac stay_bind := apply stays_bind; [apply _| |].

(** Shows that a computation stays within a relation, following its structure. *)
Ltac stay :=
  repeat (intros;
    first
    [ solve [eauto 2 with mflow]
    | lazymatch goal with
      | |- stays _ (_ ≫= _) => apply stays_bind
      | |- stays _ (try_except _ _) => apply stays_try_except
      | |- stays _ (try_finally _ _) => apply stays_try_finally
      | |- stays _ (external _) => apply stays_external
      | |- stays _ (match ?x with _ => _ end) => destruct x
      end; try apply _ ]); intros.

(** *** The database evolves *)

Section respects.
Context {RS : RedisServer}.

(** An added object the repositories make. *)
Definition new_ok (p : pending) : Prop := match p with NewJob j => job_ok j | _ => True end.

(** The open transaction extends the committed database, and so do the added objects. *)
Definition tx_ok (w : world) : Prop := db_evolves (w_db w) (w_tx w) ∧ Forall new_ok (w_new w).

Definition safe_step (w w' : world) : Prop :=
  tx_ok w → db_evolves (w_db w) (w_db w') ∧ tx_ok w'.

#[global] Instance safe_step_relation : StepRelation safe_step.
Proof.
  split; [split|].
  - by intros w.
  - intros w1 w2 w3 H12 H23 H1.
    destruct (H12 H1) as [E12 H2]. destruct (H23 H2) as [E23 H3].
    split; [by etrans|done].
  - by intros w n c d.
Qed.

Abbreviation respects := (stays safe_step).

Lemma respects_modify f :
  (∀ w, w_db (f w) = w_db w ∧ w_tx (f w) = w_tx w ∧ w_new (f w) = w_new w) → respects (modify f).
Proof.
  intros Hf w Hw. destruct (Hf w) as (E1 & E2 & E3). unfold tx_ok in *. simpl. rewrite E1, E2, E3. by split.
Qed.

Lemma respects_open_session : respects open_session.
Proof. intros w Hw. split; [done|]. unfold tx_ok. simpl. done. Qed.

(** The added objects are taken over by the flush. *)
Lemma respects_take_new {A} (k : list pending → M A) :
  (∀ ps, Forall new_ok ps → respects (k ps)) →
  respects (ps ← reads w_new; modify (λ w, set_session (w_tx w) [] w) ;; k ps).
Proof.
  intros Hk w Hw. assert (safe_step w (set_session (w_tx w) [] w)) as S.
  { intros [Ht Hn]. split; [done|]. by split; [|constructor]. }
  destruct Hw as [Ht Hn]. exact (transitivity S (Hk _ Hn _) (conj Ht Hn)).
Qed.

Lemma respects_on_tx {A} (f : db → result (A * db)) :
  (∀ d a d', f d = Ok (a, d') → db_evolves d d') → respects (on_tx f).
Proof.
  intros Hf w Hw. unfold on_tx. destruct (f (w_tx w)) as [[a d]|e] eqn:E; simpl; [|by split].
  split; [done|]. destruct Hw as [Ht Hn]. split; simpl; [|done]. etrans; [exact Ht|]. eauto.
Qed.

Lemma respects_insert f : (∀ d d', f d = Ok d' → db_evolves d d') → respects (insert f).
Proof.
  intros Hf. apply respects_on_tx. intros d [] d' (d1 & E & E')%result_bind_ok. simplify_eq. eauto.
Qed.
End respects.

Abbreviation respects := (stays safe_step).

#[export] Hint Resolve respects_open_session : mflow.
#[export] Hint Extern 2 (stays safe_step (modify _)) => apply respects_modify; by intros : mflow.

Section operations_respect.
Context {RS : RedisServer}.

Lemma respects_flush_one p : new_ok p → respects (flush_one p).
Proof.
  intros Hp. unfold flush_one. stay_bind; [stay|intros now]. destruct p.
  - apply respects_insert. eauto with mflow.
  - repeat (stay_bind; [by stay|intros]). apply respects_insert. eauto with mflow.
  - apply respects_insert. eauto with mflow.
Qed.

Lemma respects_flush : respects flush.
Proof.
  apply respects_take_new. induction 1 as [|p ps Hp _ IH]; simpl; [stay|].
  stay_bind; [by apply respects_flush_one|done].
Qed.

Lemma respects_execute {A} (f : db → result (A * db)) :
  (∀ d a d', f d = Ok (a, d') → db_evolves d d') → respects (execute f).
Proof.
  intros Hf. apply stays_external; [apply _|]; stay_bind; [apply respects_flush|].
  intros _. by apply respects_on_tx.
Qed.

Lemma respects_commit : respects commit.
Proof.
  apply stays_external; [apply _|]; stay_bind; [apply respects_flush|].
  intros _ w [Ht Hn]. simpl. split; [done|]. by split; [|constructor].
Qed.

Lemma respects_rollback : respects rollback.
Proof. unfold rollback. stay. Qed.

Lemma respects_with_session {A} (m : M A) : respects m → respects (with_session m).
Proof. intros. unfold with_session. stay. Qed.

Lemma respects_session_add p : new_ok p → respects (session_add p).
Proof.
  intros Hp w [Ht Hn]. split; [done|]. split; simpl; [done|]. apply Forall_app. split; [done|by constructor].
Qed.
#[local] Hint Extern 1 (stays safe_step (session_add _)) => apply respects_session_add; repeat split : mflow.

Lemma respects_inc_by m n : respects (inc_by m n).
Proof. unfold inc_by. stay. Qed.
Lemma respects_gauge_set m n : respects (gauge_set m n).
Proof. unfold gauge_set. stay. Qed.

Lemma respects_event_add e : respects (event_add e).
Proof. unfold event_add. stay. Qed.

Lemma respects_outbox_add t p h : respects (outbox_add t p h).
Proof. unfold outbox_add. stay. Qed.

Lemma respects_repo_get id : respects (repo_get id).
Proof.
  apply respects_execute. intros d a d' (j & _ & E)%result_bind_ok. by simplify_eq.
Qed.

Lemma respects_repo_update id st up :
  update_ok st up → respects (repo_update_status id st up).
Proof.
  intros. unfold repo_update_status. stay. apply respects_execute. eauto with mflow.
Qed.

Lemma respects_repo_claim id owner secs : respects (repo_claim id owner secs).
Proof. unfold repo_claim. unfold utcnow. stay. apply respects_execute. eauto with mflow. Qed.

Lemma respects_repo_renew id owner epoch secs : respects (repo_renew id owner epoch secs).
Proof. unfold repo_renew. unfold utcnow. stay. apply respects_execute. eauto with mflow. Qed.

Lemma respects_new_event j t s tr p : respects (new_event_json j t s tr p).
Proof. unfold new_event_json, utcnow. stay. Qed.
End operations_respect.

#[export] Hint Resolve respects_flush respects_commit respects_rollback respects_with_session
  respects_inc_by respects_gauge_set respects_event_add respects_outbox_add
  respects_repo_get respects_repo_update respects_repo_claim respects_repo_renew
  respects_new_event : mflow.
#[export] Hint Extern 1 (stays safe_step (session_add _)) => apply respects_session_add; repeat split : mflow.

(** *** Nothing is committed *)

Section keeps.
Context {RS : RedisServer}.

Definition same_db (w w' : world) : Prop := w_db w' = w_db w.

#[global] Instance same_db_relation : StepRelation same_db.
Proof. split; [split|]; unfold same_db; [done|congruence|done]. Qed.

Lemma keeps_on_tx {A} (f : db → result (A * db)) : stays same_db (on_tx f).
Proof. intros w. unfold on_tx, same_db. by destruct (f (w_tx w)) as [[]|]. Qed.
#[local] Hint Resolve keeps_on_tx : mflow.

Lemma keeps_modify f : (∀ w, w_db (f w) = w_db w) → stays same_db (modify f).
Proof. intros Hf w. apply Hf. Qed.
#[local] Hint Extern 2 (stays same_db (modify _)) => apply keeps_modify; by intros : mflow.

Lemma keeps_flush_all ps : stays same_db (flush_all ps).
Proof.
  induction ps as [|p ps IH]; simpl; [stay|]. stay_bind; [|done].
  unfold flush_one, insert. stay_bind; [stay|intros now]. destruct p; stay.
Qed.
#[local] Hint Resolve keeps_flush_all : mflow.

Lemma keeps_flush : stays same_db flush.
Proof. unfold flush. stay. Qed.
#[local] Hint Resolve keeps_flush : mflow.

Lemma keeps_execute {A} (f : db → result (A * db)) : stays same_db (execute f).
Proof. unfold execute. stay. Qed.
Lemma keeps_open_session : stays same_db open_session.
Proof. unfold open_session. stay. Qed.
#[local] Hint Resolve keeps_open_session keeps_execute : mflow.
Lemma keeps_rollback : stays same_db rollback.
Proof. unfold rollback. stay. Qed.
Lemma keeps_with_session {A} (m : M A) : stays same_db m → stays same_db (with_session m).
Proof. intros. unfold with_session. stay. Qed.
Lemma keeps_session_add p : stays same_db (session_add p).
Proof. unfold session_add. stay. Qed.
Lemma keeps_inc_by m n : stays same_db (inc_by m n).
Proof. unfold inc_by. stay. Qed.
Lemma keeps_gauge_set m n : stays same_db (gauge_set m n).
Proof. unfold gauge_set. stay. Qed.
#[local] Hint Resolve keeps_session_add : mflow.
Lemma keeps_event_add e : stays same_db (event_add e).
Proof. unfold event_add. stay. Qed.
Lemma keeps_outbox_add t p h : stays same_db (outbox_add t p h).
Proof. unfold outbox_add. stay. Qed.
Lemma keeps_repo_get id : stays same_db (repo_get id).
Proof. apply keeps_execute. Qed.
Lemma keeps_repo_update id st up : stays same_db (repo_update_status id st up).
Proof. unfold repo_update_status. stay. Qed.
Lemma keeps_repo_claim id owner secs : stays same_db (repo_claim id owner secs).
Proof. unfold repo_claim. stay. Qed.
Lemma keeps_new_event j t s tr p : stays same_db (new_event_json j t s tr p).
Proof. unfold new_event_json. stay. Qed.
End keeps.

#[export] Hint Resolve keeps_on_tx keeps_flush_all keeps_flush keeps_execute keeps_open_session
  keeps_rollback keeps_with_session keeps_session_add keeps_inc_by keeps_gauge_set keeps_event_add
  keeps_outbox_add keeps_repo_get keeps_repo_update keeps_repo_claim keeps_new_event : mflow.
#[export] Hint Extern 2 (stays same_db (modify _)) => apply keeps_modify; by intros : mflow.

(** [stay] also enters the body of a session. *)
Ltac stay ::=
  repeat (intros;
    first
    [ solve [eauto 2 with mflow]
    | lazymatch goal with
      | |- stays _ (_ ≫= _) => apply stays_bind
      | |- stays _ (try_except _ _) => apply stays_try_except
      | |- stays _ (try_finally _ _) => apply stays_try_finally
      | |- stays _ (external _) => apply stays_external
      | |- stays safe_step (with_session _) => apply respects_with_session
      | |- stays same_db (with_session _) => apply keeps_with_session
      | |- stays safe_step (repo_update_status _ _ _) => apply respects_repo_update; by repeat split
      | |- stays _ (match ?x with _ => _ end) => destruct x
      end; try apply _ ]); intros.

(** A sequence that returns. *)
Lemma bind_inv {RS : RedisServer} {A B} (m : M A) (k : A → M B) w b w' :
  (m ≫= k) w = (Ok b, w') → ∃ a w1, m w = (Ok a, w1) ∧ k a w1 = (Ok b, w').
Proof. unfold mbind, M_bind. destruct (m w) as [[a|e] w1]; intros E; [eauto|done]. Qed.

(** What follows does not commit. *)
Lemma bind_same_db {RS : RedisServer} {A B} (m : M A) (k : A → M B) w :
  (∀ a, stays same_db (k a)) → w_db ((m ≫= k) w).2 = w_db (m w).2.
Proof. intros H. unfold mbind, M_bind. destruct (m w) as [[a|e] w']; [apply H|done]. Qed.

Lemma with_session_db {RS : RedisServer} {A} (m : M A) w :
  w_db (with_session m w).2 = w_db (m (set_session (w_db w) [] w)).2.
Proof.
  unfold with_session, try_finally, mbind, M_bind. simpl.
  by destruct (m (set_session (w_db w) [] w)) as [r w'].
Qed.

Lemma with_session_kafka {RS : RedisServer} {A} (m : M A) w :
  w_kafka (with_session m w).2 = w_kafka (m (set_session (w_db w) [] w)).2.
Proof.
  unfold with_session, try_finally, mbind, M_bind. simpl.
  by destruct (m (set_session (w_db w) [] w)) as [r w'].
Qed.

(** ** Symbolic execution *)

(** A finished stretch of a run: no session is open, the database is [d] and [n]
    ids were drawn; Redis, Kafka and the clocks are as before. *)
Record ran {RS : RedisServer} (d : db) (n : nat) (w w' : world) : Prop := {
  ran_env : w_env w' = w_env w;
  ran_db : w_db w' = d;
  ran_uuids : w_uuids w' = (n + w_uuids w)%nat;
  ran_redis : w_redis w' = w_redis w;
  ran_kafka : w_kafka w' = w_kafka w;
  ran_clock : w_clock w' = w_clock w;
  ran_db_clock : w_db_clock w' = w_db_clock w;
}.

(** No external call fails. *)
Definition calm {RS : RedisServer} (w : world) : Prop := ∀ n, env_fate (w_env w) n = Done.

(** Fresh ids: [uuid4] does not repeat, and from the [n]-th draw on its answers
    are not in use in the database. *)
Definition unused (x : pystr) (d : db) : Prop :=
  (jobs d !! x = None)
  ∧ (x ∉ (je_event_id <$> job_events d))
  ∧ (x ∉ (ob_message_id <$> outbox_messages d)).

Definition fresh_from (e : env) (n : nat) (d : db) : Prop :=
  Inj (=) (=) (env_uuid4 e) ∧ ∀ m, (n ≤ m)%nat → unused (env_uuid4 e m) d.

Definition fresh_ids {RS : RedisServer} (w : world) : Prop :=
  fresh_from (w_env w) (w_uuids w) (w_db w).

Section fresh.
Context (e : env).

Lemma fresh_later n m d : (n ≤ m)%nat → fresh_from e n d → fresh_from e m d.
Proof. intros Hle [Hi Hf]. split; [done|]. intros k Hk. apply Hf. lia. Qed.

Lemma fresh_update n d id row row' :
  fresh_from e n d → jobs d !! id = Some row → fresh_from e n (set_jobs <[id := row']> d).
Proof.
  intros [Hi Hf] Hr. split; [done|]. intros k Hk. destruct (Hf k Hk) as (Hj & He & Ho).
  split_and!; [|done..]. simpl. rewrite lookup_insert_ne by congruence. done.
Qed.

Lemma fresh_append_event n now j t s tr p d :
  fresh_from e n d → fresh_from e (S n) (append_event now (env_uuid4 e n) j t s tr p d).
Proof.
  intros [Hi Hf]. split; [done|]. intros k Hk. destruct (Hf k) as (Hj & He & Ho); [lia|].
  split_and!; [done| |done]. simpl. rewrite fmap_app, not_elem_of_app. split; [done|].
  intros H%list_elem_of_singleton. simpl in H. apply (inj _) in H. lia.
Qed.

Lemma fresh_append_outbox n now t p h d :
  fresh_from e n d → fresh_from e (S n) (append_outbox now (MkNewMessage (env_uuid4 e n) t p h) d).
Proof.
  intros [Hi Hf]. split; [done|]. intros k Hk. destruct (Hf k) as (Hj & He & Ho); [lia|].
  split_and!; [done|done|]. simpl. rewrite fmap_app, not_elem_of_app. split; [done|].
  intros H%list_elem_of_singleton. simpl in H. apply (inj _) in H. lia.
Qed.
End fresh.

Lemma insert_event_fresh e n now j t s tr p d :
  fresh_from e n d →
  insert_event now (env_uuid4 e n) j t s tr p d = Ok (append_event now (env_uuid4 e n) j t s tr p d).
Proof. intros [_ H]. unfold insert_event. rewrite decide_False; [done|]. by apply H. Qed.

Lemma insert_outbox_fresh e n now t p h d :
  fresh_from e n d →
  insert_outbox now (MkNewMessage (env_uuid4 e n) t p h) d
  = Ok (append_outbox now (MkNewMessage (env_uuid4 e n) t p h) d).
Proof. intros [_ H]. unfold insert_outbox. rewrite decide_False; [done|]. by apply H. Qed.

(** One more external call has been made. *)
Definition called {RS : RedisServer} (w : world) : world :=
  set_counters (w_uuids w) (S (w_calls w)) (w_draws w) w.

(** The next external call is done. *)
Definition ready {RS : RedisServer} (w : world) : Prop := env_fate (w_env w) (w_calls w) = Done.

Lemma calm_ready {RS : RedisServer} w : calm w → ready w.
Proof. intros H. apply H. Qed.

Lemma external_ready {RS : RedisServer} {A} (m : M A) w : ready w → external m w = m (called w).
Proof. intros Hc. unfold external. by rewrite Hc. Qed.

Lemma ran_calm {RS : RedisServer} d n w w' : ran d n w w' → calm w → calm w'.
Proof. intros R Hc k. rewrite (ran_env _ _ _ _ R). apply Hc. Qed.
Lemma ran_fresh {RS : RedisServer} d n w w' :
  ran d n w w' → fresh_from (w_env w) (n + w_uuids w) d → fresh_ids w'.
Proof. intros R Hf. unfold fresh_ids. by rewrite (ran_env _ _ _ _ R), (ran_db _ _ _ _ R), (ran_uuids _ _ _ _ R). Qed.

Lemma external_calm {RS : RedisServer} {A} (m : M A) w : calm w → external m w = m (called w).
Proof. intros Hc. unfold external. by rewrite Hc. Qed.

(** The rows a list of added objects inserts; events with text fields. *)
Definition insert_pending (now : Z) (p : pending) (d : db) : result db :=
  match p with
  | NewJob j => insert_job (job_row_of now j) d
  | NewEvent (MkNewEvent (JStr e) (JStr j) (JStr t) (JStr s) (JStr tr) payload) =>
      insert_event now e j t s tr payload d
  | NewEvent _ => Raise (TypeError [])
  | NewOutbox m => insert_outbox now m d
  end.

Fixpoint insert_pendings (now : Z) (ps : list pending) (d : db) : result db :=
  match ps with
  | [] => Ok d
  | p :: ps' => d' ← insert_pending now p d; insert_pendings now ps' d'
  end.

Create HintDb runs discriminated.

Section run.
Context {RS : RedisServer}.

Lemma run_bind {A B} (m : M A) (k : A → M B) w a w' r :
  m w = (Ok a, w') → k a w' = r → (m ≫= k) w = r.
Proof. intros E1 E2. unfold mbind, M_bind. by rewrite E1. Qed.

Lemma bind_ok {A B} (m : M A) (k : A → M B) w a w' :
  m w = (Ok a, w') → (m ≫= k) w = k a w'.
Proof. intros E. unfold mbind, M_bind. by rewrite E. Qed.

Lemma bind_assoc {A B C} (m : M A) (f : A → M B) (g : B → M C) w :
  ((m ≫= f) ≫= g) w = (m ≫= λ a, f a ≫= g) w.
Proof. unfold mbind, M_bind. by destruct (m w) as [[a|e] w']. Qed.

Lemma run_bind_raise {A B} (m : M A) (k : A → M B) w e w' :
  m w = (Raise e, w') → (m ≫= k) w = (Raise e, w').
Proof. intros E1. unfold mbind, M_bind. by rewrite E1. Qed.

Lemma run_try_ok {A} (m : M A) h w a w' :
  m w = (Ok a, w') → try_except m h w = (Ok a, w').
Proof. intros E. unfold try_except. by rewrite E. Qed.

Lemma run_try_raise {A} (m : M A) h w e w' r :
  m w = (Raise e, w') → h e w' = r → try_except m h w = r.
Proof. intros E1 E2. unfold try_except. by rewrite E1. Qed.

Lemma run_try_finally {A} (m : M A) c w r w' u w'' :
  m w = (r, w') → c w' = (Ok u, w'') → try_finally m c w = (r, w'').
Proof. intros E1 E2. unfold try_finally. by rewrite E1, E2. Qed.

Lemma run_with_session {A} (m : M A) w r w' :
  m (set_session (w_db w) [] w) = (r, w') →
  with_session m w = (r, set_session (w_db w') [] w').
Proof.
  intros E. unfold with_session. eapply run_bind; [reflexivity|].
  by eapply run_try_finally.
Qed.

Lemma run_ret {A} (a : A) w : mret (M:=M) a w = (Ok a, w).
Proof. done. Qed.
Lemma run_lift {A} (a : A) w : lift (Ok a) w = (Ok a, w).
Proof. done. Qed.
Lemma run_reads {A} (f : world → A) w : reads f w = (Ok (f w), w).
Proof. done. Qed.
Lemma run_modify f w : modify f w = (Ok tt, f w).
Proof. done. Qed.
Lemma run_utcnow w : utcnow w = (Ok (w_clock w), w).
Proof. done. Qed.
Lemma run_uuid4 w :
  uuid4 w = (Ok (env_uuid4 (w_env w) (w_uuids w)),
             set_counters (S (w_uuids w)) (w_calls w) (w_draws w) w).
Proof. done. Qed.
Lemma run_bind_text s w : bind_text (JStr s) w = (Ok s, w).
Proof. done. Qed.
Lemma run_inc_by m n w : inc_by m n w = (Ok tt, set_metrics (metric_add m n (w_metrics w)) w).
Proof. done. Qed.
Lemma run_inc m w : inc m w = (Ok tt, set_metrics (metric_add m 1 (w_metrics w)) w).
Proof. done. Qed.
Lemma run_observe m w : observe m w = (Ok tt, set_metrics (metric_add m 1 (w_metrics w)) w).
Proof. done. Qed.
Lemma run_gauge_set m n w :
  gauge_set m n w = (Ok tt, set_metrics (metric_set m n (w_metrics w)) w).
Proof. done. Qed.
Lemma run_if_inc b m n w :
  (if b : bool then inc_by m n else mret tt) w =
    (Ok tt, set_metrics (if b then metric_add m n (w_metrics w) else w_metrics w) w).
Proof. destruct b; [done|]. by destruct w. Qed.
Lemma run_session_add p w : session_add p w = (Ok tt, set_session (w_tx w) (w_new w ++ [p]) w).
Proof. done. Qed.
Lemma run_rollback w : calm w → rollback w = (Ok tt, set_session (w_db w) [] (called w)).
Proof. intros. unfold rollback. by rewrite external_calm. Qed.

Lemma run_new_event j t s tr p w :
  new_event_json j t s tr p w =
    (Ok (build_event (env_uuid4 (w_env w) (w_uuids w)) (w_clock w) j t s tr p),
     set_counters (S (w_uuids w)) (w_calls w) (w_draws w) w).
Proof. done. Qed.

Lemma run_event_add e now j t s tr p w :
  event_add (build_event e now j t s tr p) w =
    (Ok tt, set_session (w_tx w)
       (w_new w ++ [NewEvent (MkNewEvent (JStr e) j (JStr (event_type_value t)) (JStr s) tr p)]) w).
Proof. by destruct t. Qed.

Lemma run_outbox_add t p h w :
  outbox_add t p h w =
    (Ok (env_uuid4 (w_env w) (w_uuids w)),
     set_session (w_tx w)
       (w_new w ++ [NewOutbox (MkNewMessage (env_uuid4 (w_env w) (w_uuids w)) t p h)])
       (set_counters (S (w_uuids w)) (w_calls w) (w_draws w) w)).
Proof. done. Qed.

Lemma run_insert f w d : f (w_tx w) = Ok d → insert f w = (Ok tt, set_session d (w_new w) w).
Proof. intros E. unfold insert, on_tx, mbind, result_bind. by rewrite E. Qed.

Lemma run_flush_one p w d :
  insert_pending (w_db_clock w) p (w_tx w) = Ok d →
  flush_one p w = (Ok tt, set_session d (w_new w) w).
Proof.
  intros E. unfold flush_one. eapply run_bind; [apply run_reads|cbv beta].
  destruct p as [j|[e j t s tr payload]|m]; [by apply run_insert| |by apply run_insert].
  destruct e; try done. destruct j; try done. destruct t; try done. destruct s; try done.
  destruct tr; try done. repeat (eapply run_bind; [apply run_bind_text|cbv beta]).
  by apply run_insert.
Qed.

Lemma run_flush_all ps w d :
  insert_pendings (w_db_clock w) ps (w_tx w) = Ok d →
  flush_all ps w = (Ok tt, set_session d (w_new w) w).
Proof.
  revert w. induction ps as [|p ps IH]; intros w E; simpl in *; [simplify_eq; by destruct w|].
  apply result_bind_ok in E as (d1 & E1 & E2).
  eapply run_bind; [by apply run_flush_one|]. by rewrite IH.
Qed.

Lemma run_flush w d :
  insert_pendings (w_db_clock w) (w_new w) (w_tx w) = Ok d →
  flush w = (Ok tt, set_session d [] w).
Proof.
  intros E. unfold flush. eapply run_bind; [apply run_reads|].
  eapply run_bind; [apply run_modify|]. cbv beta. by erewrite run_flush_all.
Qed.

Lemma run_commit_ready w d :
  ready w → insert_pendings (w_db_clock w) (w_new w) (w_tx w) = Ok d →
  commit w = (Ok tt, set_session d [] (set_db d (called w))).
Proof.
  intros Hc E. unfold commit. rewrite external_ready by done.
  eapply run_bind; [by apply run_flush|]. done.
Qed.

Lemma run_commit w d :
  calm w → insert_pendings (w_db_clock w) (w_new w) (w_tx w) = Ok d →
  commit w = (Ok tt, set_session d [] (set_db d (called w))).
Proof. intros Hc. apply run_commit_ready, Hc. Qed.

Lemma run_execute_ready {A} (f : db → result (A * db)) w a d :
  ready w → w_new w = [] → f (w_tx w) = Ok (a, d) →
  execute f w = (Ok a, set_session d [] (called w)).
Proof.
  intros Hc Hn E. unfold execute. rewrite external_ready by done.
  eapply run_bind; [by apply run_flush; simpl; rewrite Hn|].
  unfold on_tx. simpl. by rewrite E.
Qed.

Lemma run_execute {A} (f : db → result (A * db)) w a d :
  calm w → w_new w = [] → f (w_tx w) = Ok (a, d) →
  execute f w = (Ok a, set_session d [] (called w)).
Proof. intros Hc. apply run_execute_ready, Hc. Qed.

Lemma run_commit_failed w e :
  env_fate (w_env w) (w_calls w) = Failed e → commit w = (Raise e, called w).
Proof. intros E. unfold commit, external. by rewrite E. Qed.

(** A statement that may raise. *)
Lemma run_execute_eq {A} (f : db → result (A * db)) w :
  calm w → w_new w = [] →
  execute f w = match f (w_tx w) with
                | Ok (a, d) => (Ok a, set_session d [] (called w))
                | Raise e => (Raise e, set_session (w_tx w) [] (called w))
                end.
Proof.
  intros Hc Hn. unfold execute. rewrite external_calm by done.
  eapply run_bind; [by apply run_flush; simpl; rewrite Hn|]. done.
Qed.

(** A statement in a session without added objects, whatever happens to it. *)
Lemma execute_cases {A} (f : db → result (A * db)) w a d :
  w_new w = [] → f (w_tx w) = Ok (a, d) →
  ∃ r w', execute f w = (r, w')
    ∧ w_db w' = w_db w ∧ w_new w' = [] ∧ w_kafka w' = w_kafka w ∧ w_clock w' = w_clock w
    ∧ (r = Ok a ∧ w_tx w' = d ∨ (∃ e, r = Raise e) ∧ (w_tx w' = w_tx w ∨ w_tx w' = d)).
Proof.
  intros Hn E. unfold execute, external. set (w0 := set_counters _ _ _ w).
  assert ((flush ;; on_tx f) w0 = (Ok a, set_session d [] w0)) as E0.
  { eapply run_bind; [by apply run_flush; simpl; rewrite Hn|]. unfold on_tx. simpl. by rewrite E. }
  rewrite E0. destruct (env_fate _ _); eexists _, _; (split; [reflexivity|]); simpl; rewrite ?Hn;
    (split_and!; [done..|]); eauto 6.
Qed.

Lemma commit_cases w :
  w_new w = [] →
  (w_db (commit w).2 = w_db w ∨ w_db (commit w).2 = w_tx w) ∧ w_kafka (commit w).2 = w_kafka w.
Proof.
  intros Hn. unfold commit, external. set (w0 := set_counters _ _ _ w).
  assert (flush w0 = (Ok tt, set_session (w_tx w) [] w0)) as E0.
  { apply run_flush. simpl. by rewrite Hn. }
  unfold mbind, M_bind. rewrite E0. destruct (env_fate _ _); simpl; auto.
Qed.

Lemma run_repo_get id w j :
  calm w → w_new w = [] → job_get id (w_tx w) = Ok j →
  repo_get id w = (Ok j, set_session (w_tx w) [] (called w)).
Proof. intros Hc Hn E. apply run_execute; [done..|]. by rewrite E. Qed.

Lemma run_repo_update id st up w j d :
  calm w → w_new w = [] →
  update_status (w_db_clock w) id (status_value st) up (w_tx w) = Ok (j, d) →
  repo_update_status id st up w = (Ok j, set_session d [] (called w)).
Proof. intros. eapply run_bind; [apply run_reads|]. by apply run_execute. Qed.

Lemma run_repo_claim id owner secs w l d :
  calm w → w_new w = [] →
  claim_for_processing (w_clock w) (w_db_clock w) id owner secs (w_tx w) = Ok (l, d) →
  repo_claim id owner secs w = (Ok l, set_session d [] (called w)).
Proof.
  intros. eapply run_bind; [apply run_utcnow|]. eapply run_bind; [apply run_reads|].
  by apply run_execute.
Qed.

(** *** The outcomes of a commit, whatever the environment does *)

(** An object whose columns are bound to texts. *)
Definition textual (p : pending) : Prop :=
  match p with
  | NewEvent (MkNewEvent (JStr _) (JStr _) (JStr _) (JStr _) (JStr _) _) => True
  | NewEvent _ => False
  | _ => True
  end.

Lemma flush_one_raise p w e :
  textual p → insert_pending (w_db_clock w) p (w_tx w) = Raise e → flush_one p w = (Raise e, w).
Proof.
  intros T E. unfold flush_one. eapply run_bind; [apply run_reads|cbv beta].
  assert (∀ f, f (w_tx w) = Raise e → insert f w = (Raise e, w)) as Hi.
  { intros f Hf. unfold insert, on_tx, mbind, result_bind. by rewrite Hf. }
  destruct p as [j|[e1 j t s tr payload]|m]; [by apply Hi| |by apply Hi].
  destruct e1; try done. destruct j; try done. destruct t; try done. destruct s; try done.
  destruct tr; try done. repeat (eapply run_bind; [apply run_bind_text|cbv beta]).
  by apply Hi.
Qed.

Lemma flush_all_raise ps w e :
  Forall textual ps → insert_pendings (w_db_clock w) ps (w_tx w) = Raise e →
  ∃ tx, flush_all ps w = (Raise e, set_session tx (w_new w) w).
Proof.
  intros T. revert w. induction T as [|p ps Tp T IH]; intros w E; simpl in E; [done|].
  destruct (insert_pending _ p _) as [d|e'] eqn:Ep; simpl in *.
  - apply run_flush_one in Ep. destruct (IH (set_session d (w_new w) w)) as [tx Htx]; [done|].
    exists tx. eapply run_bind; [done|]. by rewrite Htx.
  - simplify_eq. exists (w_tx w). eapply run_bind_raise. rewrite (flush_one_raise _ _ e) by done.
    by destruct w.
Qed.

(** The transaction is committed as a whole or not at all. *)
Lemma commit_atomic w :
  Forall textual (w_new w) →
  (w_db (commit w).2 = w_db w ∧ is_ok (commit w).1 = false)
  ∨ insert_pendings (w_db_clock w) (w_new w) (w_tx w) = Ok (w_db (commit w).2).
Proof.
  intros T. unfold commit, external. set (w' := set_counters _ _ _ w).
  destruct (insert_pendings (w_db_clock w) (w_new w) (w_tx w)) as [d|e] eqn:E.
  - assert (flush w' = (Ok tt, set_session d [] w')) as F by by apply run_flush.
    destruct (env_fate _ _); simpl; [right|by left|right]; unfold mbind, M_bind; by rewrite F.
  - left. assert (∃ tx, flush w' = (Raise e, set_session tx [] w')) as [tx F].
    { unfold flush. destruct (flush_all_raise (w_new w) (set_session (w_tx w) [] w') e) as [tx F]; [done..|].
      exists tx. eapply run_bind; [apply run_reads|]. eapply run_bind; [apply run_modify|]. exact F. }
    destruct (env_fate _ _); simpl; [| |]; unfold mbind, M_bind; by rewrite ?F.
Qed.
End run.

#[export] Hint Resolve run_ret run_lift run_reads run_modify run_utcnow run_uuid4 run_bind_text
  run_inc_by run_inc run_if_inc run_observe run_gauge_set run_session_add run_new_event run_event_add
  run_outbox_add : runs.
#[export] Hint Extern 1 (rollback _ = _) => eapply run_rollback; assumption : runs.

(** Runs the first command of a computation whose outcome is a known equation. *)
Ltac run1 := eapply run_bind; [solve [eauto 1 with runs]|cbv beta].
(** Runs as far as the equations in [runs] and the given one lead. *)
Ltac run_with H := eapply run_bind; [eapply H|cbv beta].
(** The same in the middle of a statement. *)
Ltac step := erewrite bind_ok by (solve [eauto 1 with runs]); cbv beta.
Ltac step_with H := erewrite bind_ok by (eapply H); cbv beta.
Ltac run := repeat run1; try reflexivity.

(** *** Redis and the clock are left alone *)

Definition same_redis {RS : RedisServer} (w w' : world) : Prop := w_redis w' = w_redis w ∧ w_clock w' = w_clock w.

#[global] Instance same_redis_relation {RS : RedisServer} : StepRelation same_redis.
Proof. split; [split|]; unfold same_redis; [done|intros ??? [] []; split; congruence|done]. Qed.

Section same_redis.
Context {RS : RedisServer}.

Lemma same_redis_modify f : (∀ w, same_redis w (f w)) → stays same_redis (modify f).
Proof. intros H w. apply H. Qed.
#[local] Hint Extern 2 (stays same_redis (modify _)) => apply same_redis_modify; by intros : mflow.

Lemma same_redis_on_tx {A} (f : db → result (A * db)) : stays same_redis (on_tx f).
Proof. intros w. unfold on_tx. by destruct (f (w_tx w)) as [[]|]. Qed.
#[local] Hint Resolve same_redis_on_tx : mflow.

Lemma same_redis_flush : stays same_redis flush.
Proof.
  unfold flush. stay. induction a as [|p ps IH]; simpl; [stay|].
  stay_bind; [|done]. unfold flush_one, insert. stay_bind; [stay|intros now]. destruct p; stay.
Qed.
#[local] Hint Resolve same_redis_flush : mflow.

Lemma same_redis_add p : stays same_redis (session_add p).
Proof. unfold session_add. stay. Qed.
#[local] Hint Resolve same_redis_add : mflow.

Lemma same_redis_execute {A} (f : db → result (A * db)) : stays same_redis (execute f).
Proof. unfold execute. stay. Qed.
Lemma same_redis_session {A} (m : M A) : stays same_redis m → stays same_redis (with_session m).
Proof. intros H. unfold with_session, open_session. stay. Qed.
Lemma same_redis_rollback : stays same_redis rollback.
Proof. unfold rollback, open_session. stay. Qed.
Lemma same_redis_commit : stays same_redis commit.
Proof. unfold commit. stay. Qed.
Lemma same_redis_inc_by m n : stays same_redis (inc_by m n).
Proof. unfold inc_by. stay. Qed.
Lemma same_redis_event_add e : stays same_redis (event_add e).
Proof. unfold event_add. stay. Qed.
Lemma same_redis_outbox_add t p h : stays same_redis (outbox_add t p h).
Proof. unfold outbox_add. stay. Qed.
Lemma same_redis_repo_get id : stays same_redis (repo_get id).
Proof. apply same_redis_execute. Qed.
Lemma same_redis_repo_update id st up : stays same_redis (repo_update_status id st up).
Proof. unfold repo_update_status, utcnow. stay. apply same_redis_execute. Qed.
Lemma same_redis_repo_claim id owner secs : stays same_redis (repo_claim id owner secs).
Proof. unfold repo_claim, utcnow. stay. apply same_redis_execute. Qed.
Lemma same_redis_new_event j t s tr p : stays same_redis (new_event_json j t s tr p).
Proof. unfold new_event_json, utcnow. stay. Qed.
End same_redis.

#[export] Hint Resolve same_redis_add same_redis_rollback same_redis_commit same_redis_inc_by same_redis_event_add
  same_redis_outbox_add same_redis_repo_get same_redis_repo_update same_redis_repo_claim same_redis_new_event : mflow.
#[export] Hint Extern 2 (stays same_redis (inc _)) => apply same_redis_inc_by : mflow.
#[export] Hint Extern 3 (stays same_redis (with_session _)) => apply same_redis_session; stay : mflow.
