(* ===== verification/Ports.v ===== *)
(** * Ports: [app/ports], and the Redis idempotency store

    The interfaces the application services are written against, as type
    classes: [TaskProcessorPort], [WorkerRolePort] and [IdempotencyPort]. The
    last one comes with the laws a store promises; [RedisIdempotencyStore] is
    proved to satisfy them from the Redis commands it issues. *)
From S2P Require Import Prelude PyStr PyFloat Json Domain Database World Effects.
#[local] Open Scope Z_scope.

(** [TaskProcessorPort] *)
Class TaskProcessor {RS : RedisServer} := process : json → M json.

(** What a service relies on of a processor: it computes, may take time, count
    and call other services, but has no part in the database, Redis or Kafka. *)
Record same_stores {RS : RedisServer} (w w' : world) : Prop := {
  ss_env : w_env w' = w_env w;
  ss_db : w_db w' = w_db w;
  ss_tx : w_tx w' = w_tx w;
  ss_new : w_new w' = w_new w;
  ss_redis : w_redis w' = w_redis w;
  ss_kafka : w_kafka w' = w_kafka w;
  ss_uuids : (w_uuids w ≤ w_uuids w')%nat;
}.

Class TaskProcessorLaws {RS : RedisServer} (TP : TaskProcessor) :=
  process_stores payload w : same_stores w (process payload w).2.

#[global] Instance same_stores_relation {RS : RedisServer} : StepRelation same_stores.
Proof.
  split; [split|by intros; split].
  - by intros w.
  - intros w1 w2 w3 [] []. split; try congruence. by etrans.
Qed.

Lemma same_stores_calm {RS : RedisServer} w w' : same_stores w w' → calm w → calm w'.
Proof. intros S Hc n. rewrite (ss_env _ _ S). apply Hc. Qed.
Lemma same_stores_fresh {RS : RedisServer} w w' : same_stores w w' → fresh_ids w → fresh_ids w'.
Proof.
  intros S Hf. unfold fresh_ids. rewrite (ss_env _ _ S), (ss_db _ _ S).
  eapply fresh_later; [apply (ss_uuids _ _ S)|exact Hf].
Qed.

Lemma respects_process {RS : RedisServer} (TP : TaskProcessor) payload :
  TaskProcessorLaws TP → stays safe_step (process payload).
Proof.
  intros L w Hw. destruct (process_stores payload w) as [_ E1 E2 E3 _ _ _].
  unfold tx_ok in *. rewrite E1, E2, E3. by split.
Qed.
#[export] Hint Resolve respects_process : mflow.

(** The outcome of [handle_event]: [tuple[bool, str | None]]. *)
Abbreviation outcome := (bool * option pystr)%type.

(** [WorkerRolePort] *)
Class WorkerRole {RS : RedisServer} := handle_event : json → M outcome.

(** [IdempotencyRecord] *)
Record IdempotencyRecord := MkIdempotencyRecord {
  ir_key : pystr; ir_job_id : json; ir_status : json;
}.

(** [IdempotencyPort] *)
Class IdempotencyPort {RS : RedisServer} := {
  get_request_record : pystr → M (option IdempotencyRecord);
  reserve_request : pystr → pystr → M bool;
  complete_request : pystr → pystr → M unit;
}.

(** Only Redis and the count of external calls have changed. *)
Definition redis_step {RS : RedisServer} (w w' : world) : Prop :=
  ∃ r c, w' = set_redis r (set_counters (w_uuids w) c (w_draws w) w).

Lemma redis_step_external {RS : RedisServer} {A} (m : M A) w :
  (∀ c, ∃ r, (m (set_counters (w_uuids w) c (w_draws w) w)).2
             = set_redis r (set_counters (w_uuids w) c (w_draws w) w)) →
  redis_step w (external m w).2.
Proof.
  intros H. unfold external, redis_step. destruct (H (S (w_calls w))) as [r Hr].
  destruct (env_fate _ _); simpl; [|eexists (w_redis w), _; reflexivity|]; rewrite Hr; eauto.
Qed.

(** What the job service relies on: [seen t k r] is the record of key [k] at
    time [t]; a reservation succeeds exactly when there is none, and both writes
    make the key's record and leave the others. [lease] and [retention] are the
    lifetimes of a reserved and of a completed key. *)
Class IdempotencyLaws {RS : RedisServer} (IP : IdempotencyPort) := {
  seen : Z → pystr → redis → result (option IdempotencyRecord);
  lease : Z;
  retention : Z;
  get_request_ready k w : ready w → get_request_record k w = (seen (w_clock w) k (w_redis w), called w);
  reserve_taken_ready k j w :
    ready w → seen (w_clock w) k (w_redis w) ≠ Ok None → reserve_request k j w = (Ok false, called w);
  reserve_free_ready k j w :
    ready w → seen (w_clock w) k (w_redis w) = Ok None →
    ∃ r, reserve_request k j w = (Ok true, set_redis r (called w))
      ∧ (∀ t, w_clock w ≤ t → t < w_clock w + lease * MICROS →
          seen t k r = Ok (Some (MkIdempotencyRecord k (JStr j) (JStr (u "PROCESSING")))))
      ∧ (∀ t, w_clock w + lease * MICROS ≤ t → seen t k r = Ok None)
      ∧ (∀ t k', w_clock w ≤ t → k' ≠ k → seen t k' r = seen t k' (w_redis w));
  complete_law k j w :
    calm w →
    ∃ r, complete_request k j w = (Ok tt, set_redis r (called w))
      ∧ (∀ t, w_clock w ≤ t → t < w_clock w + retention * MICROS →
          seen t k r = Ok (Some (MkIdempotencyRecord k (JStr j) (JStr (u "COMPLETED")))))
      ∧ (∀ t k', w_clock w ≤ t → k' ≠ k → seen t k' r = seen t k' (w_redis w));
  (** Its calls change Redis only, whatever happens to them. *)
  get_request_step k w : redis_step w (get_request_record k w).2;
  reserve_step k j w : redis_step w (reserve_request k j w).2;
  complete_step k j w : redis_step w (complete_request k j w).2;
  (** Whatever happens to them, they have their effect or none, and tell no lies. *)
  get_request_any k w :
    w_redis (get_request_record k w).2 = w_redis w
    ∧ ((get_request_record k w).1 = seen (w_clock w) k (w_redis w) ∨ is_ok (get_request_record k w).1 = false);
  reserve_any k j w :
    (w_redis (reserve_request k j w).2 = w_redis w ∧ (reserve_request k j w).1 ≠ Ok true)
    ∨ (seen (w_clock w) k (w_redis w) = Ok None
       ∧ ∀ t, w_clock w ≤ t → t < w_clock w + lease * MICROS →
           seen t k (w_redis (reserve_request k j w).2)
           = Ok (Some (MkIdempotencyRecord k (JStr j) (JStr (u "PROCESSING")))));
  complete_any k j w :
    w_redis (complete_request k j w).2 = w_redis w
    ∨ ∀ t, w_clock w ≤ t → t < w_clock w + retention * MICROS →
        seen t k (w_redis (complete_request k j w).2)
        = Ok (Some (MkIdempotencyRecord k (JStr j) (JStr (u "COMPLETED"))));
}.

Section idempotency_stays.
Context {RS : RedisServer} {IP : IdempotencyPort} {IL : IdempotencyLaws IP}.

Lemma stays_redis_step {A} (m : M A) :
  (∀ w, redis_step w (m w).2) → stays safe_step m ∧ stays same_db m.
Proof.
  intros H. split; intros w; destruct (H w) as (r & c & ->); [|done]. by intros Hw.
Qed.
Lemma get_request_stays k : stays safe_step (get_request_record k) ∧ stays same_db (get_request_record k).
Proof. apply stays_redis_step, get_request_step. Qed.
Lemma reserve_stays k j : stays safe_step (reserve_request k j) ∧ stays same_db (reserve_request k j).
Proof. apply stays_redis_step, reserve_step. Qed.
Lemma complete_stays k j : stays safe_step (complete_request k j) ∧ stays same_db (complete_request k j).
Proof. apply stays_redis_step, complete_step. Qed.
End idempotency_stays.

#[export] Hint Extern 1 (stays _ (get_request_record _)) => apply get_request_stays : mflow.
#[export] Hint Extern 1 (stays _ (reserve_request _ _)) => apply reserve_stays : mflow.
#[export] Hint Extern 1 (stays _ (complete_request _ _)) => apply complete_stays : mflow.

(** ** [RedisIdempotencyStore] *)
Section store.
Context {RS : RedisServer}.
Variables (ttl_seconds processing_ttl_seconds : Z).

(** [_request_key] *)
Definition _request_key (key : pystr) : pystr := u "idem:req:" ++ key.

Definition request_value (status job_id : pystr) : json :=
  JDict [(u "status", JStr status); (u "job_id", JStr job_id)].

Definition store_get_request_record (key : pystr) : M (option IdempotencyRecord) :=
  raw ← external (reads (λ w, redis_get (w_clock w) (_request_key key) (w_redis w)));
  match raw with
  | None => mret None
  | Some data =>
      job_id ← lift (get data (u "job_id") JNull);
      status ← lift (getitem data (u "status"));
      mret (Some (MkIdempotencyRecord key job_id status))
  end.

Definition store_reserve_request (key job_id : pystr) : M bool :=
  external (λ w,
    match redis_set_nx (w_clock w) (_request_key key) (request_value (u "PROCESSING") job_id)
            processing_ttl_seconds (w_redis w) with
    | Ok (b, r) => (Ok b, set_redis r w)
    | Raise e => (Raise e, w)
    end).

Definition store_complete_request (key job_id : pystr) : M unit :=
  external (λ w,
    match redis_set (w_clock w) (_request_key key) (request_value (u "COMPLETED") job_id)
            ttl_seconds (w_redis w) with
    | Ok r => (Ok tt, set_redis r w)
    | Raise e => (Raise e, w)
    end).

Definition RedisIdempotencyStore : IdempotencyPort := {|
  get_request_record := store_get_request_record;
  reserve_request := store_reserve_request;
  complete_request := store_complete_request;
|}.

(** The record the stored value stands for. *)
Definition store_seen (now : Z) (key : pystr) (r : redis) : result (option IdempotencyRecord) :=
  match redis_get now (_request_key key) r with
  | None => Ok None
  | Some data =>
      job_id ← get data (u "job_id") JNull;
      status ← getitem data (u "status");
      Ok (Some (MkIdempotencyRecord key job_id status))
  end.

Lemma request_key_inj k k' : _request_key k = _request_key k' → k = k'.
Proof. apply app_inv_head. Qed.

Lemma store_get_eq k w :
  ready w → store_get_request_record k w = (store_seen (w_clock w) k (w_redis w), called w).
Proof.
  intros Hc. unfold store_get_request_record, store_seen, mbind at 1, M_bind at 1.
  rewrite external_ready by done. simpl.
  destruct (redis_get _ _ _) as [data|]; [|done]. unfold mbind, M_bind, result_bind, lift.
  destruct (get _ _ _); [|done]. by destruct (getitem _ _).
Qed.

Lemma seen_set now k v ttl r r' t k' :
  redis_set now (_request_key k) v ttl r = Ok r' → now ≤ t →
  store_seen t k' r' =
    if decide (k' = k) then
      if t <? now + ttl * MICROS then
        job_id ← get v (u "job_id") JNull; status ← getitem v (u "status");
        Ok (Some (MkIdempotencyRecord k job_id status))
      else Ok None
    else store_seen t k' r.
Proof.
  intros E Ht. unfold store_seen. rewrite (redis_get_set _ _ _ _ _ _ _ _ E Ht).
  destruct (decide (k' = k)) as [->|Hne].
  - rewrite decide_True by done. by destruct (t <? _).
  - rewrite decide_False by (intros ?%request_key_inj; done). done.
Qed.

#[global] Program Instance store_laws (Ht : 0 < ttl_seconds) (Hp : 0 < processing_ttl_seconds) :
    IdempotencyLaws RedisIdempotencyStore := {|
  seen := store_seen; lease := processing_ttl_seconds; retention := ttl_seconds;
|}.
Next Obligation. intros. by apply store_get_eq. Qed.
Next Obligation.
  intros _ Hp k j w Hc Hk. simpl. unfold store_reserve_request. rewrite external_ready by done. simpl.
  rewrite redis_set_nx_eq by done. unfold store_seen in Hk.
  destruct (redis_get _ _ _); [by destruct w|done].
Qed.
Next Obligation.
  intros _ Hp k j w Hc Hk. simpl. unfold store_reserve_request. rewrite external_ready by done. simpl.
  rewrite redis_set_nx_eq by done.
  assert (redis_get (w_clock w) (_request_key k) (w_redis w) = None) as ->.
  { unfold store_seen in Hk. destruct (redis_get _ _ _) as [data|]; [|done].
    by destruct (get _ _ _); [destruct (getitem _ _)|]. }
  destruct (redis_set_ok (w_clock w) (_request_key k) (request_value (u "PROCESSING") j)
              processing_ttl_seconds (w_redis w) Hp) as [r E].
  rewrite E. exists r. split; [done|]. split_and!.
  - intros t H1 H2. rewrite (seen_set _ _ _ _ _ _ _ _ E), decide_True, (proj2 (Z.ltb_lt _ _)) by done. done.
  - intros t H1. rewrite (seen_set _ _ _ _ _ _ _ _ E), decide_True, (proj2 (Z.ltb_ge _ _))
      by (done || unfold MICROS in *; lia). done.
  - intros t k' H1 H2. by rewrite (seen_set _ _ _ _ _ _ _ _ E), decide_False.
Qed.
Next Obligation.
  intros Ht _ k j w Hc. simpl. unfold store_complete_request. rewrite external_calm by done. simpl.
  destruct (redis_set_ok (w_clock w) (_request_key k) (request_value (u "COMPLETED") j)
              ttl_seconds (w_redis w) Ht) as [r E].
  rewrite E. exists r. split; [done|]. split.
  - intros t H1 H2. rewrite (seen_set _ _ _ _ _ _ _ _ E), decide_True, (proj2 (Z.ltb_lt _ _)) by done. done.
  - intros t k' H1 H2. by rewrite (seen_set _ _ _ _ _ _ _ _ E), decide_False.
Qed.
Next Obligation.
  intros _ _ k w. simpl. unfold store_get_request_record.
  assert (redis_step w (external (reads (λ w, redis_get (w_clock w) (_request_key k) (w_redis w))) w).2) as H.
  { apply redis_step_external. intros c. by exists (w_redis w). }
  unfold mbind, M_bind. destruct (external _ w) as [[[data|]|e] w']; simpl in *; [|done..].
  unfold lift. destruct (get _ _ _); [|done]. by destruct (getitem _ _).
Qed.
Next Obligation.
  intros _ _ k j w. apply redis_step_external. intros c. simpl.
  destruct (redis_set_nx _ _ _ _ _) as [[b r]|]; [by exists r|by exists (w_redis w)].
Qed.
Next Obligation.
  intros _ _ k j w. apply redis_step_external. intros c. simpl.
  destruct (redis_set _ _ _ _ _) as [r|]; [by exists r|by exists (w_redis w)].
Qed.
Next Obligation.
  intros _ _ k w. simpl. unfold store_get_request_record, external, store_seen, mbind, M_bind, reads.
  destruct (env_fate _ _); simpl; [|by split; [|right]|by split; [|right]].
  destruct (redis_get _ _ _) as [data|]; [|by split; [|left]]. unfold lift, result_bind.
  destruct (get _ _ _) as [j|]; [|by split; [|right]]. destruct (getitem _ _); [by split; [|left]|by split; [|right]].
Qed.
Next Obligation.
  intros _ Hp k j w. simpl. unfold store_reserve_request, external.
  destruct (env_fate _ _) as [|e|e]; [|by left|].
  all: simpl; rewrite redis_set_nx_eq by done.
  all: destruct (redis_get _ _ _) as [data|] eqn:Eg; [by left|].
  all: destruct (redis_set_ok (w_clock w) (_request_key k) (request_value (u "PROCESSING") j)
              processing_ttl_seconds (w_redis w) Hp) as [r E]; rewrite E; right.
  all: (split; [unfold store_seen; by rewrite Eg|]); intros t H1 H2; simpl.
  all: by rewrite (seen_set _ _ _ _ _ _ _ _ E), decide_True, (proj2 (Z.ltb_lt _ _)) by done.
Qed.
Next Obligation.
  intros Ht _ k j w. simpl. unfold store_complete_request, external.
  destruct (env_fate _ _) as [|e|e]; [|by left|].
  all: simpl; destruct (redis_set_ok (w_clock w) (_request_key k) (request_value (u "COMPLETED") j)
              ttl_seconds (w_redis w) Ht) as [r E]; rewrite E; right.
  all: intros t H1 H2; simpl; by rewrite (seen_set _ _ _ _ _ _ _ _ E), decide_True, (proj2 (Z.ltb_lt _ _)) by done.
Qed.
End store.
