(* ===== verification/Fixtures.v ===== *)
(** * Concrete instances for the examples

    An in-memory Redis that satisfies the interface, an environment in which
    every external call succeeds, processors, and an empty world. The witnesses
    of the theorems evaluate the model on them. *)
From S2P Require Import Prelude PyStr PyFloat Json Domain Database World Effects Ports.
#[local] Open Scope Z_scope.

(** Redis as a map from keys to values with their expiry. *)
Definition mem_get (now : Z) (k : pystr) (r : gmap pystr (json * Z)) : option json :=
  match r !! k with Some (v, t) => if now <? t then Some v else None | None => None end.

Definition invalid_expire : exn := Exn (u "ResponseError") (u "invalid expire time in 'set' command").

Definition mem_set (now : Z) (k : pystr) (v : json) (ttl : Z) (r : gmap pystr (json * Z))
    : result (gmap pystr (json * Z)) :=
  if ttl <=? 0 then Raise invalid_expire else Ok (<[k := (v, now + ttl * MICROS)]> r).

Definition mem_set_nx (now : Z) (k : pystr) (v : json) (ttl : Z) (r : gmap pystr (json * Z))
    : result (bool * gmap pystr (json * Z)) :=
  if ttl <=? 0 then Raise invalid_expire
  else match mem_get now k r with
       | Some _ => Ok (false, r)
       | None => r' ← mem_set now k v ttl r; Ok (true, r')
       end.

#[global] Program Instance MemRedis : RedisServer := {|
  redis := gmap pystr (json * Z);
  redis_get := mem_get;
  redis_set := mem_set;
  redis_set_nx := mem_set_nx;
|}.
Next Obligation. intros now k v ttl r Httl. unfold mem_set. rewrite (proj2 (Z.leb_gt ttl 0) Httl). eauto. Qed.
Next Obligation.
  intros now k v ttl r r' t k' Hset Ht. unfold mem_set in Hset. case_match; [done|].
  simplify_eq. unfold mem_get. case_decide; subst.
  - by rewrite lookup_insert_eq.
  - by rewrite lookup_insert_ne by done.
Qed.
Next Obligation.
  intros now k v ttl r Httl. unfold mem_set_nx. by rewrite (proj2 (Z.leb_gt ttl 0) Httl).
Qed.

(** ** Environments *)

(** Distinct ids, and every external call is done. *)
Definition calm_env : env :=
  MkEnv (λ n, u "uuid" ++ replicate n 45%N) (λ _, Done)
    (λ _, Raise (Exn (u "DBAPIError") (u "expected str"))) pow_by_mul (λ _, f_zero).

(** The [n]-th external call ends as [f]; the others are done. *)
Definition env_with_fate (n : nat) (f : fate) : env :=
  MkEnv (env_uuid4 calm_env) (λ k, if Nat.eqb k n then f else Done)
    (env_bind calm_env) (env_pow calm_env) (env_random calm_env).

Definition empty_db : db := MkDb ∅ [] [] 1 1.

Definition start_time : Z := 1773144000 * MICROS.

Definition world_of (e : env) (d : db) : world :=
  MkWorld _ e d d [] ∅ [] start_time start_time 0 0 0 (λ _, 0).

Lemma calm_env_inj : Inj (=) (=) (env_uuid4 calm_env).
Proof. intros n m H%app_inv_head%(f_equal length). by rewrite !length_replicate in H. Qed.

Lemma calm_env_calm d : calm (world_of calm_env d).
Proof. by intros n. Qed.

(** Ids are fresh in a database without rows, whatever the fates. *)
Lemma empty_fresh e : Inj (=) (=) (env_uuid4 e) → fresh_ids (world_of e empty_db).
Proof. intros H. split; [exact H|]. intros n _. split_and!; [done|by apply not_elem_of_nil..]. Qed.

(** The idempotency store with lifetimes of one day and one hour. *)
Definition demo_store : IdempotencyPort := RedisIdempotencyStore 86400 3600.
#[global] Instance demo_store_laws : IdempotencyLaws demo_store.
Proof. by apply store_laws. Defined.

(** ** Processors *)

(** Echoes its payload, raises, or never touches the world. *)
Definition echo_processor : TaskProcessor := λ payload, mret (JDict [(u "echo", payload)]).
Definition failing_processor : TaskProcessor := λ _, raise (RuntimeError (u "boom")).

(** An envelope as Kafka delivers it. *)
Definition job_event (job_id : pystr) (payload : json) : json :=
  build_event (u "ev-in") start_time (JStr job_id) REQUESTED (u "api") (JStr (u "trace")) payload.

Definition request_event (job_id : pystr) : json :=
  job_event job_id (JDict [(u "request", JDict [(u "input", JDict [(u "content", JStr (u "hi"))])])]).

(** A job row in a given state. *)
Definition row_in (id : pystr) (status : JobStatus) (owner : option pystr) (expires : option Z) (epoch : Z) : job_row :=
  MkJobRow id (JDict []) (status_value status) 0 None None owner expires epoch start_time start_time.

Definition db_with (rows : list job_row) : db :=
  MkDb (list_to_map ((λ r, (jr_id r, r)) <$> rows)) [] [] 1 1.

(** A database with one job, [job-1]. *)
Definition demo_id : pystr := u "job-1".
Definition one_job (status : JobStatus) (owner : option pystr) (expires : option Z) (epoch : Z) : db :=
  db_with [row_in demo_id status owner expires epoch].

Lemma one_job_row status owner expires epoch :
  jobs (one_job status owner expires epoch) !! demo_id = Some (row_in demo_id status owner expires epoch).
Proof. apply lookup_insert_eq. Qed.

Lemma one_job_fresh status owner expires epoch :
  fresh_ids (world_of calm_env (one_job status owner expires epoch)).
Proof.
  split; [exact calm_env_inj|]. intros n _. split_and!; [|by apply not_elem_of_nil..].
  simpl. rewrite lookup_insert_ne by (vm_compute; done). done.
Qed.

#[global] Instance echo_laws : TaskProcessorLaws echo_processor.
Proof. intros payload w. by split. Defined.
#[global] Instance failing_laws : TaskProcessorLaws failing_processor.
Proof. intros payload w. by split. Defined.
