(* ===== verification/JobService.v ===== *)
(** * Job service: [app/application/job_service.py]

    [create_job] reserves the idempotency key, writes the job row, its event
    and the message to publish in one transaction and completes the key;
    [get_job] reads a job. *)
From S2P Require Import Prelude PyStr PyFloat Json Domain Database Evolution World Effects Ports Fixtures.
#[local] Open Scope Z_scope.

Section service.
Context {RS : RedisServer} {IP : IdempotencyPort}.
Variable topic : pystr.

Definition get_job (job_id : pystr) : M (option Job) := with_session (repo_get job_id).

(** [existing and existing.job_id]: the recorded job id, when it is truthy. *)
Definition truthy_job_id (existing : option IdempotencyRecord) : option json :=
  match existing with
  | Some r => if truthy (ir_job_id r) then Some (ir_job_id r) else None
  | None => None
  end.

(** The job a recorded key leads to. *)
Definition duplicate_job (request_key : pystr) (recorded : json) : M Job :=
  inc JOB_DUPLICATE_TOTAL ;;
  id ← bind_text recorded;
  job ← get_job id;
  match job with
  | None => raise (ValueError (u "Idempotent job not found for key " ++ request_key))
  | Some job => mret job
  end.

(** The single transaction of a new job. *)
Definition write_job (job : Job) (event : json) : M unit :=
  with_session (
    session_add (NewJob job) ;;
    event_add event ;;
    outbox_add topic event None ;;
    commit).

(** [create_job] once the request key is known. *)
Definition create_with_key (payload : json) (request_key : pystr) : M Job :=
  existing ← get_request_record request_key;
  match truthy_job_id existing with
  | Some recorded => duplicate_job request_key recorded
  | None =>
      job_id ← uuid4;
      trace_id ← uuid4;
      reserved ← reserve_request request_key job_id;
      if reserved : bool then
        event ← new_event_json (JStr job_id) REQUESTED (u "api") (JStr trace_id)
                  (JDict [(u "request", payload)]);
        created_at ← utcnow; updated_at ← utcnow;
        let job := MkJob job_id PENDING payload None None 0 created_at updated_at in
        write_job job event ;;
        complete_request request_key job_id ;;
        inc JOB_CREATED_TOTAL ;;
        mret job
      else
        existing ← get_request_record request_key;
        match truthy_job_id existing with
        | Some recorded => duplicate_job request_key recorded
        | None => raise (ValueError (u "Unable to reserve idempotency key"))
        end
  end.

(** [create_job]; [idempotency_key or str(uuid4())] is the request key. *)
Definition create_job (payload : json) (idempotency_key : option pystr) : M Job :=
  request_key ← (match idempotency_key with
                 | Some (c :: k) => mret (c :: k)
                 | _ => uuid4
                 end : M pystr);
  create_with_key payload request_key.
End service.

(** ** What [create_job] promises *)

Section promises.
Context {RS : RedisServer} {IP : IdempotencyPort} {IL : IdempotencyLaws IP}.
Variable topic : pystr.

(** The [n]-th id that is still to be drawn. *)
Definition nth_uuid (w : world) (n : nat) : pystr := env_uuid4 (w_env w) (n + w_uuids w).

(** What the transaction of a new job adds to the database. *)
Definition new_job_of (w : world) (payload : json) : Job :=
  MkJob (nth_uuid w 0) PENDING payload None None 0 (w_clock w) (w_clock w).
Definition new_job_event (w : world) (payload : json) : json :=
  build_event (nth_uuid w 2) (w_clock w) (JStr (nth_uuid w 0)) REQUESTED (u "api")
    (JStr (nth_uuid w 1)) (JDict [(u "request", payload)]).
Definition new_job_db (w : world) (payload : json) (d : db) : db :=
  append_outbox (w_db_clock w) (MkNewMessage (nth_uuid w 3) topic (new_job_event w payload) None)
  (append_event (w_db_clock w) (nth_uuid w 2) (nth_uuid w 0) (event_type_value REQUESTED) (u "api")
     (nth_uuid w 1) (JDict [(u "request", payload)])
  (set_jobs <[nth_uuid w 0 := job_row_of (w_db_clock w) (new_job_of w payload)]> d)).

(** The added objects of that transaction. *)
Definition new_job_objects (w : world) (payload : json) : list pending :=
  [NewJob (new_job_of w payload);
   NewEvent (MkNewEvent (JStr (nth_uuid w 2)) (JStr (nth_uuid w 0)) (JStr (event_type_value REQUESTED))
     (JStr (u "api")) (JStr (nth_uuid w 1)) (JDict [(u "request", payload)]));
   NewOutbox (MkNewMessage (nth_uuid w 3) topic (new_job_event w payload) None)].

Lemma new_job_inserts w payload :
  fresh_ids w →
  insert_pendings (w_db_clock w) (new_job_objects w payload) (w_db w)
  = Ok (new_job_db w payload (w_db w)).
Proof.
  intros [_ Hf]. unfold insert_pendings, new_job_objects, insert_pending, mbind, result_bind.
  unfold insert_job. simpl jr_id. assert (jobs (w_db w) !! nth_uuid w 0 = None) as -> by (apply Hf; lia).
  unfold insert_event. simpl job_events. rewrite decide_False by (apply Hf; lia).
  unfold insert_outbox. simpl outbox_messages. rewrite decide_False by (apply Hf; lia). done.
Qed.

(** [write_job] adds those objects and commits. *)
Lemma write_job_eq w payload (w' := set_session (w_db w) (new_job_objects w payload)
    (set_counters (4 + w_uuids w) (w_calls w) (w_draws w) w)) :
  write_job topic (new_job_of w payload) (new_job_event w payload)
    (set_counters (3 + w_uuids w) (w_calls w) (w_draws w) w)
  = (let '(r, w'') := commit w' in (r, set_session (w_db w'') [] w'')).
Proof.
  destruct (commit w') as [r w''] eqn:E. unfold write_job. apply run_with_session.
  run1. unfold new_job_event at 1. run1. run1. exact E.
Qed.

(** The part of [create_job] after the key was found free. *)
Lemma run_new_key k payload w :
  ready w → ready (called w) → seen (w_clock w) k (w_redis w) = Ok None →
  ∃ r1, (∀ t, w_clock w ≤ t → t < w_clock w + lease * MICROS →
           seen t k r1 = Ok (Some (MkIdempotencyRecord k (JStr (nth_uuid w 0)) (JStr (u "PROCESSING")))))
    ∧ (∀ t, w_clock w + lease * MICROS ≤ t → seen t k r1 = Ok None)
    ∧ (∀ t k', w_clock w ≤ t → k' ≠ k → seen t k' r1 = seen t k' (w_redis w))
    ∧ create_with_key topic payload k w =
        (write_job topic (new_job_of w payload) (new_job_event w payload) ;;
         complete_request k (nth_uuid w 0) ;; inc JOB_CREATED_TOTAL ;; mret (new_job_of w payload))
          (set_redis r1 (set_counters (3 + w_uuids w) (2 + w_calls w) (w_draws w) w)).
Proof.
  intros Hc Hc' Hs. set (w1 := set_counters (2 + w_uuids w) (1 + w_calls w) (w_draws w) w).
  destruct (reserve_free_ready k (nth_uuid w 0) w1) as (r1 & E1 & H1 & H2 & H3); [done..|].
  exists r1. split_and!; [exact H1|exact H2|exact H3|]. unfold create_with_key.
  eapply run_bind; [rewrite get_request_ready, Hs by done; done|]. cbn [truthy_job_id].
  run1. run1. eapply run_bind; [exact E1|]. cbv iota. run1. run1. run1. done.
Qed.

(** A key that is given, and not empty, is the request key. *)
Lemma create_job_given k payload w : k ≠ [] → create_job topic payload (Some k) w = create_with_key topic payload k w.
Proof. by destruct k. Qed.

Lemma run_new_job k payload w :
  ready w → ready (called w) → k ≠ [] → seen (w_clock w) k (w_redis w) = Ok None →
  ∃ r1, (∀ t, w_clock w ≤ t → t < w_clock w + lease * MICROS →
           seen t k r1 = Ok (Some (MkIdempotencyRecord k (JStr (nth_uuid w 0)) (JStr (u "PROCESSING")))))
    ∧ (∀ t, w_clock w + lease * MICROS ≤ t → seen t k r1 = Ok None)
    ∧ (∀ t k', w_clock w ≤ t → k' ≠ k → seen t k' r1 = seen t k' (w_redis w))
    ∧ create_job topic payload (Some k) w =
        (write_job topic (new_job_of w payload) (new_job_event w payload) ;;
         complete_request k (nth_uuid w 0) ;; inc JOB_CREATED_TOTAL ;; mret (new_job_of w payload))
          (set_redis r1 (set_counters (3 + w_uuids w) (2 + w_calls w) (w_draws w) w)).
Proof. intros Hc Hc' Hk Hs. rewrite create_job_given by done. by apply run_new_key. Qed.

(** Reading a job opens a session and commits nothing. *)
Lemma run_get_job id w :
  calm w →
  get_job id w = ((job_get id (w_db w)), set_session (w_db w) [] (called w)).
Proof.
  intros Hc. unfold get_job. destruct (job_get id (w_db w)) as [j|e] eqn:E;
    (erewrite run_with_session; [|unfold repo_get; rewrite run_execute_eq by done; simpl; by rewrite E]);
    done.
Qed.

Definition job_not_found (k : pystr) : exn := ValueError (u "Idempotent job not found for key " ++ k).

(** A recorded key: the job it leads to, without writing. *)
Lemma run_recorded k payload w id status :
  calm w → k ≠ [] → id ≠ [] →
  seen (w_clock w) k (w_redis w) = Ok (Some (MkIdempotencyRecord k (JStr id) status)) →
  ∃ w', create_job topic payload (Some k) w
        = (match job_get id (w_db w) with
           | Ok (Some job) => Ok job
           | Ok None => Raise (job_not_found k)
           | Raise e => Raise e
           end, w')
    ∧ w_db w' = w_db w ∧ w_redis w' = w_redis w ∧ w_kafka w' = w_kafka w
    ∧ w_uuids w' = w_uuids w.
Proof.
  intros Hc Hk Hid Hs. pose proof (calm_ready _ Hc). unfold create_job. destruct k as [|c k]; [done|].
  eexists. split; [|split_and!].
  - run1. unfold create_with_key.
    eapply run_bind; [rewrite get_request_ready, Hs by done; done|].
    assert (truthy_job_id (Some (MkIdempotencyRecord (c :: k) (JStr id) status)) = Some (JStr id)) as ->.
    { unfold truthy_job_id. simpl. by destruct id. }
    unfold duplicate_job. run1. run1. unfold mbind, M_bind. rewrite run_get_job by done. simpl w_db.
    instantiate (1 := set_session (w_db w) [] (called (set_metrics _ (called w)))).
    by destruct (job_get id (w_db w)) as [[]|].
  - done.
  - done.
  - done.
  - done.
Qed.
Lemma create_with_key_stores k payload w :
  calm w → fresh_ids w → seen (w_clock w) k (w_redis w) = Ok None →
  ∃ w', create_with_key topic payload k w = (Ok (new_job_of w payload), w')
    ∧ w_db w' = new_job_db w payload (w_db w)
    ∧ w_kafka w' = w_kafka w
    ∧ (∀ t, w_clock w ≤ t → t < w_clock w + retention * MICROS →
        seen t k (w_redis w') = Ok (Some (MkIdempotencyRecord k (JStr (nth_uuid w 0)) (JStr (u "COMPLETED")))))
    ∧ (∀ t k', w_clock w ≤ t → k' ≠ k → seen t k' (w_redis w') = seen t k' (w_redis w))
    ∧ w_env w' = w_env w ∧ w_uuids w' = (4 + w_uuids w)%nat ∧ w_clock w' = w_clock w.
Proof.
  intros Hc Hf Hs. destruct (run_new_key k payload w) as (r1 & _ & _ & Ho & ->); [by apply Hc..|done|].
  set (w1 := set_redis r1 (set_counters (w_uuids w) (2 + w_calls w) (w_draws w) w)).
  set (w2 := set_session (w_db w) [] (set_session (new_job_db w payload (w_db w)) []
               (set_db (new_job_db w payload (w_db w))
                 (called (set_session (w_db w) (new_job_objects w payload)
                   (set_counters (4 + w_uuids w) (2 + w_calls w) (w_draws w) w1)))))).
  set (w3 := set_session (new_job_db w payload (w_db w)) [] w2).
  destruct (complete_law k (nth_uuid w 0) w3) as (r3 & E3 & H3 & O3); [done|].
  eexists. split; [|split_and!].
  - eapply run_bind; [|eapply run_bind; [exact E3|run1; done]].
    etrans; [exact (write_job_eq w1 payload)|].
    rewrite (run_commit _ (new_job_db w payload (w_db w))); [done|done|].
    by apply (new_job_inserts w1).
  - done.
  - done.
  - exact H3.
  - intros t k' Ht Hne. etrans; [by apply O3|by apply Ho].
  - done.
  - done.
  - done.
Qed.

Lemma create_job_stores k payload w :
  calm w → fresh_ids w → k ≠ [] → seen (w_clock w) k (w_redis w) = Ok None →
  ∃ w', create_job topic payload (Some k) w = (Ok (new_job_of w payload), w')
    ∧ w_db w' = new_job_db w payload (w_db w)
    ∧ w_kafka w' = w_kafka w
    ∧ (∀ t, w_clock w ≤ t → t < w_clock w + retention * MICROS →
        seen t k (w_redis w') = Ok (Some (MkIdempotencyRecord k (JStr (nth_uuid w 0)) (JStr (u "COMPLETED")))))
    ∧ (∀ t k', w_clock w ≤ t → k' ≠ k → seen t k' (w_redis w') = seen t k' (w_redis w))
    ∧ w_env w' = w_env w ∧ w_uuids w' = (4 + w_uuids w)%nat ∧ w_clock w' = w_clock w.
Proof. intros Hc Hf Hk Hs. rewrite create_job_given by done. by apply create_with_key_stores. Qed.

(** Nothing is committed or published, and no time passes. *)
Record quiet (w w' : world) : Prop := {
  qu_env : w_env w' = w_env w;
  qu_db : w_db w' = w_db w;
  qu_kafka : w_kafka w' = w_kafka w;
  qu_clock : w_clock w' = w_clock w;
  qu_uuids : (w_uuids w ≤ w_uuids w')%nat;
}.

Lemma quiet_trans w1 w2 w3 : quiet w1 w2 → quiet w2 w3 → quiet w1 w3.
Proof. intros [] []. split; [congruence..|lia]. Qed.

Lemma duplicate_job_quiet k recorded w : calm w → quiet w (duplicate_job k recorded w).2.
Proof.
  intros Hc. unfold duplicate_job. rewrite (bind_ok _ _ _ _ _ (run_inc _ _)).
  set (w1 := set_metrics _ w). apply (quiet_trans w w1); [by split|]. unfold mbind at 1, M_bind at 1.
  assert (∃ r, bind_text recorded w1 = (r, w1)) as [[id|e] ->] by (destruct recorded; by eexists); [|by split].
  assert (calm w1) as Hc1 by exact Hc. unfold mbind, M_bind. rewrite (run_get_job id w1 Hc1).
  destruct (job_get id (w_db w1)) as [[job|]|e]; by split.
Qed.

(** A key that is not free creates nothing. *)
Lemma create_with_key_quiet k payload w :
  calm w → seen (w_clock w) k (w_redis w) ≠ Ok None → quiet w (create_with_key topic payload k w).2.
Proof.
  intros Hc Hs. unfold create_with_key, mbind at 1, M_bind at 1. rewrite get_request_ready by apply Hc.
  destruct (seen (w_clock w) k (w_redis w)) as [existing|e] eqn:Es; [|by split].
  destruct (truthy_job_id existing) as [recorded|].
  { apply (quiet_trans w (called w)); [by split|by apply duplicate_job_quiet]. }
  do 2 step. match goal with |- quiet w (_ ?w0).2 => set (w1 := w0) end. assert (quiet w w1) as Q1 by (split; simpl; [done..|lia]).
  apply (quiet_trans w w1 _ Q1). rewrite (bind_ok _ _ _ _ _ (reserve_taken_ready k _ w1 ltac:(apply Hc) ltac:(by simpl; rewrite Es))).
  cbv iota. unfold mbind, M_bind. rewrite get_request_ready by apply Hc.
  destruct (seen _ k _) as [existing'|e]; [|by split]. destruct (truthy_job_id existing') as [recorded|]; [|by split].
  apply (quiet_trans w1 (called (called w1))); [by split|by apply duplicate_job_quiet].
Qed.

(** The ids that are left are fresh in the database with the new job. *)
Lemma new_job_fresh w payload : fresh_ids w → fresh_from (w_env w) (4 + w_uuids w) (new_job_db w payload (w_db w)).
Proof.
  intros [Hi Hf]. unfold new_job_db. apply (fresh_append_outbox _ (3 + w_uuids w)).
  apply (fresh_append_event _ (2 + w_uuids w)). split; [done|]. intros m Hm.
  destruct (Hf m) as (Hj & He & Ho); [lia|]. split_and!; [|done..]. simpl. rewrite lookup_insert_ne; [done|].
  intros H. unfold nth_uuid in H. apply Hi in H. lia.
Qed.

Lemma job_payload_of_row row job :
  job_of_row row = Ok job → job_request_payload job = jr_request_payload row.
Proof. unfold job_of_row. destruct (status_of_value _); intros; by simplify_eq. Qed.

Lemma duplicate_job_keeps k recorded : stays same_db (duplicate_job k recorded).
Proof. unfold duplicate_job, get_job. stay. Qed.

Lemma create_with_key_atomic k payload w :
  fresh_ids w →
  w_db (create_with_key topic payload k w).2 = w_db w
  ∨ w_db (create_with_key topic payload k w).2 = new_job_db w payload (w_db w).
Proof.
  intros Hf.
  enough (∃ d, w_db (create_with_key topic payload k w).2 = d
            ∧ (d = w_db w ∨ d = new_job_db w payload (w_db w))) as (d & -> & H) by done.
  unfold create_with_key, mbind at 1, M_bind at 1.
  destruct (get_request_step k w) as (r1 & c1 & E1).
  destruct (get_request_record k w) as [[existing|e] w1]; simpl in E1; subst w1; [|by eauto].
  destruct (truthy_job_id existing) as [recorded|];
    [eexists; split; [exact (duplicate_job_keeps _ _ _)|by left]|].
  do 2 step. unfold mbind at 1, M_bind at 1.
  match goal with |- context [reserve_request k ?j ?w0] =>
    destruct (reserve_step k j w0) as (r2 & c2 & E2);
    destruct (reserve_request k j w0) as [[[]|e] w2]; simpl in E2; subst w2; [| |by eauto] end.
  - do 3 step. rewrite bind_same_db by stay.
    pose (w2 := set_redis r2 (set_counters (w_uuids w) c2 (w_draws w) w)).
    eexists; split; [etrans; [exact (f_equal (λ x, w_db x.2) (write_job_eq w2 payload))|reflexivity]|].
    set (w3 := set_session _ _ _).
    destruct (commit_atomic w3) as [[H _]|H]; [by repeat constructor|left|right];
      destruct (commit w3) as [r w4]; simpl w_db in *; [done|].
    assert (insert_pendings (w_db_clock w) (new_job_objects w payload) (w_db w) = Ok (w_db w4)) as H' by exact H.
    rewrite new_job_inserts in H' by done. injection H' as H'. exact (eq_sym H').
  - match goal with |- ∃ d, w_db (?m ?w0).2 = d ∧ _ =>
      assert (stays same_db m) as H; [|exists (w_db w); split; [exact (H w0)|by left]] end.
    stay. apply duplicate_job_keeps.
Qed.
End promises.

Section theorems.
Context {RS : RedisServer} {IP : IdempotencyPort} {IL : IdempotencyLaws IP}.
Variable topic : pystr.

(** With a free key, no failing service and fresh ids, [create_job] returns the
    new [PENDING] job, the transaction adds exactly its row, its REQUESTED event and
    its outbox message, and the key is completed with the id of the job. *)
Theorem create_job_new k payload w :
  calm w → fresh_ids w → k ≠ [] → seen (w_clock w) k (w_redis w) = Ok None →
  ∃ w', create_job topic payload (Some k) w = (Ok (new_job_of w payload), w')
    ∧ w_db w' = new_job_db topic w payload (w_db w)
    ∧ w_kafka w' = w_kafka w
    ∧ (∀ t, w_clock w ≤ t → t < w_clock w + retention * MICROS →
        seen t k (w_redis w') = Ok (Some (MkIdempotencyRecord k (JStr (nth_uuid w 0)) (JStr (u "COMPLETED")))))
    ∧ (∀ t k', w_clock w ≤ t → k' ≠ k → seen t k' (w_redis w') = seen t k' (w_redis w)).
Proof.
  intros Hc Hf Hk Hs. destruct (create_job_stores topic k payload w) as (w' & ? & ? & ? & ? & ? & _); [done..|].
  by exists w'.
Qed.


(** C15: repeating a request. Whatever happened to the database since the first call
    (other writers included), as long as the key's record is the one the first
    call left and has not expired, and no service fails during either call, a second call with the same key returns the
    job of the first one, with its original payload, and writes nothing. *)
Theorem create_job_idempotent k payload payload' w job w1 w2 :
  calm w → fresh_ids w → k ≠ [] → nth_uuid w 0 ≠ [] →
  seen (w_clock w) k (w_redis w) = Ok None →
  create_job topic payload (Some k) w = (Ok job, w1) →
  calm w2 → db_evolves (w_db w1) (w_db w2) → w_redis w2 = w_redis w1 →
  w_clock w ≤ w_clock w2 → w_clock w2 < w_clock w + retention * MICROS →
  ∃ job' w3, create_job topic payload' (Some k) w2 = (Ok job', w3)
    ∧ job_id job' = job_id job ∧ job_request_payload job' = payload
    ∧ w_db w3 = w_db w2 ∧ w_redis w3 = w_redis w2 ∧ w_kafka w3 = w_kafka w2.
Proof.
  intros Hc Hf Hk Hid Hs H1 Hc2 He Hr Ht Ht'.
  destruct (create_job_stores topic k payload w) as (w1' & E1 & Ed & _ & Hseen & _); [done..|].
  rewrite H1 in E1. injection E1 as -> <-.
  destruct (dv_jobs _ _ He (nth_uuid w 0) (job_row_of (w_db_clock w) (new_job_of w payload)))
    as (row & Hrow & Hev); [by rewrite Ed; apply lookup_insert_eq|].
  destruct (ev_valid _ _ Hev) as [s Hst]; [by exists PENDING|].
  destruct (job_of_row_ok row s Hst) as (job' & Hj & Hjid & _).
  destruct (run_recorded topic k payload' w2 (nth_uuid w 0) (JStr (u "COMPLETED"))) as (w3 & E3 & D & R & K & _);
    [done|done|done|rewrite Hr; by apply Hseen|].
  exists job', w3. split; [|split_and!; [| |done..]].
  - rewrite E3. unfold job_get. by rewrite Hrow, Hj.
  - rewrite Hjid. apply (ev_id _ _ Hev).
  - rewrite (job_payload_of_row _ _ Hj). apply (ev_payload _ _ Hev).
Qed.

(** C19: whatever the services do (refuse, fail after the effect, time out) and
    whatever key is given, [create_job] commits the job row, its event and its
    message together, or nothing at all. *)
Theorem create_job_atomic key payload w :
  fresh_ids w →
  let w' := (create_job topic payload key w).2 in
  w_db w' = w_db w
  ∨ ∃ n, (w_uuids w ≤ n)%nat
      ∧ w_db w' = new_job_db topic (set_counters n (w_calls w) (w_draws w) w) payload (w_db w).
Proof.
  intros Hf. unfold create_job.
  assert (∃ k n, (w_uuids w ≤ n)%nat ∧
    (match key with Some (c :: k) => mret (c :: k) | _ => uuid4 end : M pystr) w
    = (Ok k, set_counters n (w_calls w) (w_draws w) w)) as (k & n & Hn & E).
  { destruct key as [[|c k]|].
    - exists (nth_uuid w 0), (S (w_uuids w)). split; [lia|done].
    - exists (c :: k), (w_uuids w). split; [lia|by destruct w].
    - exists (nth_uuid w 0), (S (w_uuids w)). split; [lia|done]. }
  cbv zeta. rewrite (bind_ok _ _ _ _ _ E).
  assert (fresh_ids (set_counters n (w_calls w) (w_draws w) w)) as Hf'.
  { destruct Hf as [Hi Hf]. split; [done|]. intros i Hin. apply Hf. simpl in Hin. lia. }
  destruct (create_with_key_atomic topic k payload _ Hf') as [H|H]; [by left|].
  right. exists n. split; [done|]. exact H.
Qed.

(** A key reserved for a job that was never committed. If the commit of the first
    request fails, the key stays reserved, and until the reservation expires a retry
    with the same key is refused instead of creating the job. *)
Theorem create_job_retry_refused k payload payload' w e w2 :
  ready w → ready (called w) → env_fate (w_env w) (2 + w_calls w) = Failed e →
  k ≠ [] → nth_uuid w 0 ≠ [] →
  jobs (w_db w) !! nth_uuid w 0 = None → seen (w_clock w) k (w_redis w) = Ok None →
  let '(r1, w1) := create_job topic payload (Some k) w in
  r1 = Raise e ∧ w_db w1 = w_db w ∧
  (calm w2 → w_db w2 = w_db w1 → w_redis w2 = w_redis w1 →
   w_clock w ≤ w_clock w2 → w_clock w2 < w_clock w + lease * MICROS →
   ∃ w3, create_job topic payload' (Some k) w2 = (Raise (job_not_found k), w3) ∧ w_db w3 = w_db w).
Proof.
  intros Hr Hr' He Hk Hid Hn Hs.
  destruct (run_new_job topic k payload w) as (r1 & Hseen & _ & _ & ->); [done..|].
  set (w0 := set_redis r1 (set_counters (w_uuids w) (2 + w_calls w) (w_draws w) w)).
  erewrite run_bind_raise.
  2:{ etrans; [exact (write_job_eq topic w0 payload)|].
      rewrite (run_commit_failed _ e) by exact He. reflexivity. }
  split_and!; [done|done|]. intros Hc2 Ed Ere Ht Ht'.
  destruct (run_recorded topic k payload' w2 (nth_uuid w 0) (JStr (u "PROCESSING")))
    as (w3 & E3 & D & _); [done..|rewrite Ere; by apply Hseen|].
  exists w3. split; [|by rewrite D, Ed]. rewrite E3. unfold job_get. rewrite Ed. simpl. by rewrite Hn.
Qed.
End theorems.

(** ** The hypotheses can hold *)

Definition demo_world : world := world_of calm_env empty_db.
Definition demo_key : pystr := u "order-17".
Definition demo_payload : json := JDict [(u "input", JStr (u "hello"))].
Definition demo_created : result Job * world :=
  create_job (IP := demo_store) (u "jobs") demo_payload (Some demo_key) demo_world.
(** The second external call after the two of Redis is the commit. *)
Definition demo_failing_world : world :=
  world_of (env_with_fate 2 (Failed (RuntimeError (u "db down")))) empty_db.

Lemma create_job_new_witness :
  ∃ w', demo_created = (Ok (new_job_of demo_world demo_payload), w')
    ∧ w_db w' = new_job_db (u "jobs") demo_world demo_payload empty_db.
Proof.
  destruct (create_job_new (IL := demo_store_laws) (u "jobs") demo_key demo_payload demo_world)
    as (w' & E & D & _); [apply calm_env_calm|apply empty_fresh, calm_env_inj|done|done|].
  exists w'. split; [exact E|exact D].
Defined.

Lemma demo_created_ok : demo_created = (Ok (new_job_of demo_world demo_payload), demo_created.2).
Proof.
  rewrite (surjective_pairing demo_created) at 1. apply f_equal2; [vm_compute; reflexivity|reflexivity].
Qed.

Lemma create_job_idempotent_witness :
  ∃ job' w3, create_job (IP := demo_store) (u "jobs") (JDict []) (Some demo_key) demo_created.2 = (Ok job', w3)
    ∧ job_id job' = nth_uuid demo_world 0 ∧ job_request_payload job' = demo_payload.
Proof.
  destruct (create_job_idempotent (IL := demo_store_laws) (u "jobs") demo_key demo_payload (JDict [])
    demo_world (new_job_of demo_world demo_payload) demo_created.2 demo_created.2) as (job' & w3 & E & I & P & _);
    [apply calm_env_calm|apply empty_fresh, calm_env_inj|done|vm_compute; done|vm_compute; done
    |exact demo_created_ok|intros n; reflexivity|reflexivity|reflexivity
    |reflexivity|change (start_time < start_time + 86400 * MICROS); unfold MICROS; lia|].
  exists job', w3. split; [exact E|split; [exact I|exact P]].
Defined.

Lemma create_job_atomic_witness :
  w_db (create_job (IP := demo_store) (u "jobs") demo_payload None demo_failing_world).2 = empty_db
  ∨ ∃ n, (0 ≤ n)%nat ∧ w_db (create_job (IP := demo_store) (u "jobs") demo_payload None demo_failing_world).2
      = new_job_db (u "jobs") (set_counters n 0 0 demo_failing_world) demo_payload empty_db.
Proof.
  apply (create_job_atomic (IL := demo_store_laws) (u "jobs") None demo_payload demo_failing_world).
  apply empty_fresh, calm_env_inj.
Defined.

Lemma create_job_retry_refused_witness :
  let w1 := (create_job (IP := demo_store) (u "jobs") demo_payload (Some demo_key) demo_failing_world).2 in
  let w2 := set_counters (w_uuids w1) 10 0 (set_session empty_db [] (set_redis (w_redis w1) demo_world)) in
  ∃ w3, create_job (IP := demo_store) (u "jobs") demo_payload (Some demo_key) w2
        = (Raise (job_not_found demo_key), w3) ∧ w_db w3 = empty_db.
Proof.
  cbv zeta. set (w1 := (create_job _ _ _ demo_failing_world).2). set (w2 := set_counters _ _ _ _).
  pose proof (create_job_retry_refused (IL := demo_store_laws) (u "jobs") demo_key demo_payload demo_payload
    demo_failing_world (RuntimeError (u "db down")) w2) as H.
  specialize (H eq_refl eq_refl eq_refl ltac:(done) ltac:(vm_compute; done) eq_refl ltac:(vm_compute; done)).
  rewrite (surjective_pairing (create_job _ _ _ demo_failing_world)) in H.
  destruct H as (_ & _ & H).
  assert (w_db w1 = empty_db) as D by (vm_compute; reflexivity).
  refine (H _ (eq_sym D) eq_refl _ _).
  - intros n; reflexivity.
  - by apply Z.le_refl.
  - change (start_time < start_time + 3600 * MICROS). unfold MICROS. lia.
Defined.
