(* ===== verification/Requests.v ===== *)
(** * Requests with one key, interleaved

    Several processes of the API may handle requests with the same idempotency key at
    once. [create_job] of [app/application/job_service.py] is cut here at its calls of Redis
    and at its transaction; a request is a machine that makes one of these parts at
    a time, and the parts of all requests interleave with each other, with anything
    that leaves the key alone, and with the failures of the services. *)
From S2P Require Import Prelude PyStr PyFloat Json Domain Database Evolution World Effects Ports Fixtures JobService.
#[local] Open Scope Z_scope.

(** How far a request is: before its first look at the key; with the key found free; with the
    reservation refused; with the key reserved; with the job stored; with a recorded job
    found; answered, under the recorded id and as the creator or not; ended by an exception or
    a crash. *)
Inductive phase :=
  | Arrived
  | Absent
  | Taken
  | Reserved (id trace : pystr)
  | Stored (job : Job)
  | Found (recorded : json)
  | Answered (creator : bool) (recorded : json) (job : Job)
  | Gone (e : exn).

Section request.
Context {RS : RedisServer} {IP : IdempotencyPort}.
Variables (topic request_key : pystr).

(** The next part of [create_job]. *)
Definition advance (payload : json) (p : phase) : M phase :=
  match p with
  | Arrived =>
      existing ← get_request_record request_key;
      mret (match truthy_job_id existing with Some recorded => Found recorded | None => Absent end)
  | Absent =>
      job_id ← uuid4;
      trace_id ← uuid4;
      reserved ← reserve_request request_key job_id;
      mret (if reserved : bool then Reserved job_id trace_id else Taken)
  | Taken =>
      existing ← get_request_record request_key;
      match truthy_job_id existing with
      | Some recorded => mret (Found recorded)
      | None => raise (ValueError (u "Unable to reserve idempotency key"))
      end
  | Reserved job_id trace_id =>
      event ← new_event_json (JStr job_id) REQUESTED (u "api") (JStr trace_id) (JDict [(u "request", payload)]);
      created_at ← utcnow; updated_at ← utcnow;
      let job := MkJob job_id PENDING payload None None 0 created_at updated_at in
      write_job topic job event ;;
      mret (Stored job)
  | Stored job =>
      complete_request request_key (job_id job) ;;
      inc JOB_CREATED_TOTAL ;;
      mret (Answered true (JStr (job_id job)) job)
  | Found recorded => job ← duplicate_job request_key recorded; mret (Answered false recorded job)
  | Answered _ _ _ | Gone _ => mret p
  end.

(** All the parts, one after the other. *)
Fixpoint parts (fuel : nat) (payload : json) (p : phase) : M Job :=
  match p, fuel with
  | Answered _ _ job, _ => mret job
  | Gone e, _ => raise e
  | _, S fuel' => p' ← advance payload p; parts fuel' payload p'
  | _, O => raise (RuntimeError (u "not finished"))
  end.

Lemma bind_ext {A B} (m : M A) (k1 k2 : A → M B) w : (∀ a w', k1 a w' = k2 a w') → (m ≫= k1) w = (m ≫= k2) w.
Proof. intros H. unfold mbind, M_bind. destruct (m w) as [[a|e] w']; [apply H|done]. Qed.

Definition running (p : phase) : bool := match p with Answered _ _ _ | Gone _ => false | _ => true end.

Lemma parts_step n payload p : running p = true → parts (S n) payload p = (p' ← advance payload p; parts n payload p').
Proof. by destruct p. Qed.

Lemma parts_answered n payload c r job : parts n payload (Answered c r job) = mret job.
Proof. by destruct n. Qed.

Lemma parts_found n payload recorded w :
  parts (S n) payload (Found recorded) w = duplicate_job request_key recorded w.
Proof.
  rewrite parts_step by done. cbn [advance]. rewrite bind_assoc. unfold mbind, M_bind.
  destruct (duplicate_job _ _ _) as [[job|e] w2]; [|done]. cbn. by rewrite parts_answered.
Qed.

(** The parts make up [create_job]. *)
Lemma create_with_key_parts payload w : create_with_key topic payload request_key w = parts 5 payload Arrived w.
Proof.
  unfold create_with_key. rewrite parts_step by done. cbn [advance]. rewrite bind_assoc.
  apply bind_ext. intros existing w1. rewrite (bind_ok (mret _) _ _ _ _ eq_refl).
  destruct (truthy_job_id existing) as [recorded|]; [by rewrite parts_found|].
  rewrite parts_step by done. cbn [advance]. rewrite bind_assoc. apply bind_ext. intros job_id w2.
  rewrite bind_assoc. apply bind_ext. intros trace_id w3.
  rewrite bind_assoc. apply bind_ext. intros [|] w4; rewrite (bind_ok (mret _) _ _ _ _ eq_refl), parts_step by done; cbn [advance].
  - do 4 (rewrite bind_assoc; apply bind_ext; intros ? ?). rewrite (bind_ok (mret _) _ _ _ _ eq_refl).
    rewrite parts_step by done. cbn [advance]. do 2 (rewrite bind_assoc; apply bind_ext; intros ? ?).
    rewrite (bind_ok (mret _) _ _ _ _ eq_refl). by rewrite parts_answered.
  - rewrite bind_assoc. apply bind_ext. intros existing' w5.
    destruct (truthy_job_id existing') as [recorded|]; [|done].
    rewrite (bind_ok (mret _) _ _ _ _ eq_refl). by rewrite parts_found.
Qed.
End request.

(** ** The requests together *)

Section same_redis.
Context {RS : RedisServer}.

Lemma same_redis_write_job topic job event : stays same_redis (write_job topic job event).
Proof. apply same_redis_session. stay. Qed.

Lemma same_redis_duplicate k recorded : stays same_redis (duplicate_job k recorded).
Proof. unfold duplicate_job, get_job. stay. Qed.

End same_redis.

Section system.
Context {RS : RedisServer} {IP : IdempotencyPort} {IL : IdempotencyLaws IP}.
Variables (topic k : pystr).

(** The world, the requests with key [k], and the time until which the first record of the key
    will last, once there is one. *)
Record rstate := MkRstate { rq_world : world; rq_phases : list phase; rq_until : option Z }.

Definition window : Z := Z.min lease retention * MICROS.

(** The window opens with the first record. *)
Definition opened (until : option Z) (w : world) : option Z :=
  match until, seen (w_clock w) k (w_redis w) with
  | None, Ok None => None
  | None, _ => Some (w_clock w + window)
  | Some d, _ => Some d
  end.

Definition after (r : result phase) : phase := match r with Ok p => p | Raise e => Gone e end.

Inductive rstep : rstate → rstate → Prop :=
  (** a request with the key arrives *)
  | rstep_arrive w ps d : rstep (MkRstate w ps d) (MkRstate w (ps ++ [Arrived]) d)
  (** a request makes its next part, whatever the services do *)
  | rstep_advance w ps1 p ps2 d payload r w' :
      advance topic k payload p w = (r, w') →
      rstep (MkRstate w (ps1 ++ p :: ps2) d) (MkRstate w' (ps1 ++ after r :: ps2) (opened d w'))
  (** its process dies *)
  | rstep_crash w ps1 p ps2 d e : rstep (MkRstate w (ps1 ++ p :: ps2) d) (MkRstate w (ps1 ++ Gone e :: ps2) d)
  (** something else runs, which leaves the key and the clock alone *)
  | rstep_other w w' ps d :
      w_clock w' = w_clock w → (∀ t, w_clock w ≤ t → seen t k (w_redis w') = seen t k (w_redis w)) →
      rstep (MkRstate w ps d) (MkRstate w' ps d)
  (** time passes, but not beyond the window *)
  | rstep_time w ps d t dt :
      w_clock w ≤ t → (∀ u, d = Some u → t < u) → rstep (MkRstate w ps d) (MkRstate (set_clock t dt w) ps d).

(** The id a request has reserved or found. *)
Definition phase_id (p : phase) : option json :=
  match p with
  | Reserved id _ => Some (JStr id)
  | Stored job => Some (JStr (job_id job))
  | Found recorded | Answered _ recorded _ => Some recorded
  | Arrived | Absent | Taken | Gone _ => None
  end.

(** The request that has reserved the key, and so may create the job. *)
Definition creates (p : phase) : bool :=
  match p with Reserved _ _ | Stored _ | Answered true _ _ => true | _ => false end.

Definition creators (ps : list phase) : nat := length (filter (λ p, creates p = true) ps).

(** *** The invariant *)

(** Before the window opens. *)
Definition closed (s : rstate) : Prop :=
  rq_until s = None ∧ (∀ t, w_clock (rq_world s) ≤ t → seen t k (w_redis (rq_world s)) = Ok None)
  ∧ Forall (λ p, phase_id p = None) (rq_phases s).

(** While it is open, for the id [j]. *)
Definition open_for (j : pystr) (s : rstate) : Prop :=
  (∃ d, rq_until s = Some d ∧ w_clock (rq_world s) < d ≤ w_clock (rq_world s) + window
    ∧ ∀ t, w_clock (rq_world s) ≤ t → t < d →
        ∃ st, seen t k (w_redis (rq_world s)) = Ok (Some (MkIdempotencyRecord k (JStr j) st)))
  ∧ Forall (λ p, phase_id p = None ∨ phase_id p = Some (JStr j)) (rq_phases s)
  ∧ (creators (rq_phases s) ≤ 1)%nat.

Definition requests_ok (s : rstate) : Prop := closed s ∨ ∃ j, open_for j s.


(** *** One part *)

(** The first call of a part, when it touches Redis: either the part raises what the call raises,
    or it goes on with its answer. *)
Lemma call_inv {A B} (m : M A) (f : A → M B) w r w' :
  (m ≫= f) w = (r, w') → ∃ x w1, m w = (x, w1)
    ∧ match x with Ok a => f a w1 = (r, w') | Raise e => r = Raise e ∧ w' = w1 end.
Proof. unfold mbind, M_bind. destruct (m w) as [[a|e] w1]; intros H; eexists _, _; (split; [done|]); [done|by simplify_eq]. Qed.

Lemma redis_step_clock w w' : redis_step w w' → w_clock w' = w_clock w.
Proof. by intros (r & c & ->). Qed.

(** Looking at the key. *)
Lemma run_get_any w x w1 :
  get_request_record k w = (x, w1) →
  w_redis w1 = w_redis w ∧ w_clock w1 = w_clock w ∧ (x = seen (w_clock w) k (w_redis w) ∨ ∃ e, x = Raise e).
Proof.
  intros E. pose proof (get_request_any k w) as [H1 H2]. pose proof (redis_step_clock _ _ (get_request_step k w)) as H3.
  rewrite E in H1, H2, H3. split_and!; [done|done|]. destruct H2 as [H2|H2]; [by left|right]. destruct x as [a|e]; [done|by exists e].
Qed.

(** A part that stores or reads leaves Redis as it is. *)
Lemma advance_same_redis payload p w :
  match p with Arrived | Absent | Taken | Stored _ => False | _ => True end →
  same_redis w (advance topic k payload p w).2.
Proof.
  destruct p as [| | |id trace|job|recorded|c rec job|e]; intros H; try done; cbn [advance].
  - unfold utcnow. stay_bind; [stay|intros]. stay_bind; [stay|intros]. stay_bind; [stay|intros].
    stay_bind; [apply same_redis_write_job|intros; stay].
  - stay_bind; [apply same_redis_duplicate|intros; stay].
Qed.

(** What is recorded of the key from now on. *)
Definition never (w : world) : Prop := ∀ t, w_clock w ≤ t → seen t k (w_redis w) = Ok None.
Definition recorded_for (j : pystr) (d : Z) (w : world) : Prop :=
  ∀ t, w_clock w ≤ t → t < d → ∃ st, seen t k (w_redis w) = Ok (Some (MkIdempotencyRecord k (JStr j) st)).

Lemma never_same w w' : same_redis w w' → never w → never w'.
Proof. intros [Hr Hc] H t Ht. rewrite Hr. apply H. lia. Qed.
Lemma recorded_same j d w w' : same_redis w w' → recorded_for j d w → recorded_for j d w'.
Proof. intros [Hr Hc] H t Ht. rewrite Hr. apply H. lia. Qed.

(** A look at the key changes nothing of what is recorded; what the request goes on with is for
    [f] to say. *)
Lemma look_never (f : option IdempotencyRecord → M phase) w r w' :
  (get_request_record k ≫= f) w = (r, w') → never w →
  (∀ w1, (f None w1).2 = w1 ∧ phase_id (after (f None w1).1) = None) →
  w_clock w' = w_clock w ∧ never w' ∧ phase_id (after r) = None.
Proof.
  intros E Hn Hf. apply call_inv in E as (x & w1 & Ex & E). destruct (run_get_any _ _ _ Ex) as (Hr & Hc & Hx).
  rewrite (Hn (w_clock w)) in Hx by lia. assert (never w1) as Hn1 by by apply (never_same w).
  destruct x as [a|e]; [|by destruct E as [-> ->]].
  destruct Hx as [[= ->]|[e ?]]; [|done]. destruct (Hf w1) as [Hw Hp]. rewrite E in Hw, Hp. simpl in *. by subst w'.
Qed.

Lemma look_recorded (f : option IdempotencyRecord → M phase) w r w' j d st :
  (get_request_record k ≫= f) w = (r, w') → recorded_for j d w →
  seen (w_clock w) k (w_redis w) = Ok (Some (MkIdempotencyRecord k (JStr j) st)) →
  (∀ w1, let '(r1, w2) := f (Some (MkIdempotencyRecord k (JStr j) st)) w1 in
     w2 = w1 ∧ (phase_id (after r1) = None ∨ phase_id (after r1) = Some (JStr j)) ∧ creates (after r1) = false) →
  w_clock w' = w_clock w ∧ recorded_for j d w'
  ∧ (phase_id (after r) = None ∨ phase_id (after r) = Some (JStr j)) ∧ creates (after r) = false.
Proof.
  intros E Hrec Hst Hf. apply call_inv in E as (x & w1 & Ex & E). destruct (run_get_any _ _ _ Ex) as (Hr & Hc & Hx).
  rewrite Hst in Hx. assert (recorded_for j d w1) as Hrec1 by by apply (recorded_same _ _ w).
  destruct x as [a|e]; [|destruct E as [-> ->]; by split_and!; [..|left|]].
  destruct Hx as [[= ->]|[e ?]]; [|done]. specialize (Hf w1). rewrite E in Hf. destruct Hf as (-> & Hp & Hcr).
  by split_and!.
Qed.

(** Which of the recorded ids a request goes on with. *)
Lemma truthy_recorded j st :
  truthy_job_id (Some (MkIdempotencyRecord k (JStr j) st)) = Some (JStr j)
  ∨ truthy_job_id (Some (MkIdempotencyRecord k (JStr j) st)) = None.
Proof. unfold truthy_job_id. simpl ir_job_id. destruct (truthy _); [by left|by right]. Qed.

(** The key is free: a request that has nothing still has nothing, or it has opened the window. *)
Lemma advance_never payload p w r w' :
  advance topic k payload p w = (r, w') → phase_id p = None → never w →
  w_clock w' = w_clock w
  ∧ ((never w' ∧ phase_id (after r) = None)
     ∨ ∃ j, recorded_for j (w_clock w + lease * MICROS) w'
         ∧ (phase_id (after r) = None ∨ phase_id (after r) = Some (JStr j))).
Proof.
  intros E Hp Hn. destruct p as [| | |id trace|job|recorded|c rec job|e]; try done; cbn [advance] in E.
  - destruct (look_never _ _ _ _ E Hn) as (Hc & Hn' & Hp'); [by intros|]. split; [done|by left].
  - do 2 (apply call_inv in E as (? & ? & [= <- <-] & E)).
    apply call_inv in E as (x & w1 & Ex & E). match type of Ex with reserve_request _ ?j0 ?w0' = _ => set (j := j0) in *; set (w0 := w0') in * end.
    pose proof (redis_step_clock _ _ (reserve_step k j w0)) as Hc. pose proof (reserve_any k j w0) as H. rewrite Ex in H, Hc.
    change (w_clock w1 = w_clock w) in Hc.
    assert (w1 = w' ∧ ∀ q, phase_id (after r) = Some q → q = JStr j ∧ x = Ok true) as [<- Hq].
    { destruct x as [[|]|e]; [injection E as <- <-..|destruct E as [-> ->]]; (split; [done|]); intros q; simpl; [by intros [= <-]|done..]. }
    split; [done|]. destruct H as [[Hr Hx]|[_ H]].
    + left. split; [by apply (never_same w)|]. destruct (phase_id (after r)) as [q|]; [|done]. by destruct (Hq q eq_refl).
    + right. exists j. split.
      * intros t H1 H2. eexists. apply H; [simpl; lia|done].
      * destruct (phase_id (after r)) as [q|]; [|by left]. right. by destruct (Hq q eq_refl) as [-> _].
  - destruct (look_never _ _ _ _ E Hn) as (Hc & Hn' & Hp'); [by intros|]. split; [done|by left].
  - injection E as <- <-. split; [done|by left].
Qed.

(** The key is recorded for [j]: nobody can have another id, and no further request can create. *)
Lemma advance_recorded payload p w r w' j d :
  advance topic k payload p w = (r, w') → phase_id p = None ∨ phase_id p = Some (JStr j) →
  w_clock w < d → d ≤ w_clock w + window → recorded_for j d w →
  w_clock w' = w_clock w ∧ recorded_for j d w'
  ∧ (phase_id (after r) = None ∨ phase_id (after r) = Some (JStr j))
  ∧ (creates (after r) = true → creates p = true).
Proof.
  intros E Hp Hd Hw Hrec. destruct (Hrec (w_clock w)) as [st Hst]; [lia|done|].
  assert (∀ p', p' = p → match p' with Arrived | Absent | Taken | Stored _ => False | _ => True end →
    w_clock w' = w_clock w ∧ recorded_for j d w') as Hsame.
  { intros p' -> H. pose proof (advance_same_redis payload p w H) as S. rewrite E in S. split; [apply S|by apply (recorded_same _ _ w)]. }
  destruct p as [| | |id trace|job|recorded|c rec job|e]; cbn [advance] in E.
  - destruct (look_recorded _ _ _ _ _ _ _ E Hrec Hst) as (Hc & Hr & Hi & Hcr); [|rewrite Hcr; by split_and!].
    intros w1. cbv beta. by destruct (truthy_recorded j st) as [->| ->]; split_and!; auto.
  - do 2 (apply call_inv in E as (? & ? & [= <- <-] & E)).
    apply call_inv in E as (x & w1 & Ex & E). match type of Ex with reserve_request _ ?j0 ?w0' = _ => set (j1 := j0) in *; set (w0 := w0') in * end.
    pose proof (redis_step_clock _ _ (reserve_step k j1 w0)) as Hc. pose proof (reserve_any k j1 w0) as H. rewrite Ex in H, Hc.
    change (w_clock w1 = w_clock w) in Hc.
    destruct H as [[Hr Hx]|[H _]]; [|change (seen (w_clock w) k (w_redis w) = Ok None) in H; congruence].
    assert (recorded_for j d w1) as Hrec1 by by apply (recorded_same _ _ w).
    destruct x as [[|]|e]; [done|injection E as <- <-|destruct E as [-> ->]]; by split_and!; [..|left|].
  - destruct (look_recorded _ _ _ _ _ _ _ E Hrec Hst) as (Hc & Hr & Hi & Hcr); [|rewrite Hcr; by split_and!].
    intros w1. cbv beta. by destruct (truthy_recorded j st) as [->| ->]; split_and!; auto.
  - destruct (Hsame _ eq_refl I) as [Hc Hr]. split; [done|]. split; [done|].
    destruct r as [p'|e]; [|split; [by left|done]].
    repeat (apply bind_inv in E as (? & ? & _ & E)). injection E as <- _. simpl in *. split; [|done]. destruct Hp as [|[= ->]]; [done|by right].
  - destruct Hp as [?|[= Hj]]; [done|].
    apply call_inv in E as (x & w1 & Ex & E).
    pose proof (redis_step_clock _ _ (complete_step k (job_id job) w)) as Hc. pose proof (complete_any k (job_id job) w) as H.
    rewrite Ex in H, Hc. simpl in Hc.
    assert (recorded_for j d w1) as Hrec1.
    { destruct H as [Hr|H]; [by apply (recorded_same _ _ w)|]. intros t H1 H2. rewrite Hj in H. eexists. apply H; [simpl in *; lia|].
      unfold window, MICROS in *. lia. }
    destruct x as [[]|e]; [|destruct E as [-> ->]; by split_and!; [..|left|]].
    injection E as <- <-. split_and!; [done|done|right; simpl; by rewrite Hj|done].
  - destruct (Hsame _ eq_refl I) as [Hc Hr]. split; [done|]. split; [done|].
    destruct r as [p'|e]; [|split; [by left|done]].
    apply bind_inv in E as (? & ? & _ & E). injection E as <- _. simpl in *. split; [|done]. destruct Hp as [|[= ->]]; [done|by right].
  - injection E as <- <-. destruct (Hsame _ eq_refl I) as [Hc Hr]. by split_and!.
  - injection E as <- <-. destruct (Hsame _ eq_refl I) as [Hc Hr]. split_and!; [done|done|by left|done].
Qed.

(** *** The invariant is kept *)

Hypothesis lease_positive : 0 < lease.
Hypothesis retention_positive : 0 < retention.

Lemma window_positive : 0 < window.
Proof. unfold window, MICROS. lia. Qed.

Lemma creators_app ps1 ps2 : creators (ps1 ++ ps2) = (creators ps1 + creators ps2)%nat.
Proof. unfold creators. by rewrite filter_app, length_app. Qed.

Lemma creators_cons p ps : creators (p :: ps) = ((if creates p then 1 else 0) + creators ps)%nat.
Proof. unfold creators. rewrite filter_cons. by destruct (creates p). Qed.

Lemma creators_none ps : Forall (λ p, phase_id p = None) ps → creators ps = 0%nat.
Proof. induction 1 as [|p ps Hp _ IH]; [done|]. rewrite creators_cons, IH. by destruct p. Qed.

Lemma opened_never until w : never w → opened until w = until.
Proof. intros H. unfold opened. rewrite (H (w_clock w)) by lia. by destruct until. Qed.

Lemma opened_some d w : opened (Some d) w = Some d.
Proof. done. Qed.

Lemma advance_closed w ps1 p ps2 payload r w' :
  advance topic k payload p w = (r, w') → closed (MkRstate w (ps1 ++ p :: ps2) None) →
  requests_ok (MkRstate w' (ps1 ++ after r :: ps2) (opened None w')).
Proof.
  intros E (_ & Hn & Hf). simpl in *. apply Forall_app in Hf as [H1 [Hp H2]%Forall_cons].
  destruct (advance_never _ _ _ _ _ E Hp Hn) as [Hc [[Hn' Hi]|(j & Hrec & Hi)]].
  - left. split; [exact (opened_never None w' Hn')|]. split; [done|]. apply Forall_app. split; [done|by constructor].
  - right. exists j. pose proof window_positive. destruct (Hrec (w_clock w')) as [st Hst]; [lia|unfold MICROS; lia|].
    split_and!; simpl.
    + exists (w_clock w' + window). split_and!; [unfold opened; by rewrite Hst|lia|lia|].
      intros t G1 G2. apply Hrec; [done|]. unfold window, MICROS in *. lia.
    + apply Forall_app. split; [|constructor; [done|]]; by eapply Forall_impl; [done|left].
    + rewrite creators_app, creators_cons, !creators_none by done. destruct (creates _); lia.
Qed.

Lemma advance_open w ps1 p ps2 d payload r w' j :
  advance topic k payload p w = (r, w') → open_for j (MkRstate w (ps1 ++ p :: ps2) d) →
  open_for j (MkRstate w' (ps1 ++ after r :: ps2) (opened d w')).
Proof.
  intros E ((u0 & Hu & Hd & Hrec) & Hf & Hcr). simpl in *. subst d. apply Forall_app in Hf as [H1 [Hp H2]%Forall_cons].
  destruct (advance_recorded _ _ _ _ _ _ u0 E Hp) as (Hc & Hrec' & Hi & Hcre); [lia|lia|done|].
  split_and!; simpl.
  - exists u0. rewrite Hc. split_and!; [done|lia|lia|]. rewrite <- Hc. done.
  - apply Forall_app. split; [done|by constructor].
  - rewrite creators_app, creators_cons in *. destruct (creates (after r)); [rewrite Hcre in Hcr by done; lia|].
    destruct (creates p); lia.
Qed.

Lemma open_for_phases w ps ps' d j :
  open_for j (MkRstate w ps d) → Forall (λ p, phase_id p = None ∨ phase_id p = Some (JStr j)) ps' →
  (creators ps' ≤ creators ps)%nat → open_for j (MkRstate w ps' d).
Proof. intros (H1 & H2 & H3) H4 H5. split_and!; [done|done|]. simpl in *. lia. Qed.

Lemma rstep_ok s s' : rstep s s' → requests_ok s → requests_ok s'.
Proof.
  intros [w ps d|w ps1 p ps2 d payload r w' E|w ps1 p ps2 d e|w w' ps d Hc Hs|w ps d t dt Ht Hd] [Hcl|[j Ho]].
  - destruct Hcl as (H1 & H2 & H3). left. split_and!; [done|done|]. apply Forall_app. split; [done|by repeat constructor].
  - right. exists j. apply (open_for_phases w ps); [done| |].
    + destruct Ho as (_ & Hf & _). apply Forall_app. split; [done|by repeat constructor; left].
    + rewrite creators_app. unfold creators at 2. simpl. lia.
  - pose proof Hcl as (Hu & _). simpl in Hu. subst d. by eapply advance_closed.
  - right. exists j. by eapply advance_open.
  - destruct Hcl as (H1 & H2 & H3). left. split_and!; [done|done|]. simpl in *.
    apply Forall_app in H3 as [F1 [_ F2]%Forall_cons]. apply Forall_app. split; [done|by constructor].
  - right. exists j. apply (open_for_phases w (ps1 ++ p :: ps2)); [done| |].
    + destruct Ho as (_ & Hf & _). simpl in Hf. apply Forall_app in Hf as [F1 [_ F2]%Forall_cons].
      apply Forall_app. split; [done|]. constructor; [by left|done].
    + rewrite !creators_app, !creators_cons. simpl. lia.
  - destruct Hcl as (H1 & H2 & H3). left. split_and!; [done| |done]. simpl in *. intros t Ht. rewrite Hs by lia. apply H2. lia.
  - right. exists j. destruct Ho as ((u0 & H1 & H2 & H3) & H4 & H5). split_and!; [|done|done]. simpl in *.
    exists u0. rewrite Hc. split_and!; [done|lia|lia|]. intros t G1 G2. rewrite Hs by lia. by apply H3.
  - destruct Hcl as (H1 & H2 & H3). left. split_and!; [done| |done]. simpl in *. intros t' Ht'. apply H2. lia.
  - right. exists j. destruct Ho as ((u0 & H1 & H2 & H3) & H4 & H5). split_and!; [|done|done]. simpl in *.
    exists u0. specialize (Hd u0 H1). split_and!; [done|lia|lia|]. intros t' G1 G2. apply H3; lia.
Qed.

Lemma rsteps_ok s s' : rtc rstep s s' → requests_ok s → requests_ok s'.
Proof. induction 1; eauto using rstep_ok. Qed.

(** *** The creator stays the same request *)

Lemma rstep_until s s' d : rstep s s' → rq_until s = Some d → rq_until s' = Some d.
Proof. intros Hs Hd. destruct Hs; simpl in *; by subst. Qed.

Lemma lookup_changed {A} (ps1 : list A) x y ps2 i q :
  (ps1 ++ x :: ps2) !! i = Some q → (ps1 ++ y :: ps2) !! i = Some q ∨ i = length ps1 ∧ q = x.
Proof.
  revert i. induction ps1 as [|p ps1 IH]; intros [|i] H; simpl in *; simplify_eq; try by auto.
  destruct (IH i H) as [?|[-> ->]]; auto.
Qed.

Lemma creators_unique ps i j p q :
  (creators ps ≤ 1)%nat → ps !! i = Some p → ps !! j = Some q → creates p = true → creates q = true → i = j.
Proof.
  assert (∀ n r ps', ps' !! n = Some r → creates r = true → (1 ≤ creators ps')%nat) as Hone.
  { intros n r ps' H Hr. rewrite <- (take_drop_middle _ _ _ H), creators_app, creators_cons, Hr. lia. }
  revert i j. induction ps as [|x ps IH]; intros [|i] [|j] Hle Hi Hj Hp Hq; simpl in *; simplify_eq; try done;
    rewrite creators_cons in Hle.
  - specialize (Hone _ _ _ Hj Hq). rewrite Hp in Hle. lia.
  - specialize (Hone _ _ _ Hi Hp). rewrite Hq in Hle. lia.
  - f_equal. apply IH; try done. lia.
Qed.

(** Once the window is open, who creates has reserved the key before. *)
Lemma rstep_creator j s s' i q :
  rstep s s' → open_for j s → rq_phases s' !! i = Some q → creates q = true →
  ∃ p, rq_phases s !! i = Some p ∧ creates p = true.
Proof.
  intros [w ps d|w ps1 p ps2 d payload r w' E|w ps1 p ps2 d e| |] Ho Hq Hc; simpl in *; try by eauto.
  - apply lookup_app_Some in Hq as [?|[_ Hq]]; [by eauto|].
    apply list_elem_of_lookup_2, list_elem_of_singleton in Hq as ->. done.
  - destruct (lookup_changed _ _ p _ _ _ Hq) as [?|[-> ->]]; [by eauto|]. exists p. split; [by apply list_lookup_middle|].
    destruct Ho as ((u0 & Hu & Hd & Hrec) & Hf & _). simpl in *. apply Forall_app in Hf as [_ [Hp _]%Forall_cons].
    destruct (advance_recorded _ _ _ _ _ _ u0 E Hp) as (_ & _ & _ & Hcre); [lia|lia|done|by apply Hcre].
  - destruct (lookup_changed _ _ p _ _ _ Hq) as [?|[-> ->]]; by eauto.
Qed.

Lemma rsteps_creator s s' i j p q :
  rtc rstep s s' → requests_ok s → rq_phases s !! i = Some p → creates p = true →
  rq_phases s' !! j = Some q → creates q = true → i = j.
Proof.
  intros Hs Hok Hi Hp Hj Hq. assert (∃ d, rq_until s = Some d) as Hu.
  { destruct Hok as [(_ & _ & Hf)|(id & (d & Hd & _) & _)]; [|by exists d].
    rewrite Forall_forall in Hf. specialize (Hf p (list_elem_of_lookup_2 _ _ _ Hi)). by destruct p as [| | | | | |[]|]. }
  enough (∃ p', rq_phases s !! j = Some p' ∧ creates p' = true) as (p' & Hp' & Hc').
  { destruct Hok as [(Hn & _)|(id & _ & _ & Hle)]; [destruct Hu; congruence|]. by apply (creators_unique _ i j p p' Hle). }
  clear i p Hi Hp. induction Hs as [s|s s1 s' H1 _ IH]; [by eauto|].
  destruct Hok as [(Hn & _)|(id & Ho)]; [destruct Hu; congruence|].
  destruct Hu as [d Hd]. destruct IH as (p1 & P1 & C1); [|done|by exists d; eapply rstep_until|].
  - eapply rstep_ok; [done|]. right. by exists id.
  - by eapply rstep_creator.
Qed.
End system.

(** A part of a request that has not reserved the key commits nothing. *)
Lemma advance_commits_nothing {RS : RedisServer} {IP : IdempotencyPort} {IL : IdempotencyLaws IP} topic k payload p w :
  creates p = false → w_db (advance topic k payload p w).2 = w_db w.
Proof.
  enough (creates p = false → stays same_db (advance topic k payload p)) as H by (intros Hp; exact (H Hp w)).
  destruct p as [| | |id trace|job|recorded|c rec job|e]; intros H; try done; cbn [advance]; stay.
  apply duplicate_job_keeps.
Qed.

(** ** One job for each key *)

Section theorems.
Context {RS : RedisServer} {IP : IdempotencyPort} {IL : IdempotencyLaws IP}.

(** C7: one job for each key. Let requests with a key that is free come together: any number of
    them, their parts interleaved in any order with each other, with crashes, with whatever
    leaves the key alone, and with any failures of Redis and the database. Until the first record of
    the key could expire, one request at most ever gets to create a job, even if it dies; all others
    commit nothing; and all that reserve, find or answer a job do so under the same id. *)
Theorem one_job_per_key topic k s s' :
  0 < lease → 0 < retention →
  rq_phases s = [] → rq_until s = None → never k (rq_world s) → rtc (rstep topic k) s s' →
  (∀ s'' i j p q, rtc (rstep topic k) s' s'' → rq_phases s' !! i = Some p → rq_phases s'' !! j = Some q →
     creates p = true → creates q = true → i = j)
  ∧ (∀ p payload w, creates p = false → w_db (advance topic k payload p w).2 = w_db w)
  ∧ ∀ p q a b, p ∈ rq_phases s' → q ∈ rq_phases s' → phase_id p = Some a → phase_id q = Some b → a = b.
Proof.
  intros Hl Hr Hp Hu Hn Hs. assert (requests_ok k s') as Hok.
  { eapply rsteps_ok; [done|done|exact Hs|]. left. split_and!; [done|done|]. rewrite Hp. constructor. }
  split_and!; [intros s'' i j p q Hs' Hi Hj Hp' Hq; by eapply (rsteps_creator _ _ Hl Hr s' s'' i j p q)|intros ???; apply advance_commits_nothing|].
  intros p q a b H1 H2 Ha Hb. destruct Hok as [(_ & _ & Hf)|(j & _ & Hf & _)]; rewrite Forall_forall in Hf.
  - rewrite (Hf p H1) in Ha. done.
  - destruct (Hf p H1) as [E1|E1], (Hf q H2) as [E2|E2]; congruence.
Qed.

(** A request that finds the key before the transaction of the one that reserved it has committed
    is refused, although a job is about to be stored under the recorded id. *)
Lemma concurrent_duplicate_refused topic k payload id w :
  calm w → jobs (w_db w) !! id = None →
  (advance topic k payload (Found (JStr id)) w).1
  = Raise (job_not_found k).
Proof.
  intros Hc Hn. assert (∃ w', duplicate_job k (JStr id) w = (Raise (job_not_found k), w')) as (w' & E).
  { eexists. unfold duplicate_job. run1. run1. unfold mbind, M_bind. rewrite run_get_job by done.
    simpl w_db. unfold job_get. rewrite Hn. reflexivity. }
  cbn [advance]. by rewrite (run_bind_raise _ _ _ _ _ E).
Qed.
End theorems.

(** ** The hypotheses can hold *)

Section play.
Context {RS : RedisServer} {IP : IdempotencyPort} {IL : IdempotencyLaws IP}.
Variables (topic k : pystr) (payload : json).

(** The [i]-th request makes its next part. *)
Definition play_one (s : rstate) (i : nat) : rstate :=
  match rq_phases s !! i with
  | Some p =>
      let rw := advance topic k payload p (rq_world s) in
      MkRstate rw.2 (<[i := after rw.1]> (rq_phases s)) (opened k (rq_until s) rw.2)
  | None => s
  end.

Lemma play_one_step s i : rtc (rstep topic k) s (play_one s i).
Proof.
  unfold play_one. destruct (rq_phases s !! i) as [p|] eqn:E; [|done]. apply rtc_once.
  destruct s as [w ps d]. simpl in *. rewrite insert_take_drop by by eapply lookup_lt_Some.
  rewrite <- (take_drop_middle ps i p E) at 1.
  eapply (rstep_advance topic k w _ p _ d payload). apply surjective_pairing.
Qed.

Lemma play_steps s turns : rtc (rstep topic k) s (foldl play_one s turns).
Proof. revert s. induction turns as [|i turns IH]; intros s; [done|]. etrans; [apply play_one_step|apply IH]. Qed.
End play.

(** Two requests look, both find the key free, one of them reserves it. *)
Definition demo_key : pystr := u "order-17".
Definition demo_request : json := JDict [(u "input", JDict [(u "content", JStr (u "hi"))])].
Definition demo_two : rstate := MkRstate (world_of calm_env empty_db) [Arrived; Arrived] None.
#[local] Existing Instance demo_store.
Definition demo_played : rstate := foldl (play_one (u "request-topic") demo_key demo_request) demo_two [0; 1; 0; 1; 1; 0; 1; 0]%nat.

(** Before and after the transaction of the one that reserved it. *)
Definition demo_reserved : rstate := foldl (play_one (u "request-topic") demo_key demo_request) demo_two [0; 1; 0; 1; 1]%nat.

Lemma one_job_per_key_witness :
  rtc (rstep (u "request-topic") demo_key) demo_reserved demo_played
  ∧ (phase_id <$> rq_phases demo_played) = [Some (JStr (u "uuid")); Some (JStr (u "uuid"))]
  ∧ (∀ j q, rq_phases demo_played !! j = Some q → creates q = true → 0%nat = j).
Proof.
  assert (rtc (rstep (u "request-topic") demo_key) demo_reserved demo_played) as H2.
  { change demo_played with (foldl (play_one (u "request-topic") demo_key demo_request) demo_reserved [0; 1; 0]%nat).
    apply play_steps. }
  assert (rtc (rstep (u "request-topic") demo_key) (MkRstate (world_of calm_env empty_db) [] None) demo_reserved) as H1.
  { eapply rtc_l; [apply rstep_arrive|]. eapply rtc_l; [apply rstep_arrive|]. apply play_steps. }
  split; [exact H2|]. split; [vm_compute; reflexivity|].
  destruct (one_job_per_key (u "request-topic") demo_key (MkRstate (world_of calm_env empty_db) [] None) demo_reserved) as [H _].
  - vm_compute. reflexivity.
  - vm_compute. reflexivity.
  - reflexivity.
  - reflexivity.
  - intros t Ht. vm_compute. reflexivity.
  - exact H1.
  - intros j q Hj Hq. eapply (H demo_played 0%nat j); [exact H2|vm_compute; reflexivity|exact Hj|reflexivity|exact Hq].
Defined.
