(* ===== verification/WorkerService.v ===== *)
(** * Worker service: [app/application/worker_service.py]

    [handle_event] in its three transactions: the claim, the recording of the
    result and the recording of a failure, around the call of the processor.
    Other workers may act between them ([System]); inside one transaction the
    conditional update on the job row decides. *)
From S2P Require Import Prelude PyStr PyFloat Json Domain Database Evolution World Effects Ports Fixtures.
#[local] Open Scope Z_scope.

(** A value passed for a keyword argument whose default is [None]. *)
Definition not_none (j : json) : option json := match j with JNull => None | _ => Some j end.

(** [update_status(job_id, SUCCESS, result=..., clear_error=True, lease_...)] *)
Definition success_update (result : json) (worker_id : pystr) (epoch : Z) : status_update :=
  MkStatusUpdate (not_none result) None true None (Some worker_id) (Some epoch) true.

(** [update_status(job_id, FAILED, error=str(exc), lease_...)] *)
Definition failure_update (error worker_id : pystr) (epoch : Z) : status_update :=
  MkStatusUpdate None (Some error) false None (Some worker_id) (Some epoch) true.

(** [existing is not None and existing.status == JobStatus.SUCCESS] *)
Definition is_success (existing : option Job) : bool :=
  match existing with Some j => bool_decide (job_status j = SUCCESS) | None => false end.

(** Why the claiming transaction ended: with an answer, or with a lease. *)
Inductive claim_result := Answered (o : outcome) | Claimed (lease : JobLease).

(** [worker_id or f"{prefix}-{uuid4()}"]: an empty id is replaced too. *)
Definition own_worker_id {RS : RedisServer} (prefix : pystr) (worker_id : option pystr) : M pystr :=
  match worker_id with
  | Some (c :: s) => mret (c :: s)
  | _ => id ← uuid4; mret (prefix ++ u "-" ++ id)
  end.

(** [WorkerService.__init__]: the id under which it will claim. *)
Definition worker_service_init {RS : RedisServer} (worker_id : option pystr) : M pystr :=
  own_worker_id (u "worker") worker_id.

(** Two services that were given no id claim under different ones. *)
Lemma own_worker_ids_differ {RS : RedisServer} prefix w id w1 w2 id' w3 :
  Inj (=) (=) (env_uuid4 (w_env w)) → w_env w2 = w_env w1 → (w_uuids w1 ≤ w_uuids w2)%nat →
  own_worker_id prefix None w = (Ok id, w1) → own_worker_id prefix None w2 = (Ok id', w3) → id ≠ id'.
Proof.
  unfold own_worker_id. intros Hinj He Hn. rewrite !(bind_ok _ _ _ _ _ (run_uuid4 _)). intros [= <- <-] [= <- _].
  simpl in He, Hn. rewrite He. intros [=H]. apply app_inv_head in H. injection H as H. apply Hinj in H. lia.
Qed.

Section service.
Context {RS : RedisServer} {TP : TaskProcessor}.
Variables (worker_id : pystr) (lease_seconds : Z) (source : pystr).

(** First transaction, shared with the inference service: claim the job and
    log the start, or answer without processing. *)
Definition claim_phase (job_id trace_id : json) : M claim_result :=
  with_session (
    id ← bind_text job_id;
    lease ← repo_claim id worker_id lease_seconds;
    match lease with
    | None =>
        rollback ;;
        existing ← repo_get id;
        if is_success existing then mret (Answered (true, None))
        else
          inc (JOB_TRANSITION_CONFLICT_TOTAL (status_value PROCESSING)) ;;
          mret (Answered (false, Some (u "LEASE_HELD")))
    | Some lease =>
        (if 1 <? lease_epoch lease then inc JOB_LEASE_TAKEOVER_TOTAL else mret tt) ;;
        event ← new_event_json job_id PROCESSING_STARTED source trace_id
                  (JDict [(u "lease_epoch", JInt (lease_epoch lease))]);
        event_add event ;;
        commit ;;
        mret (Claimed lease)
    end).

(** Failure transaction, shared with the inference service. *)
Definition failure_phase (job_id trace_id : json) (lease : JobLease) (exc : exn) : M outcome :=
  marked ← with_session (
    id ← bind_text job_id;
    marked ← repo_update_status id FAILED (failure_update (exn_msg exc) worker_id (lease_epoch lease));
    match marked with
    | None => rollback ;; mret false
    | Some _ =>
        event ← new_event_json job_id EVENT_FAILED source trace_id
                  (JDict [(u "error", JStr (exn_msg exc))]);
        event_add event ;;
        commit ;;
        mret true
    end);
  (if marked : bool then inc JOB_FAILURE_TOTAL else mret tt) ;;
  mret (false, Some (exn_msg exc)).

(** Result transaction. *)
Definition success_phase (job_id trace_id : json) (lease : JobLease) (result : json) : M outcome :=
  committed ← with_session (
    id ← bind_text job_id;
    committed ← repo_update_status id SUCCESS (success_update result worker_id (lease_epoch lease));
    match committed with
    | None =>
        rollback ;;
        inc (JOB_TRANSITION_CONFLICT_TOTAL (status_value SUCCESS)) ;;
        mret false
    | Some _ =>
        event ← new_event_json job_id PROCESSING_COMPLETED source trace_id
                  (JDict [(u "result", result)]);
        event_add event ;;
        commit ;;
        mret true
    end);
  (if committed : bool then inc JOB_SUCCESS_TOTAL else mret tt) ;;
  mret (true, None).

(** [event["payload"]["request"]] *)
Definition request_payload (event : json) : M json :=
  payload ← lift (getitem event (u "payload")); lift (getitem payload (u "request")).

Definition worker_handle_event (event : json) : M outcome :=
  job_id ← lift (getitem event (u "job_id"));
  trace_id ← lift (getitem event (u "trace_id"));
  claimed ← claim_phase job_id trace_id;
  match claimed with
  | Answered o => mret o
  | Claimed lease =>
      try_finally
        (try_except
           (request ← request_payload event;
            result ← process request;
            success_phase job_id trace_id lease result)
           (failure_phase job_id trace_id lease))
        (observe JOB_PROCESSING_SECONDS)
  end.
End service.

(** ** The phases when no service fails *)

Section phases.
Context {RS : RedisServer}.
Variables (worker_id : pystr) (lease_seconds : Z) (source : pystr).

(** The log after one more entry of this worker. *)
Definition logged (w : world) (job_id trace_id : pystr) (t : EventType) (payload : json) (d : db) : db :=
  append_event (w_db_clock w) (env_uuid4 (w_env w) (w_uuids w)) job_id (event_type_value t) source trace_id
    payload d.

(** The database after a claim. *)
Definition claimed_db (w : world) (job_id trace_id : pystr) (expires : Z) (row : job_row) : db :=
  logged w job_id trace_id PROCESSING_STARTED (JDict [(u "lease_epoch", JInt (jr_lease_epoch row + 1))])
    (set_jobs <[job_id := claimed_row (w_db_clock w) worker_id expires row]> (w_db w)).

Lemma run_claim_phase w job_id trace_id row expires :
  calm w → fresh_ids w → jobs (w_db w) !! job_id = Some row → claimable (w_clock w) row = true →
  jr_lease_epoch row < int4_max → datetime_add_seconds (w_clock w) lease_seconds = Ok expires →
  ∃ w', claim_phase worker_id lease_seconds source (JStr job_id) (JStr trace_id) w
        = (Ok (Claimed (MkJobLease (jr_id row) worker_id (jr_lease_epoch row + 1) (Some expires))), w')
    ∧ ran (claimed_db w job_id trace_id expires row) 1 w w'.
Proof.
  intros Hc Hf Hr Hcl He Ht. set (d := claimed_db w job_id trace_id expires row).
  assert (∃ ms, claim_phase worker_id lease_seconds source (JStr job_id) (JStr trace_id) w
    = (Ok (Claimed (MkJobLease (jr_id row) worker_id (jr_lease_epoch row + 1) (Some expires))),
       set_session d [] (set_db d (set_metrics ms (set_counters (1 + w_uuids w) (2 + w_calls w) (w_draws w) w)))))
    as [ms E]; [|eexists; split; [exact E|by split]].
  eexists. unfold claim_phase. etrans; [apply run_with_session|].
  - run1. eapply run_bind; [apply run_repo_claim; [done|done|by apply claim_hit]|]. cbv beta iota.
    eapply run_bind; [apply run_if_inc|]. cbv beta. run1. run1.
    eapply run_bind; [apply run_commit; [done|]|reflexivity].
    simpl. unfold mbind, result_bind. rewrite insert_event_fresh by by eapply fresh_update. reflexivity.
  - done.
Qed.

(** The statuses of these two updates are those of the transition table. *)
Definition finishing (target : JobStatus) (up : status_update) : Prop :=
  up_expected_statuses up = None ∧ target ≠ PENDING.

(** The database after the worker finished the job as [target]. *)
Definition finished_db (w : world) (target : JobStatus) (up : status_update) (job_id trace_id : pystr)
    (t : EventType) (payload : json) (row : job_row) : db :=
  logged w job_id trace_id t payload
    (set_jobs <[job_id := status_values (w_db_clock w) target up row]> (w_db w)).

Lemma run_success_phase w job_id trace_id lease result row
    (up := success_update result worker_id (lease_epoch lease)) :
  calm w → fresh_ids w → jobs (w_db w) !! job_id = Some row →
  status_guard (allowed_source_statuses SUCCESS) up row = true →
  ∃ w', success_phase worker_id source (JStr job_id) (JStr trace_id) lease result w = (Ok (true, None), w')
    ∧ ran (finished_db w SUCCESS up job_id trace_id PROCESSING_COMPLETED (JDict [(u "result", result)]) row) 1 w w'.
Proof.
  intros Hc Hf Hr Hg. set (d := finished_db _ _ _ _ _ _ _ _).
  eexists. split; [unfold success_phase|].
  - eapply run_bind; [apply run_with_session|eapply run_bind; [apply run_if_inc|reflexivity]].
    run1. eapply run_bind; [by apply run_repo_update, update_status_hit|]. cbv beta iota.
    run1. run1. eapply run_bind; [apply (run_commit _ d); [done|]|reflexivity].
    simpl. unfold mbind, result_bind. by rewrite insert_event_fresh by by eapply fresh_update.
  - by split.
Qed.

Lemma run_failure_phase w job_id trace_id lease exc row
    (up := failure_update (exn_msg exc) worker_id (lease_epoch lease)) :
  calm w → fresh_ids w → jobs (w_db w) !! job_id = Some row →
  status_guard (allowed_source_statuses FAILED) up row = true →
  ∃ w', failure_phase worker_id source (JStr job_id) (JStr trace_id) lease exc w
        = (Ok (false, Some (exn_msg exc)), w')
    ∧ ran (finished_db w FAILED up job_id trace_id EVENT_FAILED (JDict [(u "error", JStr (exn_msg exc))]) row) 1 w w'.
Proof.
  intros Hc Hf Hr Hg. set (d := finished_db _ _ _ _ _ _ _ _).
  eexists. split; [unfold failure_phase|].
  - eapply run_bind; [apply run_with_session|eapply run_bind; [apply run_if_inc|reflexivity]].
    run1. eapply run_bind; [by apply run_repo_update, update_status_hit|]. cbv beta iota.
    run1. run1. eapply run_bind; [apply (run_commit _ d); [done|]|reflexivity].
    simpl. unfold mbind, result_bind. by rewrite insert_event_fresh by by eapply fresh_update.
  - by split.
Qed.

(** *** A lost lease: whatever the services do, nothing is committed *)

Lemma update_miss_tx w job_id target up :
  finishing target up → misses target up job_id (w_tx w) → w_new w = [] →
  ((repo_update_status job_id target up w).1 = Ok None ∨ is_ok (repo_update_status job_id target up w).1 = false).
Proof.
  intros [He Hp] Hm Hn. unfold repo_update_status. rewrite (bind_ok _ _ _ _ _ (run_reads _ _)).
  unfold execute, external. set (w' := set_counters _ _ _ w).
  assert ((flush ;; on_tx (update_status (w_db_clock w) job_id (status_value target) up)) w'
    = (Ok None, set_session (w_tx w) [] w')) as E.
  { eapply run_bind; [by apply run_flush; simpl; rewrite Hn|].
    unfold on_tx. simpl. by rewrite update_status_miss. }
  destruct (env_fate _ _); [left; by rewrite E|by right|by right].
Qed.

(** An update that misses leads only to steps that do not commit. *)
Lemma update_miss_db {A} w job_id target up (k : option Job → M A) :
  finishing target up → misses target up job_id (w_tx w) → w_new w = [] →
  stays same_db (k None) →
  w_db ((repo_update_status job_id target up ≫= k) w).2 = w_db w.
Proof.
  intros Hfin Hm Hn Hk. pose proof (update_miss_tx w job_id target up Hfin Hm Hn) as H.
  pose proof (keeps_repo_update job_id target up w) as Hw. unfold same_db in Hw.
  unfold mbind, M_bind. destruct (repo_update_status _ _ _ w) as [[a|e] w1]; simpl in *; [|done].
  destruct H as [[= ->]|]; [|done]. rewrite <- Hw. apply Hk.
Qed.

Lemma success_phase_fenced w job_id trace_id lease result :
  misses SUCCESS (success_update result worker_id (lease_epoch lease)) job_id (w_db w) →
  w_db (success_phase worker_id source (JStr job_id) trace_id lease result w).2 = w_db w.
Proof.
  intros Hm. unfold success_phase. rewrite bind_same_db by stay. rewrite with_session_db.
  rewrite (bind_ok _ _ _ _ _ (run_bind_text _ _)). etrans; [apply update_miss_db; [done|exact Hm|done|stay]|done].
Qed.

Lemma failure_phase_fenced w job_id trace_id lease exc :
  misses FAILED (failure_update (exn_msg exc) worker_id (lease_epoch lease)) job_id (w_db w) →
  w_db (failure_phase worker_id source (JStr job_id) trace_id lease exc w).2 = w_db w.
Proof.
  intros Hm. unfold failure_phase. rewrite bind_same_db by stay. rewrite with_session_db.
  rewrite (bind_ok _ _ _ _ _ (run_bind_text _ _)). etrans; [apply update_miss_db; [done|exact Hm|done|stay]|done].
Qed.

(** A claim that does not succeed. *)
Definition refusal (job : option Job) : outcome :=
  if is_success job then (true, None) else (false, Some (u "LEASE_HELD")).

Lemma run_claim_refused w job_id trace_id expires job :
  calm w → not_claimable (w_clock w) job_id (w_db w) → job_get job_id (w_db w) = Ok job →
  datetime_add_seconds (w_clock w) lease_seconds = Ok expires →
  ∃ w', claim_phase worker_id lease_seconds source (JStr job_id) trace_id w
        = (Ok (Answered (refusal job)), w')
    ∧ ran (w_db w) 0 w w'.
Proof.
  intros Hc Hn Hj Ht. unfold claim_phase, refusal.
  destruct (is_success job) eqn:Es; (eexists; split; [apply run_with_session|]).
  1, 3: run1; eapply run_bind; [apply run_repo_claim; [done|done|by eapply claim_miss]|]; cbv beta iota;
    (eapply run_bind; [by apply run_rollback|]); (eapply run_bind; [by apply run_repo_get|]);
    cbv beta; rewrite Es; reflexivity.
  all: by split.
Qed.
End phases.

(** ** What [handle_event] promises *)

Section handler.
Context {RS : RedisServer} {TP : TaskProcessor}.
Variables (worker_id : pystr) (lease_seconds : Z).

(** What the processing step makes of an event, in whatever world. *)
Definition computes (event : json) (r : result json) : Prop :=
  ∀ w, ((request_payload event ≫= process) w).1 = r.

(** The event names a job and a trace. *)
Definition addressed (event : json) (job_id trace_id : pystr) : Prop :=
  getitem event (u "job_id") = Ok (JStr job_id) ∧ getitem event (u "trace_id") = Ok (JStr trace_id).

Lemma computes_stores event r w :
  TaskProcessorLaws TP → computes event r →
  ∃ w', (request_payload event ≫= process) w = (r, w') ∧ same_stores w w'.
Proof.
  intros L H. specialize (H w). unfold request_payload in *.
  destruct ((_ ≫= process) w) as [r' w'] eqn:E. simpl in H. subst r'. exists w'. split; [done|].
  unfold mbind, M_bind, lift in E. destruct (getitem event _) as [p|]; [|by simplify_eq].
  destruct (getitem p _) as [q|]; [|by simplify_eq].
  pose proof (process_stores q w) as S. by rewrite E in S.
Qed.

(** A claimed row can be finished by its holder. *)
Lemma claimed_guard db_now expires row target up :
  target = SUCCESS ∨ target = FAILED →
  up_lease_owner up = Some worker_id → up_lease_epoch up = Some (jr_lease_epoch row + 1) →
  status_guard (allowed_source_statuses target) up (claimed_row db_now worker_id expires row) = true.
Proof.
  intros Ht Ho He. apply status_guard_spec. rewrite Ho, He. split_and!; [|by intros ? [= <-]..].
  exists PROCESSING. split; [|done]. rewrite allowed_sources_eq. destruct Ht as [-> | ->]; set_solver.
Qed.

Definition lease_of (row : job_row) (expires : Z) : JobLease :=
  MkJobLease (jr_id row) worker_id (jr_lease_epoch row + 1) (Some expires).

(** The hypotheses under which an event is processed: the job can be claimed. *)
Record can_claim (w : world) (job_id : pystr) (row : job_row) (expires : Z) : Prop := {
  cc_calm : calm w;
  cc_fresh : fresh_ids w;
  cc_row : jobs (w_db w) !! job_id = Some row;
  cc_claimable : claimable (w_clock w) row = true;
  cc_epoch : jr_lease_epoch row < int4_max;
  cc_expires : datetime_add_seconds (w_clock w) lease_seconds = Ok expires;
}.

(** The handler after the claim and the call of the processor. *)
Lemma run_worker w event job_id trace_id row expires r :
  TaskProcessorLaws TP → can_claim w job_id row expires → addressed event job_id trace_id → computes event r →
  ∃ w2, calm w2 ∧ fresh_ids w2
    ∧ w_db w2 = claimed_db worker_id (u "worker") w job_id trace_id expires row
    ∧ w_kafka w2 = w_kafka w
    ∧ worker_handle_event worker_id lease_seconds (u "worker") event w =
        try_finally
          match r with
          | Ok result =>
              try_except
                (success_phase worker_id (u "worker") (JStr job_id) (JStr trace_id) (lease_of row expires) result)
                (failure_phase worker_id (u "worker") (JStr job_id) (JStr trace_id) (lease_of row expires))
          | Raise exc =>
              failure_phase worker_id (u "worker") (JStr job_id) (JStr trace_id) (lease_of row expires) exc
          end (observe JOB_PROCESSING_SECONDS) w2.
Proof.
  intros L [Hc Hf Hr Hcl He Ht] [Hj Htr] Hcomp.
  destruct (run_claim_phase worker_id lease_seconds (u "worker") w job_id trace_id row expires)
    as (w1 & E1 & R1); [done..|].
  assert (fresh_ids w1) as Hf1.
  { eapply ran_fresh; [exact R1|]. apply fresh_append_event. by eapply fresh_update. }
  destruct (computes_stores event r w1 L Hcomp) as (w2 & E2 & S2). exists w2.
  split_and!.
  - eapply same_stores_calm, ran_calm; done.
  - by eapply same_stores_fresh.
  - by rewrite (ss_db _ _ S2), (ran_db _ _ _ _ R1).
  - by rewrite (ss_kafka _ _ S2), (ran_kafka _ _ _ _ R1).
  - unfold worker_handle_event. rewrite Hj, Htr. do 2 step. rewrite (bind_ok _ _ _ _ _ E1).
    fold (lease_of row expires). cbv iota. unfold try_finally, try_except.
    rewrite <- bind_assoc. unfold mbind at 1, M_bind at 1. rewrite E2. by destruct r.
Qed.

(** The database after the handler has finished a job it could claim. *)
Definition completed_db (w w2 : world) (job_id trace_id : pystr) (expires : Z) (row : job_row) (result : json) : db :=
  finished_db (u "worker") w2 SUCCESS (success_update result worker_id (jr_lease_epoch row + 1)) job_id trace_id
    PROCESSING_COMPLETED (JDict [(u "result", result)]) (claimed_row (w_db_clock w) worker_id expires row).

Lemma run_worker_success w event job_id trace_id row expires result :
  TaskProcessorLaws TP → can_claim w job_id row expires → addressed event job_id trace_id → computes event (Ok result) →
  ∃ w2 w', w_db w2 = claimed_db worker_id (u "worker") w job_id trace_id expires row
    ∧ worker_handle_event worker_id lease_seconds (u "worker") event w = (Ok (true, None), w')
    ∧ w_db w' = completed_db w w2 job_id trace_id expires row result
    ∧ w_kafka w' = w_kafka w ∧ calm w' ∧ fresh_ids w'.
Proof.
  intros L Hcc Had Hcomp.
  destruct (run_worker w event job_id trace_id row expires (Ok result)) as (w2 & Hc & Hf & D & K & ->); [done..|].
  set (row1 := claimed_row (w_db_clock w) worker_id expires row).
  destruct (run_success_phase worker_id (u "worker") w2 job_id trace_id (lease_of row expires) result row1)
    as (w3 & E3 & R3).
  { done. } { done. } { rewrite D. simpl. apply lookup_insert_eq. } { apply claimed_guard; auto. }
  exists w2. eexists. split_and!; [done|eapply run_try_finally; [by apply run_try_ok|apply run_observe]| | | |].
  - exact (ran_db _ _ _ _ R3).
  - simpl. by rewrite (ran_kafka _ _ _ _ R3).
  - intros n. exact (ran_calm _ _ _ _ R3 Hc n).
  - assert (fresh_ids w3) as Hf3; [|exact Hf3]. eapply ran_fresh; [exact R3|].
    apply fresh_append_event. eapply fresh_update; [exact Hf|]. rewrite D. apply lookup_insert_eq.
Qed.

(** The handler on a job that cannot be claimed. *)
Lemma run_worker_refused w event job_id trace_id expires job :
  calm w → addressed event job_id trace_id →
  not_claimable (w_clock w) job_id (w_db w) → job_get job_id (w_db w) = Ok job →
  datetime_add_seconds (w_clock w) lease_seconds = Ok expires →
  ∃ w', worker_handle_event worker_id lease_seconds (u "worker") event w = (Ok (refusal job), w')
    ∧ ran (w_db w) 0 w w'.
Proof.
  intros Hc [Hj Htr] Hn Hg Ht.
  destruct (run_claim_refused worker_id lease_seconds (u "worker") w job_id (JStr trace_id) expires job)
    as (w1 & E1 & R1); [done..|].
  exists w1. split; [|done].
  unfold worker_handle_event. rewrite Hj, Htr. do 2 step. by rewrite (bind_ok _ _ _ _ _ E1).
Qed.
End handler.

Section theorems.
Context {RS : RedisServer} {TP : TaskProcessor} {TL : TaskProcessorLaws TP}.
Variables (worker_id : pystr) (lease_seconds : Z).

(** A job that can be claimed is finished. When no service fails and the processor
    returns [result], the handler answers success, the row becomes SUCCESS with that
    result and no error, its lease is released and its epoch is one higher, the log
    gains exactly the start and the completion, and nothing is put in the outbox. *)
Theorem worker_completes w event job_id trace_id row expires result :
  can_claim lease_seconds w job_id row expires → addressed event job_id trace_id → computes event (Ok result) →
  ∃ w' row' e1 e2, worker_handle_event worker_id lease_seconds (u "worker") event w = (Ok (true, None), w')
    ∧ jobs (w_db w') = <[job_id := row']> (jobs (w_db w))
    ∧ finished_row SUCCESS (match result with JNull => jr_result row | _ => Some result end) None row row'
    ∧ job_events (w_db w') = job_events (w_db w) ++ [e1; e2]
    ∧ entry e1 = (job_id, u "PROCESSING_STARTED", u "worker", trace_id,
                  JDict [(u "lease_epoch", JInt (jr_lease_epoch row + 1))])
    ∧ entry e2 = (job_id, u "PROCESSING_COMPLETED", u "worker", trace_id, JDict [(u "result", result)])
    ∧ outbox_messages (w_db w') = outbox_messages (w_db w).
Proof.
  intros Hcc Had Hcomp.
  destruct (run_worker_success worker_id lease_seconds w event job_id trace_id row expires result)
    as (w2 & w' & D & E & D' & _); [done..|].
  eexists w', _, _, _. split; [exact E|]. rewrite D'. unfold completed_db, finished_db, logged. rewrite D. simpl.
  rewrite insert_insert_eq. split_and!; [done|by split; destruct result|rewrite <- app_assoc; reflexivity|done..].
Qed.

(** C28: a failure of the processor (or an event without a request) is recorded. With no
    failing service and a job that can be claimed, the handler answers with the text of the exception, the row becomes FAILED with it,
    keeping its old result, and the log gains exactly the start and the failure. *)
Theorem worker_records_failure w event job_id trace_id row expires exc :
  can_claim lease_seconds w job_id row expires → addressed event job_id trace_id → computes event (Raise exc) →
  ∃ w' row' e1 e2,
    worker_handle_event worker_id lease_seconds (u "worker") event w = (Ok (false, Some (exn_msg exc)), w')
    ∧ jobs (w_db w') = <[job_id := row']> (jobs (w_db w))
    ∧ finished_row FAILED (jr_result row) (Some (exn_msg exc)) row row'
    ∧ job_events (w_db w') = job_events (w_db w) ++ [e1; e2]
    ∧ entry e1 = (job_id, u "PROCESSING_STARTED", u "worker", trace_id,
                  JDict [(u "lease_epoch", JInt (jr_lease_epoch row + 1))])
    ∧ entry e2 = (job_id, u "FAILED", u "worker", trace_id, JDict [(u "error", JStr (exn_msg exc))])
    ∧ outbox_messages (w_db w') = outbox_messages (w_db w).
Proof.
  intros Hcc Had Hcomp.
  destruct (run_worker worker_id lease_seconds w event job_id trace_id row expires (Raise exc))
    as (w2 & Hc & Hf & D & K & ->); [done..|].
  set (row1 := claimed_row (w_db_clock w) worker_id expires row).
  destruct (run_failure_phase worker_id (u "worker") w2 job_id trace_id (lease_of worker_id row expires)
    exc row1) as (w3 & E3 & R3).
  { done. } { done. } { rewrite D. simpl. apply lookup_insert_eq. } { apply claimed_guard; auto. }
  eexists _, _, _, _. split; [eapply run_try_finally; [done|apply run_observe]|].
  simpl w_db. rewrite (ran_db _ _ _ _ R3). unfold finished_db, logged. rewrite D. simpl.
  rewrite insert_insert_eq. split_and!; [done|by split|rewrite <- app_assoc; reflexivity|done..].
Qed.

(** C27: a job that cannot be claimed (finished, unknown, or held by a live lease) is not
    processed, whatever the processor. With no failing service a finished job is acknowledged, the others are
    answered LEASE_HELD, and neither the database nor Kafka nor Redis changes. *)
Theorem worker_refuses (TP' : TaskProcessor) w event job_id trace_id expires job :
  calm w → addressed event job_id trace_id →
  not_claimable (w_clock w) job_id (w_db w) → job_get job_id (w_db w) = Ok job →
  datetime_add_seconds (w_clock w) lease_seconds = Ok expires →
  ∃ w', worker_handle_event (TP := TP') worker_id lease_seconds (u "worker") event w = (Ok (refusal job), w')
    ∧ w_db w' = w_db w ∧ w_kafka w' = w_kafka w ∧ w_redis w' = w_redis w.
Proof.
  intros Hc Had Hn Hg Ht.
  destruct (run_worker_refused (TP := TP') worker_id lease_seconds w event job_id trace_id expires job)
    as (w1 & E1 & R1); [done..|].
  exists w1. split; [done|by destruct R1].
Qed.

(** C20: fencing. Once the epoch of a row has passed the epoch of a lease, and whatever
    the database went through since, recording a result or a failure under that lease
    commits nothing, whatever the services do in the attempt. *)
Theorem stale_lease_fenced d w job_id row trace_id lease result exc :
  jobs d !! job_id = Some row → lease_epoch lease < jr_lease_epoch row → db_evolves d (w_db w) →
  w_db (success_phase worker_id (u "worker") (JStr job_id) trace_id lease result w).2 = w_db w
  ∧ w_db (failure_phase worker_id (u "worker") (JStr job_id) trace_id lease exc w).2 = w_db w.
Proof.
  intros Hr Hlt He.
  assert (∀ target up, up_lease_epoch up = Some (lease_epoch lease) → misses target up job_id (w_db w)) as Hm.
  { intros target up Hup row' Hr'. apply not_true_iff_false. rewrite status_guard_spec. intros (_ & _ & H).
    specialize (H _ Hup). destruct (dv_jobs _ _ He _ _ Hr) as (row2 & Hr2 & Hev).
    pose proof (ev_epoch _ _ Hev). simplify_eq. lia. }
  split; [apply success_phase_fenced|apply failure_phase_fenced]; by apply Hm.
Qed.
End theorems.

(** ** The hypotheses can hold *)

Definition demo_row : job_row := row_in demo_id PENDING None None 0.
Definition demo_world : world := world_of calm_env (one_job PENDING None None 0).
Definition demo_expires : Z := start_time + 1800 * MICROS.
Definition demo_result : json := JDict [(u "echo", JDict [(u "input", JDict [(u "content", JStr (u "hi"))])])].

Lemma demo_can_claim : can_claim 1800 demo_world demo_id demo_row demo_expires.
Proof.
  split; [apply calm_env_calm|apply one_job_fresh|apply one_job_row|reflexivity|done|reflexivity].
Qed.

Lemma worker_completes_witness :
  ∃ w' row', worker_handle_event (TP := echo_processor) (u "w-1") 1800 (u "worker") (request_event demo_id) demo_world
      = (Ok (true, None), w')
    ∧ jobs (w_db w') = <[demo_id := row']> (jobs (w_db demo_world))
    ∧ finished_row SUCCESS (Some demo_result) None demo_row row'.
Proof.
  destruct (worker_completes (TL := echo_laws) (u "w-1") 1800 demo_world (request_event demo_id) demo_id (u "trace")
    demo_row demo_expires demo_result) as (w' & row' & e1 & e2 & E & J & F & _);
    [apply demo_can_claim|done|intros w; reflexivity|].
  exists w', row'. split; [exact E|split; [exact J|exact F]].
Defined.

Lemma worker_records_failure_witness :
  ∃ w' row', worker_handle_event (TP := failing_processor) (u "w-1") 1800 (u "worker") (request_event demo_id) demo_world
      = (Ok (false, Some (u "boom")), w')
    ∧ finished_row FAILED None (Some (u "boom")) demo_row row'.
Proof.
  destruct (worker_records_failure (TL := failing_laws) (u "w-1") 1800 demo_world (request_event demo_id) demo_id
    (u "trace") demo_row demo_expires (RuntimeError (u "boom"))) as (w' & row' & e1 & e2 & E & J & F & _);
    [apply demo_can_claim|done|intros w; reflexivity|].
  exists w', row'. split; [exact E|exact F].
Defined.

(** A job another worker holds for ten more minutes. *)
Definition demo_held_world : world :=
  world_of calm_env (one_job PROCESSING (Some (u "w-2")) (Some (start_time + 600 * MICROS)) 1).

Lemma worker_refuses_witness :
  ∃ w', worker_handle_event (TP := echo_processor) (u "w-1") 1800 (u "worker") (request_event demo_id) demo_held_world
      = (Ok (false, Some (u "LEASE_HELD")), w') ∧ w_db w' = w_db demo_held_world.
Proof.
  set (row := row_in demo_id PROCESSING (Some (u "w-2")) (Some (start_time + 600 * MICROS)) 1).
  destruct (worker_refuses (u "w-1") 1800 echo_processor demo_held_world (request_event demo_id) demo_id (u "trace")
    demo_expires (Some (MkJob demo_id PROCESSING (JDict []) None None 0 start_time start_time))) as (w' & E & D & _).
  - apply calm_env_calm.
  - done.
  - intros r Hr. change (Some row = Some r) in Hr. injection Hr as <-. reflexivity.
  - reflexivity.
  - reflexivity.
  - exists w'. split; [exact E|exact D].
Defined.

(** The lease of an earlier claim, and the job taken over since. *)
Definition demo_stale : JobLease := MkJobLease demo_id (u "w-1") 1 (Some start_time).
Definition demo_taken_world : world :=
  world_of calm_env (one_job PROCESSING (Some (u "w-2")) (Some demo_expires) 2).

Lemma stale_lease_fenced_witness :
  w_db (success_phase (u "w-1") (u "worker") (JStr demo_id) (JStr (u "trace")) demo_stale demo_result
          demo_taken_world).2 = w_db demo_taken_world.
Proof.
  apply (stale_lease_fenced (u "w-1") (w_db demo_taken_world) demo_taken_world demo_id
    (row_in demo_id PROCESSING (Some (u "w-2")) (Some demo_expires) 2) (JStr (u "trace")) demo_stale demo_result
    (RuntimeError [])); [apply one_job_row|done|reflexivity].
Defined.
