(* ===== verification/PipelineServices.v ===== *)
(** * Pipeline services: [app/application/pipeline_services.py]

    The inference service hands the result on through the outbox instead of
    finishing the job; the downstream service finishes it, under the status
    condition alone. *)
From S2P Require Import Prelude PyStr PyFloat Json Domain Database Evolution World Effects Ports Fixtures WorkerService.
#[local] Open Scope Z_scope.

(** [InferencePipelineService.__init__]: the id under which it will claim. *)
Definition inference_service_init {RS : RedisServer} (worker_id : option pystr) : M pystr :=
  own_worker_id (u "inference") worker_id.

Section inference.
Context {RS : RedisServer} {TP : TaskProcessor}.
Variables (worker_id : pystr) (lease_seconds : Z) (downstream_topic : pystr).

Definition INFERENCE_SOURCE : pystr := u "inference-worker".

(** The event log entry and the message for the downstream stage, in one
    transaction. *)
Definition handoff_phase (job_id trace_id inference_result downstream_event : json) : M unit :=
  with_session (
    event ← new_event_json job_id INFERENCE_COMPLETED INFERENCE_SOURCE trace_id
              (JDict [(u "result", inference_result)]);
    event_add event ;;
    outbox_add downstream_topic downstream_event None ;;
    commit).

Definition inference_handle_event (event : json) : M outcome :=
  job_id ← lift (getitem event (u "job_id"));
  trace_id ← lift (getitem event (u "trace_id"));
  claimed ← claim_phase worker_id lease_seconds INFERENCE_SOURCE job_id trace_id;
  match claimed with
  | Answered o => mret o
  | Claimed lease =>
      try_except
        (request ← request_payload event;
         inference_result ← process request;
         downstream_event ← new_event_json job_id INFERENCE_COMPLETED INFERENCE_SOURCE trace_id
           (JDict [(u "request", request); (u "inference_result", inference_result)]);
         handoff_phase job_id trace_id inference_result downstream_event ;;
         inc DOWNSTREAM_EVENT_PUBLISHED_TOTAL ;;
         mret (true, None))
        (failure_phase worker_id INFERENCE_SOURCE job_id trace_id lease)
  end.
End inference.

Section downstream.
Context {RS : RedisServer} {TP : TaskProcessor}.

Definition DOWNSTREAM_SOURCE : pystr := u "downstream-worker".

(** [update_status(job_id, SUCCESS, result=..., clear_error=True)] *)
Definition downstream_success (result : json) : status_update :=
  MkStatusUpdate (Some result) None true None None None false.
(** [update_status(job_id, FAILED, error=str(exc))] *)
Definition downstream_failure (error : pystr) : status_update :=
  MkStatusUpdate None (Some error) false None None None false.

(** Whether the job is finished already; a missing job is an error. *)
Definition lookup_phase (job_id : json) : M bool :=
  with_session (
    id ← bind_text job_id;
    existing ← repo_get id;
    match existing with
    | None => raise (ValueError (u "Job not found for downstream event: " ++ id))
    | Some job => mret (bool_decide (job_status job = SUCCESS))
    end).

Definition complete_phase (job_id trace_id payload downstream_result : json) : M unit :=
  with_session (
    inference_result ← lift (get payload (u "inference_result") JNull);
    id ← bind_text job_id;
    repo_update_status id SUCCESS
      (downstream_success (JDict [(u "inference", inference_result); (u "downstream", downstream_result)])) ;;
    event ← new_event_json job_id DOWNSTREAM_COMPLETED DOWNSTREAM_SOURCE trace_id
              (JDict [(u "result", downstream_result)]);
    event_add event ;;
    commit).

Definition abort_phase (job_id trace_id : json) (exc : exn) : M outcome :=
  with_session (
    id ← bind_text job_id;
    repo_update_status id FAILED (downstream_failure (exn_msg exc)) ;;
    event ← new_event_json job_id EVENT_FAILED DOWNSTREAM_SOURCE trace_id
              (JDict [(u "error", JStr (exn_msg exc))]);
    event_add event ;;
    commit) ;;
  inc DOWNSTREAM_FAILURE_TOTAL ;;
  mret (false, Some (exn_msg exc)).

Definition downstream_handle_event (event : json) : M outcome :=
  job_id ← lift (getitem event (u "job_id"));
  trace_id ← lift (getitem event (u "trace_id"));
  try_except
    (finished ← lookup_phase job_id;
     if finished : bool then mret (true, None)
     else
       payload ← lift (getitem event (u "payload"));
       downstream_result ← process payload;
       complete_phase job_id trace_id payload downstream_result ;;
       inc DOWNSTREAM_SUCCESS_TOTAL ;;
       mret (true, None))
    (abort_phase job_id trace_id).
End downstream.

(** ** The phases when no service fails *)

Section phases.
Context {RS : RedisServer}.

(** The database and the message after the hand-off. *)
Definition handed_off (w : world) (downstream_topic job_id trace_id : pystr) (inference_result downstream_event : json)
    (d : db) : db :=
  append_outbox (w_db_clock w)
    (MkNewMessage (env_uuid4 (w_env w) (1 + w_uuids w)) downstream_topic downstream_event None)
  (append_event (w_db_clock w) (env_uuid4 (w_env w) (w_uuids w)) job_id (event_type_value INFERENCE_COMPLETED)
    INFERENCE_SOURCE trace_id (JDict [(u "result", inference_result)]) d).

(** The objects the hand-off adds to its session. *)
Definition handoff_objects (w : world) (downstream_topic job_id trace_id : pystr)
    (inference_result downstream_event : json) : list pending :=
  [NewEvent (MkNewEvent (JStr (env_uuid4 (w_env w) (w_uuids w))) (JStr job_id)
     (JStr (event_type_value INFERENCE_COMPLETED)) (JStr INFERENCE_SOURCE) (JStr trace_id)
     (JDict [(u "result", inference_result)]));
   NewOutbox (MkNewMessage (env_uuid4 (w_env w) (1 + w_uuids w)) downstream_topic downstream_event None)].

Lemma handoff_inserts w t j tr r e :
  fresh_ids w →
  insert_pendings (w_db_clock w) (handoff_objects w t j tr r e) (w_db w) = Ok (handed_off w t j tr r e (w_db w)).
Proof.
  intros Hf. unfold handoff_objects, insert_pendings, insert_pending, mbind, result_bind.
  rewrite insert_event_fresh by done. rewrite insert_outbox_fresh by by apply fresh_append_event. done.
Qed.

(** The hand-off adds those objects and commits. *)
Lemma handoff_phase_eq w t j tr r e
    (w' := set_session (w_db w) (handoff_objects w t j tr r e)
             (set_counters (2 + w_uuids w) (w_calls w) (w_draws w) w)) :
  handoff_phase t (JStr j) (JStr tr) r e w
  = (let '(x, w'') := commit w' in (x, set_session (w_db w'') [] w'')).
Proof.
  destruct (commit w') as [x w''] eqn:E. unfold handoff_phase. apply run_with_session.
  run1. run1. run1. exact E.
Qed.

Lemma run_handoff_phase w t j tr r e :
  calm w → fresh_ids w →
  ∃ w', handoff_phase t (JStr j) (JStr tr) r e w = (Ok tt, w') ∧ ran (handed_off w t j tr r e (w_db w)) 2 w w'.
Proof.
  intros Hc Hf. eexists.
  split; [rewrite handoff_phase_eq, (run_commit _ (handed_off w t j tr r e (w_db w)))|].
  - reflexivity.
  - done.
  - exact (handoff_inserts w t j tr r e Hf).
  - by split.
Qed.

(** The row after an update by status alone. *)
Definition moved (now : Z) (target : JobStatus) (up : status_update) (job_id : pystr) (d : db) : db :=
  match jobs d !! job_id with
  | Some row =>
      if status_guard (allowed_source_statuses target) up row then
        set_jobs <[job_id := status_values now target up row]> d
      else d
  | None => d
  end.

Lemma update_moved now job_id target up d :
  up_expected_statuses up = None → target ≠ PENDING →
  ∃ j, update_status now job_id (status_value target) up d = Ok (j, moved now target up job_id d).
Proof.
  intros He Hp. rewrite update_status_eq by done. unfold moved.
  destruct (jobs d !! job_id) as [row|]; [|eauto]. destruct (status_guard _ _ _); eauto.
Qed.

Lemma moved_fresh e n now target up job_id d :
  fresh_from e n d → fresh_from e n (moved now target up job_id d).
Proof.
  intros Hf. unfold moved. destruct (jobs d !! job_id) as [row|] eqn:E; [|done].
  destruct (status_guard _ _ _); [by eapply fresh_update|done].
Qed.

Definition downstream_log (w : world) (job_id trace_id : pystr) (t : EventType) (payload : json) (d : db) : db :=
  append_event (w_db_clock w) (env_uuid4 (w_env w) (w_uuids w)) job_id (event_type_value t) DOWNSTREAM_SOURCE
    trace_id payload d.

(** The result the downstream stage stores. *)
Definition combined (inference_result downstream_result : json) : json :=
  JDict [(u "inference", inference_result); (u "downstream", downstream_result)].

Lemma run_complete_phase w job_id trace_id payload inference_result result :
  calm w → fresh_ids w → get payload (u "inference_result") JNull = Ok inference_result →
  ∃ w', complete_phase (JStr job_id) (JStr trace_id) payload result w = (Ok tt, w')
    ∧ ran (downstream_log w job_id trace_id DOWNSTREAM_COMPLETED (JDict [(u "result", result)])
             (moved (w_db_clock w) SUCCESS (downstream_success (combined inference_result result)) job_id (w_db w)))
          1 w w'.
Proof.
  intros Hc Hf Hg. set (up := downstream_success _).
  destruct (update_moved (w_db_clock w) job_id SUCCESS up (w_db w)) as [j Ej]; [done..|].
  eexists. split; [unfold complete_phase; rewrite Hg; apply run_with_session|].
  - run1. run1. eapply run_bind; [apply run_repo_update; [done|done|exact Ej]|]. cbv beta.
    run1. run1. apply run_commit; [done|].
    simpl. unfold mbind, result_bind. by rewrite insert_event_fresh by by apply moved_fresh.
  - by split.
Qed.

Lemma run_abort_phase w job_id trace_id exc :
  calm w → fresh_ids w →
  ∃ w', abort_phase (JStr job_id) (JStr trace_id) exc w = (Ok (false, Some (exn_msg exc)), w')
    ∧ ran (downstream_log w job_id trace_id EVENT_FAILED (JDict [(u "error", JStr (exn_msg exc))])
             (moved (w_db_clock w) FAILED (downstream_failure (exn_msg exc)) job_id (w_db w)))
          1 w w'.
Proof.
  intros Hc Hf. set (up := downstream_failure _).
  destruct (update_moved (w_db_clock w) job_id FAILED up (w_db w)) as [j Ej]; [done..|].
  eexists. split; [unfold abort_phase; eapply run_bind; [apply run_with_session|]|].
  - run1. eapply run_bind; [apply run_repo_update; [done|done|exact Ej]|]. cbv beta.
    run1. run1. apply run_commit; [done|].
    simpl. unfold mbind, result_bind. by rewrite insert_event_fresh by by apply moved_fresh.
  - run1. reflexivity.
  - by split.
Qed.

Lemma run_lookup_phase w job_id job :
  calm w → job_get job_id (w_db w) = Ok job →
  ∃ w', lookup_phase (JStr job_id) w
        = (match job with
           | None => Raise (ValueError (u "Job not found for downstream event: " ++ job_id))
           | Some j => Ok (bool_decide (job_status j = SUCCESS))
           end, w')
    ∧ ran (w_db w) 0 w w'.
Proof.
  intros Hc Hg. unfold lookup_phase. destruct job as [j|];
    (eexists; split; [apply run_with_session; run1; (eapply run_bind; [by apply run_repo_get|reflexivity])|by split]).
Qed.
End phases.

(** ** The hand-off leaves the jobs alone *)

Section handoff_jobs.
Context {RS : RedisServer}.

(** Without a new job in the session, what is committed has the jobs there were. *)
Definition is_job (p : pending) : bool := match p with NewJob _ => true | _ => false end.
Definition jobs_settled (w : world) : Prop :=
  jobs (w_tx w) = jobs (w_db w) ∧ Forall (λ p, is_job p = false) (w_new w).
Definition same_jobs (w w' : world) : Prop := jobs_settled w → jobs (w_db w') = jobs (w_db w) ∧ jobs_settled w'.

#[global] Instance same_jobs_relation : StepRelation same_jobs.
Proof.
  split; [split|]; [by intros w H| |by intros w n c d H].
  intros w1 w2 w3 H12 H23 H. destruct (H12 H) as [E H2]. destruct (H23 H2) as [E' H3]. split; [congruence|done].
Qed.

Lemma same_jobs_insert f : (∀ d d', f d = Ok d' → jobs d' = jobs d) → stays same_jobs (insert f).
Proof.
  intros Hf w [Ht Hn]. unfold insert, on_tx. destruct (f (w_tx w)) as [d|e] eqn:E; simpl; [|done].
  split; [done|]. split; [|done]. simpl. by rewrite (Hf _ _ E).
Qed.

Lemma same_jobs_flush_all ps : Forall (λ p, is_job p = false) ps → stays same_jobs (flush_all ps).
Proof.
  induction 1 as [|p ps Hp _ IH]; simpl; [stay|]. stay_bind; [|done]. unfold flush_one. stay_bind; [stay|intros now].
  destruct p; [done| |].
  - repeat (stay_bind; [by stay|intros]). apply same_jobs_insert. intros d d'. unfold insert_event. case_decide; [done|].
    by intros [= <-].
  - apply same_jobs_insert. intros d d'. unfold insert_outbox. case_decide; [done|]. by intros [= <-].
Qed.

Lemma same_jobs_commit : stays same_jobs commit.
Proof.
  apply stays_external; [apply _|]. stay_bind.
  - intros w [Ht Hn]. apply (same_jobs_flush_all (w_new w) Hn (set_session (w_tx w) [] w)). by split; [|constructor].
  - intros _ w [Ht Hn]. simpl. split; [done|]. by split; [|constructor].
Qed.

Lemma same_jobs_add p : is_job p = false → stays same_jobs (session_add p).
Proof.
  intros Hp w [Ht Hn]. split; [done|]. split; [done|]. simpl. apply Forall_app. split; [done|by constructor].
Qed.

Lemma handoff_keeps_jobs t job trace result event w :
  jobs (w_db (handoff_phase t job trace result event w).2) = jobs (w_db w).
Proof.
  unfold handoff_phase. set (body := mbind _ _). rewrite with_session_db.
  assert (stays same_jobs body) as H.
  { unfold body, event_add, outbox_add, new_event_json. stay_bind; [stay|intros ev].
    stay_bind; [stay_bind; [stay|intros e; by apply same_jobs_add]|intros _].
    stay_bind; [|intros _; apply same_jobs_commit]. stay_bind; [stay|intros id].
    stay_bind; [by apply same_jobs_add|stay]. }
  apply (H (set_session (w_db w) [] w)). by split; [|constructor].
Qed.
End handoff_jobs.

(** ** What the services promise *)

Section inference_theorems.
Context {RS : RedisServer} {TP : TaskProcessor} {TL : TaskProcessorLaws TP}.
Variables (worker_id : pystr) (lease_seconds : Z) (downstream_topic : pystr).

(** The event the downstream stage receives. *)
Definition handoff_event (event_id : pystr) (now : Z) (job_id trace_id : pystr) (request result : json) : json :=
  build_event event_id now (JStr job_id) INFERENCE_COMPLETED INFERENCE_SOURCE (JStr trace_id)
    (JDict [(u "request", request); (u "inference_result", result)]).

(** The handler on a job that can be claimed. *)
Lemma run_inference w event job_id trace_id row expires request result :
  can_claim lease_seconds w job_id row expires → addressed event job_id trace_id →
  (∀ w0, request_payload event w0 = (Ok request, w0)) → (∀ w0, (process request w0).1 = Ok result) →
  ∃ w2 eid now w', w_db w2 = claimed_db worker_id INFERENCE_SOURCE w job_id trace_id expires row
    ∧ inference_handle_event worker_id lease_seconds downstream_topic event w = (Ok (true, None), w')
    ∧ w_db w' = handed_off w2 downstream_topic job_id trace_id result
        (handoff_event eid now job_id trace_id request result) (w_db w2)
    ∧ w_kafka w' = w_kafka w ∧ calm w' ∧ fresh_ids w'.
Proof.
  intros [Hc Hf Hr Hcl He Ht] [Hj Htr] Hreq Hproc.
  destruct (run_claim_phase worker_id lease_seconds INFERENCE_SOURCE w job_id trace_id row expires)
    as (w1 & E1 & R1); [done..|].
  assert (fresh_ids w1) as Hf1.
  { eapply ran_fresh; [exact R1|]. apply fresh_append_event. by eapply fresh_update. }
  pose proof (process_stores request w1) as S. specialize (Hproc w1).
  destruct (process request w1) as [r w2] eqn:E2. simpl in Hproc, S. subst r.
  set (w2' := set_counters (1 + w_uuids w2) (w_calls w2) (w_draws w2) w2).
  set (eid := env_uuid4 (w_env w2) (w_uuids w2)).
  set (ev := handoff_event eid (w_clock w2) job_id trace_id request result).
  assert (calm w2') as Hc2 by (eapply (same_stores_calm w1 w2); [done|]; by eapply ran_calm).
  assert (fresh_ids w2') as Hf2.
  { apply (fresh_later _ (w_uuids w2)); [simpl; lia|]. by eapply (same_stores_fresh w1 w2). }
  destruct (run_handoff_phase w2' downstream_topic job_id trace_id result ev) as (w3 & E3 & R3); [done..|].
  exists w2', eid, (w_clock w2), (set_metrics (metric_add DOWNSTREAM_EVENT_PUBLISHED_TOTAL 1 (w_metrics w3)) w3).
  split_and!.
  - simpl. by rewrite (ss_db _ _ S), (ran_db _ _ _ _ R1).
  - unfold inference_handle_event. rewrite Hj, Htr. do 2 step. rewrite (bind_ok _ _ _ _ _ E1). cbv iota.
    apply run_try_ok. eapply run_bind; [apply Hreq|]. eapply run_bind; [exact E2|].
    run1. eapply run_bind; [exact E3|]. run1. reflexivity.
  - exact (ran_db _ _ _ _ R3).
  - simpl. rewrite (ran_kafka _ _ _ _ R3). simpl. by rewrite (ss_kafka _ _ S), (ran_kafka _ _ _ _ R1).
  - intros n. exact (ran_calm _ _ _ _ R3 Hc2 n).
  - refine (ran_fresh _ _ _ _ R3 _). apply fresh_append_outbox, fresh_append_event. exact Hf2.
Qed.

(** A job that can be claimed is inferred and handed on, not finished. The row stays
    claimed, the log gains the start and INFERENCE_COMPLETED, and the outbox gains one
    pending message for the downstream topic that carries the request and the result;
    nothing is sent to Kafka directly. *)
Theorem inference_hands_off w event job_id trace_id row expires request result :
  can_claim lease_seconds w job_id row expires → addressed event job_id trace_id →
  (∀ w0, request_payload event w0 = (Ok request, w0)) → (∀ w0, (process request w0).1 = Ok result) →
  ∃ w' row' e1 e2 m eid now,
    inference_handle_event worker_id lease_seconds downstream_topic event w = (Ok (true, None), w')
    ∧ jobs (w_db w') = <[job_id := row']> (jobs (w_db w))
    ∧ row' = claimed_row (w_db_clock w) worker_id expires row
    ∧ job_events (w_db w') = job_events (w_db w) ++ [e1; e2]
    ∧ entry e1 = (job_id, u "PROCESSING_STARTED", INFERENCE_SOURCE, trace_id,
                  JDict [(u "lease_epoch", JInt (jr_lease_epoch row + 1))])
    ∧ entry e2 = (job_id, u "INFERENCE_COMPLETED", INFERENCE_SOURCE, trace_id, JDict [(u "result", result)])
    ∧ outbox_messages (w_db w') = outbox_messages (w_db w) ++ [m]
    ∧ is_pending m ∧ ob_topic m = downstream_topic
    ∧ ob_payload m = handoff_event eid now job_id trace_id request result
    ∧ w_kafka w' = w_kafka w.
Proof.
  intros Hcc Had Hreq Hproc.
  destruct (run_inference w event job_id trace_id row expires request result)
    as (w2 & eid & now & w' & D & E & D' & K & _); [done..|].
  exists w', (claimed_row (w_db_clock w) worker_id expires row). eexists _, _, _, _, _. split; [exact E|].
  rewrite D', D. simpl.
  split_and!; [done|done|rewrite <- app_assoc; reflexivity|done|done|reflexivity|done|done|reflexivity|done].
Qed.

(** C24: the hand-off is atomic. Whatever the services do, the log entry and the message
    for the downstream stage are committed together or not at all. *)
Theorem handoff_atomic w job_id trace_id result event :
  fresh_ids w →
  let w' := (handoff_phase downstream_topic (JStr job_id) (JStr trace_id) result event w).2 in
  w_db w' = w_db w ∨ w_db w' = handed_off w downstream_topic job_id trace_id result event (w_db w).
Proof.
  intros Hf. cbv zeta. rewrite handoff_phase_eq. set (w3 := set_session _ _ _).
  destruct (commit_atomic w3) as [[H _]|H]; [by repeat constructor|left|right];
    destruct (commit w3) as [r w4]; simpl w_db in *; [done|].
  assert (Ok (handed_off w downstream_topic job_id trace_id result event (w_db w)) = Ok (w_db w4)) as H'.
  { rewrite <- (handoff_inserts _ _ _ _ _ _ Hf). exact H. }
  by injection H'.
Qed.
End inference_theorems.

Section downstream_handler.
Context {RS : RedisServer} {TP : TaskProcessor}.

(** What the downstream processor makes of the payload of an event. *)
Definition refines (event payload : json) (r : result json) : Prop :=
  getitem event (u "payload") = Ok payload ∧ ∀ w, (process payload w).1 = r.

(** The handler after the lookup and the call of the processor, for a job that
    is not finished. *)
Lemma run_downstream w event job_id trace_id payload job r :
  TaskProcessorLaws TP → calm w → fresh_ids w → addressed event job_id trace_id → refines event payload r →
  job_get job_id (w_db w) = Ok (Some job) → job_status job ≠ SUCCESS →
  ∃ w2, calm w2 ∧ fresh_ids w2 ∧ w_db w2 = w_db w ∧
    downstream_handle_event event w =
      match r with
      | Ok result =>
          try_except
            (complete_phase (JStr job_id) (JStr trace_id) payload result ;;
             inc DOWNSTREAM_SUCCESS_TOTAL ;; mret (true, None))
            (abort_phase (JStr job_id) (JStr trace_id))
      | Raise exc => abort_phase (JStr job_id) (JStr trace_id) exc
      end w2.
Proof.
  intros L Hc Hf [Hj Htr] [Hp Hproc] Hg Hs.
  destruct (run_lookup_phase w job_id (Some job)) as (w1 & E1 & R1); [done..|].
  rewrite bool_decide_false in E1 by done.
  pose proof (process_stores payload w1) as S. specialize (Hproc w1).
  destruct (process payload w1) as [r' w2] eqn:E2. simpl in Hproc, S. subst r'.
  exists w2. split_and!.
  - eapply (same_stores_calm w1 w2); [done|]. by eapply ran_calm.
  - eapply (same_stores_fresh w1 w2); [done|]. by eapply ran_fresh.
  - by rewrite (ss_db _ _ S), (ran_db _ _ _ _ R1).
  - unfold downstream_handle_event. rewrite Hj, Htr, Hp. do 2 step.
    unfold try_except. rewrite (bind_ok _ _ _ _ _ E1). cbv iota. step.
    unfold mbind at 1, M_bind at 1. rewrite E2. by destruct r.
Qed.

(** A missing job: the lookup raises and the failure is recorded. *)
Lemma run_downstream_missing w event job_id trace_id :
  calm w → addressed event job_id trace_id → job_get job_id (w_db w) = Ok None →
  ∃ w2, ran (w_db w) 0 w w2 ∧
    downstream_handle_event event w =
      abort_phase (JStr job_id) (JStr trace_id)
        (ValueError (u "Job not found for downstream event: " ++ job_id)) w2.
Proof.
  intros Hc [Hj Htr] Hg. destruct (run_lookup_phase w job_id None) as (w1 & E1 & R1); [done..|].
  exists w1. split; [done|]. unfold downstream_handle_event. rewrite Hj, Htr. do 2 step.
  unfold try_except. unfold mbind at 1, M_bind at 1. by rewrite E1.
Qed.

(** The row moves exactly when it is in process. *)
Lemma moved_processing now target up job_id d row :
  target = SUCCESS ∨ target = FAILED → up_lease_owner up = None → up_lease_epoch up = None →
  jobs d !! job_id = Some row → jr_status row = status_value PROCESSING →
  moved now target up job_id d = set_jobs <[job_id := status_values now target up row]> d.
Proof.
  intros Ht Ho He Hr Hs. unfold moved. rewrite Hr.
  assert (status_guard (allowed_source_statuses target) up row = true) as ->; [|done].
  apply status_guard_spec. rewrite Ho, He. split_and!; [|done..].
  exists PROCESSING. split; [|done]. rewrite allowed_sources_eq. destruct Ht as [-> | ->]; set_solver.
Qed.

Lemma moved_elsewhere now up job_id d row :
  jobs d !! job_id = Some row → jr_status row ≠ status_value PROCESSING → moved now SUCCESS up job_id d = d.
Proof.
  intros Hr Hs. unfold moved. rewrite Hr.
  assert (status_guard (allowed_source_statuses SUCCESS) up row = false) as ->; [|done].
  apply not_true_iff_false. rewrite status_guard_spec, allowed_sources_eq. intros [(s & Hs1 & Hs2) _].
  apply elem_of_singleton in Hs1 as ->. done.
Qed.

(** The handler on a job in process, when the processor succeeds. *)
Lemma run_downstream_success w event job_id trace_id payload inference_result result row job :
  TaskProcessorLaws TP → calm w → fresh_ids w → addressed event job_id trace_id → refines event payload (Ok result) →
  get payload (u "inference_result") JNull = Ok inference_result →
  jobs (w_db w) !! job_id = Some row → job_of_row row = Ok job → job_status job = PROCESSING →
  ∃ w2 w', w_db w2 = w_db w ∧ downstream_handle_event event w = (Ok (true, None), w')
    ∧ w_db w' = downstream_log w2 job_id trace_id DOWNSTREAM_COMPLETED (JDict [(u "result", result)])
        (set_jobs <[job_id := status_values (w_db_clock w2) SUCCESS
                                (downstream_success (combined inference_result result)) row]> (w_db w))
    ∧ calm w'.
Proof.
  intros L Hc Hf Had Href Hget Hr Hj Hs.
  destruct (run_downstream w event job_id trace_id payload job (Ok result)) as (w2 & Hc2 & Hf2 & D & ->); [done..| |by rewrite Hs|].
  { unfold job_get. by rewrite Hr, Hj. }
  destruct (run_complete_phase w2 job_id trace_id payload inference_result result) as (w3 & E3 & R3); [done..|].
  rewrite D in R3. erewrite moved_processing in R3; [|by left|done|done|exact Hr|by rewrite (job_status_row _ _ Hj), Hs].
  exists w2. eexists. split; [exact D|]. split; [apply run_try_ok; eapply run_bind; [exact E3|run1; reflexivity]|].
  split; [exact (ran_db _ _ _ _ R3)|]. intros n. exact (ran_calm _ _ _ _ R3 Hc2 n).
Qed.
End downstream_handler.

Section downstream_theorems.
Context {RS : RedisServer} {TP : TaskProcessor} {TL : TaskProcessorLaws TP}.

(** The downstream stage finishes a job in process: the row becomes SUCCESS with the
    results of both stages and no error, and DOWNSTREAM_COMPLETED is logged. *)
Theorem downstream_completes w event job_id trace_id payload inference_result result row job :
  calm w → fresh_ids w → addressed event job_id trace_id → refines event payload (Ok result) →
  get payload (u "inference_result") JNull = Ok inference_result →
  jobs (w_db w) !! job_id = Some row → job_of_row row = Ok job → job_status job = PROCESSING →
  ∃ w' row' e, downstream_handle_event event w = (Ok (true, None), w')
    ∧ jobs (w_db w') = <[job_id := row']> (jobs (w_db w))
    ∧ jr_status row' = status_value SUCCESS
    ∧ jr_result row' = Some (combined inference_result result) ∧ jr_error_message row' = None
    ∧ job_events (w_db w') = job_events (w_db w) ++ [e]
    ∧ entry e = (job_id, u "DOWNSTREAM_COMPLETED", DOWNSTREAM_SOURCE, trace_id, JDict [(u "result", result)]).
Proof.
  intros Hc Hf Had Href Hget Hr Hj Hs.
  destruct (run_downstream_success w event job_id trace_id payload inference_result result row job)
    as (w2 & w' & D & E & D' & _); [done..|].
  eexists w', _, _. split; [exact E|]. rewrite D'. split_and!; done.
Qed.

(** C38: a retry that succeeds after a failed attempt is acknowledged and logged as
    completed, but the row stays FAILED: the refused update is not looked at. *)
Theorem downstream_retry_lost w event job_id trace_id payload inference_result result row job :
  calm w → fresh_ids w → addressed event job_id trace_id → refines event payload (Ok result) →
  get payload (u "inference_result") JNull = Ok inference_result →
  jobs (w_db w) !! job_id = Some row → job_of_row row = Ok job → job_status job = FAILED →
  ∃ w' e, downstream_handle_event event w = (Ok (true, None), w')
    ∧ jobs (w_db w') = jobs (w_db w)
    ∧ job_events (w_db w') = job_events (w_db w) ++ [e]
    ∧ entry e = (job_id, u "DOWNSTREAM_COMPLETED", DOWNSTREAM_SOURCE, trace_id, JDict [(u "result", result)]).
Proof.
  intros Hc Hf Had Href Hget Hr Hj Hs.
  destruct (run_downstream w event job_id trace_id payload job (Ok result)) as (w2 & Hc2 & Hf2 & D & ->); [done..| |by rewrite Hs|].
  { unfold job_get. by rewrite Hr, Hj. }
  destruct (run_complete_phase w2 job_id trace_id payload inference_result result) as (w3 & E3 & R3); [done..|].
  rewrite D, (moved_elsewhere _ _ _ _ row) in R3; [|exact Hr|].
  2:{ rewrite (job_status_row _ _ Hj), Hs. intros ?%(inj _). done. }
  eexists _, _. split; [apply run_try_ok; eapply run_bind; [exact E3|run1; reflexivity]|].
  simpl w_db. rewrite (ran_db _ _ _ _ R3). split_and!; done.
Qed.

(** A failure of the downstream stage is recorded on a job in process: the row becomes
    FAILED with the text of the exception and the failure is logged. *)
Theorem downstream_records_failure w event job_id trace_id payload exc row job :
  calm w → fresh_ids w → addressed event job_id trace_id → refines event payload (Raise exc) →
  jobs (w_db w) !! job_id = Some row → job_of_row row = Ok job → job_status job = PROCESSING →
  ∃ w' row' e, downstream_handle_event event w = (Ok (false, Some (exn_msg exc)), w')
    ∧ jobs (w_db w') = <[job_id := row']> (jobs (w_db w))
    ∧ jr_status row' = status_value FAILED
    ∧ jr_result row' = jr_result row ∧ jr_error_message row' = Some (exn_msg exc)
    ∧ job_events (w_db w') = job_events (w_db w) ++ [e]
    ∧ entry e = (job_id, u "FAILED", DOWNSTREAM_SOURCE, trace_id, JDict [(u "error", JStr (exn_msg exc))]).
Proof.
  intros Hc Hf Had Href Hr Hj Hs.
  destruct (run_downstream w event job_id trace_id payload job (Raise exc)) as (w2 & Hc2 & Hf2 & D & ->); [done..| |by rewrite Hs|].
  { unfold job_get. by rewrite Hr, Hj. }
  destruct (run_abort_phase w2 job_id trace_id exc) as (w3 & E3 & R3); [done..|].
  rewrite D in R3. erewrite moved_processing in R3; [|by right|done|done|exact Hr|by rewrite (job_status_row _ _ Hj), Hs].
  eexists w3, _, _. split; [exact E3|].
  rewrite (ran_db _ _ _ _ R3). split_and!; done.
Qed.

(** A message about a job that does not exist ends as a failure, and a FAILED event is
    logged for a job without a row. *)
Theorem downstream_missing_job w event job_id trace_id :
  calm w → fresh_ids w → addressed event job_id trace_id → jobs (w_db w) !! job_id = None →
  ∃ w' e, downstream_handle_event event w
      = (Ok (false, Some (u "Job not found for downstream event: " ++ job_id)), w')
    ∧ jobs (w_db w') = jobs (w_db w)
    ∧ job_events (w_db w') = job_events (w_db w) ++ [e] ∧ je_job_id e = job_id.
Proof.
  intros Hc Hf Had Hr.
  destruct (run_downstream_missing w event job_id trace_id) as (w2 & R2 & ->); [done..| |].
  { unfold job_get. by rewrite Hr. }
  destruct (run_abort_phase w2 job_id trace_id (ValueError (u "Job not found for downstream event: " ++ job_id)))
    as (w3 & E3 & R3); [by eapply ran_calm|by eapply ran_fresh|].
  exists w3. eexists. split; [exact E3|].
  rewrite (ran_db _ _ _ _ R3), (ran_db _ _ _ _ R2). unfold moved. rewrite Hr. done.
Qed.
End downstream_theorems.

(** ** The hypotheses can hold *)

Definition demo_request : json := JDict [(u "input", JDict [(u "content", JStr (u "hi"))])].
Definition demo_echo (j : json) : json := JDict [(u "echo", j)].

Lemma inference_hands_off_witness :
  ∃ w' m eid now,
    inference_handle_event (TP := echo_processor) (u "i-1") 1800 (u "down") (request_event demo_id) demo_world
      = (Ok (true, None), w')
    ∧ outbox_messages (w_db w') = [m] ∧ is_pending m
    ∧ ob_payload m = handoff_event eid now demo_id (u "trace") demo_request (demo_echo demo_request).
Proof.
  destruct (inference_hands_off (TL := echo_laws) (u "i-1") 1800 (u "down") demo_world (request_event demo_id)
    demo_id (u "trace") demo_row demo_expires demo_request (demo_echo demo_request))
    as (w' & row' & e1 & e2 & m & eid & now & E & _ & _ & _ & _ & _ & O & P & _ & Y & _);
    [apply demo_can_claim|done|intros w0; reflexivity|intros w0; reflexivity|].
  exists w', m, eid, now. split; [exact E|split; [exact O|split; [exact P|exact Y]]].
Defined.

Lemma handoff_atomic_witness :
  let w' := (handoff_phase (u "down") (JStr demo_id) (JStr (u "t")) demo_request JNull demo_world).2 in
  w_db w' = w_db demo_world
  ∨ w_db w' = handed_off demo_world (u "down") demo_id (u "t") demo_request JNull (w_db demo_world).
Proof. apply handoff_atomic. apply one_job_fresh. Defined.

Definition demo_payload : json := JDict [(u "request", demo_request); (u "inference_result", JInt 7)].
Definition demo_down_event : json := job_event demo_id demo_payload.
Definition demo_down_world (status : JobStatus) : world := world_of calm_env (one_job status None None 1).
Definition demo_job (status : JobStatus) : Job := MkJob demo_id status (JDict []) None None 0 start_time start_time.
Definition demo_down_row (status : JobStatus) : job_row := row_in demo_id status None None 1.

Lemma downstream_completes_witness :
  ∃ w' row', downstream_handle_event (TP := echo_processor) demo_down_event (demo_down_world PROCESSING)
      = (Ok (true, None), w')
    ∧ jobs (w_db w') = <[demo_id := row']> (jobs (w_db (demo_down_world PROCESSING)))
    ∧ jr_status row' = status_value SUCCESS.
Proof.
  destruct (downstream_completes (TL := echo_laws) (demo_down_world PROCESSING) demo_down_event demo_id (u "trace")
    demo_payload (JInt 7) (demo_echo demo_payload) (demo_down_row PROCESSING) (demo_job PROCESSING))
    as (w' & row' & e & E & J & S & _);
    [apply calm_env_calm|apply one_job_fresh|done|split; [reflexivity|intros w; reflexivity]|reflexivity
    |apply one_job_row|reflexivity|reflexivity|].
  exists w', row'. split; [exact E|split; [exact J|exact S]].
Defined.

Lemma downstream_retry_lost_witness :
  ∃ w', downstream_handle_event (TP := echo_processor) demo_down_event (demo_down_world FAILED)
      = (Ok (true, None), w')
    ∧ jobs (w_db w') = jobs (w_db (demo_down_world FAILED)).
Proof.
  destruct (downstream_retry_lost (TL := echo_laws) (demo_down_world FAILED) demo_down_event demo_id (u "trace")
    demo_payload (JInt 7) (demo_echo demo_payload) (demo_down_row FAILED) (demo_job FAILED)) as (w' & e & E & J & _);
    [apply calm_env_calm|apply one_job_fresh|done|split; [reflexivity|intros w; reflexivity]|reflexivity
    |apply one_job_row|reflexivity|reflexivity|].
  exists w'. split; [exact E|exact J].
Defined.

Lemma downstream_records_failure_witness :
  ∃ w' row', downstream_handle_event (TP := failing_processor) demo_down_event (demo_down_world PROCESSING)
      = (Ok (false, Some (u "boom")), w')
    ∧ jobs (w_db w') = <[demo_id := row']> (jobs (w_db (demo_down_world PROCESSING)))
    ∧ jr_status row' = status_value FAILED.
Proof.
  destruct (downstream_records_failure (TL := failing_laws) (demo_down_world PROCESSING) demo_down_event demo_id
    (u "trace") demo_payload (RuntimeError (u "boom")) (demo_down_row PROCESSING) (demo_job PROCESSING))
    as (w' & row' & e & E & J & S & _);
    [apply calm_env_calm|apply one_job_fresh|done|split; [reflexivity|intros w; reflexivity]
    |apply one_job_row|reflexivity|reflexivity|].
  exists w', row'. split; [exact E|split; [exact J|exact S]].
Defined.

Lemma downstream_missing_job_witness :
  ∃ w' e, downstream_handle_event (TP := echo_processor) demo_down_event (world_of calm_env empty_db)
      = (Ok (false, Some (u "Job not found for downstream event: " ++ demo_id)), w')
    ∧ jobs (w_db w') = ∅ ∧ job_events (w_db w') = [e].
Proof.
  destruct (downstream_missing_job (TP := echo_processor) (world_of calm_env empty_db) demo_down_event demo_id
    (u "trace")) as (w' & e & E & J & V & _);
    [apply calm_env_calm|apply empty_fresh, calm_env_inj|done|reflexivity|].
  exists w', e. split; [exact E|split; [exact J|exact V]].
Defined.
