(* ===== verification/Messaging.v ===== *)
(** * Kafka publisher: [app/ports/publisher.py], [app/adapters/messaging/kafka.py]

    [EventPublisherPort] as a type class and [KafkaEventPublisher.publish]:
    headers are encoded as UTF-8, the record is sent and its delivery awaited. *)
From S2P Require Import Prelude PyStr PyFloat Json Domain Database World Effects.
#[local] Open Scope Z_scope.

Abbreviation headers := (list (pystr * pystr)).

(** [EventPublisherPort] *)
Class EventPublisher {RS : RedisServer} := publish : pystr → json → option headers → M unit.

(** [(key, value.encode("utf-8"))] *)
Definition encode_header (kv : pystr * pystr) : result (pystr * pybytes) :=
  bs ← utf8_encode kv.2; Ok (kv.1, bs).

(** The [headers] argument of the producer: [None] for no or empty headers. *)
Definition kafka_headers (hs : option headers) : result (option (list (pystr * pybytes))) :=
  match hs with
  | None | Some [] => Ok None
  | Some l => bs ← mapM encode_header l; Ok (Some bs)
  end.

Section publisher.
Context {RS : RedisServer}.

(** [KafkaEventPublisher.publish] *)
Definition kafka_publish (topic : pystr) (event : json) (hs : option headers) : M unit :=
  kh ← lift (kafka_headers hs);
  external (modify (λ w, set_kafka (w_kafka w ++ [MkRecord topic event kh]) w)) ;;
  inc JOB_EVENT_PUBLISHED_TOTAL.

Definition KafkaEventPublisher : EventPublisher := kafka_publish.
End publisher.

(** What a client relies on of a publisher: it only adds to what Kafka holds, a
    publication that returns has added its record, one that raises has added it
    or not; nothing else of the world changes but counters and metrics. *)
Definition record_for (topic : pystr) (payload : json) (hs : option headers) : result record :=
  kh ← kafka_headers hs; Ok (MkRecord topic payload kh).

Class PublisherLaws {RS : RedisServer} (EP : EventPublisher) :=
  publish_law t p hs w :
    ∃ k ms c, (publish t p hs w).2
        = set_metrics ms (set_kafka (w_kafka w ++ k) (set_counters (w_uuids w) c (w_draws w) w))
      ∧ (k = [] ∨ ∃ r, record_for t p hs = Ok r ∧ k = [r])
      ∧ (is_ok (publish t p hs w).1 = true → ∃ r, record_for t p hs = Ok r ∧ k = [r]).

Section publisher_proofs.
Context {RS : RedisServer}.

Lemma kafka_publish_eq t p hs w :
  kafka_publish t p hs w =
    match record_for t p hs with
    | Ok r => (external (modify (λ w, set_kafka (w_kafka w ++ [r]) w)) ;; inc JOB_EVENT_PUBLISHED_TOTAL) w
    | Raise e => (Raise e, w)
    end.
Proof. unfold kafka_publish, record_for, mbind, M_bind, result_bind, lift. by destruct (kafka_headers hs). Qed.

#[global] Instance KafkaEventPublisher_laws : PublisherLaws KafkaEventPublisher.
Proof.
  intros t p hs w. unfold publish, KafkaEventPublisher. rewrite kafka_publish_eq.
  destruct (record_for t p hs) as [r|e]; simpl.
  - unfold external, mbind, M_bind. destruct (env_fate _ _); simpl.
    + exists [r]. eexists _, _. split; [reflexivity|]. split; eauto.
    + exists [], (w_metrics w), (S (w_calls w)). rewrite app_nil_r. split; [by destruct w|]. by split; auto.
    + exists [r], (w_metrics w), (S (w_calls w)). split; [by destruct w|]. split; eauto.
  - exists [], (w_metrics w), (w_calls w). rewrite app_nil_r. split; [by destruct w|]. by split; auto.
Qed.

(** A publication when the broker answers. *)
Lemma run_kafka_publish t p hs r w :
  ready w → record_for t p hs = Ok r →
  kafka_publish t p hs w =
    (Ok tt, set_metrics (metric_add JOB_EVENT_PUBLISHED_TOTAL 1 (w_metrics w))
              (set_kafka (w_kafka w ++ [r]) (called w))).
Proof. intros Hr E. rewrite kafka_publish_eq, E. unfold mbind, M_bind. by rewrite external_ready. Qed.

(** A refused publication. *)
Lemma run_kafka_refused t p hs r e w :
  env_fate (w_env w) (w_calls w) = Failed e → record_for t p hs = Ok r →
  kafka_publish t p hs w = (Raise e, called w).
Proof. intros Hf E. rewrite kafka_publish_eq, E. unfold mbind, M_bind, external. by rewrite Hf. Qed.
End publisher_proofs.

(** ** The publisher's life cycle *)

(** [_started] and what the Kafka client answers: [cluster.brokers()],
    [bootstrap()], and [cluster.brokers()] after it. *)
Record producer := MkProducer {
  _started : bool; brokers : result Z; bootstrap : result bool; brokers_after : result Z;
}.

Definition set_started (b : bool) (p : producer) : producer := MkProducer b (brokers p) (bootstrap p) (brokers_after p).

(** [start] and [stop], when the client's own call goes through. *)
Definition producer_start (p : producer) : producer := set_started true p.
Definition producer_stop (p : producer) : producer := if _started p then set_started false p else p.

Definition ok_brokers (n : Z) : pystr := u "ok (" ++ py_str_int n ++ u " broker(s))".

(** The [try] of [readiness]: the known brokers, else one bootstrap attempt. *)
Definition probe_brokers (p : producer) : result (bool * pystr) :=
  n ← brokers p;
  if 0 <? n then Ok (true, ok_brokers n)
  else
    is_bootstrapped ← bootstrap p;
    n ← brokers_after p;
    if (is_bootstrapped : bool) || (0 <? n) then Ok (true, ok_brokers n)
    else Ok (false, u "kafka bootstrap not ready").

(** [readiness] *)
Definition readiness (p : producer) : bool * pystr :=
  if negb (_started p) then (false, u "producer not started")
  else match probe_brokers p with Ok r => r | Raise e => (false, exn_msg e) end.
