(* ===== verification/OutboxRelay.v ===== *)
(** * Outbox relay: [app/adapters/messaging/outbox_relay.py]

    [drain_once] publishes one batch of pending messages in one transaction:
    a prefix of the batch is published and marked, the first failure is counted
    on its row and the rest is left alone. [relay_loop] repeats it. *)
From S2P Require Import Prelude PyStr PyFloat Json Domain Database WellFormed Ledger Evolution World Effects Fixtures Messaging.
#[local] Open Scope Z_scope.

(** [async with session.begin(): body]: commit on exit. *)
Definition session_begin {RS : RedisServer} {A} (body : M A) : M A :=
  r ← body; commit ;; mret r.

Section relay.
Context {RS : RedisServer} {EP : EventPublisher}.
(** The database dialect, the rows locked by other transactions, and
    [batch_size] as given to the constructor. *)
Variables (dialect : pystr) (locked : gset Z) (batch_size : Z).

(** [max(1, batch_size)] *)
Definition _batch_size : Z := Z.max 1 batch_size.

Definition repo_fetch_pending : M (list message) :=
  execute (λ d, Ok (fetch_pending dialect locked _batch_size d, d)).

Definition repo_mark_published (ids : list Z) : M unit :=
  match ids with
  | [] => mret tt
  | _ => now ← utcnow; execute (λ d, Ok (tt, mark_published now ids d))
  end.

Definition repo_mark_failed (id : Z) (error : pystr) : M unit :=
  execute (λ d, Ok (tt, mark_failed id error d)).

(** [f"{type(exc).__name__}: {exc}"] *)
Definition error_text (exc : exn) : pystr := exn_type exc ++ u ": " ++ exn_msg exc.

(** The [for] loop: the ids of the messages sent before the first failure. *)
Fixpoint publish_batch (messages : list message) : M (list Z) :=
  match messages with
  | [] => mret []
  | m :: ms =>
      sent ← try_except
        (publish (m_topic m) (m_payload m)
           (match m_headers m with Some (h :: hs) => Some (h :: hs) | _ => None end) ;;
         mret true)
        (λ exc,
           inc OUTBOX_PUBLISH_FAILURE_TOTAL ;;
           repo_mark_failed (m_id m) (error_text exc) ;;
           mret false);
      if sent : bool then rest ← publish_batch ms; mret (m_id m :: rest)
      else mret []
  end.

(** The transaction of [drain_once]. *)
Definition drain_transaction : M Z :=
  messages ← repo_fetch_pending;
  match messages with
  | [] => gauge_set OUTBOX_PENDING_BACKLOG 0 ;; mret 0
  | _ =>
      gauge_set OUTBOX_PENDING_BACKLOG (Z.of_nat (length messages)) ;;
      sent_ids ← publish_batch messages;
      repo_mark_published sent_ids ;;
      mret (Z.of_nat (length sent_ids))
  end.

Definition drain_once : M Z :=
  published ← with_session (session_begin drain_transaction);
  (if 0 <? published then inc_by OUTBOX_PUBLISHED_TOTAL published else mret tt) ;;
  mret published.

(** One turn of [_loop]: an exception counts as nothing published. *)
Definition relay_turn : M Z := try_except drain_once (λ _, mret 0).

(** [_loop] for [turns] turns; the numbers published, turn by turn. Between
    turns the loop waits only when nothing was published. *)
Fixpoint relay_loop (turns : nat) : M (list Z) :=
  match turns with
  | O => mret []
  | S turns' => n ← relay_turn; ns ← relay_loop turns'; mret (n :: ns)
  end.
End relay.

(** ** When no service fails *)

Definition pending_rows (d : db) : list outbox_row := filter is_pending (outbox_messages d).

(** The record a message becomes. *)
Definition record_of (m : message) : result record := record_for (m_topic m) (m_payload m) (m_headers m).

(** The headers argument as [drain_once] passes it. *)
Definition given_headers (m : message) : option headers :=
  match m_headers m with Some (h :: hs) => Some (h :: hs) | _ => None end.

Lemma record_given m : record_for (m_topic m) (m_payload m) (given_headers m) = record_of m.
Proof. unfold record_of, record_for, given_headers. by destruct (m_headers m) as [[|h hs]|]. Qed.

Section calm.
Context {RS : RedisServer}.
Variables (dialect : pystr) (locked : gset Z) (batch_size : Z).
#[local] Existing Instance KafkaEventPublisher.

Lemma run_publish_batch ms rs w :
  (∀ i, (i < length ms)%nat → env_fate (w_env w) (i + w_calls w) = Done) →
  mapM record_of ms = Ok rs →
  ∃ mt, publish_batch ms w
      = (Ok (m_id <$> ms), set_metrics mt (set_kafka (w_kafka w ++ rs)
           (set_counters (w_uuids w) (length ms + w_calls w) (w_draws w) w))).
Proof.
  revert rs w. induction ms as [|m ms IH]; intros rs w Hd Hrs.
  { change (Ok (A := list record) [] = Ok rs) in Hrs. simplify_eq. exists (w_metrics w). rewrite app_nil_r. simpl. by destruct w. }
  simpl in Hrs. apply result_bind_ok in Hrs as (r & Hr & Hrs).
  apply result_bind_ok in Hrs as (rs' & Hrs & [= <-]).
  rewrite <- record_given in Hr. unfold given_headers in Hr.
  set (w1 := set_metrics (metric_add JOB_EVENT_PUBLISHED_TOTAL 1 (w_metrics w)) (set_kafka (w_kafka w ++ [r]) (called w))).
  destruct (IH rs' w1) as [mt E]; [|done|].
  { intros i Hi. simpl. rewrite Nat.add_succ_r. apply (Hd (S i)). simpl. lia. }
  exists mt. simpl. eapply run_bind.
  { apply run_try_ok. eapply run_bind; [apply (run_kafka_publish _ _ _ r)|reflexivity]; [|exact Hr].
    apply (Hd 0%nat). simpl. lia. }
  cbv iota. eapply run_bind; [exact E|]. unfold w1. simpl. rewrite <- app_assoc, Nat.add_succ_r. done.
Qed.

(** The first failure: the messages before it are sent, it is counted, and the
    messages after it are not tried. *)
Lemma run_publish_batch_fails ms m ms' rs r e w :
  (∀ i, i ≠ length ms → env_fate (w_env w) (i + w_calls w) = Done) →
  env_fate (w_env w) (length ms + w_calls w) = Failed e →
  mapM record_of ms = Ok rs → record_of m = Ok r → w_new w = [] →
  ∃ mt c, publish_batch (ms ++ m :: ms') w
      = (Ok (m_id <$> ms), set_session (mark_failed (m_id m) (error_text e) (w_tx w)) []
           (set_metrics mt (set_kafka (w_kafka w ++ rs)
             (set_counters (w_uuids w) c (w_draws w) w))))
    ∧ (length ms < c - w_calls w)%nat.
Proof.
  revert rs w. induction ms as [|m0 ms IH]; intros rs w Hd He Hrs Hr Hn.
  - change (Ok (A := list record) [] = Ok rs) in Hrs. simplify_eq. rewrite app_nil_r. simpl.
    eexists _, _. split.
    + eapply run_bind.
      { eapply run_try_raise.
        - eapply run_bind_raise. apply (run_kafka_refused _ _ _ r e); [exact He|].
          fold (given_headers m). by rewrite record_given.
        - cbv beta. run1. eapply run_bind; [apply run_execute_ready; [by apply (Hd 1%nat)|done|reflexivity]|].
          reflexivity. }
      reflexivity.
    + simpl. lia.
  - simpl in Hrs. apply result_bind_ok in Hrs as (r0 & Hr0 & Hrs).
    apply result_bind_ok in Hrs as (rs' & Hrs & [= <-]).
    rewrite <- record_given in Hr0. unfold given_headers in Hr0.
    set (w1 := set_metrics (metric_add JOB_EVENT_PUBLISHED_TOTAL 1 (w_metrics w))
                 (set_kafka (w_kafka w ++ [r0]) (called w))).
    destruct (IH rs' w1) as (mt & c & E & Hlt); [| |done..|].
    { intros i Hi. simpl. rewrite Nat.add_succ_r. apply (Hd (S i)). simpl. lia. }
    { simpl. by rewrite Nat.add_succ_r. }
    exists mt, c. split; [|simpl in *; lia]. simpl. eapply run_bind.
    { apply run_try_ok. eapply run_bind; [apply (run_kafka_publish _ _ _ r0)|reflexivity]; [|exact Hr0].
      apply (Hd 0%nat). done. }
    cbv iota. eapply run_bind; [exact E|]. unfold w1. simpl. by rewrite <- app_assoc.
Qed.

Abbreviation fetched d := (fetch_pending dialect locked (_batch_size batch_size) d).

(** One turn that sends everything it fetched. *)
Lemma run_drain w rs :
  calm w → mapM record_of (fetched (w_db w)) = Ok rs →
  ∃ w', drain_once dialect locked batch_size w = (Ok (Z.of_nat (length (fetched (w_db w)))), w')
    ∧ calm w' ∧ w_db w' = mark_published (w_clock w) (m_id <$> fetched (w_db w)) (w_db w)
    ∧ w_kafka w' = w_kafka w ++ rs ∧ w_clock w' = w_clock w
    ∧ w_env w' = w_env w ∧ w_uuids w' = w_uuids w.
Proof.
  intros Hc Hrs. unfold drain_once, session_begin, drain_transaction.
  set (w1 := set_session (w_db w) [] (called (set_session (w_db w) [] w))).
  destruct (fetched (w_db w)) as [|m ms] eqn:Ems.
  - change (Ok (A := list record) [] = Ok rs) in Hrs. simplify_eq.
    eexists. split.
    + eapply run_bind; [apply run_with_session|].
      * eapply run_bind; [eapply run_bind; [by apply run_execute|]|].
        { cbv beta. change (w_tx _) with (w_db w). rewrite Ems. run1. reflexivity. }
        eapply run_bind; [by apply run_commit|reflexivity].
      * cbv beta. eapply run_bind; [apply run_if_inc|reflexivity].
    + rewrite app_nil_r. split_and!; done.
  - destruct (run_publish_batch (m :: ms) rs (set_metrics (metric_set OUTBOX_PENDING_BACKLOG
      (Z.of_nat (length (m :: ms))) (w_metrics w)) w1)) as [mt E]; [intros; apply Hc|done|].
    rewrite <- (length_fmap m_id). eexists. split.
    + eapply run_bind; [apply run_with_session|].
      * eapply run_bind; [eapply run_bind; [by apply run_execute|]|].
        { cbv beta. change (w_tx _) with (w_db w). rewrite Ems. run1. eapply run_bind; [exact E|].
          eapply run_bind; [unfold repo_mark_published; run1; by apply run_execute|reflexivity]. }
        eapply run_bind; [by apply run_commit|reflexivity].
      * cbv beta. eapply run_bind; [apply run_if_inc|reflexivity].
    + split_and!; done.
Qed.

(** One turn cut short by a refused publication. *)
Lemma run_drain_fails w ms m ms' rs r e :
  (∀ i, i ≠ S (length ms) → env_fate (w_env w) (i + w_calls w) = Done) →
  env_fate (w_env w) (S (length ms) + w_calls w) = Failed e →
  fetched (w_db w) = ms ++ m :: ms' → mapM record_of ms = Ok rs → record_of m = Ok r →
  ∃ w', drain_once dialect locked batch_size w = (Ok (Z.of_nat (length ms)), w')
    ∧ w_db w' = mark_published (w_clock w) (m_id <$> ms) (mark_failed (m_id m) (error_text e) (w_db w))
    ∧ w_kafka w' = w_kafka w ++ rs.
Proof.
  intros Hd He Hfe Hrs Hr. unfold drain_once, session_begin, drain_transaction.
  set (w1 := set_session (w_db w) [] (called (set_session (w_db w) [] w))).
  set (w2 := set_metrics (metric_set OUTBOX_PENDING_BACKLOG (Z.of_nat (length (ms ++ m :: ms'))) (w_metrics w)) w1).
  destruct (run_publish_batch_fails ms m ms' rs r e w2) as (mt & c & E & Hlt); [| |done..|].
  { intros i Hi. simpl. rewrite Nat.add_succ_r. apply (Hd (S i)). congruence. }
  { simpl. by rewrite Nat.add_succ_r. }
  assert (∀ i, env_fate (w_env w) (i + c) = Done) as Hc.
  { intros i. simpl in Hlt. replace (i + c)%nat with (i + (c - w_calls w) + w_calls w)%nat by lia. apply Hd. lia. }
  set (d := mark_published (w_clock w) (m_id <$> ms) (mark_failed (m_id m) (error_text e) (w_db w))).
  set (w3 := set_session (mark_failed (m_id m) (error_text e) (w_tx w2)) []
     (set_metrics mt (set_kafka (w_kafka w2 ++ rs) (set_counters (w_uuids w2) c (w_draws w2) w2)))) in *.
  assert (∃ n, repo_mark_published (m_id <$> ms) w3
    = (Ok tt, set_session d [] (set_counters (w_uuids w) (n + c) (w_draws w) w3))) as [n Em].
  { unfold d. destruct ms as [|m0 ms]; [by exists 0%nat|]. exists 1%nat. simpl. run1.
    apply run_execute_ready; [apply (Hc 0%nat)|done|reflexivity]. }
  rewrite <- (length_fmap m_id). eexists. split.
  - eapply run_bind; [apply run_with_session|].
    + eapply run_bind; [eapply run_bind; [apply run_execute_ready; [by apply (Hd 0%nat)|done|reflexivity]|]|].
      { cbv beta. change (w_tx _) with (w_db w). rewrite Hfe.
        destruct ms as [|m0 ms]; simpl app; (eapply run_bind; [apply run_gauge_set|]).
        all: eapply run_bind; [exact E|]; eapply run_bind; [exact Em|reflexivity]. }
      eapply run_bind; [apply run_commit_ready; [apply (Hc n)|reflexivity]|reflexivity].
    + cbv beta. eapply run_bind; [apply run_if_inc|reflexivity].
  - done.
Qed.
End calm.

(** ** Repeated turns, with no other relay *)

Lemma mark_published_pending now d n :
  outbox_ids d →
  pending_rows (mark_published now (ob_id <$> take n (pending_rows d)) d) = drop n (pending_rows d).
Proof.
  intros [Hnd _]. set (mark := λ r, MkOutboxRow (ob_id r) (ob_message_id r) (ob_topic r) (ob_payload r)
    (ob_headers r) OUTBOX_PUBLISHED (ob_attempts r) None (ob_created_at r) (Some now)).
  pose proof (filter_mark_take ob_id mark is_pending (outbox_messages d) n Hnd) as H.
  destruct (ob_id <$> take n (pending_rows d)) eqn:E.
  - apply fmap_nil_inv in E. simpl. rewrite <- (take_drop n (pending_rows d)) at 1. by rewrite E.
  - unfold pending_rows in *. rewrite E in H. by rewrite <- H.
Qed.

Lemma mark_published_ids now ids d : outbox_ids d → outbox_ids (mark_published now ids d).
Proof.
  unfold mark_published. destruct ids as [|i ids]; [done|]. apply set_outbox_ids. intros r. by case_decide.
Qed.

Lemma mark_published_same now ids d :
  jobs (mark_published now ids d) = jobs d ∧ job_events (mark_published now ids d) = job_events d
  ∧ outbox_messages (mark_published now ids d)
    = (λ r, if decide (ob_id r ∈ ids) then
              MkOutboxRow (ob_id r) (ob_message_id r) (ob_topic r) (ob_payload r) (ob_headers r)
                OUTBOX_PUBLISHED (ob_attempts r) None (ob_created_at r) (Some now)
            else r) <$> outbox_messages d.
Proof.
  destruct ids as [|i ids]; [|done]. split_and!; [done|done|]. simpl. by rewrite list_fmap_id.
Qed.

(** The row of a message that was fetched is pending; and that of one fetched behind [ms] is not among those of [ms]. *)
Lemma refused_not_sent dialect locked limit d ms m ms' i row :
  outbox_ids d → fetch_pending dialect locked limit d = ms ++ m :: ms' → outbox_messages d !! i = Some row →
  ob_id row = m_id m → ob_id row ∉ m_id <$> ms ∧ is_pending row.
Proof.
  intros [Hnd _] Hfe Hrow Hid. unfold fetch_pending in Hfe. set (visible := filter _ _) in Hfe.
  set (l := take (Z.to_nat limit) visible) in Hfe.
  assert (l `sublist_of` outbox_messages d) as Hsub.
  { etrans; [apply sublist_take|apply sublist_filter]. }
  assert (NoDup (m_id <$> ms ++ m :: ms')) as Hn.
  { rewrite <- Hfe, <- list_fmap_compose. eapply sublist_NoDup; [exact Hnd|]. by apply fmap_sublist. }
  split.
  - rewrite Hid. rewrite fmap_app, fmap_cons, NoDup_app in Hn. destruct Hn as (_ & Hn & _). intros Hin. apply (Hn _ Hin). by left.
  - assert (m ∈ message_of_row <$> l) as (row' & -> & Hin)%list_elem_of_fmap by (rewrite Hfe; set_solver).
    assert (row' ∈ visible) as [[Hp _] Hd]%list_elem_of_filter by by eapply subseteq_take.
    assert (row = row') as ->; [|done]. apply list_elem_of_lookup_1 in Hd as [j Hj]. simpl in Hid.
    assert (i = j) as ->; [|congruence]. eapply NoDup_lookup; [exact Hnd| |]; rewrite list_lookup_fmap; [by rewrite Hrow|by rewrite Hj, Hid].
Qed.

(** Publishing uses up no fresh id. *)
Lemma mark_published_fresh e n now ids d : fresh_from e n d → fresh_from e n (mark_published now ids d).
Proof.
  intros [Hi Hf]. split; [done|]. intros m Hm. destruct (Hf m Hm) as (Hj & He & Ho).
  unfold mark_published. destruct ids as [|i ids]; [done|]. split_and!; [done|done|]. simpl.
  rewrite <- list_fmap_compose. erewrite list_fmap_ext; [exact Ho|]. intros k r _. simpl. by case_decide.
Qed.

Lemma mapM_take {A B} (f : A → result B) l n rs :
  mapM f l = Ok rs → mapM f (take n l) = Ok (take n rs) ∧ mapM f (drop n l) = Ok (drop n rs).
Proof.
  revert n rs. induction l as [|x l IH]; intros n rs H.
  - change (Ok (A := list B) [] = Ok rs) in H. simplify_eq. by rewrite take_nil, drop_nil, take_nil, drop_nil.
  - simpl in H. apply result_bind_ok in H as (r & Hr & H). apply result_bind_ok in H as (rs' & Hrs & [= <-]).
    destruct n as [|n]; simpl; rewrite ?Hr; simpl.
    + split; [done|]. by rewrite Hrs.
    + destruct (IH n rs' Hrs) as [-> ->]. done.
Qed.

Section loop.
Context {RS : RedisServer}.
Variables (dialect : pystr) (batch_size : Z).
#[local] Existing Instance KafkaEventPublisher.

Lemma fetched_pending d :
  fetch_pending dialect ∅ (_batch_size batch_size) d
  = message_of_row <$> take (Z.to_nat (_batch_size batch_size)) (pending_rows d).
Proof.
  unfold fetch_pending, pending_rows. f_equal. f_equal. apply list_filter_iff. intros r.
  case_decide; set_solver.
Qed.

Lemma run_relay_loop turns w rs :
  calm w → outbox_ids (w_db w) → (length (pending_rows (w_db w)) ≤ turns)%nat →
  mapM record_of (message_of_row <$> pending_rows (w_db w)) = Ok rs →
  ∃ ns w', relay_loop dialect ∅ batch_size turns w = (Ok ns, w')
    ∧ pending_rows (w_db w') = [] ∧ w_kafka w' = w_kafka w ++ rs.
Proof.
  revert w rs. induction turns as [|turns IH]; intros w rs Hc Hi Hle Hrs.
  { destruct (pending_rows (w_db w)) eqn:E; simpl in Hle; [|lia].
    change (Ok (A := list record) [] = Ok rs) in Hrs. simplify_eq. exists [], w. by rewrite app_nil_r. }
  set (n := Z.to_nat (_batch_size batch_size)).
  assert (1 ≤ n)%nat as Hn by (unfold n, _batch_size; lia).
  destruct (mapM_take _ _ n _ Hrs) as [Ht Hd]. rewrite <- fmap_take in Ht. rewrite <- fmap_drop in Hd.
  destruct (run_drain dialect ∅ batch_size w (take n rs)) as (w1 & E1 & C1 & D1 & K1 & _);
    [done|by rewrite fetched_pending|].
  rewrite fetched_pending, <- list_fmap_compose in D1. fold n in D1.
  change (m_id ∘ message_of_row) with ob_id in D1.
  assert (pending_rows (w_db w1) = drop n (pending_rows (w_db w))) as P1.
  { rewrite D1. by apply mark_published_pending. }
  destruct (IH w1 (drop n rs)) as (ns & w2 & E2 & P2 & K2).
  - done.
  - rewrite D1. by apply mark_published_ids.
  - rewrite P1, length_drop. lia.
  - by rewrite P1.
  - eexists _, w2. split; [|split; [done|by rewrite K2, K1, <- app_assoc, take_drop]].
    simpl. eapply run_bind; [by apply run_try_ok|]. eapply run_bind; [exact E2|reflexivity].
Qed.
End loop.

(** ** Whatever the services do *)

(** Counting failures changes nothing else of a message. *)
Definition same_message (r r' : outbox_row) : Prop :=
  ob_id r' = ob_id r ∧ ob_topic r' = ob_topic r ∧ ob_payload r' = ob_payload r
  ∧ ob_headers r' = ob_headers r ∧ ob_status r' = ob_status r.

#[global] Instance same_message_preorder : PreOrder same_message.
Proof. split; [by intros r|]. intros r1 r2 r3 (?&?&?&?&?) (?&?&?&?&?). split_and!; congruence. Qed.

Definition tallied (d d' : db) : Prop := Forall2 same_message (outbox_messages d) (outbox_messages d').

#[global] Instance tallied_preorder : PreOrder tallied.
Proof.
  split; [intros d; unfold tallied; reflexivity|]. intros d1 d2 d3 H1 H2. unfold tallied in *. by etrans.
Qed.

Lemma mark_failed_tallied id e d : tallied d (mark_failed id e d).
Proof.
  unfold tallied, mark_failed. simpl. apply Forall2_fmap_r.
  induction (outbox_messages d) as [|r l IH]; constructor; [|done]. simpl. by case_decide.
Qed.

Section any.
Context {RS : RedisServer} {EP : EventPublisher} {EL : PublisherLaws EP}.
Variables (dialect : pystr) (locked : gset Z) (batch_size : Z).

Definition in_kafka (m : message) (w : world) : Prop := ∃ r, record_of m = Ok r ∧ r ∈ w_kafka w.

(** What the loop over a batch has done when it ends, by returning or raising. *)
Record batch_done (ms : list message) (w : world) (r : result (list Z)) (w' : world) : Prop := {
  bd_db : w_db w' = w_db w;
  bd_new : w_new w' = [];
  bd_tx : tallied (w_tx w) (w_tx w');
  bd_kafka : w_kafka w `prefix_of` w_kafka w';
  bd_sent ids : r = Ok ids → ∃ n, ids = m_id <$> take n ms ∧ Forall (λ m, in_kafka m w') (take n ms);
}.

Lemma publish_cases m w :
  ∃ r w', publish (m_topic m) (m_payload m) (given_headers m) w = (r, w')
    ∧ w_db w' = w_db w ∧ w_tx w' = w_tx w ∧ w_new w' = w_new w
    ∧ w_kafka w `prefix_of` w_kafka w' ∧ (r = Ok tt → in_kafka m w').
Proof.
  destruct (publish_law (m_topic m) (m_payload m) (given_headers m) w) as (k & mt & c & E & _ & Hok).
  destruct (publish _ _ _ w) as [r w'] eqn:Ep. simpl in E, Hok. subst w'.
  eexists r, _. split; [done|]. simpl. split_and!; [done..|by apply prefix_app_r|].
  intros ->. destruct (Hok eq_refl) as (rec & Hr & ->). exists rec. rewrite <- record_given. split; [done|].
  simpl. set_solver.
Qed.

Lemma publish_batch_done ms w r w' : w_new w = [] → publish_batch ms w = (r, w') → batch_done ms w r w'.
Proof.
  revert w r w'. induction ms as [|m ms IH]; intros w r w' Hn E.
  { injection E as <- <-. split; try done. intros ids [= <-]. by exists 0%nat. }
  destruct (publish_cases m w) as (r1 & w1 & E1 & D1 & T1 & N1 & K1 & S1).
  unfold given_headers in E1. cbn [publish_batch] in E.
  destruct r1 as [[]|e].
  - erewrite bind_ok in E; [|apply run_try_ok; eapply run_bind; [exact E1|reflexivity]]. cbv iota beta in E.
    unfold mbind, M_bind in E. destruct (publish_batch ms w1) as [[ids|e] w2] eqn:E2; simpl in E;
      injection E as <- <-; destruct (IH w1 _ _ ltac:(congruence) E2) as [D2 N2 T2 K2 S2].
    + split; [congruence|done|by rewrite <- T1|by etrans|]. intros ids' [= <-].
      destruct (S2 ids eq_refl) as (n & -> & F). exists (S n). split; [done|]. simpl. constructor; [|done].
      destruct (S1 eq_refl) as (rec & Hr & Hin). exists rec. split; [done|].
      destruct K2 as [k ->]. set_solver.
    + split; [congruence|done|by rewrite <- T1|by etrans|done].
  - set (w1' := set_metrics (metric_add OUTBOX_PUBLISH_FAILURE_TOTAL 1 (w_metrics w1)) w1).
    destruct (execute_cases (λ d, Ok (tt, mark_failed (m_id m) (error_text e) d)) w1' tt
      (mark_failed (m_id m) (error_text e) (w_tx w1))) as (r2 & w2 & E2 & D2 & N2 & K2 & _ & C2);
      [simpl; congruence|done|].
    assert (tallied (w_tx w) (w_tx w2)) as T2.
    { rewrite <- T1. destruct C2 as [[_ ->]|[_ [-> | ->]]]; [apply mark_failed_tallied|done|apply mark_failed_tallied]. }
    assert (w_kafka w `prefix_of` w_kafka w2) as K2' by by rewrite K2.
    destruct C2 as [[-> _]|[[e2 ->] _]].
    + erewrite bind_ok in E.
      2:{ eapply run_try_raise; [eapply run_bind_raise; exact E1|]. cbv beta. run1.
          eapply run_bind; [exact E2|reflexivity]. }
      cbv iota in E. injection E as <- <-. split; [simpl in *; congruence|done..|].
      intros ids [= <-]. by exists 0%nat.
    + erewrite run_bind_raise in E.
      2:{ eapply run_try_raise; [eapply run_bind_raise; exact E1|]. cbv beta. run1.
          eapply run_bind_raise. exact E2. }
      injection E as <- <-. split; [simpl in *; congruence|done..|done].
Qed.

Abbreviation fetched d := (fetch_pending dialect locked (_batch_size batch_size) d).

(** The transaction of a turn: its statuses are those of the database it read,
    or published with the message accepted by Kafka. *)
Definition accounted (d0 : db) (d : db) (w : world) : Prop :=
  ∀ row', row' ∈ outbox_messages d → ob_status row' = OUTBOX_PUBLISHED →
    (∃ row, row ∈ outbox_messages d0 ∧ ob_id row = ob_id row' ∧ ob_status row = OUTBOX_PUBLISHED)
    ∨ in_kafka (message_of_row row') w.

Lemma accounted_tallied d0 d w : tallied d0 d → accounted d0 d w.
Proof.
  intros Ht row' Hin Hp. left. apply list_elem_of_lookup in Hin as [i Hi].
  destruct (Forall2_lookup_r _ _ _ _ _ Ht Hi) as (row & Hr & (I & _ & _ & _ & S)).
  exists row. split; [by eapply list_elem_of_lookup_2|]. split; congruence.
Qed.

Lemma accounted_marked d0 d ms now ids w :
  outbox_ids d0 → tallied d0 d → ms = fetched d0 →
  (∃ n, ids = m_id <$> take n ms ∧ Forall (λ m, in_kafka m w) (take n ms)) →
  accounted d0 (mark_published now ids d) w.
Proof.
  intros [Hnd _] Ht -> (n & -> & Hf). unfold mark_published.
  destruct (m_id <$> take n (fetched d0)) as [|i0 ids0] eqn:E; [by apply accounted_tallied|]. rewrite <- E.
  intros row' (row1 & -> & Hin)%list_elem_of_fmap Hp. simpl in Hin.
  case_decide as Hd; [|by eapply accounted_tallied]. right. simpl.
  apply list_elem_of_fmap in Hd as (m & Hm & Hin2). rewrite Forall_forall in Hf.
  destruct (Hf m Hin2) as (r & Hr & Hk). exists r. split; [|done].
  apply list_elem_of_lookup in Hin as [j Hj].
  destruct (Forall2_lookup_r _ _ _ _ _ Ht Hj) as (row & Hrow & (I & T & P & H & _)).
  apply (subseteq_take n) in Hin2. unfold fetch_pending in Hin2.
  apply list_elem_of_fmap in Hin2 as (row2 & -> & Hin2).
  apply (subseteq_take _ _) in Hin2. apply list_elem_of_filter in Hin2 as [_ Hin2].
  apply list_elem_of_lookup in Hin2 as [j2 Hj2].
  assert (row2 = row) as ->.
  { assert (j2 = j) as ->; [|congruence]. eapply (NoDup_lookup _ _ _ (ob_id row) Hnd);
      rewrite list_lookup_fmap, ?Hrow, ?Hj2; simpl; [simpl in Hm; congruence|done]. }
  unfold record_of in *. simpl in *. by rewrite T, P, H.
Qed.

Lemma mark_cases ids w :
  w_new w = [] →
  ∃ r w', repo_mark_published ids w = (r, w')
    ∧ w_db w' = w_db w ∧ w_new w' = [] ∧ w_kafka w' = w_kafka w
    ∧ (w_tx w' = w_tx w ∨ w_tx w' = mark_published (w_clock w) ids (w_tx w))
    ∧ (r = Ok tt → w_tx w' = mark_published (w_clock w) ids (w_tx w)).
Proof.
  intros Hn. destruct ids as [|i ids]; [exists (Ok tt), w; by split_and!; auto|].
  destruct (execute_cases (λ d, Ok (tt, mark_published (w_clock w) (i :: ids) d)) w tt
    (mark_published (w_clock w) (i :: ids) (w_tx w))) as (r & w' & E & D & N & K & _ & C); [done|done|].
  exists r, w'. split; [eapply run_bind; [apply run_utcnow|exact E]|]. split_and!; [done..| |].
  - destruct C as [[_ ->]|[_ C]]; auto.
  - intros ->. by destruct C as [[_ ->]|[[e [=]] _]].
Qed.

(** The body of a turn, before the commit. *)
Lemma drain_transaction_done w :
  w_new w = [] → w_tx w = w_db w → outbox_ids (w_db w) →
  let '(r, w') := drain_transaction dialect locked batch_size w in
  w_db w' = w_db w ∧ w_new w' = [] ∧ (is_ok r = true → accounted (w_db w) (w_tx w') w').
Proof.
  intros Hn Ht Hi. unfold drain_transaction.
  destruct (execute_cases (λ d, Ok (fetched d, d)) w (fetched (w_tx w)) (w_tx w))
    as (r1 & w1 & E1 & D1 & N1 & K1 & _ & C1); [done..|].
  destruct C1 as [[-> T1]|[[e ->] _]].
  2:{ rewrite (run_bind_raise _ _ _ _ _ E1). split_and!; done. }
  rewrite (bind_ok _ _ _ _ _ E1), Ht. destruct (fetched (w_db w)) as [|m ms] eqn:Ems.
  { simpl. split_and!; [done..|]. intros _. apply accounted_tallied. by rewrite T1, Ht. }
  rewrite (bind_ok _ _ _ _ _ (run_gauge_set _ _ _)). set (w2 := set_metrics _ w1).
  destruct (publish_batch (m :: ms) w2) as [r3 w3] eqn:E3.
  destruct (publish_batch_done (m :: ms) w2 r3 w3 N1 E3) as [D3 N3 T3 K3 S3].
  destruct r3 as [ids|e]; [|rewrite (run_bind_raise _ _ _ _ _ E3); split_and!; [simpl in *; congruence|done|done]].
  rewrite (bind_ok _ _ _ _ _ E3).
  destruct (mark_cases ids w3 N3) as (r4 & w4 & E4 & D4 & N4 & K4 & _ & S4).
  destruct r4 as [[]|e]; [|rewrite (run_bind_raise _ _ _ _ _ E4); split_and!; [simpl in *; congruence|done|done]].
  rewrite (bind_ok _ _ _ _ _ E4). simpl. split_and!; [simpl in *; congruence|done|].
  intros _. rewrite (S4 eq_refl). eapply (accounted_marked _ _ (m :: ms)); [done| |done|].
  - change (w_tx w2) with (w_tx w1) in T3. by rewrite T1, Ht in T3.
  - destruct (S3 ids eq_refl) as (n & -> & F). exists n. split; [done|].
    eapply Forall_impl; [exact F|]. intros m0 (rec & Hr & Hk). exists rec. by rewrite K4.
Qed.

Lemma accounted_kafka d0 d w w' : w_kafka w' = w_kafka w → accounted d0 d w → accounted d0 d w'.
Proof.
  intros K H row' Hin Hp. destruct (H row' Hin Hp) as [?|(r & Hr & Hk)]; [by left|right].
  exists r. by rewrite K.
Qed.

Lemma drain_session_accounted w :
  w_new w = [] → w_tx w = w_db w → outbox_ids (w_db w) →
  let w' := (session_begin (drain_transaction dialect locked batch_size) w).2 in
  accounted (w_db w) (w_db w') w'.
Proof.
  intros Hn Ht Hi. pose proof (drain_transaction_done w Hn Ht Hi) as H.
  destruct (drain_transaction dialect locked batch_size w) as [[n|e] w1] eqn:E; destruct H as (D & N & A).
  - destruct (commit_cases w1 N) as [C K]. destruct (commit w1) as [r w2] eqn:E2; simpl in C, K.
    assert ((session_begin (drain_transaction dialect locked batch_size) w).2 = w2) as ->.
    { unfold session_begin. rewrite (bind_ok _ _ _ _ _ E). unfold mbind, M_bind. rewrite E2. by destruct r. }
    eapply accounted_kafka; [exact K|]. destruct C as [-> | ->]; [rewrite D; by apply accounted_tallied|by apply A].
  - unfold session_begin. rewrite (run_bind_raise _ _ _ _ _ E). simpl. rewrite D. by apply accounted_tallied.
Qed.

Lemma drain_once_accounted w :
  outbox_ids (w_db w) →
  let w' := (drain_once dialect locked batch_size w).2 in accounted (w_db w) (w_db w') w'.
Proof.
  intros Hi. pose proof (drain_session_accounted (set_session (w_db w) [] w) eq_refl eq_refl Hi) as H.
  cbv zeta in *. unfold drain_once. set (body := session_begin _) in *.
  pose proof (with_session_db body w) as D. pose proof (with_session_kafka body w) as K.
  rewrite <- D in H. destruct (with_session body w) as [[n|e] w1] eqn:E; simpl in D, K.
  - rewrite (bind_ok _ _ _ _ _ E), (bind_ok _ _ _ _ _ (run_if_inc _ _ _ _)). simpl.
    by eapply accounted_kafka.
  - rewrite (run_bind_raise _ _ _ _ _ E). simpl in *. by eapply accounted_kafka.
Qed.
End any.

(** ** What the relay promises *)

Section theorems.
Context {RS : RedisServer}.
Variables (dialect : pystr) (locked : gset Z) (batch_size : Z).
#[local] Existing Instance KafkaEventPublisher.

(** C12: no message is marked as sent that Kafka has not accepted. Whatever the
    database and the broker do in a turn of the relay (refuse, take effect and
    fail), every row of the committed outbox that is PUBLISHED after it was
    PUBLISHED before, or Kafka holds the record of its topic, payload and headers. *)
Theorem drain_published_sent w :
  outbox_ids (w_db w) →
  let w' := (drain_once dialect locked batch_size w).2 in
  ∀ row', row' ∈ outbox_messages (w_db w') → ob_status row' = OUTBOX_PUBLISHED →
    (∃ row, row ∈ outbox_messages (w_db w) ∧ ob_id row = ob_id row' ∧ ob_status row = OUTBOX_PUBLISHED)
    ∨ ∃ r, record_of (message_of_row row') = Ok r ∧ r ∈ w_kafka w'.
Proof. intros Hi. cbv zeta. by apply drain_once_accounted. Qed.

(** C25: the first failure ends the batch. When Kafka refuses the message after [ms]
    and nothing else fails, the messages [ms] before it are sent in order, and their rows are
    published, at this time and without an error; the row of the refused one stays pending, with one attempt more and the
    first 500 characters of the error; every other row is as it was, and so are the jobs and the log. *)
Theorem drain_stops_at_failure w ms m ms' rs r e :
  (∀ i, i ≠ S (length ms) → env_fate (w_env w) (i + w_calls w) = Done) →
  env_fate (w_env w) (S (length ms) + w_calls w) = Failed e → outbox_ids (w_db w) →
  fetch_pending dialect locked (_batch_size batch_size) (w_db w) = ms ++ m :: ms' →
  mapM record_of ms = Ok rs → record_of m = Ok r →
  ∃ w', drain_once dialect locked batch_size w = (Ok (Z.of_nat (length ms)), w')
    ∧ w_kafka w' = w_kafka w ++ rs
    ∧ jobs (w_db w') = jobs (w_db w) ∧ job_events (w_db w') = job_events (w_db w)
    ∧ length (outbox_messages (w_db w')) = length (outbox_messages (w_db w))
    ∧ ∀ i row, outbox_messages (w_db w) !! i = Some row →
        outbox_messages (w_db w') !! i = Some
          (MkOutboxRow (ob_id row) (ob_message_id row) (ob_topic row) (ob_payload row) (ob_headers row)
             (if bool_decide (ob_id row ∈ m_id <$> ms) then OUTBOX_PUBLISHED else ob_status row)
             (if bool_decide (ob_id row = m_id m) then ob_attempts row + 1 else ob_attempts row)
             (if bool_decide (ob_id row ∈ m_id <$> ms) then None
              else if bool_decide (ob_id row = m_id m) then Some (take 500 (exn_type e ++ u ": " ++ exn_msg e))
              else ob_last_error row)
             (ob_created_at row)
             (if bool_decide (ob_id row ∈ m_id <$> ms) then Some (w_clock w) else ob_published_at row))
        ∧ (ob_id row = m_id m → ob_id row ∉ m_id <$> ms ∧ is_pending row).
Proof.
  intros Hd He Hi Hfe Hrs Hr. destruct (run_drain_fails dialect locked batch_size w ms m ms' rs r e) as (w' & E & D & K); [done..|].
  exists w'. split; [exact E|]. split; [exact K|]. rewrite D.
  destruct (mark_published_same (w_clock w) (m_id <$> ms) (mark_failed (m_id m) (error_text e) (w_db w))) as (-> & -> & ->).
  split; [done|]. split; [done|]. split; [by rewrite length_fmap; simpl; rewrite length_fmap|].
  intros i row Hrow. split; [|intros Hid; by eapply refused_not_sent].
  rewrite list_lookup_fmap. simpl. rewrite list_lookup_fmap, Hrow. simpl. f_equal. unfold error_text.
  destruct row as [id mid t p h st at_ er cr pu]. simpl. by repeat (case_decide || case_bool_decide).
Qed.

(** C16: the relay empties the outbox. With no failing service and no other relay, as
    many turns as there are pending messages leave none pending, and Kafka has
    received exactly these messages, each once, in the order of their ids. *)
Theorem relay_empties turns w rs :
  calm w → outbox_ids (w_db w) → (length (pending_rows (w_db w)) ≤ turns)%nat →
  mapM record_of (message_of_row <$> pending_rows (w_db w)) = Ok rs →
  ∃ ns w', relay_loop dialect ∅ batch_size turns w = (Ok ns, w')
    ∧ pending_rows (w_db w') = [] ∧ w_kafka w' = w_kafka w ++ rs.
Proof. apply run_relay_loop. Qed.
End theorems.

(** ** The hypotheses can hold *)

Definition demo_message (id : Z) (status : pystr) : outbox_row :=
  MkOutboxRow id (u "m" ++ py_str_int id) (u "jobs") (JInt id) (Some [(u "k", u "v")]) status 0 None start_time None.
Definition demo_outbox : db :=
  MkDb ∅ [] [demo_message 1 OUTBOX_PUBLISHED; demo_message 2 OUTBOX_PENDING; demo_message 3 OUTBOX_PENDING;
             demo_message 4 OUTBOX_PENDING] 1 5.
Definition demo_record (id : Z) : record := MkRecord (u "jobs") (JInt id) (Some [(u "k", u "v")]).

Lemma demo_outbox_ids : outbox_ids demo_outbox.
Proof.
  split; [|repeat constructor; simpl; lia].
  change (NoDup [1; 2; 3; 4]). repeat constructor; set_solver by lia.
Qed.

Lemma drain_published_sent_witness :
  ∃ w' row', drain_once (EP := KafkaEventPublisher) (u "postgresql") ∅ 2 (world_of calm_env demo_outbox) = (Ok 2, w')
    ∧ outbox_messages (w_db w') !! 1%nat = Some row' ∧ ob_id row' = 2 ∧ ob_status row' = OUTBOX_PUBLISHED
    ∧ ((∃ row, row ∈ outbox_messages demo_outbox ∧ ob_id row = 2 ∧ ob_status row = OUTBOX_PUBLISHED)
       ∨ ∃ r, record_of (message_of_row row') = Ok r ∧ r ∈ w_kafka w').
Proof.
  destruct (drain_once (u "postgresql") ∅ 2 (world_of calm_env demo_outbox)) as [r w'] eqn:E.
  pose proof (drain_published_sent (u "postgresql") ∅ 2 (world_of calm_env demo_outbox)
    demo_outbox_ids) as H.
  assert (r = Ok 2) as -> by (change r with (r, w').1; rewrite <- E; vm_compute; reflexivity).
  assert (∃ row', outbox_messages (w_db w') !! 1%nat = Some row' ∧ ob_id row' = 2 ∧ ob_status row' = OUTBOX_PUBLISHED)
    as (row' & Hr & Hid & Hst).
  { change w' with (Ok 2, w').2. rewrite <- E. eexists. vm_compute. by split_and!. }
  exists w', row'. rewrite E in H. split_and!; [done..|]. rewrite <- Hid. apply H; [|done].
  by apply list_elem_of_lookup_2 in Hr.
Defined.

(** The broker refuses the second publication. *)
Definition demo_refusing_world : world :=
  world_of (env_with_fate 2 (Failed (RuntimeError (u "no leader")))) demo_outbox.

Lemma drain_stops_at_failure_witness :
  ∃ w' row', drain_once (EP := KafkaEventPublisher) (u "postgresql") ∅ 5 demo_refusing_world = (Ok 1, w')
    ∧ w_kafka w' = [demo_record 2]
    ∧ outbox_messages (w_db w') !! 2%nat = Some row' ∧ ob_status row' = OUTBOX_PENDING ∧ ob_attempts row' = 1
    ∧ ob_last_error row' = Some (u "RuntimeError: no leader").
Proof.
  destruct (drain_stops_at_failure (u "postgresql") ∅ 5 demo_refusing_world
    [message_of_row (demo_message 2 OUTBOX_PENDING)] (message_of_row (demo_message 3 OUTBOX_PENDING))
    [message_of_row (demo_message 4 OUTBOX_PENDING)] [demo_record 2] (demo_record 3) (RuntimeError (u "no leader")))
    as (w' & E & K & _ & _ & _ & H).
  - intros [|[|[|i]]]; done.
  - done.
  - exact demo_outbox_ids.
  - vm_compute. reflexivity.
  - vm_compute. reflexivity.
  - vm_compute. reflexivity.
  - destruct (H 2%nat (demo_message 3 OUTBOX_PENDING) eq_refl) as [Hrow _].
    eexists w', _. split; [exact E|]. split; [exact K|]. split; [exact Hrow|]. split; [|split]; vm_compute; reflexivity.
Defined.

Lemma relay_empties_witness :
  ∃ ns w', relay_loop (EP := KafkaEventPublisher) (u "sqlite") ∅ 2 3 (world_of calm_env demo_outbox) = (Ok ns, w')
    ∧ pending_rows (w_db w') = [] ∧ w_kafka w' = [demo_record 2; demo_record 3; demo_record 4].
Proof.
  apply (relay_empties (u "sqlite") 2 3 (world_of calm_env demo_outbox));
    [apply calm_env_calm|apply demo_outbox_ids|vm_compute; lia|vm_compute; reflexivity].
Defined.
