(* ===== verification/Relays.v ===== *)
(** * Relays side by side: [app/adapters/messaging/outbox_relay.py], the row locks of its reads

    Each API process and each worker runs a relay, and all of them read one outbox. [drain_once] is cut
    here at its awaits: the read, which locks the rows it returns until the transaction ends
    ([repositories.py]), one publication after the other, and the end of the transaction.
    The parts put together are [drain_once]; and the parts of any number of relays
    interleave, with crashes, and with transactions that fill the outbox. *)
From S2P Require Import Prelude PyStr PyFloat Json Domain Database WellFormed Evolution World Effects Ports Fixtures JobService WorkerService PipelineServices Messaging OutboxRelay.
#[local] Open Scope Z_scope.

(** How far a pass is: before its read; with messages to send, under the locks of its read; with
    nothing more to send, and the failure that stopped it. *)
Inductive pass :=
  | Idle
  | Sending (locks : gset Z) (todo : list message) (sent : list Z)
  | Ending (locks : gset Z) (sent : list Z) (failed : option (Z * exn)).

Section pass.
Context {RS : RedisServer} {EP : EventPublisher}.
Variables (dialect : pystr) (batch_size : Z).

(** The statements at the end of the transaction. *)
Definition settle_messages (sent : list Z) (failed : option (Z * exn)) : M unit :=
  match failed with Some (id, exc) => repo_mark_failed id (error_text exc) | None => mret tt end ;;
  repo_mark_published sent.

(** The next part of [drain_once]; [others] are the rows that other transactions have locked. The failure is
    counted in the last part: until the commit nobody else sees the statement. *)
Definition next_part (others : gset Z) (p : pass) : M pass :=
  match p with
  | Idle =>
      open_session ;;
      messages ← repo_fetch_pending dialect others batch_size;
      gauge_set OUTBOX_PENDING_BACKLOG (Z.of_nat (length messages)) ;;
      mret (Sending (row_locks dialect messages) messages [])
  | Sending locks (m :: todo) sent =>
      try_except
        (publish (m_topic m) (m_payload m) (given_headers m) ;;
         mret (Sending locks todo (sent ++ [m_id m])))
        (λ exc, inc OUTBOX_PUBLISH_FAILURE_TOTAL ;; mret (Ending locks sent (Some (m_id m, exc))))
  | Sending locks [] sent => mret (Ending locks sent None)
  | Ending _ sent failed =>
      with_session (settle_messages sent failed ;; commit) ;;
      (if 0 <? Z.of_nat (length sent) then inc_by OUTBOX_PUBLISHED_TOTAL (Z.of_nat (length sent)) else mret tt) ;;
      mret Idle
  end.

(** All the parts, one after the other. *)
Fixpoint all_parts (fuel : nat) (others : gset Z) (p : pass) : M Z :=
  match fuel with
  | O => raise (RuntimeError (u "not finished"))
  | S fuel' =>
      match p with
      | Ending _ sent _ => next_part others p ;; mret (Z.of_nat (length sent))
      | _ => p' ← next_part others p; all_parts fuel' others p'
      end
  end.

(** ** The parts make up [drain_once] *)

Section parts.
Context {EL : PublisherLaws EP}.
Variable others : gset Z.

(** Nothing is pending in the session. *)
Definition untouched (w : world) : Prop := w_tx w = w_db w ∧ w_new w = [].

Lemma open_untouched w : untouched w → set_session (w_db w) [] w = w.
Proof. intros [Ht Hn]. destruct w. simpl in *. by subst. Qed.

(** The rest of the transaction with [ms] to send. *)
Definition rest_of (ms : list message) (sent : list Z) : M Z :=
  ids ← publish_batch ms; repo_mark_published (sent ++ ids) ;; mret (Z.of_nat (length (sent ++ ids))).
Definition finish (body : M Z) : M Z :=
  published ← try_finally (session_begin body) open_session;
  (if 0 <? published then inc_by OUTBOX_PUBLISHED_TOTAL published else mret tt) ;;
  mret published.

Lemma ending_part locks sent failed n w :
  untouched w →
  all_parts (S n) others (Ending locks sent failed) w
  = finish (settle_messages sent failed ;; mret (Z.of_nat (length sent))) w.
Proof.
  intros Hu. cbn [all_parts next_part]. unfold finish, with_session, session_begin, try_finally.
  unfold mbind, M_bind, open_session, modify. rewrite (open_untouched w Hu).
  destruct (settle_messages sent failed w) as [[[]|e] w1]; cbn; [|done].
  destruct (commit w1) as [[[]|e] w2]; cbn; [|done]. by destruct (0 <? Z.of_nat (length sent)).
Qed.

(** What a publication leaves alone. *)
Lemma publish_untouched m w : untouched w → untouched (publish (m_topic m) (m_payload m) (given_headers m) w).2.
Proof. intros Hu. destruct (publish_cases m w) as (r & w' & -> & D & T & N & _). destruct Hu. split; simpl; congruence. Qed.

(** A message that is sent, and one that is refused. *)
Lemma batch_sent m ms w w' :
  publish (m_topic m) (m_payload m) (given_headers m) w = (Ok tt, w') →
  publish_batch (m :: ms) w = (ids ← publish_batch ms; mret (m_id m :: ids)) w'.
Proof.
  intros E. cbn [publish_batch]. fold (given_headers m).
  erewrite bind_ok; [|apply run_try_ok; eapply run_bind; [exact E|reflexivity]]. done.
Qed.

Lemma batch_refused m ms w w' e :
  publish (m_topic m) (m_payload m) (given_headers m) w = (Raise e, w') →
  publish_batch (m :: ms) w
  = (inc OUTBOX_PUBLISH_FAILURE_TOTAL ;; repo_mark_failed (m_id m) (error_text e) ;; mret []) w'.
Proof.
  intros E. cbn [publish_batch]. fold (given_headers m). unfold try_except, mbind, M_bind. rewrite E. cbn.
  by destruct (repo_mark_failed _ _ _) as [[[]|x] w2].
Qed.

Lemma finish_ext body body' w w' : body w = body' w' → finish body w = finish body' w'.
Proof. intros E. unfold finish, try_finally, session_begin, mbind, M_bind. by rewrite E. Qed.

Lemma rest_sent m ms sent w w' :
  publish (m_topic m) (m_payload m) (given_headers m) w = (Ok tt, w') →
  rest_of (m :: ms) sent w = rest_of ms (sent ++ [m_id m]) w'.
Proof.
  intros E. unfold rest_of, mbind, M_bind. rewrite (batch_sent _ _ _ _ E). unfold mbind, M_bind.
  destruct (publish_batch ms w') as [[ids|e] w2]; [|done]. cbn. by rewrite <- app_assoc.
Qed.

Lemma rest_refused m ms sent w w' e :
  publish (m_topic m) (m_payload m) (given_headers m) w = (Raise e, w') →
  rest_of (m :: ms) sent w
  = (inc OUTBOX_PUBLISH_FAILURE_TOTAL ;; settle_messages sent (Some (m_id m, e)) ;; mret (Z.of_nat (length sent))) w'.
Proof.
  intros E. unfold rest_of, settle_messages, mbind, M_bind. rewrite (batch_refused _ _ _ _ _ E). unfold mbind, M_bind. cbn.
  destruct (repo_mark_failed _ _ _) as [[[]|x] w2]; [|done]. cbn. by rewrite app_nil_r.
Qed.

Lemma sending_parts ms : ∀ locks sent w n, untouched w → (2 + length ms ≤ n)%nat →
  all_parts n others (Sending locks ms sent) w = finish (rest_of ms sent) w.
Proof.
  induction ms as [|m ms IH]; intros locks sent w [|n] Hu Hn; simpl in Hn; try lia.
  - cbn [all_parts next_part]. rewrite (bind_ok (mret (Ending locks sent None)) _ w _ w eq_refl). destruct n as [|n]; [lia|].
    rewrite (ending_part locks sent None n w Hu). apply finish_ext. unfold rest_of. cbn [publish_batch]. unfold settle_messages.
    unfold mbind, M_bind. cbn. by rewrite app_nil_r.
  - cbn [all_parts next_part]. pose proof (publish_untouched m w Hu) as Hu1.
    destruct (publish (m_topic m) (m_payload m) (given_headers m) w) as [[[]|e] w1] eqn:E; simpl in Hu1.
    + erewrite bind_ok; [|apply run_try_ok; eapply run_bind; [exact E|reflexivity]].
      rewrite IH by (done || lia). by apply finish_ext, eq_sym, rest_sent.
    + erewrite bind_ok; [|eapply run_try_raise; [eapply run_bind_raise; exact E|cbv beta; eapply run_bind; [apply run_inc|reflexivity]]].
      destruct n as [|n]; [lia|]. rewrite ending_part by exact Hu1. apply finish_ext. rewrite (rest_refused _ _ _ _ _ _ E).
      symmetry. rewrite (bind_ok _ _ _ _ _ (run_inc _ _)). done.
Qed.

(** The read changes nothing but the count of calls. *)
Lemma run_fetch w :
  untouched w →
  ∃ r, repo_fetch_pending dialect others batch_size w = (r, called w)
    ∧ (r = Ok (fetch_pending dialect others (_batch_size batch_size) (w_db w)) ∨ is_ok r = false).
Proof.
  intros [Ht Hn]. unfold repo_fetch_pending, execute, external. set (f := λ d : db, _). fold (called w).
  assert ((flush ;; on_tx f) (called w) = (Ok (fetch_pending dialect others (_batch_size batch_size) (w_db w)), called w)) as E.
  { eapply run_bind; [apply run_flush; simpl; by rewrite Hn|]. unfold on_tx, f. simpl. rewrite Ht. f_equal.
    destruct w. simpl in *. by subst. }
  cbv zeta. rewrite E. destruct (env_fate _ _); eexists; (split; [reflexivity|]); by auto.
Qed.

(** The transaction of [drain_once], once it has read. *)
Lemma drain_rest messages w :
  (match messages with
   | [] => gauge_set OUTBOX_PENDING_BACKLOG 0 ;; mret 0
   | _ => gauge_set OUTBOX_PENDING_BACKLOG (Z.of_nat (length messages)) ;;
          sent_ids ← publish_batch messages; repo_mark_published sent_ids ;; mret (Z.of_nat (length sent_ids))
   end) w
  = (gauge_set OUTBOX_PENDING_BACKLOG (Z.of_nat (length messages)) ;; rest_of messages []) w.
Proof. by destruct messages. Qed.

(** The parts are [drain_once]: its read, its publications and its end, whatever the services do. *)
Lemma parts_are_drain_once n w :
  (3 + Z.to_nat (_batch_size batch_size) ≤ n)%nat →
  all_parts n others Idle w = drain_once dialect others batch_size w.
Proof.
  intros Hn. destruct n as [|n]; [lia|]. cbn [all_parts next_part].
  set (w0 := set_session (w_db w) [] w). assert (untouched w0) as Hu by done.
  assert (drain_once dialect others batch_size w = finish (drain_transaction dialect others batch_size) w0) as -> by done.
  destruct (run_fetch w0 Hu) as (r & E & Hr). set (messages := fetch_pending dialect others (_batch_size batch_size) (w_db w0)) in *.
  assert (length messages ≤ Z.to_nat (_batch_size batch_size))%nat as Hlen.
  { unfold messages, fetch_pending. rewrite length_fmap, length_take. lia. }
  set (w1 := set_metrics (metric_set OUTBOX_PENDING_BACKLOG (Z.of_nat (length messages)) (w_metrics (called w0))) (called w0)).
  destruct Hr as [->|Hr].
  - erewrite bind_ok; [|eapply run_bind; [apply run_modify|]; fold w0; eapply run_bind; [exact E|]; eapply run_bind; [apply run_gauge_set|reflexivity]].
    fold w1. rewrite sending_parts by (done || lia). apply finish_ext. unfold drain_transaction. rewrite (bind_ok _ _ _ _ _ E).
    rewrite drain_rest. by rewrite (bind_ok _ _ _ _ _ (run_gauge_set _ _ _)).
  - destruct r as [|e]; [done|]. erewrite run_bind_raise; [|eapply run_bind; [apply run_modify|]; fold w0; eapply run_bind_raise; exact E].
    unfold finish, try_finally, session_begin, drain_transaction, mbind, M_bind. rewrite E. cbn. by destruct w.
Qed.
End parts.
End pass.
