(* ===== verification/JobStore.v ===== *)
(** * The job repository as a compare-and-swap store

    What the three conditional statements of [SqlAlchemyJobRepository] promise
    to the services: a status changes along the table of transitions or not at
    all, a claim excludes the others until it expires and passes on the fencing
    token, and only the holder of the current token renews or finishes. *)
From S2P Require Import Prelude PyStr PyFloat Json Domain Database Evolution World Effects Ports Fixtures.
#[local] Open Scope Z_scope.

(** ** Claims *)

Lemma claimed_not_claimable now db_now owner expires row :
  now ≤ expires → claimable now (claimed_row db_now owner expires row) = false.
Proof.
  intros Hle. apply not_true_iff_false. rewrite claimable_spec. simpl.
  intros [H|[H|[_ H]]]; [by apply (inj status_value) in H..|]. specialize (H _ eq_refl). lia.
Qed.

Lemma claimed_expired now db_now owner expires row :
  expires < now → claimable now (claimed_row db_now owner expires row) = true.
Proof. intros Hlt. rewrite claimable_spec. right. right. split; [done|]. intros t [= <-]. done. Qed.

(** The row a claim leaves. *)
Lemma claim_row now db_now id owner secs d l d' :
  claim_for_processing now db_now id owner secs d = Ok (Some l, d') →
  ∃ row, jobs d !! id = Some row ∧ claimable now row = true
    ∧ jobs d' !! id = Some (claimed_row db_now owner (now + secs * MICROS) row)
    ∧ l = MkJobLease (jr_id row) owner (jr_lease_epoch row + 1) (Some (now + secs * MICROS))
    ∧ jr_lease_epoch row < int4_max.
Proof.
  intros H. pose proof H as H'. apply claim_inv in H' as (row & expires & Hr & Hc & -> & -> & ->).
  exists row. split_and!; [done..|by apply lookup_insert_eq|done|].
  unfold claim_for_processing in H. destruct (datetime_add_seconds _ _); [|done].
  rewrite Hr, Hc in H. destruct (_ <=? _) eqn:E; [|done]. apply Z.leb_le in E. lia.
Qed.

Section promises.

(** C21: a claim excludes every other claim until it expires. After a successful claim
    for [secs] seconds at [now], a claim of the same job by anyone at a time up to the
    expiry is refused without effect, and one after the expiry succeeds with the next
    token. *)
Theorem claim_exclusive now db_now id owner secs d l d' now2 db_now2 owner2 secs2 expires2 :
  claim_for_processing now db_now id owner secs d = Ok (Some l, d') →
  datetime_add_seconds now2 secs2 = Ok expires2 →
  (now2 ≤ now + secs * MICROS →
     claim_for_processing now2 db_now2 id owner2 secs2 d' = Ok (None, d'))
  ∧ (now + secs * MICROS < now2 → lease_epoch l < int4_max →
     ∃ l2 d2, claim_for_processing now2 db_now2 id owner2 secs2 d' = Ok (Some l2, d2)
       ∧ lease_owner l2 = owner2 ∧ lease_epoch l2 = lease_epoch l + 1).
Proof.
  intros H Ht. apply claim_row in H as (row & Hr & Hc & Hr' & -> & He). split.
  - intros Hle. eapply claim_miss; [done|]. intros r Hr2. rewrite Hr' in Hr2. simplify_eq.
    by apply claimed_not_claimable.
  - intros Hlt He2. simpl in He2. eexists _, _. split.
    + apply (claim_hit _ _ _ _ _ _ _ _ Ht Hr'); [by apply claimed_expired|done].
    + done.
Qed.

(** Who may change a status. [update_status] to a target other than PENDING changes
    the row of the job exactly when the table allows the transition from its present
    status and the given owner and token are those of the row; it then writes the
    target, and otherwise changes nothing and reports it. *)
Theorem update_status_cas now id target up d row :
  up_expected_statuses up = None → target ≠ PENDING → jobs d !! id = Some row →
  let allowed :=
    (∃ s, jr_status row = status_value s ∧ s ∈ allowed_source_statuses target)
    ∧ (∀ o, up_lease_owner up = Some o → jr_lease_owner row = Some o)
    ∧ (∀ e, up_lease_epoch up = Some e → jr_lease_epoch row = e) in
  (allowed ∧ ∃ j, update_status now id (status_value target) up d
      = Ok (Some j, set_jobs <[id := status_values now target up row]> d) ∧ job_status j = target)
  ∨ (¬ allowed ∧ update_status now id (status_value target) up d = Ok (None, d)).
Proof.
  intros He Hp Hr allowed. rewrite update_status_eq, Hr by done.
  assert (status_guard (allowed_source_statuses target) up row = true ↔ allowed) as Hiff.
  { rewrite status_guard_spec. unfold allowed. naive_solver. }
  destruct (status_guard _ _ _); [left|right]; (split; [naive_solver|]); [|done].
  by exists (job_after now target up row).
Qed.

(** Only the current holder renews. After a claim was taken over (the token of the
    row has moved on), renewing the earlier lease fails without effect, however the
    database evolved; the current holder's renewal sets the new expiry and keeps the
    token. *)
Theorem renew_fenced now db_now id owner epoch secs d d' row expires :
  jobs d !! id = Some row → db_evolves d d' → datetime_add_seconds now secs = Ok expires →
  (epoch < jr_lease_epoch row → renew_lease now db_now id owner epoch secs d' = Ok (false, d'))
  ∧ (jr_lease_owner row = Some owner → jr_lease_epoch row = epoch →
     ∃ row', renew_lease now db_now id owner epoch secs d = Ok (true, set_jobs <[id := row']> d)
       ∧ jr_lease_expires_at row' = Some expires ∧ jr_lease_epoch row' = epoch
       ∧ jr_status row' = jr_status row ∧ jr_lease_owner row' = Some owner).
Proof.
  intros Hr Hev Ht. split.
  - intros Hlt. destruct (dv_jobs _ _ Hev _ _ Hr) as (row' & Hr' & E). pose proof (ev_epoch _ _ E).
    unfold renew_lease. rewrite Ht, Hr'. rewrite (proj2 (Z.eqb_neq (jr_lease_epoch row') epoch)) by lia.
    by rewrite andb_false_r.
  - intros Ho He. unfold renew_lease. rewrite Ht, Hr, bool_decide_true, (proj2 (Z.eqb_eq _ _)) by done.
    eexists. split; [reflexivity|]. split_and!; done.
Qed.
End promises.

(** ** The hypotheses can hold *)

Definition demo_db : db := one_job PENDING None None 0.
Definition demo_lease : JobLease := MkJobLease demo_id (u "w-1") 1 (Some (start_time + 60 * MICROS)).
Definition demo_claimed : job_row :=
  claimed_row start_time (u "w-1") (start_time + 60 * MICROS) (row_in demo_id PENDING None None 0).

Lemma demo_claim :
  claim_for_processing start_time start_time demo_id (u "w-1") 60 demo_db
  = Ok (Some demo_lease, set_jobs <[demo_id := demo_claimed]> demo_db).
Proof.
  exact (claim_hit start_time start_time demo_id (u "w-1") 60 (start_time + 60 * MICROS)
    (row_in demo_id PENDING None None 0) demo_db eq_refl (one_job_row _ _ _ _) eq_refl ltac:(done)).
Qed.

Lemma claim_exclusive_witness :
  claim_for_processing (start_time + 1) start_time demo_id (u "w-2") 60 (set_jobs <[demo_id := demo_claimed]> demo_db)
  = Ok (None, set_jobs <[demo_id := demo_claimed]> demo_db).
Proof.
  apply (claim_exclusive start_time start_time demo_id (u "w-1") 60 demo_db demo_lease _ (start_time + 1) start_time
    (u "w-2") 60 (start_time + 1 + 60 * MICROS)); [apply demo_claim|reflexivity|unfold MICROS; lia].
Defined.

Lemma update_status_cas_witness :
  update_status start_time demo_id (status_value SUCCESS) no_update demo_db = Ok (None, demo_db).
Proof.
  destruct (update_status_cas start_time demo_id SUCCESS no_update demo_db (row_in demo_id PENDING None None 0)
    eq_refl ltac:(done) (one_job_row _ _ _ _)) as [[[(s & Hs & Hin) _] _]|[_ H]]; [|exact H].
  exfalso. apply (inj status_value PENDING) in Hs. subst s. rewrite allowed_sources_eq in Hin.
  by apply elem_of_singleton in Hin.
Defined.

Lemma renew_fenced_witness :
  renew_lease start_time start_time demo_id (u "w-1") 0 60 (set_jobs <[demo_id := demo_claimed]> demo_db)
  = Ok (false, set_jobs <[demo_id := demo_claimed]> demo_db).
Proof.
  apply (renew_fenced start_time start_time demo_id (u "w-1") 0 60 (set_jobs <[demo_id := demo_claimed]> demo_db) _
    demo_claimed (start_time + 60 * MICROS)); [apply lookup_insert_eq|reflexivity|reflexivity|done].
Defined.
