(* ===== verification/System.v ===== *)
(** * The system: interleaved workers on one database

    A step relation on the world and the leases workers hold. A step is one
    transaction of a handler (each handler of the program is cut into its
    transactions and its calls), the crash of a worker, or the passing of time; services may
    fail in any of them. The runs of the whole handlers are shown to be made of these steps, and the
    invariants hold in every interleaving of them. *)
From S2P Require Import Requests Prelude PyStr PyFloat Json Domain Database WellFormed Ledger Evolution World Effects Ports Fixtures JobService WorkerService PipelineServices Messaging OutboxRelay Relays.
#[local] Open Scope Z_scope.

(** ** Every transaction respects the database *)

Section handlers.
Context {RS : RedisServer}.

Lemma respects_get_job id : respects (get_job id).
Proof. unfold get_job. stay. Qed.

Lemma respects_claim_phase worker_id secs source job_id trace_id :
  respects (claim_phase worker_id secs source job_id trace_id).
Proof. unfold claim_phase, inc. stay. Qed.

Lemma respects_failure_phase worker_id source job_id trace_id lease exc :
  respects (failure_phase worker_id source job_id trace_id lease exc).
Proof. unfold failure_phase, inc. stay. Qed.

Lemma respects_success_phase worker_id source job_id trace_id lease result :
  respects (success_phase worker_id source job_id trace_id lease result).
Proof. unfold success_phase, inc. stay. Qed.

Lemma respects_request_payload event : respects (request_payload event).
Proof. unfold request_payload. stay. Qed.
End handlers.

#[export] Hint Resolve respects_get_job respects_claim_phase respects_failure_phase respects_success_phase
  respects_request_payload : mflow.

Section handlers2.
Context {RS : RedisServer}.

Lemma respects_advance {IP : IdempotencyPort} {IL : IdempotencyLaws IP} topic key payload p :
  respects (advance topic key payload p).
Proof. destruct p; simpl; unfold duplicate_job, write_job, inc; stay. Qed.

Lemma respects_handoff_phase topic job_id trace_id result event :
  respects (handoff_phase topic job_id trace_id result event).
Proof. unfold handoff_phase. stay. Qed.

Lemma respects_lookup_phase job_id : respects (lookup_phase job_id).
Proof. unfold lookup_phase. stay. Qed.

Lemma respects_complete_phase job_id trace_id payload result : respects (complete_phase job_id trace_id payload result).
Proof. unfold complete_phase. stay. Qed.

Lemma respects_abort_phase job_id trace_id exc : respects (abort_phase job_id trace_id exc).
Proof. unfold abort_phase, inc. stay. Qed.

Lemma respects_publish {EP : EventPublisher} {EL : PublisherLaws EP} t p hs : respects (publish t p hs).
Proof.
  intros w Hw. destruct (publish_law t p hs w) as (k & mt & c & -> & _). by split.
Qed.
#[local] Hint Resolve respects_publish : mflow.

Lemma respects_mark_failed id e : respects (repo_mark_failed id e).
Proof. apply respects_execute. intros d [] d' [= <-]. apply mark_failed_evolves. Qed.
Lemma respects_mark_published ids : respects (repo_mark_published ids).
Proof.
  destruct ids as [|i ids]; [stay|]. unfold repo_mark_published. stay.
  apply respects_execute. intros d [] d' E. injection E as <-. exact (mark_published_evolves _ (i :: ids) d).
Qed.
Lemma respects_fetch dialect locked batch : respects (repo_fetch_pending dialect locked batch).
Proof. apply respects_execute. by intros d a d' [= _ <-]. Qed.
#[local] Hint Resolve respects_mark_failed respects_mark_published respects_fetch : mflow.

Lemma respects_publish_batch {EP : EventPublisher} {EL : PublisherLaws EP} ms : respects (publish_batch ms).
Proof. induction ms as [|m ms IH]; simpl; unfold inc; stay. Qed.
#[local] Hint Resolve respects_publish_batch : mflow.

Lemma respects_next_part {EP : EventPublisher} {EL : PublisherLaws EP} dialect batch others p :
  respects (next_part dialect batch others p).
Proof. destruct p as [|locks [|m todo] sent|locks sent failed]; simpl; unfold settle_messages, inc; stay. Qed.
End handlers2.

(** ** Inverting runs that return *)

Section inversion.
Context {RS : RedisServer}.

Lemma external_inv {A} (m : M A) w a w' : external m w = (Ok a, w') → m (called w) = (Ok a, w').
Proof. unfold external. by destruct (env_fate _ _). Qed.

Lemma with_session_inv {A} (m : M A) w a w' :
  with_session m w = (Ok a, w') →
  ∃ w1, m (set_session (w_db w) [] w) = (Ok a, w1) ∧ w' = set_session (w_db w1) [] w1.
Proof.
  unfold with_session. intros (? & w0 & [= _ <-] & E)%bind_inv. unfold try_finally in E.
  destruct (m _) as [r w1]. simpl in E. injection E as -> <-. eauto.
Qed.

Lemma execute_inv {A} (f : db → result (A * db)) w a w' :
  w_new w = [] → execute f w = (Ok a, w') →
  f (w_tx w) = Ok (a, w_tx w') ∧ w_new w' = [] ∧ w_db w' = w_db w.
Proof.
  intros Hn E%external_inv. rewrite (bind_ok _ _ (called w) tt (set_session (w_tx w) [] (called w))) in E
    by by apply run_flush; simpl; rewrite Hn.
  unfold on_tx in E. simpl in E. destruct (f (w_tx w)) as [[a' d]|e]; [|done].
  by injection E as -> <-.
Qed.

(** Committing a log entry leaves the job rows of the transaction. *)
Lemma commit_event_inv e w w' :
  w_new w = [NewEvent e] → commit w = (Ok tt, w') → jobs (w_db w') = jobs (w_tx w).
Proof.
  intros Hn E%external_inv. apply bind_inv in E as ([] & w1 & E & E1). injection E1 as <-. simpl.
  unfold flush in E. apply bind_inv in E as (ps & w2 & [= <- <-] & E). simpl in E. rewrite Hn in E.
  apply bind_inv in E as ([] & w3 & [= <-] & E). simpl in E.
  apply bind_inv in E as ([] & w4 & E & [= <-]). unfold flush_one in E.
  apply bind_inv in E as (now & w5 & [= <- <-] & E).
  assert (∀ j w a w', bind_text j w = (Ok a, w') → w' = w) as Hb.
  { intros j w0 a w0' Hj. unfold bind_text in Hj. destruct j; by injection Hj. }
  do 5 (let w6 := fresh in apply bind_inv in E as (? & w6 & ->%Hb & E)).
  unfold insert, on_tx in E. simpl in E. unfold mbind, result_bind, insert_event in E.
  destruct (decide _); [done|]. by injection E as <-.
Qed.

Lemma claim_phase_inv worker_id secs source job_id trace_id w lease w' :
  claim_phase worker_id secs source (JStr job_id) trace_id w = (Ok (Claimed lease), w') →
  ∃ row, jobs (w_db w) !! job_id = Some row ∧ claimable (w_clock w) row = true
    ∧ lease_epoch lease = jr_lease_epoch row + 1
    ∧ ∃ row', jobs (w_db w') !! job_id = Some row'
        ∧ jr_lease_epoch row' = lease_epoch lease ∧ jr_lease_owner row' = Some worker_id.
Proof.
  intros (w1 & E & ->)%with_session_inv. simpl.
  apply bind_inv in E as (id & w2 & [= <- <-] & E).
  apply bind_inv in E as (l & w3 & E3 & E).
  apply bind_inv in E3 as (now & w4 & [= <- <-] & E3). apply bind_inv in E3 as (dbn & w5 & [= <- <-] & E3).
  apply execute_inv in E3 as (Hcl & Hn & Hdb); [|done]. simpl in Hcl, Hdb.
  destruct l as [l|].
  2:{ apply bind_inv in E as (? & ? & _ & E). apply bind_inv in E as (job & ? & _ & E).
      destruct (is_success job); [discriminate E|]. apply bind_inv in E as (? & ? & _ & E). discriminate E. }
  apply claim_inv in Hcl as (row & expires & Hr & Hc & _ & Htx & ->).
  apply bind_inv in E as ([] & w6 & E6 & E).
  assert (w_new w6 = [] ∧ w_tx w6 = w_tx w3) as [Hn6 Ht6].
  { destruct (1 <? _); injection E6 as <-; done. }
  apply bind_inv in E as (ev & w7 & E7 & E). rewrite run_new_event in E7. injection E7 as <- <-.
  apply bind_inv in E as ([] & w8 & E8 & E). rewrite run_event_add in E8. injection E8 as <-.
  apply bind_inv in E as ([] & w9 & E9 & E). eapply commit_event_inv in E9; [|simpl; rewrite Hn6; reflexivity].
  injection E as <- <-. exists row. split_and!; [done..|].
  exists (claimed_row (w_db_clock w) worker_id expires row). split_and!; [|done..].
  rewrite E9. simpl. rewrite Ht6, Htx. apply lookup_insert_eq.
Qed.
End inversion.

(** ** States and steps *)

(** A lease some worker works under. *)
Record held := MkHeld { h_owner : pystr; h_job : pystr; h_lease : JobLease }.

Record system {RS : RedisServer} := MkSystem { s_world : world; s_held : list held }.
Arguments MkSystem {RS} s_world s_held.

Section steps.
Context {RS : RedisServer}.

(** The world after a computation, whether it returns or raises. *)
Definition after {A} (m : M A) (w : world) : world := (m w).2.

(** The transactions of the handlers, and what they do between them, apart from the claims that
    are granted and from what is done under a lease. *)
Inductive transaction : (world → world) → Prop :=
  (** [create_job], cut at its calls of Redis and its transaction, and [get_job] *)
  | t_request (IP : IdempotencyPort) (IL : IdempotencyLaws IP) topic key payload p :
      transaction (after (advance topic key payload p))
  | t_get id : transaction (after (get_job id))
  (** a claim that is refused, or that raises *)
  | t_claim owner secs source job trace : transaction (after (claim_phase owner secs source job trace))
  (** the downstream stage *)
  | t_lookup job : transaction (after (lookup_phase job))
  | t_complete job trace payload result : transaction (after (complete_phase job trace payload result))
  | t_abort job trace exc : transaction (after (abort_phase job trace exc))
  (** a message of the retry path *)
  | t_publish (EP : EventPublisher) (EL : PublisherLaws EP) t p hs : transaction (after (publish t p hs))
  (** a processor *)
  | t_process (TP : TaskProcessor) (TL : TaskProcessorLaws TP) payload : transaction (after (process payload))
  (** metrics and fresh ids *)
  | t_count m n : transaction (after (inc_by m n))
  | t_draw n c d : transaction (λ w, set_counters (n + w_uuids w) c d w).

(** What a worker does under a lease: it records its result or a failure, or hands the job on. *)
Inductive leased (h : held) : (world → world) → Prop :=
  | l_success source trace result :
      leased h (after (success_phase (h_owner h) source (JStr (h_job h)) trace (h_lease h) result))
  | l_failure source trace exc :
      leased h (after (failure_phase (h_owner h) source (JStr (h_job h)) trace (h_lease h) exc))
  | l_handoff topic trace result event :
      leased h (after (handoff_phase topic (JStr (h_job h)) trace result event)).

Inductive step : system → system → Prop :=
  (** a worker claims a job *)
  | step_claim w hs owner secs source job trace lease w' :
      claim_phase owner secs source (JStr job) trace w = (Ok (Claimed lease), w') →
      step (MkSystem w hs) (MkSystem w' (MkHeld owner job lease :: hs))
  | step_leased w hs h f : h ∈ hs → leased h f → step (MkSystem w hs) (MkSystem (f w) hs)
  (** a worker is done with its job, or dies *)
  | step_leave w hs1 h hs2 : step (MkSystem w (hs1 ++ h :: hs2)) (MkSystem w (hs1 ++ hs2))
  (** any other transaction, of any process *)
  | step_other w hs f : transaction f → step (MkSystem w hs) (MkSystem (f w) hs)
  (** the next part of a relay's pass *)
  | step_relay w hs (EP : EventPublisher) (EL : PublisherLaws EP) dialect batch others p :
      step (MkSystem w hs) (MkSystem (after (next_part dialect batch others p) w) hs)
  (** the clocks move *)
  | step_time w hs t dt : step (MkSystem w hs) (MkSystem (set_clock t dt w) hs).

Lemma transaction_safe f w : transaction f → safe_step w (f w).
Proof.
  intros [IP IL topic key payload p|id|owner secs source job trace|job|job trace payload result|job trace exc
         |EP EL t p hs|TP TL payload|m n|n c d].
  - apply respects_advance.
  - apply respects_get_job.
  - apply respects_claim_phase.
  - apply respects_lookup_phase.
  - apply respects_complete_phase.
  - apply respects_abort_phase.
  - apply respects_publish.
  - by apply respects_process.
  - apply respects_inc_by.
  - by apply step_counters; lia.
Qed.

Lemma leased_safe h f w : leased h f → safe_step w (f w).
Proof.
  intros []; [apply respects_success_phase|apply respects_failure_phase|apply respects_handoff_phase].
Qed.

(** The token of a lease: the job and its epoch. *)
Definition token (h : held) : pystr * Z := (h_job h, lease_epoch (h_lease h)).

(** The row has reached the token's epoch. *)
Definition granted (d : db) (h : held) : Prop :=
  ∃ row, jobs d !! h_job h = Some row ∧ lease_epoch (h_lease h) ≤ jr_lease_epoch row.

Record system_ok (s : system) : Prop := {
  ok_tx : tx_ok (s_world s);
  ok_tokens : NoDup (token <$> s_held s);
  ok_granted : Forall (granted (w_db (s_world s))) (s_held s);
}.

Lemma granted_evolves d d' hs : db_evolves d d' → Forall (granted d) hs → Forall (granted d') hs.
Proof.
  intros He Hf. eapply Forall_impl; [exact Hf|]. intros h (row & Hr & Hle).
  destruct (dv_jobs _ _ He _ _ Hr) as (row' & Hr' & E). exists row'. split; [done|].
  pose proof (ev_epoch _ _ E). lia.
Qed.

(** The world takes a respectful step and a lease may be dropped. *)
Lemma system_ok_step w w' hs hs' :
  safe_step w w' → hs' `sublist_of` hs → system_ok (MkSystem w hs) →
  system_ok (MkSystem w' hs') ∧ db_evolves (w_db w) (w_db w').
Proof.
  intros Hs Hsub [Htx Htk Hgr]. simpl in *. destruct (Hs Htx) as [He Htx'].
  split; [|done]. split; simpl; [done| |].
  - eapply sublist_NoDup; [exact Htk|]. by apply fmap_sublist.
  - apply (granted_evolves _ _ _ He). by eapply Forall_sublist.
Qed.

(** A granted claim. *)
Lemma system_ok_claim w hs owner secs source job trace lease w' :
  claim_phase owner secs source (JStr job) trace w = (Ok (Claimed lease), w') → system_ok (MkSystem w hs) →
  system_ok (MkSystem w' (MkHeld owner job lease :: hs)) ∧ db_evolves (w_db w) (w_db w').
Proof.
  intros E Hok. assert (safe_step w w') as Hs.
  { pose proof (respects_claim_phase owner secs source (JStr job) trace w) as H. by rewrite E in H. }
  destruct (system_ok_step w w' hs hs Hs ltac:(done) Hok) as [[Htx Htk Hgr] He]. split; [|done].
  apply claim_phase_inv in E as (row & Hr & _ & Hep & row' & Hr' & Hep' & _).
  split; simpl in *; [done| |].
  - constructor; [|done]. intros (h & Ht & Hin)%list_elem_of_fmap. injection Ht as Hj Hl.
    pose proof (ok_granted _ Hok) as Hg. rewrite Forall_forall in Hg. destruct (Hg h Hin) as (r & Hrr & Hle).
    simpl in Hrr, Hle. rewrite <- Hj, Hr in Hrr. simplify_eq. lia.
  - constructor; [|done]. exists row'. simpl. split; [done|]. lia.
Qed.

Lemma step_keeps s s' : step s s' → system_ok s → system_ok s' ∧ db_evolves (w_db (s_world s)) (w_db (s_world s')).
Proof.
  intros [w hs owner secs source job trace lease w' E|w hs h f _ Hf|w hs1 h hs2|w hs f Hf|w hs EP EL dialect batch others p|w hs t dt] Hok.
  - by eapply system_ok_claim.
  - apply (system_ok_step w _ hs); [by eapply leased_safe|done|done].
  - apply (system_ok_step w _ (hs1 ++ h :: hs2)); [done| |done].
    apply sublist_app; [done|]. by apply sublist_cons.
  - apply (system_ok_step w _ hs); [by apply transaction_safe|done|done].
  - apply (system_ok_step w _ hs); [apply respects_next_part|done|done].
  - apply (system_ok_step w _ hs); [|done|done]. by intros Htx.
Qed.

Lemma steps_keep s s' : rtc step s s' → system_ok s → system_ok s' ∧ db_evolves (w_db (s_world s)) (w_db (s_world s')).
Proof.
  induction 1 as [s|s1 s2 s3 H12 H23 IH]; intros Hok; [by split|].
  destruct (step_keeps _ _ H12 Hok) as [Hok2 E12]. destruct (IH Hok2) as [Hok3 E23]. split; [done|by etrans].
Qed.

(** No worker has a lease yet. *)
Definition initial (s : system) : Prop := s_held s = [] ∧ tx_ok (s_world s).

Lemma initial_ok s : initial s → system_ok s.
Proof. intros [Hh Htx]. split; [done| |]; rewrite Hh; constructor. Qed.

(** What a worker can still do under a lease that is not the row's current one: to record a result or
    a failure commits nothing. A hand-off is not fenced; it commits its log entry and its message, and leaves
    every job as it is. *)
Record fenced_off (w : world) (h : held) : Prop := {
  fo_success source trace result :
    w_db (success_phase (h_owner h) source (JStr (h_job h)) trace (h_lease h) result w).2 = w_db w;
  fo_failure source trace exc :
    w_db (failure_phase (h_owner h) source (JStr (h_job h)) trace (h_lease h) exc w).2 = w_db w;
  fo_handoff topic trace result event :
    jobs (w_db (handoff_phase topic (JStr (h_job h)) trace result event w).2) = jobs (w_db w);
}.

Lemma not_current_fenced w h row :
  jobs (w_db w) !! h_job h = Some row → lease_epoch (h_lease h) ≠ jr_lease_epoch row → fenced_off w h.
Proof.
  intros Hr Hne.
  assert (∀ target up, up_lease_epoch up = Some (lease_epoch (h_lease h)) → misses target up (h_job h) (w_db w)) as Hm.
  { intros target up Hup row' Hr'. simplify_eq. apply not_true_iff_false. rewrite status_guard_spec.
    intros (_ & _ & H). specialize (H _ Hup). congruence. }
  split; intros; [apply success_phase_fenced|apply failure_phase_fenced|apply handoff_keeps_jobs]; by apply Hm.
Qed.

(** So nothing that is done under it changes a job. *)
Lemma fenced_jobs w h f : fenced_off w h → leased h f → jobs (w_db (f w)) = jobs (w_db w).
Proof. intros [H1 H2 H3] []; unfold after; [by rewrite H1|by rewrite H2|by rewrite H3]. Qed.
End steps.

(** ** The handlers are made of these steps *)

Section made_of.
Context {RS : RedisServer}.

(** The world gets from [w] to [w'] by steps, whatever leases are held; with [h] among them. *)
Definition by_steps (w w' : world) : Prop := ∀ hs, rtc step (MkSystem w hs) (MkSystem w' hs).
Definition by_steps_of (h : held) (w w' : world) : Prop := ∀ hs, h ∈ hs → rtc step (MkSystem w hs) (MkSystem w' hs).

Lemma counters_step w n c d hs : (w_uuids w ≤ n)%nat → step (MkSystem w hs) (MkSystem (set_counters n c d w) hs).
Proof.
  intros H. pose proof (step_other w hs _ (t_draw (n - w_uuids w) c d)) as S. simpl in S. by rewrite Nat.sub_add in S.
Qed.

#[global] Instance by_steps_relation : StepRelation by_steps.
Proof.
  split; [split|].
  - by intros w hs.
  - intros w1 w2 w3 H1 H2 hs. etrans; [apply H1|apply H2].
  - intros w n c d H hs. by apply rtc_once, counters_step.
Qed.

#[global] Instance by_steps_of_relation h : StepRelation (by_steps_of h).
Proof.
  split; [split|].
  - by intros w hs.
  - intros w1 w2 w3 H1 H2 hs Hh. etrans; [by apply H1|by apply H2].
  - intros w n c d H hs _. by apply rtc_once, counters_step.
Qed.

Lemma by_transaction {A} (m : M A) : transaction (after m) → stays by_steps m.
Proof. intros H w hs. exact (rtc_once _ _ (step_other w hs _ H)). Qed.

Lemma by_lease h {A} (m : M A) : leased h (after m) → stays (by_steps_of h) m.
Proof. intros H w hs Hh. exact (rtc_once _ _ (step_leased w hs h _ Hh H)). Qed.

Lemma any_lease h {A} (m : M A) : stays by_steps m → stays (by_steps_of h) m.
Proof. intros H w hs _. apply H. Qed.

(** A handler that claims, and goes on under the lease it gets. *)
Lemma claim_steps owner secs source id trace (k : JobLease → M outcome) :
  (∀ lease, stays (by_steps_of (MkHeld owner id lease)) (k lease)) →
  stays by_steps (claimed ← claim_phase owner secs source (JStr id) trace;
                  match claimed with Answered o => mret o | Claimed lease => k lease end).
Proof.
  intros Hk w hs. unfold mbind, M_bind.
  pose proof (by_transaction _ (t_claim owner secs source (JStr id) trace) w hs) as Hrefused.
  destruct (claim_phase owner secs source (JStr id) trace w) as [[[o|lease]|e] w1] eqn:E; [exact Hrefused| |exact Hrefused].
  eapply rtc_l; [exact (step_claim _ _ _ _ _ _ _ _ _ E)|]. etrans; [apply (Hk lease w1); left|].
  apply rtc_once, (step_leave _ [] _ hs).
Qed.

Lemma parts_steps {IP : IdempotencyPort} {IL : IdempotencyLaws IP} topic key n payload p :
  stays by_steps (parts topic key n payload p).
Proof.
  revert p. induction n as [|n IH]; intros p; [destruct p; simpl; stay|].
  destruct (running p) eqn:Hp; [|by destruct p; simpl in *; stay]. rewrite parts_step by done.
  stay_bind; [by apply by_transaction, t_request|exact IH].
Qed.

Lemma create_job_steps {IP : IdempotencyPort} {IL : IdempotencyLaws IP} topic payload key :
  stays by_steps (create_job topic payload key).
Proof.
  unfold create_job. stay_bind; [destruct key as [[|]|]; stay|]. intros k w. rewrite create_with_key_parts. apply parts_steps.
Qed.

Lemma drain_steps {EP : EventPublisher} {EL : PublisherLaws EP} dialect locked batch :
  stays by_steps (drain_once dialect locked batch).
Proof.
  intros w. rewrite <- (parts_are_drain_once dialect batch locked (3 + Z.to_nat (_batch_size batch)) w) by lia.
  generalize (3 + Z.to_nat (_batch_size batch))%nat. intros n. revert w. change (stays by_steps (all_parts dialect batch n locked Idle)).
  generalize Idle. induction n as [|n IH]; intros p; simpl; [stay|].
  assert (stays by_steps (next_part dialect batch locked p)) as H.
  { intros w hs. exact (rtc_once _ _ (step_relay w hs EP EL dialect batch locked p)). }
  destruct p; (stay_bind; [exact H|intros p']); [apply IH|apply IH|stay].
Qed.

Lemma process_steps {TP : TaskProcessor} {TL : TaskProcessorLaws TP} payload : stays by_steps (process payload).
Proof. by apply by_transaction, t_process. Qed.

Lemma lift_ok_stays {A B} (R : relation world) (a : A) (k : A → M B) : stays R (k a) → stays R (lift (Ok a) ≫= k).
Proof. done. Qed.

Lemma worker_steps {TP : TaskProcessor} {TL : TaskProcessorLaws TP} worker_id secs source event id trace :
  addressed event id trace → stays by_steps (worker_handle_event worker_id secs source event).
Proof.
  intros [Hj Htr]. unfold worker_handle_event. rewrite Hj, Htr. apply lift_ok_stays, lift_ok_stays, claim_steps.
  intros lease. set (h := MkHeld worker_id id lease).
  apply stays_try_finally; [apply _| |apply any_lease; by apply by_transaction, t_count].
  apply stays_try_except; [apply _| |intros e; apply (by_lease h), l_failure].
  stay_bind; [unfold request_payload; stay|intros request]. stay_bind; [apply any_lease, process_steps|intros result].
  apply (by_lease h), l_success.
Qed.

Lemma inference_steps {TP : TaskProcessor} {TL : TaskProcessorLaws TP} worker_id secs topic event id trace :
  addressed event id trace → stays by_steps (inference_handle_event worker_id secs topic event).
Proof.
  intros [Hj Htr]. unfold inference_handle_event. rewrite Hj, Htr. apply lift_ok_stays, lift_ok_stays, claim_steps.
  intros lease. set (h := MkHeld worker_id id lease).
  apply stays_try_except; [apply _| |intros e; apply (by_lease h), l_failure].
  stay_bind; [unfold request_payload; stay|intros request]. stay_bind; [apply any_lease, process_steps|intros result].
  stay_bind; [unfold new_event_json, utcnow; stay|intros ev]. stay_bind; [apply (by_lease h), l_handoff|intros _].
  stay_bind; [apply any_lease; by apply by_transaction, t_count|intros _; stay].
Qed.

Lemma downstream_steps {TP : TaskProcessor} {TL : TaskProcessorLaws TP} event :
  stays by_steps (downstream_handle_event event).
Proof.
  unfold downstream_handle_event. stay_bind; [stay|intros job]. stay_bind; [stay|intros trace].
  apply stays_try_except; [apply _| |intros e; apply by_transaction, t_abort].
  stay_bind; [apply by_transaction, t_lookup|intros []]; [stay|]. stay_bind; [stay|intros payload].
  stay_bind; [apply process_steps|intros result]. stay_bind; [apply by_transaction, t_complete|intros _].
  stay_bind; [by apply by_transaction, t_count|intros _; stay].
Qed.
End made_of.

(** ** What the system promises *)

Section theorems.
Context {RS : RedisServer}.

(** C1: one recorder per job. In every state the system reaches from one without leases,
    in any interleaving of the transactions of its handlers, crashes and clock
    changes, and whatever the services do: of two workers that hold leases of the same
    job, at least one can no longer change the job: to record a result or a failure under its lease
    commits nothing at all. What it can still commit is the hand-off of the inference
    stage, which is not fenced ([Fencing.stale_handoff_wins]) but leaves every job as it is. *)
Theorem one_writer_per_job s s' i j h1 h2 :
  initial s → rtc step s s' →
  s_held s' !! i = Some h1 → s_held s' !! j = Some h2 → i ≠ j → h_job h1 = h_job h2 →
  lease_epoch (h_lease h1) ≠ lease_epoch (h_lease h2)
  ∧ (fenced_off (s_world s') h1 ∨ fenced_off (s_world s') h2).
Proof.
  intros Hi Hs H1 H2 Hne Hj. destruct (steps_keep _ _ Hs (initial_ok _ Hi)) as [[_ Htk Hgr] _].
  assert (lease_epoch (h_lease h1) ≠ lease_epoch (h_lease h2)) as Hep.
  { intros Heq. apply Hne. eapply (NoDup_lookup _ i j (token h1) Htk);
      rewrite list_lookup_fmap, ?H1, ?H2; [done|]. simpl. unfold token. by rewrite Hj, Heq. }
  split; [done|]. rewrite Forall_lookup in Hgr. destruct (Hgr i h1 H1) as (row & Hr & _).
  destruct (decide (lease_epoch (h_lease h1) = jr_lease_epoch row)) as [He|He].
  - right. apply (not_current_fenced _ _ row); [by rewrite <- Hj|congruence].
  - left. by apply (not_current_fenced _ _ row).
Qed.

(** A finished job stays finished. In every interleaving, a row that is SUCCESS keeps
    its status, its result, its error and its epoch, and no row disappears. *)
Theorem success_is_final s s' id row :
  system_ok s → rtc step s s' →
  jobs (w_db (s_world s)) !! id = Some row →
  ∃ row', jobs (w_db (s_world s')) !! id = Some row' ∧ jr_request_payload row' = jr_request_payload row
    ∧ jr_lease_epoch row ≤ jr_lease_epoch row'
    ∧ (jr_status row = status_value SUCCESS →
       jr_status row' = status_value SUCCESS ∧ jr_result row' = jr_result row
       ∧ jr_error_message row' = jr_error_message row ∧ jr_lease_epoch row' = jr_lease_epoch row).
Proof.
  intros Hok Hs Hr. destruct (steps_keep _ _ Hs Hok) as [_ He].
  destruct (dv_jobs _ _ He _ _ Hr) as (row' & Hr' & E). exists row'.
  split_and!; [done|apply (ev_payload _ _ E)|apply (ev_epoch _ _ E)|apply (ev_success _ _ E)].
Qed.

(** C14: the tables stay well-formed. In every interleaving, whatever the services do, a
    well-formed database stays so: the status of each row tells the rest of it (a job
    in process has an owner, a finished one no error, a failed one its error), rows
    are stored under their ids and serials and unique ids do not repeat. *)
Theorem tables_well_formed s s' :
  system_ok s → db_wf (w_db (s_world s)) → rtc step s s' → db_wf (w_db (s_world s')).
Proof. intros Hok W Hs. destruct (steps_keep _ _ Hs Hok) as [_ He]. by apply (dv_wf _ _ He). Qed.

(** C9: the jobs follow the ledger. Every interleaving of claims, results, failures, crashes,
    handlers and clock changes refines the ledger: the map from ids to status, claims,
    result and error read off the table before and after it is connected by steps
    of the specification, and so is the entry of each job. *)
Theorem jobs_follow_ledger s s' :
  system_ok s → rtc step s s' →
  rtc ledger_step (ledger (w_db (s_world s))) (ledger (w_db (s_world s')))
  ∧ ∀ id e, ledger (w_db (s_world s)) !! id = Some e →
      ∃ e', ledger (w_db (s_world s')) !! id = Some e' ∧ rtc entry_step e e' ∧ en_claims e ≤ en_claims e'.
Proof.
  intros Hok Hs. destruct (steps_keep _ _ Hs Hok) as [_ He]. pose proof (dv_ledger _ _ He) as R. split; [done|].
  intros id e Hl. destruct (ledger_history _ _ id e R Hl) as (e' & Hl' & Re). exists e'. split_and!; [done..|].
  by apply entry_claims.
Qed.

(** C13: one outcome per claim. In every interleaving, once a job has failed or succeeded, its
    status, result and error stay what they are until it is claimed again, and if it
    succeeded it is never claimed again. *)
Theorem one_outcome_per_claim s s' id e e' :
  system_ok s → rtc step s s' →
  ledger (w_db (s_world s)) !! id = Some e → ledger (w_db (s_world s')) !! id = Some e' →
  en_status e = FAILED ∨ en_status e = SUCCESS →
  e' = e ∨ (en_status e = FAILED ∧ en_claims e < en_claims e').
Proof.
  intros Hok Hs Hl Hl' Ho. destruct (steps_keep _ _ Hs Hok) as [_ He].
  destruct (ledger_history _ _ id e (dv_ledger _ _ He) Hl) as (e2 & Hl2 & R). simplify_eq.
  destruct Ho as [Ho|Ho]; [|left; by eapply entry_success_final].
  pose proof (proj1 (entry_claims _ _ R)) as Hle. destruct (decide (en_claims e' = en_claims e)) as [Hc|Hc]; [|right; split; [done|lia]].
  left. destruct (entry_same_claims _ _ R Hc) as [?|[[? _]|[[?|?] _]]]; congruence.
Qed.

(** Every handler is made of these steps. Whatever the services do, a run of [create_job], of a worker's
    handler or of a relay is a path of the system, whatever leases are held, so the
    invariants above hold of them in any interleaving. *)
Theorem handlers_are_steps (IP : IdempotencyPort) (IL : IdempotencyLaws IP) (TP : TaskProcessor)
    (TL : TaskProcessorLaws TP) (EP : EventPublisher) (EL : PublisherLaws EP)
    topic payload key worker_id secs source event id trace dialect locked batch w :
  addressed event id trace →
  by_steps w (create_job topic payload key w).2
  ∧ by_steps w (worker_handle_event worker_id secs source event w).2
  ∧ by_steps w (inference_handle_event worker_id secs topic event w).2
  ∧ by_steps w (downstream_handle_event event w).2
  ∧ by_steps w (drain_once dialect locked batch w).2.
Proof.
  intros Ha. split_and!; [apply create_job_steps|by eapply worker_steps|by eapply inference_steps|apply downstream_steps|apply drain_steps].
Qed.
End theorems.

(** ** The hypotheses can hold *)

Lemma world_of_tx e d : tx_ok (world_of e d).
Proof. split; [reflexivity|constructor]. Qed.

Lemma demo_initial e d : initial (MkSystem (world_of e d) []).
Proof. split; [reflexivity|apply world_of_tx]. Qed.

(** A worker claims for a minute; two minutes later another one takes over. *)
Definition demo_claim (owner : pystr) (w : world) : result claim_result * world :=
  claim_phase owner 60 (u "worker") (JStr demo_id) (JStr (u "t")) w.
Definition demo_start : world := world_of calm_env (one_job PENDING None None 0).
Definition demo_first : world := (demo_claim (u "w-1") demo_start).2.
Definition demo_later : world := set_clock (start_time + 120 * MICROS) (start_time + 120 * MICROS) demo_first.
Definition demo_second : world := (demo_claim (u "w-2") demo_later).2.
Definition demo_lease (owner : pystr) (epoch minutes : Z) : JobLease :=
  MkJobLease demo_id owner epoch (Some (start_time + (minutes * 60) * MICROS)).

Lemma demo_claim_first : demo_claim (u "w-1") demo_start = (Ok (Claimed (demo_lease (u "w-1") 1 1)), demo_first).
Proof.
  rewrite (surjective_pairing (demo_claim _ demo_start)). apply f_equal2; [vm_compute; reflexivity|reflexivity].
Qed.

Lemma demo_claim_second : demo_claim (u "w-2") demo_later = (Ok (Claimed (demo_lease (u "w-2") 2 3)), demo_second).
Proof.
  rewrite (surjective_pairing (demo_claim _ demo_later)). apply f_equal2; [vm_compute; reflexivity|reflexivity].
Qed.

Definition demo_holders : list held :=
  [MkHeld (u "w-2") demo_id (demo_lease (u "w-2") 2 3); MkHeld (u "w-1") demo_id (demo_lease (u "w-1") 1 1)].

Lemma demo_reached : rtc step (MkSystem demo_start []) (MkSystem demo_second demo_holders).
Proof.
  eapply rtc_l; [exact (step_claim _ _ _ _ _ _ _ _ _ demo_claim_first)|].
  eapply rtc_l; [apply step_time|].
  eapply rtc_l; [exact (step_claim _ _ _ _ _ _ _ _ _ demo_claim_second)|]. apply rtc_refl.
Qed.

Lemma one_writer_per_job_witness :
  fenced_off demo_second (MkHeld (u "w-2") demo_id (demo_lease (u "w-2") 2 3))
  ∨ fenced_off demo_second (MkHeld (u "w-1") demo_id (demo_lease (u "w-1") 1 1)).
Proof.
  apply (one_writer_per_job (MkSystem demo_start []) (MkSystem demo_second demo_holders) 0 1);
    [split; [reflexivity|apply world_of_tx]|apply demo_reached|reflexivity|reflexivity|done|reflexivity].
Defined.

Definition demo_finished : world := world_of calm_env (one_job SUCCESS None None 1).

Lemma success_is_final_witness :
  ∃ row', jobs (w_db (set_clock 0 0 demo_finished)) !! demo_id = Some row' ∧ jr_status row' = status_value SUCCESS.
Proof.
  destruct (success_is_final (MkSystem demo_finished []) (MkSystem (set_clock 0 0 demo_finished) []) demo_id
    (row_in demo_id SUCCESS None None 1)) as (row' & Hr & _ & _ & H).
  - by apply initial_ok, demo_initial.
  - eapply rtc_l; [apply step_time|apply rtc_refl].
  - apply one_job_row.
  - exists row'. split; [exact Hr|]. by destruct (H eq_refl).
Defined.

Lemma demo_start_wf : db_wf (w_db demo_start).
Proof.
  split; try (by repeat constructor). intros id row Hr. change (({[demo_id := row_in demo_id PENDING None None 0]} : gmap pystr job_row) !! id = Some row) in Hr.
  apply lookup_singleton_Some in Hr as [<- <-].
  exact (job_row_wf start_time (MkJob demo_id PENDING (JDict []) None None 0 0 0) ltac:(done)).
Qed.

Lemma tables_well_formed_witness : db_wf (w_db demo_second).
Proof.
  apply (tables_well_formed (MkSystem demo_start []) (MkSystem demo_second demo_holders)).
  - apply initial_ok, demo_initial.
  - apply demo_start_wf.
  - apply demo_reached.
Defined.

Lemma demo_ledger s o x n : ledger (one_job s o x n) !! demo_id = entry_of (row_in demo_id s o x n).
Proof. unfold ledger. by rewrite lookup_omap, one_job_row. Qed.

Lemma jobs_follow_ledger_witness :
  rtc ledger_step (ledger (w_db demo_start)) (ledger (w_db demo_second))
  ∧ ∃ e', ledger (w_db demo_second) !! demo_id = Some e' ∧ 0 ≤ en_claims e'.
Proof.
  destruct (jobs_follow_ledger (MkSystem demo_start []) (MkSystem demo_second demo_holders)) as [R H];
    [apply initial_ok, demo_initial|apply demo_reached|]. split; [exact R|].
  destruct (H demo_id opened) as (e' & He & _ & Hc); [apply demo_ledger|]. by exists e'.
Defined.

(** A failed job, claimed again. *)
Definition demo_failed : world := world_of calm_env (one_job FAILED None None 1).
Definition demo_again : world := (demo_claim (u "w-1") demo_failed).2.

Lemma demo_claim_again : demo_claim (u "w-1") demo_failed = (Ok (Claimed (demo_lease (u "w-1") 2 1)), demo_again).
Proof.
  rewrite (surjective_pairing (demo_claim _ demo_failed)). apply f_equal2; [vm_compute; reflexivity|reflexivity].
Qed.

Lemma one_outcome_per_claim_witness :
  ∃ e e', ledger (w_db demo_failed) !! demo_id = Some e ∧ ledger (w_db demo_again) !! demo_id = Some e'
    ∧ (e' = e ∨ (en_status e = FAILED ∧ en_claims e < en_claims e')).
Proof.
  destruct (ledger (w_db demo_again) !! demo_id) as [e'|] eqn:E'; [|exfalso; vm_compute in E'; discriminate].
  exists (MkEntry FAILED 1 None None), e'. split; [apply demo_ledger|]. split; [exact eq_refl|].
  apply (one_outcome_per_claim (MkSystem demo_failed []) (MkSystem demo_again [MkHeld (u "w-1") demo_id (demo_lease (u "w-1") 2 1)])
    demo_id).
  - apply initial_ok, demo_initial.
  - eapply rtc_l; [exact (step_claim _ _ _ _ _ _ _ _ _ demo_claim_again)|apply rtc_refl].
  - apply demo_ledger.
  - exact E'.
  - by left.
Defined.

Lemma handlers_are_steps_witness :
  by_steps demo_start (worker_handle_event (TP := echo_processor) (u "w-1") 60 (u "worker") (request_event demo_id) demo_start).2.
Proof.
  destruct (handlers_are_steps demo_store demo_store_laws echo_processor echo_laws KafkaEventPublisher
    KafkaEventPublisher_laws (u "jobs") JNull None (u "w-1") 60 (u "worker") (request_event demo_id) demo_id (u "trace")
    (u "sqlite") ∅ 1 demo_start) as (_ & H & _); [split; reflexivity|exact H].
Defined.
