(* ===== verification/Fencing.v ===== *)
(** * A hand-off is not fenced

    [app/application/pipeline_services.py] records results and failures of the inference stage
    under the token of the lease, but commits its hand-off to the downstream stage without it. Here: what
    this means in the states [System] reaches, when the lease of the job has been taken over. *)
From S2P Require Import Prelude PyStr PyFloat Json Domain Database Evolution World Effects Ports Fixtures WorkerService PipelineServices Messaging System.
#[local] Open Scope Z_scope.

Section fencing.
Context {RS : RedisServer} {TP : TaskProcessor} {TL : TaskProcessorLaws TP}.

(** A downstream event about a finished job is taken for done. *)
Lemma run_downstream_finished w event id trace row job :
  calm w → addressed event id trace → jobs (w_db w) !! id = Some row → job_of_row row = Ok job → job_status job = SUCCESS →
  ∃ w', downstream_handle_event event w = (Ok (true, None), w') ∧ w_db w' = w_db w.
Proof.
  intros Hc [Hj Htr] Hr Hjob Hs. destruct (run_lookup_phase w id (Some job)) as (w1 & E1 & R1); [done|by unfold job_get; rewrite Hr, Hjob|].
  rewrite bool_decide_true in E1 by done. exists w1. split; [|apply R1].
  unfold downstream_handle_event. rewrite Hj, Htr. do 2 step. apply run_try_ok. eapply run_bind; [exact E1|reflexivity].
Qed.

(** C37: the hand-off of a worker that has lost its job is committed, and may win. In every state the
    system reaches, for a worker that holds a lease of a job that is in process under another one: the
    lease is older, and recording a result or a failure under it commits nothing; yet with no
    failing service its hand-off commits a message for the downstream stage, and when
    the downstream stage handles that message first, the job succeeds with the result of the worker that
    had lost it. The hand-off of the worker that holds the job is then taken for done and
    changes nothing. *)
Theorem stale_handoff_wins s s' w h row job topic eid now trace request result down :
  system_ok s → rtc step s s' → h ∈ s_held s' →
  jobs (w_db (s_world s')) !! h_job h = Some row → job_of_row row = Ok job → job_status job = PROCESSING →
  lease_epoch (h_lease h) ≠ jr_lease_epoch row →
  w_db w = w_db (s_world s') → calm w → fresh_ids w →
  (∀ w0, (process (JDict [(u "request", request); (u "inference_result", result)]) w0).1 = Ok down) →
  let event := handoff_event eid now (h_job h) trace request result in
  lease_epoch (h_lease h) < jr_lease_epoch row ∧ fenced_off w h
  ∧ ∃ w1 m, handoff_phase topic (JStr (h_job h)) (JStr trace) result event w = (Ok tt, w1)
    ∧ outbox_messages (w_db w1) = outbox_messages (w_db w) ++ [m]
    ∧ is_pending m ∧ ob_topic m = topic ∧ ob_payload m = event
    ∧ ∃ w2 row', downstream_handle_event (ob_payload m) w1 = (Ok (true, None), w2)
      ∧ jobs (w_db w2) !! h_job h = Some row' ∧ jr_status row' = status_value SUCCESS
      ∧ jr_result row' = Some (combined result down) ∧ jr_lease_epoch row' = jr_lease_epoch row
      ∧ ∀ event' trace', addressed event' (h_job h) trace' →
          ∃ w3, downstream_handle_event event' w2 = (Ok (true, None), w3) ∧ w_db w3 = w_db w2.
Proof.
  intros Hok Hs Hh Hr Hj Hst Hne Hd Hc Hf Hp event. destruct (steps_keep _ _ Hs Hok) as [[_ _ Hgr] _].
  rewrite Forall_forall in Hgr. destruct (Hgr h Hh) as (row0 & Hr0 & Hle). simplify_eq. split; [lia|]. rewrite <- Hd in Hr.
  split; [by eapply not_current_fenced|].
  destruct (run_handoff_phase w topic (h_job h) trace result event) as (w1 & E1 & R1); [done..|].
  exists w1. eexists. split; [exact E1|]. rewrite (ran_db _ _ _ _ R1). split; [reflexivity|]. split; [done|]. split; [done|].
  split; [done|]. set (payload := JDict [(u "request", request); (u "inference_result", result)]) in *.
  destruct (run_downstream_success w1 event (h_job h) trace payload result down row job)
    as (w2 & w3 & D2 & E3 & D3 & Hc3); try done.
  { by eapply ran_calm. }
  { eapply ran_fresh; [exact R1|]. by apply fresh_append_outbox, fresh_append_event. }
  { by rewrite (ran_db _ _ _ _ R1). }
  eexists w3, _. split; [exact E3|]. rewrite D3. split; [apply lookup_insert_eq|]. split; [done|]. split; [done|]. split; [done|].
  intros event' trace' Ha. rewrite <- D3. eapply run_downstream_finished; [done|done|rewrite D3; apply lookup_insert_eq|reflexivity|done].
Qed.
End fencing.

(** ** The hypotheses can hold *)

(** [demo_second]: the first worker's lease has expired, and the second one holds the job. *)
Definition demo_stale : held := MkHeld (u "w-1") demo_id (demo_lease (u "w-1") 1 1).
Definition demo_taken_over : job_row :=
  claimed_row (start_time + 120 * MICROS) (u "w-2") (start_time + 180 * MICROS)
    (claimed_row start_time (u "w-1") (start_time + 60 * MICROS) (row_in demo_id PENDING None None 0)).
Definition demo_in_process : Job := MkJob demo_id PROCESSING (JDict []) None None 0 start_time (start_time + 120 * MICROS).

Lemma demo_second_fresh : fresh_ids demo_second.
Proof.
  split; [exact calm_env_inj|]. intros n Hn.
  assert (w_uuids demo_second = 2%nat) as Hu by (vm_compute; reflexivity). rewrite Hu in Hn.
  assert (jobs (w_db demo_second) = {[ demo_id := demo_taken_over ]}) as Hj by (vm_compute; reflexivity).
  assert (je_event_id <$> job_events (w_db demo_second) = [env_uuid4 calm_env 0; env_uuid4 calm_env 1]) as He
    by (vm_compute; reflexivity).
  assert (outbox_messages (w_db demo_second) = []) as Ho by (vm_compute; reflexivity).
  unfold unused. rewrite Hj, He, Ho. split_and!; [| |by apply not_elem_of_nil].
  - apply lookup_singleton_ne. discriminate.
  - change (env_uuid4 (w_env demo_second)) with (env_uuid4 calm_env).
    intros [H|[H|H%not_elem_of_nil]%elem_of_cons]%elem_of_cons; [| |done]; apply calm_env_inj in H; lia.
Qed.

Lemma stale_handoff_wins_witness :
  ∃ w1 m w2 row', outbox_messages (w_db w1) = outbox_messages (w_db demo_second) ++ [m]
    ∧ downstream_handle_event (TP := echo_processor) (ob_payload m) w1 = (Ok (true, None), w2)
    ∧ jobs (w_db w2) !! demo_id = Some row' ∧ jr_status row' = status_value SUCCESS ∧ jr_lease_epoch row' = 2.
Proof.
  destruct (stale_handoff_wins (TL := echo_laws) (MkSystem demo_start []) (MkSystem demo_second demo_holders) demo_second
    demo_stale demo_taken_over demo_in_process (u "down") (u "ev") 0 (u "trace") (JDict []) (JInt 7)
    (JDict [(u "echo", JDict [(u "request", JDict []); (u "inference_result", JInt 7)])]))
    as (_ & _ & w1 & m & _ & O & _ & _ & _ & w2 & row' & E & J & S & _ & Ep & _).
  - apply initial_ok, demo_initial.
  - apply demo_reached.
  - right. by left.
  - vm_compute. reflexivity.
  - reflexivity.
  - reflexivity.
  - done.
  - reflexivity.
  - intros n. vm_compute. reflexivity.
  - apply demo_second_fresh.
  - reflexivity.
  - exists w1, m, w2, row'. split; [exact O|]. split; [exact E|]. split; [exact J|]. split; [exact S|exact Ep].
Defined.
