(* ===== verification/Fleet.v ===== *)
(** * The relays together

    Each API process and each worker runs a relay on the one outbox. Here: any number of the relays of
    [Relays], whose parts interleave with each other, with the transactions of all handlers
    ([System]), some of which fill the outbox, with failures of the services and with crashes. The row
    locks are state: a relay acquires them by its read, holds them until its transaction
    ends, and every other relay reads past them. *)
From S2P Require Import Requests Prelude PyStr PyFloat Json Domain Database WellFormed Repositories Evolution World Effects Ports Fixtures JobService WorkerService PipelineServices Messaging OutboxRelay Relays System.
#[local] Open Scope Z_scope.

(** ** The handlers fill the outbox at its end *)

Section fills.
Context {RS : RedisServer}.

Record filled (d d' : db) : Prop := {
  fd_rows : ∃ new, outbox_messages d' = outbox_messages d ++ new;
  fd_ids : outbox_ids d → outbox_ids d';
}.

#[global] Instance filled_preorder : PreOrder filled.
Proof.
  split; [intros d; split; [exists []; by rewrite app_nil_r|done]|].
  intros d1 d2 d3 [[n1 H1] I1] [[n2 H2] I2]. split; [exists (n1 ++ n2); by rewrite H2, H1, app_assoc|auto].
Qed.

Lemma filled_same d d' : outbox_messages d' = outbox_messages d → next_outbox_id d' = next_outbox_id d → filled d d'.
Proof. intros H N. split; [exists []; by rewrite app_nil_r|]. unfold outbox_ids. by rewrite H, N. Qed.

Definition fills (w w' : world) : Prop :=
  filled (w_db w) (w_tx w) → filled (w_db w) (w_db w') ∧ filled (w_db w') (w_tx w').

#[global] Instance fills_relation : StepRelation fills.
Proof.
  split; [split|]; [by intros w H| |by intros w n c d H].
  intros w1 w2 w3 H12 H23 H. destruct (H12 H) as [E H2]. destruct (H23 H2) as [E' H3]. split; [by etrans|done].
Qed.

Lemma fills_modify f : (∀ w, w_db (f w) = w_db w ∧ w_tx (f w) = w_tx w) → stays fills (modify f).
Proof. intros Hf w H. destruct (Hf w) as [D T]. simpl. rewrite D, T. by split. Qed.

Lemma fills_on_tx {A} (f : db → result (A * db)) : (∀ d a d', f d = Ok (a, d') → filled d d') → stays fills (on_tx f).
Proof.
  intros Hf w H. unfold on_tx. destruct (f (w_tx w)) as [[a d]|e] eqn:E; simpl; [|done].
  split; [done|]. etrans; [exact H|by eapply Hf].
Qed.

Lemma fills_open_session : stays fills open_session.
Proof. intros w H. by simpl. Qed.

Lemma fills_insert f : (∀ d d', f d = Ok d' → filled d d') → stays fills (insert f).
Proof.
  intros Hf. apply fills_on_tx. intros d [] d' (d1 & E & E')%result_bind_ok. simplify_eq. eauto.
Qed.
#[local] Hint Resolve fills_open_session : mflow.
#[local] Hint Extern 2 (stays fills (modify _)) => apply fills_modify; by intros : mflow.

Lemma fills_flush_one p : stays fills (flush_one p).
Proof.
  unfold flush_one. stay_bind; [stay|intros now]. destruct p.
  - apply fills_insert. intros d d'. unfold insert_job. destruct (jobs d !! _); [done|].
    intros [= <-]. by apply filled_same.
  - repeat (stay_bind; [by stay|intros]). apply fills_insert. intros d d'. unfold insert_event. case_decide; [done|].
    intros [= <-]. by apply filled_same.
  - apply fills_insert. intros d d'. unfold insert_outbox. case_decide; [done|]. intros [= <-].
    split; [by eexists|apply append_outbox_ids].
Qed.

Lemma fills_flush : stays fills flush.
Proof.
  unfold flush. stay. induction a as [|p ps IH]; simpl; [stay|]. stay_bind; [apply fills_flush_one|done].
Qed.
#[local] Hint Resolve fills_flush : mflow.

Lemma fills_execute {A} (f : db → result (A * db)) :
  (∀ d a d', f d = Ok (a, d') → outbox_messages d' = outbox_messages d ∧ next_outbox_id d' = next_outbox_id d) →
  stays fills (execute f).
Proof.
  intros Hf. apply stays_external; [apply _|]. stay_bind; [apply fills_flush|]. intros _. apply fills_on_tx.
  intros d a d' E. destruct (Hf d a d' E). by apply filled_same.
Qed.

Lemma fills_commit : stays fills commit.
Proof. apply stays_external; [apply _|]. stay_bind; [apply fills_flush|]. intros _ w H. by simpl. Qed.

Lemma fills_rollback : stays fills rollback.
Proof. apply stays_external; [apply _|]. apply fills_open_session. Qed.

Lemma fills_repo_get id : stays fills (repo_get id).
Proof. apply fills_execute. intros d x d' (j & _ & E)%result_bind_ok. by simplify_eq. Qed.

Lemma fills_repo_update id st up : stays fills (repo_update_status id st up).
Proof.
  unfold repo_update_status. stay_bind; [stay|intros now]. apply fills_execute. intros d a d'. unfold update_status.
  repeat (case_match; try done); intros [= <- <-]; done.
Qed.

Lemma fills_repo_claim id owner secs : stays fills (repo_claim id owner secs).
Proof.
  unfold repo_claim, utcnow. do 2 (stay_bind; [stay|intros ?]). apply fills_execute. intros d l d'. unfold claim_for_processing.
  repeat (case_match; try done); intros [= <- <-]; done.
Qed.
End fills.

#[export] Hint Resolve fills_open_session fills_flush fills_commit fills_rollback fills_repo_get fills_repo_update
  fills_repo_claim : mflow.
#[export] Hint Extern 2 (stays fills (modify _)) => apply fills_modify; by intros : mflow.

(** Shows that a transaction fills the outbox, following its structure. *)
Ltac fill := unfold with_session, inc, inc_by, gauge_set, event_add, outbox_add, session_add, new_event_json, utcnow; stay.

Section transactions.
Context {RS : RedisServer}.

Lemma fills_redis {A} (m : M A) : (∀ w, redis_step w (m w).2) → stays fills m.
Proof. intros H w Hw. by destruct (H w) as (r & c & ->). Qed.

Lemma fills_advance {IP : IdempotencyPort} {IL : IdempotencyLaws IP} topic key payload p :
  stays fills (advance topic key payload p).
Proof.
  destruct p; simpl; unfold duplicate_job, get_job, write_job; fill;
    apply fills_redis; [apply get_request_step|apply reserve_step|apply get_request_step|apply complete_step].
Qed.

Lemma transaction_fills f w : transaction f → fills w (f w).
Proof.
  intros [IP IL topic key payload p|id|owner secs source job trace|job|job trace payload result|job trace exc
         |EP EL t p hs|TP TL payload|m n|n c d].
  - apply fills_advance.
  - revert w. change (stays fills (get_job id)). unfold get_job. fill.
  - revert w. change (stays fills (claim_phase owner secs source job trace)). unfold claim_phase. fill.
  - revert w. change (stays fills (lookup_phase job)). unfold lookup_phase. fill.
  - revert w. change (stays fills (complete_phase job trace payload result)). unfold complete_phase. fill.
  - revert w. change (stays fills (abort_phase job trace exc)). unfold abort_phase. fill.
  - intros H. unfold after. destruct (publish_law t p hs w) as (k & ms & c & -> & _). by split.
  - intros H. destruct (process_stores payload w) as [_ D T]. unfold after. by rewrite D, T.
  - revert w. change (stays fills (inc_by m n)). fill.
  - intros H. by split.
Qed.

Lemma leased_fills h f w : leased h f → fills w (f w).
Proof.
  intros [source trace result|source trace exc|topic trace result event]; revert w.
  - change (stays fills (success_phase (h_owner h) source (JStr (h_job h)) trace (h_lease h) result)). unfold success_phase. fill.
  - change (stays fills (failure_phase (h_owner h) source (JStr (h_job h)) trace (h_lease h) exc)). unfold failure_phase. fill.
  - change (stays fills (handoff_phase topic (JStr (h_job h)) trace result event)). unfold handoff_phase. fill.
Qed.
End transactions.

(** ** What happens to the rows *)

(** A row that is pending, and one that is not any more. *)
Definition pending_in (i : Z) (d : db) : Prop := ∃ r, r ∈ outbox_messages d ∧ ob_id r = i ∧ is_pending r.
Definition gone_from (i : Z) (d : db) : Prop := ∃ r, r ∈ outbox_messages d ∧ ob_id r = i ∧ ¬ is_pending r.

Lemma pending_not_gone i d : outbox_ids d → pending_in i d → gone_from i d → False.
Proof. intros Hi (r & Hr & <- & Hp) (r' & Hr' & E & Hp'). by rewrite (same_row d r' r Hi Hr' Hr E) in Hp'. Qed.

(** From [d] to [d'], rows other than those of [ids] stay pending if they are. *)
Record moves (ids : list Z) (d d' : db) : Prop := {
  mo_ids : outbox_ids d → outbox_ids d';
  mo_pending i : i ∉ ids → pending_in i d → pending_in i d';
  mo_gone i : gone_from i d → gone_from i d';
}.

#[global] Instance moves_preorder ids : PreOrder (moves ids).
Proof. split; [done|]. intros d1 d2 d3 [] []. split; auto. Qed.

Lemma filled_moves ids d d' : filled d d' → moves ids d d'.
Proof.
  intros [[new E] I]. split; [done| |].
  - intros i _ (r & Hr & H). exists r. rewrite E. set_solver.
  - intros i (r & Hr & H). exists r. rewrite E. set_solver.
Qed.

(** The rows change in place. *)
Lemma map_moves ids f d :
  (∀ r, ob_id (f r) = ob_id r) → (∀ r, ob_id r ∉ ids → is_pending r → is_pending (f r)) →
  (∀ r, ¬ is_pending r → ¬ is_pending (f r)) → moves ids d (set_outbox (fmap f) d).
Proof.
  intros Hf Hp Hg. split; [by apply set_outbox_ids| |].
  - intros i Hi (r & Hr & <- & H). exists (f r). split; [by apply list_elem_of_fmap_2|]. auto.
  - intros i (r & Hr & <- & H). exists (f r). split; [by apply list_elem_of_fmap_2|]. auto.
Qed.

Lemma mark_failed_moves ids id e d : moves ids d (mark_failed id e d).
Proof. apply map_moves; intros r; by case_decide. Qed.

Lemma mark_published_moves now ids d : moves ids d (mark_published now ids d).
Proof. destruct ids as [|i ids]; [done|]. apply map_moves; intros r; by case_decide. Qed.

Lemma mark_published_gone now ids d i : i ∈ ids → pending_in i d → gone_from i (mark_published now ids d).
Proof.
  intros Hi (r & Hr & Hid & _). destruct (mark_published_same now ids d) as (_ & _ & E). eexists. rewrite E. split.
  - apply list_elem_of_fmap_2, Hr.
  - rewrite decide_True by congruence. by split.
Qed.

(** ** The parts *)

(** The messages a relay has read and is to send or has sent, those it has sent, and the rows it has locked. *)
Definition sent_of (p : pass) : list Z := match p with Idle => [] | Sending _ _ sent | Ending _ sent _ => sent end.
Definition todo_of (p : pass) : list Z :=
  match p with Sending _ todo _ => m_id <$> todo | Ending _ _ (Some (id, _)) => [id] | _ => [] end.
Definition in_hand (p : pass) : list Z := sent_of p ++ todo_of p.
Definition locks_of (p : pass) : gset Z := match p with Idle => ∅ | Sending locks _ _ | Ending locks _ _ => locks end.
Definition locked_by (ps : list pass) : gset Z := ⋃ (locks_of <$> ps).

Lemma in_locked_by i ps : i ∈ locked_by ps ↔ ∃ p, p ∈ ps ∧ i ∈ locks_of p.
Proof. unfold locked_by. rewrite elem_of_union_list. set_solver. Qed.

(** The message a part hands to the broker, and the one the broker has refused. *)
Definition tries (p : pass) : list Z := match p with Sending _ (m :: _) _ => [m_id m] | _ => [] end.
Definition refused (p p' : pass) : list Z :=
  match p, p' with Sending _ _ _, Ending _ _ (Some (id, _)) => [id] | _, _ => [] end.
(** The messages a part may mark published. *)
Definition settles (p : pass) : list Z := match p with Ending _ sent _ => sent | _ => [] end.

Lemma fetched_ids dialect locked limit d :
  outbox_ids d → NoDup (m_id <$> fetch_pending dialect locked limit d)
  ∧ ∀ i, i ∈ m_id <$> fetch_pending dialect locked limit d →
      pending_in i d ∧ (dialect ∈ _ROW_LOCK_DIALECTS → i ∉ locked).
Proof.
  intros [Hnd _]. unfold fetch_pending. rewrite <- list_fmap_compose. set (visible := filter _ _). split.
  - eapply sublist_NoDup; [exact Hnd|]. apply (fmap_sublist ob_id). etrans; [apply sublist_take|apply sublist_filter].
  - intros i (r & -> & Hr)%list_elem_of_fmap. assert (r ∈ visible) as [[Hp Hl] Hin]%list_elem_of_filter by by eapply subseteq_take.
    split; [by exists r|]. intros Hd. by rewrite decide_True in Hl.
Qed.

Section parts.
Context {RS : RedisServer} {EP : EventPublisher} {EL : PublisherLaws EP}.
Variables (dialect : pystr) (batch_size : Z) (others : gset Z).
Abbreviation part := (next_part dialect batch_size others).

Lemma fetch_part w r w' :
  part Idle w = (r, w') →
  w_db w' = w_db w ∧ w_tx w' = w_db w
  ∧ ∀ p, r = Ok p → ∃ ms, p = Sending (row_locks dialect ms) ms []
      ∧ ms = fetch_pending dialect others (_batch_size batch_size) (w_db w).
Proof.
  intros E. destruct (run_fetch dialect batch_size others (set_session (w_db w) [] w)) as (r1 & E1 & H1); [done|].
  simpl in E. unfold open_session in E. rewrite (bind_ok _ _ _ _ _ (run_modify _ _)) in E.
  destruct r1 as [ms|e].
  - rewrite (bind_ok _ _ _ _ _ E1) in E. rewrite (bind_ok _ _ _ _ _ (run_gauge_set _ _ _)) in E. injection E as <- <-.
    split_and!; [done|done|]. intros p [= <-]. exists ms. split; [done|]. destruct H1 as [[= ->]|[=]]. done.
  - rewrite (run_bind_raise _ _ _ _ _ E1) in E. injection E as <- <-. by split_and!.
Qed.

Lemma send_part locks m todo sent w r w' :
  part (Sending locks (m :: todo) sent) w = (r, w') →
  w_db w' = w_db w ∧ w_tx w' = w_tx w
  ∧ ∀ p, r = Ok p → p = Sending locks todo (sent ++ [m_id m]) ∨ ∃ e, p = Ending locks sent (Some (m_id m, e)).
Proof.
  intros E. cbn [next_part] in E. destruct (publish_cases m w) as (r1 & w1 & E1 & D & T & _).
  destruct r1 as [[]|e].
  - erewrite run_try_ok in E; [|eapply run_bind; [exact E1|reflexivity]]. injection E as <- <-.
    split_and!; [done..|]. intros p [= <-]. by left.
  - erewrite run_try_raise in E; [|eapply run_bind_raise; exact E1|cbv beta; eapply run_bind; [apply run_inc|reflexivity]].
    injection E as <- <-. split_and!; [done..|]. intros p [= <-]. right. by exists e.
Qed.

Lemma commit_returns w w' : w_new w = [] → commit w = (Ok tt, w') → w_db w' = w_tx w.
Proof.
  intros Hn E%external_inv. rewrite (bind_ok _ _ (called w) tt (set_session (w_tx w) [] (called w))) in E
    by by apply run_flush; simpl; rewrite Hn.
  by injection E as <-.
Qed.

(** What the end of a pass writes into its transaction. *)
Lemma settle_cases sent failed w :
  w_new w = [] →
  ∃ r w', settle_messages sent failed w = (r, w') ∧ w_db w' = w_db w ∧ w_new w' = []
    ∧ moves sent (w_tx w) (w_tx w')
    ∧ (r = Ok tt → ∀ i, i ∈ sent → pending_in i (w_tx w) → gone_from i (w_tx w')).
Proof.
  intros Hn. unfold settle_messages. set (first := match failed with Some _ => _ | None => _ end).
  assert (∃ r1 w1, first w = (r1, w1) ∧ w_db w1 = w_db w ∧ w_new w1 = [] ∧ ∀ ids, moves ids (w_tx w) (w_tx w1))
    as (r1 & w1 & E1 & D1 & N1 & M1).
  { destruct failed as [[id exc]|]; [|by exists (Ok tt), w].
    destruct (execute_cases (λ d, Ok (tt, mark_failed id (error_text exc) d)) w tt (mark_failed id (error_text exc) (w_tx w)))
      as (r & w1 & E & D & N & _ & _ & C); [done|done|]. exists r, w1. split_and!; [exact E|done|done|].
    intros ids. pose proof (mark_failed_moves ids id (error_text exc) (w_tx w)). destruct C as [[_ ->]|[_ [->| ->]]]; done. }
  destruct r1 as [[]|e]; [|rewrite (run_bind_raise _ _ _ _ _ E1); by exists (Raise e), w1].
  rewrite (bind_ok _ _ _ _ _ E1). destruct (mark_cases sent w1 N1) as (r & w2 & E2 & D2 & N2 & _ & C & S).
  exists r, w2. split_and!; [exact E2|congruence|done| |].
  - etrans; [apply M1|]. destruct C as [->| ->]; [done|apply mark_published_moves].
  - intros Hr i Hi Hp. rewrite (S Hr). apply mark_published_gone; [done|]. apply (mo_pending _ _ _ (M1 [])); [set_solver|done].
Qed.

Lemma end_part locks sent failed w r w' :
  part (Ending locks sent failed) w = (r, w') →
  w_tx w' = w_db w' ∧ moves sent (w_db w) (w_db w')
  ∧ ∀ p, r = Ok p → p = Idle ∧ ∀ i, i ∈ sent → pending_in i (w_db w) → gone_from i (w_db w').
Proof.
  intros E. cbn [next_part] in E. set (w0 := set_session (w_db w) [] w).
  destruct (settle_cases sent failed w0 eq_refl) as (r1 & w1 & E1 & D1 & N1 & M1 & G1).
  set (body := settle_messages sent failed ;; commit) in E. assert (∃ r2 w2, body w0 = (r2, w2) ∧ moves sent (w_db w) (w_db w2)
    ∧ (r2 = Ok tt → ∀ i, i ∈ sent → pending_in i (w_db w) → gone_from i (w_db w2))) as (r2 & w2 & E2 & M2 & G2).
  { unfold body. destruct r1 as [[]|e]; [|rewrite (run_bind_raise _ _ _ _ _ E1); exists (Raise e), w1; by rewrite D1].
    rewrite (bind_ok _ _ _ _ _ E1). pose proof (commit_cases w1 N1) as [C _]. pose proof (commit_returns w1) as R.
    destruct (commit w1) as [r2 w2]. exists r2, w2. split; [done|]. simpl in C. split.
    - destruct C as [->| ->]; [by rewrite D1|exact M1].
    - intros ->. rewrite (R w2 N1 eq_refl). by apply G1. }
  clearbody body. assert (with_session body w = (r2, set_session (w_db w2) [] w2)) as E3.
  { unfold with_session, try_finally, mbind, M_bind. simpl. fold w0. by rewrite E2. }
  destruct r2 as [[]|e].
  - rewrite (bind_ok _ _ _ _ _ E3) in E. rewrite (bind_ok _ _ _ _ _ (run_if_inc _ _ _ _)) in E.
    injection E as <- <-. split_and!; [done|done|]. intros p [= <-]. split; [done|exact (G2 eq_refl)].
  - rewrite (run_bind_raise _ _ _ _ _ E3) in E. injection E as <- <-. by split_and!.
Qed.

Lemma part_moves p w r w' :
  part p w = (r, w') → filled (w_db w) (w_tx w) →
  filled (w_db w') (w_tx w') ∧ moves (settles p) (w_db w) (w_db w').
Proof.
  intros E Ht. destruct p as [|locks [|m todo] sent|locks sent failed].
  - destruct (fetch_part _ _ _ E) as (D & T & _). by rewrite D, T.
  - by injection E as <- <-.
  - destruct (send_part _ _ _ _ _ _ _ E) as (D & T & _). by rewrite D, T.
  - destruct (end_part _ _ _ _ _ _ E) as (T & M & _). by rewrite T.
Qed.

(** What a part makes of the messages in hand, other than the read. *)
Record handled (p p' : pass) (d d' : db) : Prop := {
  ha_hand : in_hand p' `sublist_of` in_hand p;
  ha_locks : in_hand p' = [] ∨ locks_of p' = locks_of p;
  ha_settled : settles p = [] ∨ in_hand p' = [];
  ha_tried i : i ∈ tries p → i ∈ sent_of p' ∨ i ∈ refused p p';
  ha_sent i : i ∈ sent_of p → pending_in i d → i ∈ sent_of p' ∨ gone_from i d';
}.

Lemma part_handled p w p' w' : p ≠ Idle → part p w = (Ok p', w') → handled p p' (w_db w) (w_db w').
Proof.
  intros Hp E. destruct p as [|locks [|m todo] sent|locks sent failed]; [done|..].
  - injection E as <- <-. by split; simpl; auto.
  - destruct (send_part _ _ _ _ _ _ _ E) as (_ & _ & H). destruct (H p' eq_refl) as [->|[e ->]];
      split; unfold in_hand; simpl; auto; try set_solver.
    + by rewrite <- app_assoc.
    + apply sublist_app; [done|]. apply sublist_skip, sublist_nil_l.
  - destruct (end_part _ _ _ _ _ _ E) as (_ & _ & H). destruct (H p' eq_refl) as [-> G].
    split; unfold in_hand; simpl; auto. apply sublist_nil_l.
Qed.
End parts.

(** ** The fleet *)

(** How often [i] is in a list. *)
Definition times (i : Z) (l : list Z) : nat := length (filter (i =.) l).

Lemma times_app i l1 l2 : times i (l1 ++ l2) = (times i l1 + times i l2)%nat.
Proof. unfold times. by rewrite filter_app, length_app. Qed.
Lemma times_in i l : i ∈ l → (1 ≤ times i l)%nat.
Proof.
  intros H. unfold times. destruct (filter _ l) as [|j l'] eqn:E; [|simpl; lia].
  exfalso. eapply filter_nil_not_elem_of; [exact E| |exact H]. done.
Qed.
Lemma times_out i l : i ∉ l → times i l = 0%nat.
Proof.
  intros H. unfold times. destruct (filter _ l) as [|j l'] eqn:E; [done|].
  assert (j ∈ filter (i =.) l) as [<- ?]%list_elem_of_filter by (rewrite E; by left). done.
Qed.
Lemma times_length i l : (times i l ≤ length l)%nat.
Proof. apply length_filter. Qed.

(** The world and the relays; and, as history, the messages that were handed to the broker, in order, and those of
    them that the broker refused or that a relay had sent when it was lost. *)
Record fleet {RS : RedisServer} := MkFleet {
  fl_world : world; fl_relays : list pass; fl_tried : list Z; fl_unsettled : list Z }.
Arguments MkFleet {RS} fl_world fl_relays fl_tried fl_unsettled.

Section fleet.
Context {RS : RedisServer}.
Variable dialect : pystr.

Inductive fstep : fleet → fleet → Prop :=
  (** a relay is started *)
  | fs_start w ps tried un : fstep (MkFleet w ps tried un) (MkFleet w (ps ++ [Idle]) tried un)
  (** a relay makes the next part of its pass, and reads past the rows the others have locked *)
  | fs_part w ps1 p ps2 tried un (EP : EventPublisher) (EL : PublisherLaws EP) batch_size p' w' :
      next_part dialect batch_size (locked_by (ps1 ++ ps2)) p w = (Ok p', w') →
      fstep (MkFleet w (ps1 ++ p :: ps2) tried un)
            (MkFleet w' (ps1 ++ p' :: ps2) (tried ++ tries p) (un ++ refused p p'))
  (** an exception ends its pass, or it dies in the middle of a part: its locks are released *)
  | fs_lost w ps1 p ps2 tried un (EP : EventPublisher) (EL : PublisherLaws EP) batch_size r w' :
      next_part dialect batch_size (locked_by (ps1 ++ ps2)) p w = (r, w') →
      fstep (MkFleet w (ps1 ++ p :: ps2) tried un)
            (MkFleet w' (ps1 ++ Idle :: ps2) (tried ++ tries p) (un ++ sent_of p ++ tries p))
  (** it dies between two parts, or before one has had an effect *)
  | fs_dies w ps1 p ps2 tried un :
      fstep (MkFleet w (ps1 ++ p :: ps2) tried un) (MkFleet w (ps1 ++ Idle :: ps2) tried (un ++ sent_of p))
  (** any transaction of a handler *)
  | fs_other w ps tried un f : transaction f → fstep (MkFleet w ps tried un) (MkFleet (f w) ps tried un)
  | fs_leased w ps tried un h f : leased h f → fstep (MkFleet w ps tried un) (MkFleet (f w) ps tried un)
  (** the clocks move *)
  | fs_time w ps tried un t dt : fstep (MkFleet w ps tried un) (MkFleet (set_clock t dt w) ps tried un).

(** No relay is in a pass yet. *)
Record fleet_initial (s : fleet) : Prop := {
  fi_ids : outbox_ids (w_db (fl_world s));
  fi_tx : w_tx (fl_world s) = w_db (fl_world s);
  fi_relays : Forall (λ p, p = Idle) (fl_relays s);
  fi_tried : fl_tried s = [];
}.

(** Once more than it was left unsettled, at most. *)
Definition at_most_once (tried un : list Z) (done_with : Z → Prop) : Prop :=
  ∀ i, (times i tried ≤ times i un)%nat ∨ (times i tried ≤ S (times i un))%nat ∧ done_with i.

Record fleet_ok (s : fleet) : Prop := {
  fk_ids : outbox_ids (w_db (fl_world s));
  fk_tx : filled (w_db (fl_world s)) (w_tx (fl_world s));
  fk_hands : NoDup (fl_relays s ≫= in_hand);
  fk_locked : Forall (λ p, ∀ i, i ∈ in_hand p → i ∈ locks_of p) (fl_relays s);
  fk_pending i : i ∈ fl_relays s ≫= in_hand → pending_in i (w_db (fl_world s));
  fk_tried : at_most_once (fl_tried s) (fl_unsettled s)
               (λ i, i ∈ fl_relays s ≫= sent_of ∨ gone_from i (w_db (fl_world s)));
}.

Lemma at_most_once_step tried un T U (D D' : Z → Prop) :
  at_most_once tried un D → (length T ≤ 1)%nat →
  (∀ i, i ∈ T → ¬ D i ∧ (D' i ∨ i ∈ U)) → (∀ i, D i → D' i ∨ i ∈ U) →
  at_most_once (tried ++ T) (un ++ U) D'.
Proof.
  intros H HT H1 H2 i. rewrite !times_app. pose proof (times_length i T) as Hl. destruct (decide (i ∈ T)) as [Hi|Hi].
  - destruct (H1 i Hi) as [Hn [Hd|Hu]]; (destruct (H i) as [Hle|[_ ?]]; [|done]).
    + right. split; [lia|done].
    + left. pose proof (times_in i U Hu). lia.
  - rewrite (times_out i T Hi). destruct (H i) as [Hle|[Hle Hd]]; [left; lia|].
    destruct (H2 i Hd) as [Hd'|Hu]; [right; split; [lia|done]|]. left. pose proof (times_in i U Hu). lia.
Qed.

Lemma sent_in_hand i p : i ∈ sent_of p → i ∈ in_hand p.
Proof. unfold in_hand. set_solver. Qed.
Lemma settles_sent p : settles p = sent_of p ∨ settles p = [].
Proof. destruct p; auto. Qed.

(** What the invariant says of one relay among the others. *)
Lemma hands_of w ps1 p ps2 tried un :
  fleet_ok (MkFleet w (ps1 ++ p :: ps2) tried un) →
  NoDup (in_hand p) ∧ (∀ i, i ∈ in_hand p → i ∉ (ps1 ++ ps2) ≫= in_hand ∧ pending_in i (w_db w)).
Proof.
  intros [_ _ Hn _ Hp _]. simpl in *. rewrite bind_app, bind_cons in Hn. rewrite NoDup_app in Hn. destruct Hn as (H1 & H12 & H2).
  rewrite NoDup_app in H2. destruct H2 as (Hn & H2 & _). split; [done|]. intros i Hi. split; [|apply Hp; rewrite bind_app, bind_cons; set_solver].
  rewrite bind_app, elem_of_app. intros [H|H]; [apply (H12 i H); set_solver|by apply (H2 i Hi)].
Qed.

(** A message a part hands to the broker has not been sent by any relay. *)
Lemma tries_unsent w ps1 p ps2 tried un i :
  fleet_ok (MkFleet w (ps1 ++ p :: ps2) tried un) → i ∈ tries p →
  ¬ (i ∈ (ps1 ++ p :: ps2) ≫= sent_of ∨ gone_from i (w_db w)).
Proof.
  intros Hok Hi. destruct (hands_of _ _ _ _ _ _ Hok) as [Hn Hh].
  assert (i ∈ in_hand p ∧ i ∉ sent_of p) as [Hin Hns].
  { destruct p as [|locks [|m todo] sent|]; simpl in *; try set_solver. apply list_elem_of_singleton in Hi as ->.
    unfold in_hand in *. simpl in *. rewrite NoDup_app in Hn. split; [set_solver|]. intros H. by apply (proj1 (proj2 Hn) _ H); left. }
  destruct (Hh i Hin) as [Ho Hp]. intros [H|H]; [|by eapply pending_not_gone; [apply Hok| |]].
  rewrite bind_app, bind_cons, !elem_of_app in H.
  assert (∀ ps, i ∈ ps ≫= sent_of → i ∈ ps ≫= in_hand) as Hs.
  { intros ps (q & Hq & ?)%list_elem_of_bind. apply list_elem_of_bind. exists q. split; [by apply sent_in_hand|done]. }
  rewrite bind_app, elem_of_app in Ho. destruct H as [H|[H|H]]; [|done|]; apply Ho; auto.
Qed.

(** A relay goes from [p] to [p']. *)
Lemma put_ok w ps1 p ps2 tried un w' p' T U :
  fleet_ok (MkFleet w (ps1 ++ p :: ps2) tried un) →
  filled (w_db w') (w_tx w') → moves (settles p) (w_db w) (w_db w') →
  NoDup (in_hand p') →
  (∀ i, i ∈ in_hand p' → i ∈ locks_of p' ∧ pending_in i (w_db w') ∧ i ∉ (ps1 ++ ps2) ≫= in_hand) →
  T = tries p ∨ T = [] → (∀ i, i ∈ T → i ∈ sent_of p' ∨ i ∈ U) →
  (∀ i, i ∈ sent_of p → i ∈ sent_of p' ∨ gone_from i (w_db w') ∨ i ∈ U) →
  fleet_ok (MkFleet w' (ps1 ++ p' :: ps2) (tried ++ T) (un ++ U)).
Proof.
  intros Hok Ht Hm Hn Hh HT HTU Hs. destruct (hands_of _ _ _ _ _ _ Hok) as [_ Hp].
  pose proof Hok as [Hi _ Hnd Hl Hpe Hq]. simpl in *.
  assert (∀ i, i ∈ (ps1 ++ ps2) ≫= in_hand → pending_in i (w_db w')) as Hothers.
  { intros i Hin. apply (mo_pending _ _ _ Hm); [|apply Hpe; rewrite bind_app, bind_cons; rewrite bind_app in Hin; set_solver].
    intros Hset. destruct (settles_sent p) as [E|E]; rewrite E in Hset; [|by apply not_elem_of_nil in Hset].
    by apply (proj1 (Hp i (sent_in_hand _ _ Hset))). }
  split; simpl; [by apply (mo_ids _ _ _ Hm)|done| | | |].
  - rewrite bind_app, bind_cons in Hnd |- *. rewrite !NoDup_app in Hnd |- *. destruct Hnd as (H1 & H12 & _ & _ & H2).
    split_and!; [done| |done| |done].
    + intros i Hi1 [Hin|Hin]%elem_of_app; [|by apply (H12 i Hi1); set_solver].
      destruct (Hh i Hin) as (_ & _ & H). apply H. rewrite bind_app. set_solver.
    + intros i Hin Hi2. destruct (Hh i Hin) as (_ & _ & H). apply H. rewrite bind_app. set_solver.
  - rewrite Forall_app, Forall_cons in Hl |- *. destruct Hl as (? & _ & ?). split_and!; [done| |done]. intros i Hin. by apply Hh.
  - intros i. rewrite bind_app, bind_cons, !elem_of_app. intros [H|[H|H]]; [|by apply Hh|]; apply Hothers; rewrite bind_app; set_solver.
  - eapply at_most_once_step; [exact Hq| | |].
    + destruct HT as [->| ->]; [|simpl; lia]. destruct p as [|? [|]|]; simpl; lia.
    + intros i HiT. split; [|destruct (HTU i HiT); [|by right]].
      * destruct HT as [->| ->]; [|by apply not_elem_of_nil in HiT]. by eapply tries_unsent.
      * left. left. rewrite bind_app, bind_cons. set_solver.
    + intros i [H|H]; [|left; right; by apply (mo_gone _ _ _ Hm)]. rewrite bind_app, bind_cons, !elem_of_app in H |- *.
      destruct H as [H|[H|H]]; [by auto| |by auto]. destruct (Hs i H) as [?|[?|?]]; auto.
Qed.

(** A relay that is lost. *)
Lemma lost_ok w ps1 p ps2 tried un w' T :
  fleet_ok (MkFleet w (ps1 ++ p :: ps2) tried un) → filled (w_db w') (w_tx w') → moves (settles p) (w_db w) (w_db w') →
  T = tries p ∨ T = [] → fleet_ok (MkFleet w' (ps1 ++ Idle :: ps2) (tried ++ T) (un ++ sent_of p ++ T)).
Proof.
  intros Hok Ht Hm HT. eapply put_ok; [exact Hok|done|done|constructor|by intros i ?%not_elem_of_nil|done|set_solver|set_solver].
Qed.

Hypothesis row_locks_taken : dialect ∈ _ROW_LOCK_DIALECTS.

(** A relay that goes on. *)
Lemma part_ok w ps1 p ps2 tried un {EP : EventPublisher} {EL : PublisherLaws EP} batch_size p' w' :
  next_part dialect batch_size (locked_by (ps1 ++ ps2)) p w = (Ok p', w') →
  fleet_ok (MkFleet w (ps1 ++ p :: ps2) tried un) →
  fleet_ok (MkFleet w' (ps1 ++ p' :: ps2) (tried ++ tries p) (un ++ refused p p')).
Proof.
  intros E Hok. destruct (part_moves _ _ _ _ _ _ _ E (fk_tx _ Hok)) as [Ht Hm].
  assert (p = Idle ∨ p ≠ Idle) as [->|Hp] by by destruct p; [left|right..].
  - destruct (fetch_part _ _ _ _ _ _ E) as (D & _ & H). destruct (H p' eq_refl) as (ms & -> & ->).
    destruct (fetched_ids dialect (locked_by (ps1 ++ ps2)) (_batch_size batch_size) (w_db w)) as [Hn Hf]; [apply Hok|].
    eapply put_ok; [exact Hok|done|done|exact Hn| |by left|set_solver|set_solver].
    intros i Hi. destruct (Hf i Hi) as [Hpe Hl]. rewrite D. split_and!; [|done|].
    + simpl. unfold row_locks. rewrite decide_True by done. by apply elem_of_list_to_set.
    + intros (q & Hq & Hin)%list_elem_of_bind. apply (Hl row_locks_taken), in_locked_by. exists q. split; [done|].
      pose proof (fk_locked _ Hok) as Hlk. rewrite Forall_forall in Hlk. apply Hlk; [|done]. simpl. set_solver.
  - destruct (part_handled _ _ _ _ _ _ _ Hp E) as [Hh Hlk Hs Htr Hse]. destruct (hands_of _ _ _ _ _ _ Hok) as [Hn Hpe].
    assert (∀ i, i ∈ in_hand p' → i ∈ in_hand p) as Hsub.
    { intros i Hi. eapply elem_of_submseteq; [exact Hi|by apply sublist_submseteq]. }
    eapply put_ok; [exact Hok|done|done|by eapply sublist_NoDup| |by left|exact Htr|].
    + intros i Hi. destruct Hlk as [Hlk|Hlk]; [rewrite Hlk in Hi; by apply not_elem_of_nil in Hi|].
      destruct (Hpe i (Hsub i Hi)) as [Ho Hpi]. split_and!; [|apply (mo_pending _ _ _ Hm); [|done]|done].
      * rewrite Hlk. pose proof (fk_locked _ Hok) as Hl. rewrite Forall_forall in Hl. apply (Hl p); [|by apply Hsub]. simpl. set_solver.
      * destruct Hs as [->|Hs]; [apply not_elem_of_nil|]. rewrite Hs in Hi. by apply not_elem_of_nil in Hi.
    + intros i Hi. destruct (Hse i Hi) as [?|?]; [apply Hpe, sent_in_hand, Hi|by left|by auto].
Qed.

(** The transactions of the handlers. *)
Lemma filled_ok w ps tried un w' :
  fills w w' → fleet_ok (MkFleet w ps tried un) → fleet_ok (MkFleet w' ps tried un).
Proof.
  intros Hf [Hi Ht Hn Hl Hp Hq]. simpl in *. destruct (Hf Ht) as [Hd Ht']. pose proof (filled_moves [] _ _ Hd) as Hm.
  split; simpl; [by apply Hd|done..| |].
  - intros i Hin. apply (mo_pending _ _ _ Hm); [apply not_elem_of_nil|by apply Hp].
  - intros i. destruct (Hq i) as [?|[? [?|?]]]; [by left|right; auto..]. split; [done|]. right. by apply (mo_gone _ _ _ Hm).
Qed.

Lemma fstep_ok s s' : fstep s s' → fleet_ok s → fleet_ok s'.
Proof.
  intros [w ps tried un|w ps1 p ps2 tried un EP EL batch_size p' w' E|w ps1 p ps2 tried un EP EL batch_size r w' E
         |w ps1 p ps2 tried un|w ps tried un f Hf|w ps tried un h f Hf|w ps tried un t dt] Hok.
  - destruct Hok as [? ? ? ? ? ?]. simpl in *. split; simpl; rewrite ?bind_app; simpl; rewrite ?app_nil_r; try done.
    apply Forall_app. split; [done|]. constructor; [|done]. by intros i ?%not_elem_of_nil.
  - by eapply part_ok.
  - destruct (part_moves _ _ _ _ _ _ _ E (fk_tx _ Hok)) as [Ht Hm]. eapply lost_ok; [done..|by left].
  - pose proof (lost_ok w ps1 p ps2 tried un w [] Hok (fk_tx _ Hok) ltac:(done) ltac:(by right)) as H.
    by rewrite !app_nil_r in H.
  - eapply filled_ok; [by apply transaction_fills|done].
  - eapply filled_ok; [by eapply leased_fills|done].
  - eapply filled_ok; [|done]. by intros H.
Qed.

Lemma fsteps_ok s s' : rtc fstep s s' → fleet_ok s → fleet_ok s'.
Proof. induction 1; [done|]. eauto using fstep_ok. Qed.

Lemma fleet_initial_ok s : fleet_initial s → fleet_ok s.
Proof.
  intros [Hi Ht Hr Hq]. assert (fl_relays s ≫= in_hand = []) as E.
  { induction Hr as [|p ps -> _ IH]; [done|exact IH]. }
  split; rewrite ?E, ?Hq, ?Ht; try done; [constructor|..].
  - eapply Forall_impl; [exact Hr|]. by intros p -> i ?%not_elem_of_nil.
  - by intros i ?%not_elem_of_nil.
  - intros i. left. unfold times. simpl. lia.
Qed.

(** C26: relays do not overlap. Any number of relays drain one outbox on a database with row locks, their parts
    interleaved in any way with each other and with all transactions of the handlers, while services fail
    and relays are started, raise and die. In every state this reaches: no message is in the hands of
    two relays, or twice in those of one; each one that is in hand is still pending in the database; and a message
    was handed to the broker once, and once more at most for each time that the broker refused it or that a
    relay that had sent it was lost before its transaction ended. *)
Theorem relays_do_not_overlap s s' :
  fleet_initial s → rtc fstep s s' →
  (∀ j k p q i, fl_relays s' !! j = Some p → fl_relays s' !! k = Some q → i ∈ in_hand p → i ∈ in_hand q → j = k)
  ∧ (∀ p, p ∈ fl_relays s' → NoDup (in_hand p) ∧ ∀ i, i ∈ in_hand p → pending_in i (w_db (fl_world s')))
  ∧ ∀ i, (times i (fl_tried s') ≤ S (times i (fl_unsettled s')))%nat.
Proof.
  intros Hi Hs. pose proof (fsteps_ok _ _ Hs (fleet_initial_ok _ Hi)) as Hok. destruct s' as [w ps tried un]. simpl.
  split_and!.
  - intros j k p q i Hj Hk Hp Hq. apply dec_stable. intros Hne.
    rewrite <- (take_drop_middle ps j p Hj) in Hok. destruct (hands_of _ _ _ _ _ _ Hok) as [_ H].
    apply (proj1 (H i Hp)), list_elem_of_bind. exists q. split; [done|]. apply elem_of_app.
    destruct (decide (k < j)%nat) as [Hlt|Hge].
    + left. apply list_elem_of_lookup. exists k. by rewrite lookup_take_lt.
    + right. apply list_elem_of_lookup. exists (k - S j)%nat. rewrite lookup_drop. by replace (S j + (k - S j))%nat with k by lia.
  - intros p (ps1 & ps2 & ->)%list_elem_of_split. destruct (hands_of _ _ _ _ _ _ Hok) as [Hn H]. split; [done|].
    intros i Hin. by apply H.
  - intros i. destruct (fk_tried _ Hok i) as [?|[? _]]; simpl in *; lia.
Qed.
End fleet.

(** ** The hypotheses can hold *)

(** Two relays and three messages: one relay reads two of them, the other one the third, and the first
    one sends its first. *)
Definition demo_relay_part (dialect : pystr) (others : gset Z) (p : pass) (w : world) : result pass * world :=
  next_part (EP := KafkaEventPublisher) dialect 2 others p w.
Definition demo_at_rest : world := world_of calm_env demo_queue.
Definition demo_read (dialect : pystr) (others : gset Z) (w : world) : pass :=
  let messages := fetch_pending dialect others 2 (w_db w) in Sending (row_locks dialect messages) messages [].
Definition demo_one : world := (demo_relay_part (u "postgresql") ∅ Idle demo_at_rest).2.
Definition demo_pass_one : pass := demo_read (u "postgresql") ∅ demo_at_rest.
Definition demo_two : world := (demo_relay_part (u "postgresql") (locked_by [demo_pass_one]) Idle demo_one).2.
Definition demo_pass_two : pass := demo_read (u "postgresql") (locked_by [demo_pass_one]) demo_one.
Definition demo_sent_pass : pass :=
  match demo_pass_one with Sending locks (m :: todo) _ => Sending locks todo [m_id m] | p => p end.
Definition demo_three : world := (demo_relay_part (u "postgresql") (locked_by [demo_pass_two]) demo_pass_one demo_two).2.

Lemma demo_fleet_reached :
  rtc (fstep (u "postgresql")) (MkFleet demo_at_rest [Idle; Idle] [] [])
    (MkFleet demo_three [demo_sent_pass; demo_pass_two] [1] []).
Proof.
  eapply rtc_l; [apply (fs_part _ _ [] Idle [Idle] [] [] KafkaEventPublisher KafkaEventPublisher_laws 2 demo_pass_one demo_one)|].
  { rewrite (surjective_pairing (next_part _ _ _ _ _)). apply f_equal2; [vm_compute; reflexivity|reflexivity]. }
  eapply rtc_l; [apply (fs_part _ _ [demo_pass_one] Idle [] [] [] KafkaEventPublisher KafkaEventPublisher_laws 2 demo_pass_two demo_two)|].
  { rewrite (surjective_pairing (next_part _ _ _ _ _)). apply f_equal2; [vm_compute; reflexivity|reflexivity]. }
  apply rtc_once.
  apply (fs_part _ _ [] demo_pass_one [demo_pass_two] [] [] KafkaEventPublisher KafkaEventPublisher_laws 2 demo_sent_pass demo_three).
  rewrite (surjective_pairing (next_part _ _ _ _ _)). apply f_equal2; [vm_compute; reflexivity|reflexivity].
Qed.

Lemma demo_queue_ids : outbox_ids demo_queue.
Proof. split; [|repeat constructor; simpl; lia]. change (NoDup [1; 2; 3]). repeat constructor; set_solver by lia. Qed.

Lemma relays_do_not_overlap_witness :
  in_hand demo_sent_pass = [1; 2] ∧ in_hand demo_pass_two = [3]
  ∧ (NoDup (in_hand demo_sent_pass) ∧ ∀ i, i ∈ in_hand demo_sent_pass → pending_in i (w_db demo_three)).
Proof.
  split; [reflexivity|]. split; [vm_compute; reflexivity|].
  destruct (relays_do_not_overlap (u "postgresql") ltac:(vm_compute; tauto) (MkFleet demo_at_rest [Idle; Idle] [] [])
    (MkFleet demo_three [demo_sent_pass; demo_pass_two] [1] [])) as (_ & H & _).
  - split; [apply demo_queue_ids|reflexivity|repeat constructor|reflexivity].
  - apply demo_fleet_reached.
  - apply H. by left.
Defined.

(** Without row locks, as on SQLite, two relays can hold the same messages, and both send them. *)
Lemma unlocked_relays_overlap :
  ∃ w p q, rtc (fstep (u "sqlite")) (MkFleet demo_at_rest [Idle; Idle] [] []) (MkFleet w [p; q] [] [])
    ∧ in_hand p = [1; 2] ∧ in_hand q = [1; 2].
Proof.
  set (w1 := (demo_relay_part (u "sqlite") ∅ Idle demo_at_rest).2). set (p := demo_read (u "sqlite") ∅ demo_at_rest).
  exists (demo_relay_part (u "sqlite") (locked_by [p]) Idle w1).2, p, p. split; [|by split].
  eapply rtc_l; [apply (fs_part _ _ [] Idle [Idle] [] [] KafkaEventPublisher KafkaEventPublisher_laws 2 p w1)|].
  { rewrite (surjective_pairing (next_part _ _ _ _ _)). apply f_equal2; [vm_compute; reflexivity|reflexivity]. }
  apply rtc_once. apply (fs_part _ _ [p] Idle [] [] [] KafkaEventPublisher KafkaEventPublisher_laws 2 p).
  rewrite (surjective_pairing (next_part _ _ _ _ _)). apply f_equal2; [vm_compute; reflexivity|reflexivity].
Qed.
