(* ===== verification/Delivery.v ===== *)
(** * At-least-once delivery is enough

    Kafka may deliver an event more than once, to different workers and in any order:
    after a failure, a rebalance or a crash of the relay. [app/application/worker_service.py]
    is written for that. Here a list of deliveries is handled one after the other, each by
    some worker at some time, and what becomes of each job is said without regard to how
    often or when its event came. *)
From S2P Require Import Prelude PyStr PyFloat Json Domain Database WellFormed Ledger Evolution World Effects Ports Fixtures WorkerService.
#[local] Open Scope Z_scope.

(** An event that reaches a worker, at the times the worker's and the database's clocks show. *)
Record delivery := MkDelivery {
  d_worker : pystr; d_time : Z; d_db_time : Z; d_event : json;
}.

(** The job an event names. *)
Definition event_job (event : json) : option pystr :=
  match getitem event (u "job_id") with Ok (JStr id) => Some id | _ => None end.

Definition delivered (ds : list delivery) : list pystr := omap (event_job ∘ d_event) ds.

(** The job exists and is not finished. *)
Definition unfinished (id : pystr) (d : db) : bool :=
  match jobs d !! id with Some row => negb (bool_decide (jr_status row = status_value SUCCESS)) | None => false end.

(** What the log says of a job: the kinds and contents of its entries, in order. *)
Definition log_of (id : pystr) (d : db) : list (pystr * json) :=
  (λ e, (je_event_type e, je_payload e)) <$> filter (λ e, je_job_id e = id) (job_events d).

Section deliveries.
Context {RS : RedisServer} {TP : TaskProcessor}.
Variables (lease_seconds : Z).

Definition deliver (x : delivery) : M outcome :=
  modify (set_clock (d_time x) (d_db_time x)) ;;
  worker_handle_event (d_worker x) lease_seconds (u "worker") (d_event x).

Fixpoint deliver_all (ds : list delivery) : M (list outcome) :=
  match ds with
  | [] => mret []
  | x :: ds' => o ← deliver x; os ← (deliver_all ds' : M (list outcome)); mret (o :: os)
  end.

(** What each job's request computes to. *)
Variable answer : pystr → json.

(** A job nobody works on: pending, failed or finished. *)
Definition at_rest (id : pystr) (d : db) : Prop :=
  ∃ row s, jobs d !! id = Some row ∧ jr_status row = status_value s ∧ s ≠ PROCESSING
    ∧ (s ≠ SUCCESS → jr_lease_epoch row < int4_max).

(** A delivery of the event of such a job. *)
Definition deliverable (d : db) (x : delivery) : Prop :=
  (∃ id trace, addressed (d_event x) id trace ∧ computes (d_event x) (Ok (answer id)) ∧ at_rest id d)
  ∧ ∃ expires, datetime_add_seconds (d_time x) lease_seconds = Ok expires.

(** One job, processed once between two databases, or not touched. *)
Definition processed_once (id : pystr) (d d' : db) : Prop :=
  ∃ row row', jobs d !! id = Some row ∧ jobs d' !! id = Some row'
    ∧ finished_row SUCCESS (match answer id with JNull => jr_result row | r => Some r end) None row row'
    ∧ log_of id d' = log_of id d
        ++ [(u "PROCESSING_STARTED", JDict [(u "lease_epoch", JInt (jr_lease_epoch row + 1))]);
            (u "PROCESSING_COMPLETED", JDict [(u "result", answer id)])].

Definition untouched_job (id : pystr) (d d' : db) : Prop :=
  jobs d' !! id = jobs d !! id ∧ log_of id d' = log_of id d.

Lemma log_of_append id now eid job t s tr p d :
  log_of id (append_event now eid job t s tr p d) = log_of id d ++ (if decide (job = id) then [(t, p)] else []).
Proof.
  unfold log_of, append_event. simpl. rewrite (filter_app (λ e, je_job_id e = id)), fmap_app. f_equal.
  case_decide as H; [by rewrite (filter_cons_True (λ e, je_job_id e = id))
                    |by rewrite (filter_cons_False (λ e, je_job_id e = id))].
Qed.

Lemma log_of_set_jobs id f d : log_of id (set_jobs f d) = log_of id d.
Proof. done. Qed.

Lemma addressed_job event id trace : addressed event id trace → event_job event = Some id.
Proof. intros [H _]. unfold event_job. by rewrite H. Qed.

(** *** One delivery *)

(** What one delivery comes to. *)
Record dealt (w w' : world) (id : pystr) : Prop := {
  de_calm : calm w';
  de_fresh : fresh_ids w';
  de_kafka : w_kafka w' = w_kafka w;
  de_outbox : outbox_messages (w_db w') = outbox_messages (w_db w) ∧ next_outbox_id (w_db w') = next_outbox_id (w_db w);
  de_job : if unfinished id (w_db w) then processed_once id (w_db w) (w_db w') else untouched_job id (w_db w) (w_db w');
  de_done : unfinished id (w_db w') = false;
  de_rest : at_rest id (w_db w');
  de_others id' : id' ≠ id → untouched_job id' (w_db w) (w_db w');
}.

Lemma unfinished_status id d row st :
  jobs d !! id = Some row → jr_status row = status_value st → unfinished id d = negb (bool_decide (st = SUCCESS)).
Proof.
  intros Hr Hs. unfold unfinished. rewrite Hr, Hs. f_equal. apply bool_decide_ext.
  split; [by intros ?%(inj status_value)|congruence].
Qed.

(** The event of a finished job is acknowledged. *)
Lemma deliver_finished worker w event id trace expires row :
  calm w → fresh_ids w → addressed event id trace → jobs (w_db w) !! id = Some row →
  jr_status row = status_value SUCCESS → datetime_add_seconds (w_clock w) lease_seconds = Ok expires →
  ∃ w', worker_handle_event worker lease_seconds (u "worker") event w = (Ok (true, None), w') ∧ dealt w w' id.
Proof.
  intros Hc Hf Ha Hr Hs Ht. destruct (job_of_row_ok row SUCCESS Hs) as (job & Hj & _ & Hst & _).
  destruct (run_worker_refused worker lease_seconds w event id trace expires (Some job)) as (w' & E & R); [done|done| | |done|].
  { intros row' Hr'. simplify_eq. unfold claimable. by rewrite Hs. }
  { unfold job_get. by rewrite Hr, Hj. }
  exists w'. split; [by rewrite E; unfold refusal, is_success; rewrite Hst|].
  pose proof (unfinished_status _ _ _ _ Hr Hs) as Hu.
  split; rewrite ?(ran_db _ _ _ _ R); [exact (ran_calm _ _ _ _ R Hc)|exact (ran_fresh _ _ _ _ R Hf)
    |exact (ran_kafka _ _ _ _ R)|done|by rewrite Hu|done| |done].
  exists row, SUCCESS. by split_and!.
Qed.

(** The event of a job at rest that is not finished. *)
Lemma deliver_unfinished worker w event id trace expires row st :
  TaskProcessorLaws TP → calm w → fresh_ids w → addressed event id trace → computes event (Ok (answer id)) →
  jobs (w_db w) !! id = Some row → jr_status row = status_value st → st ≠ PROCESSING → st ≠ SUCCESS →
  jr_lease_epoch row < int4_max → datetime_add_seconds (w_clock w) lease_seconds = Ok expires →
  ∃ w', worker_handle_event worker lease_seconds (u "worker") event w = (Ok (true, None), w') ∧ dealt w w' id.
Proof.
  intros L Hc Hf Ha Hcomp Hr Hs Hnp Hns He Ht.
  assert (can_claim lease_seconds w id row expires) as Hcc by (split; [done..|unfold claimable; rewrite Hs; by destruct st|done|done]).
  destruct (run_worker_success worker lease_seconds w event id trace row expires (answer id) L Hcc Ha Hcomp)
    as (w2 & w' & D2 & E & D' & K & Hc' & Hf').
  set (row' := status_values (w_db_clock w2) SUCCESS (success_update (answer id) worker (jr_lease_epoch row + 1))
                 (claimed_row (w_db_clock w) worker expires row)).
  assert (jobs (w_db w') = <[id := row']> (jobs (w_db w))) as Hjobs.
  { rewrite D'. unfold completed_db, finished_db, logged. rewrite D2. simpl. by rewrite insert_insert_eq. }
  assert (∀ id', log_of id' (w_db w') = log_of id' (w_db w)
    ++ (if decide (id = id') then
      [(u "PROCESSING_STARTED", JDict [(u "lease_epoch", JInt (jr_lease_epoch row + 1))]);
       (u "PROCESSING_COMPLETED", JDict [(u "result", answer id)])] else [])) as Hlog.
  { intros id'. rewrite D'. unfold completed_db, finished_db, logged. rewrite log_of_append, log_of_set_jobs, D2.
    unfold claimed_db, logged. rewrite log_of_append, log_of_set_jobs, <- app_assoc. by destruct (decide (id = id')). }
  exists w'. split; [done|]. split; [done|done|done| | | | |].
  - rewrite D'. simpl. by rewrite D2.
  - rewrite (unfinished_status _ _ _ _ Hr Hs), bool_decide_false by done. simpl.
    exists row, row'. rewrite Hjobs, lookup_insert_eq, Hlog, decide_True by done. split_and!; [done|done| |done].
    split; try done. unfold row'. simpl. by destruct (answer id).
  - unfold unfinished. by rewrite Hjobs, lookup_insert_eq.
  - exists row', SUCCESS. by rewrite Hjobs, lookup_insert_eq.
  - intros id' Hid. unfold untouched_job. by rewrite Hjobs, lookup_insert_ne, Hlog, decide_False, app_nil_r.
Qed.

Lemma run_deliver x w id trace :
  TaskProcessorLaws TP → calm w → fresh_ids w →
  addressed (d_event x) id trace → computes (d_event x) (Ok (answer id)) → at_rest id (w_db w) →
  (∃ expires, datetime_add_seconds (d_time x) lease_seconds = Ok expires) →
  ∃ w', deliver x w = (Ok (true, None), w') ∧ dealt w w' id.
Proof.
  intros L Hc Hf Ha Hcomp (row & st & Hr & Hs & Hne & He) [expires Ht].
  unfold deliver. rewrite (bind_ok _ _ _ _ _ (run_modify _ _)).
  set (w0 := set_clock (d_time x) (d_db_time x) w).
  enough (∃ w', worker_handle_event (d_worker x) lease_seconds (u "worker") (d_event x) w0 = (Ok (true, None), w')
    ∧ dealt w0 w' id) as (w' & E & [? ? ? ? ? ? ? ?]) by by exists w'.
  destruct (decide (st = SUCCESS)) as [->|Hns]; [by eapply deliver_finished|].
  by eapply deliver_unfinished; eauto.
Qed.

(** *** All of them *)

Lemma untouched_trans id d1 d2 d3 : untouched_job id d1 d2 → untouched_job id d2 d3 → untouched_job id d1 d3.
Proof. intros [J1 L1] [J2 L2]. split; congruence. Qed.

Lemma untouched_unfinished id d d' : untouched_job id d d' → unfinished id d' = unfinished id d.
Proof. intros [J _]. unfold unfinished. by rewrite J. Qed.

Lemma processed_untouched id d1 d2 d3 : processed_once id d1 d2 → untouched_job id d2 d3 → processed_once id d1 d3.
Proof. intros (row & row' & ? & ? & ? & ?) [J L]. exists row, row'. rewrite J, L. by split_and!. Qed.

Lemma untouched_processed id d1 d2 d3 : untouched_job id d1 d2 → processed_once id d2 d3 → processed_once id d1 d3.
Proof. intros [J L] (row & row' & ? & ? & ? & ?). exists row, row'. rewrite <- J, <- L. by split_and!. Qed.

Lemma deliverable_later d d' id x :
  at_rest id d' → (∀ id', id' ≠ id → untouched_job id' d d') → deliverable d x → deliverable d' x.
Proof.
  intros Hr Hu [(id' & trace & Ha & Hcomp & Hrest) He]. split; [|done]. exists id', trace. split_and!; [done|done|].
  destruct (decide (id' = id)) as [->|Hne]; [done|]. destruct Hrest as (row & s & Hrow & Hs).
  exists row, s. destruct (Hu id' Hne) as [-> _]. done.
Qed.

Lemma run_deliver_all ds w :
  TaskProcessorLaws TP → calm w → fresh_ids w → Forall (deliverable (w_db w)) ds →
  ∃ w', deliver_all ds w = (Ok (replicate (length ds) (true, None)), w') ∧ calm w' ∧ fresh_ids w'
    ∧ w_kafka w' = w_kafka w ∧ outbox_messages (w_db w') = outbox_messages (w_db w)
    ∧ ∀ id, if bool_decide (id ∈ delivered ds) && unfinished id (w_db w)
            then processed_once id (w_db w) (w_db w') else untouched_job id (w_db w) (w_db w').
Proof.
  intros L. revert w. induction ds as [|x ds IH]; intros w Hc Hf Hall.
  { exists w. split_and!; [done..|]. intros id. by rewrite bool_decide_false by apply not_elem_of_nil. }
  apply Forall_cons in Hall as [[(id & trace & Ha & Hcomp & Hrest) He] Hall].
  destruct (run_deliver x w id trace L Hc Hf Ha Hcomp Hrest He) as (w1 & E1 & [Hc1 Hf1 K1 [O1 _] S1 N1 R1 U1]).
  destruct (IH w1 Hc1 Hf1) as (w2 & E2 & Hc2 & Hf2 & K2 & O2 & S2).
  { eapply Forall_impl; [exact Hall|]. intros y. by apply (deliverable_later _ _ id). }
  exists w2. split_and!; [| done|done|by rewrite K2|by rewrite O2|].
  { cbn [deliver_all]. rewrite (bind_ok _ _ _ _ _ E1). by rewrite (bind_ok _ _ _ _ _ E2). }
  assert (delivered (x :: ds) = id :: delivered ds) as ->.
  { unfold delivered. cbn [omap list_omap]. unfold compose at 1. by rewrite (addressed_job _ _ _ Ha). }
  intros id'. specialize (S2 id'). destruct (decide (id' = id)) as [->|Hne].
  - rewrite bool_decide_true by by left. rewrite N1, andb_false_r in S2. simpl.
    destruct (unfinished id (w_db w)); [by eapply processed_untouched|by eapply untouched_trans].
  - assert (bool_decide (id' ∈ id :: delivered ds) = bool_decide (id' ∈ delivered ds)) as ->.
    { apply bool_decide_ext. rewrite elem_of_cons. naive_solver. }
    rewrite (untouched_unfinished _ _ _ (U1 id' Hne)) in S2.
    destruct (_ && _); [by eapply untouched_processed; [apply U1|]|by eapply untouched_trans; [apply U1|]].
Qed.
End deliveries.

(** ** What redelivery comes to *)

Section theorems.
Context {RS : RedisServer} {TP : TaskProcessor} {TL : TaskProcessorLaws TP}.

(** C8: delivery at least once has the effect of delivery exactly once. Whatever list of events
    is delivered (in any order, as often as it likes, to any workers, at any times), if
    their jobs are known and nobody is working on them, no service fails and the processor answers: every
    delivery is acknowledged; each job that was named and not finished is processed
    exactly once (one claim, its result, one start and one completion in the log); every other job
    is as before; and nothing goes to the outbox or to Kafka. *)
Theorem at_least_once_suffices lease_seconds answer ds w :
  calm w → fresh_ids w → Forall (deliverable lease_seconds answer (w_db w)) ds →
  ∃ w', deliver_all lease_seconds ds w = (Ok (replicate (length ds) (true, None)), w')
    ∧ (∀ id, id ∈ delivered ds → unfinished id (w_db w) = true → processed_once answer id (w_db w) (w_db w'))
    ∧ (∀ id, id ∉ delivered ds ∨ unfinished id (w_db w) = false → untouched_job id (w_db w) (w_db w'))
    ∧ outbox_messages (w_db w') = outbox_messages (w_db w) ∧ w_kafka w' = w_kafka w.
Proof.
  intros Hc Hf Hall. destruct (run_deliver_all lease_seconds answer ds w TL Hc Hf Hall)
    as (w' & E & _ & _ & K & O & S).
  exists w'. split_and!; [done| | |done|done]; intros id; specialize (S id).
  - intros Hin Hun. by rewrite bool_decide_true, Hun in S by done.
  - intros [Hn|Hn]; [by rewrite bool_decide_false in S by done|by rewrite Hn, andb_false_r in S].
Qed.
End theorems.

(** ** The hypotheses can hold *)

(** A new job and one that failed before; the events come in turn, one of them three times. *)
Definition demo_other : pystr := u "job-2".
Definition demo_jobs : db := db_with [row_in demo_id PENDING None None 0; row_in demo_other FAILED None None 1].
Definition demo_before : world := world_of calm_env demo_jobs.
Definition demo_delivery (worker : pystr) (minute : Z) (id : pystr) : delivery :=
  MkDelivery worker (start_time + minute * 60 * MICROS) (start_time + minute * 60 * MICROS) (request_event id).
Definition demo_deliveries : list delivery :=
  [demo_delivery (u "w-1") 1 demo_id; demo_delivery (u "w-2") 2 demo_other;
   demo_delivery (u "w-2") 3 demo_id; demo_delivery (u "w-1") 90 demo_id].
Definition demo_answer : pystr → json :=
  λ _, JDict [(u "echo", JDict [(u "input", JDict [(u "content", JStr (u "hi"))])])].

Lemma demo_jobs_fresh : fresh_ids demo_before.
Proof.
  split; [exact calm_env_inj|]. intros n _. split_and!; [|by apply not_elem_of_nil..].
  simpl. by rewrite !lookup_insert_ne by (vm_compute; done).
Qed.

Lemma demo_deliverable worker minute id :
  at_rest id demo_jobs → is_ok (datetime_add_seconds (start_time + minute * 60 * MICROS) 1800) = true →
  deliverable (TP := echo_processor) 1800 demo_answer demo_jobs (demo_delivery worker minute id).
Proof.
  intros Hr Ht. split.
  - exists id, (u "trace"). by split_and!.
  - simpl. destruct (datetime_add_seconds _ _) as [e|]; [by exists e|done].
Qed.

Lemma at_least_once_suffices_witness :
  ∃ w', deliver_all (TP := echo_processor) 1800 demo_deliveries demo_before = (Ok (replicate 4 (true, None)), w')
    ∧ processed_once demo_answer demo_id demo_jobs (w_db w')
    ∧ processed_once demo_answer demo_other demo_jobs (w_db w').
Proof.
  assert (at_rest demo_id demo_jobs) as H1.
  { eexists _, PENDING. split; [apply lookup_insert_eq|]. by split_and!. }
  assert (at_rest demo_other demo_jobs) as H2.
  { eexists _, FAILED. split; [simpl; rewrite lookup_insert_ne by (vm_compute; done); apply lookup_insert_eq|]. by split_and!. }
  destruct (at_least_once_suffices (TL := echo_laws) 1800 demo_answer demo_deliveries demo_before)
    as (w' & E & P & _).
  - apply calm_env_calm.
  - apply demo_jobs_fresh.
  - repeat constructor; apply demo_deliverable; (done || reflexivity).
  - exists w'. split; [exact E|]. split; apply P; vm_compute; try reflexivity.
    + by left.
    + by right; left.
Defined.
