(* ===== verification/Runtime.v ===== *)
(** * Processes: [app/core/lifespan.py], [run_worker], [app/core/tracing.py]

    How the API process and the worker process start and stop what they consist of. A
    process is the list of calls it has made, each accepted or refused, with the
    tracing flags of the module and the relay's task; what the calls start is modelled
    in the other files. *)
From S2P Require Import Prelude PyStr PyFloat Json Settings.
#[local] Open Scope Z_scope.

(** ** Calls *)

Inductive library := AioKafka | RedisClient | SqlEngine (id : Z).

#[global] Instance library_eq_dec : EqDecision library.
Proof. solve_decision. Defined.

Inductive call :=
  | ConfigureLogging (level : pystr)
  | StartHttpServer (port : Z)
  | CreateEngine (url : pystr) | CreateSessionFactory
  | RedisFromUrl (url : pystr)
  | MakeProvider (service endpoint : pystr) | SetTracerProvider | GetTracer (service : pystr) | InstrumentApp
  | Instrument (l : library)
  | EnsureKafkaTopics
  | MakePublisher (servers : pystr) | MakeConsumer (topics : list pystr) (servers group : pystr)
  | PublisherStart | ConsumerStart | CreateRelayTask
  | Serve
  | AwaitRelayTask | PublisherStop | ConsumerStop | RedisClose | EngineDispose | ShutdownProvider.

#[global] Instance call_eq_dec : EqDecision call.
Proof. solve_decision. Defined.

(** [_task], here whether there is one, and [_stopping] of [OutboxRelay]. *)
Record relay := MkRelay { rl_task : bool; rl_stopping : bool }.

(** The calls so far, the flags of [tracing.py], and the relay. *)
Record process := MkProcess {
  p_calls : list (call * bool);
  p_redis_instrumented : bool;
  p_aiokafka_instrumented : bool;
  p_sqlalchemy_engines : gset Z;
  p_relay : relay;
}.

Definition new_process : process := MkProcess [] false false ∅ (MkRelay false false).

Definition set_calls (cs : list (call * bool)) (p : process) : process :=
  MkProcess cs (p_redis_instrumented p) (p_aiokafka_instrumented p) (p_sqlalchemy_engines p) (p_relay p).
Definition set_instrumented (redis kafka : bool) (engines : gset Z) (p : process) : process :=
  MkProcess (p_calls p) redis kafka engines (p_relay p).
Definition set_relay (r : relay) (p : process) : process :=
  MkProcess (p_calls p) (p_redis_instrumented p) (p_aiokafka_instrumented p) (p_sqlalchemy_engines p) r.

(** ** Computations of a process *)

Definition R (A : Type) : Type := process → result A * process.

#[global] Instance R_ret : MRet R := λ A a p, (Ok a, p).
#[global] Instance R_bind : MBind R := λ A B f m p,
  match m p with (Ok a, p') => f a p' | (Raise e, p') => (Raise e, p') end.

Definition update (f : process → process) : R unit := λ p, (Ok tt, f p).
Definition query {A} (f : process → A) : R A := λ p, (Ok (f p), p).

Definition finally {A} (body : R A) (cleanup : R unit) : R A := λ p,
  let '(r, p1) := body p in
  match cleanup p1 with (Ok _, p2) => (r, p2) | (Raise e, p2) => (Raise e, p2) end.

Definition CancelledError : exn := Exn (u "CancelledError") [].

(** [try: body except asyncio.CancelledError: pass] *)
Definition unless_cancelled (body : R unit) : R unit := λ p,
  match body p with
  | (Raise e, p') => if decide (e = CancelledError) then (Ok tt, p') else (Raise e, p')
  | r => r
  end.

Section runtime.
(** The exception the [n]-th call of the process raises, if it is refused; whether
    OpenTelemetry is installed; and the identity of the engine. *)
Variable refused : nat → option exn.
Variable tracing_available : bool.
Variable engine_id : Z.

Definition perform (c : call) : R unit := λ p,
  match refused (length (p_calls p)) with
  | None => (Ok tt, set_calls (p_calls p ++ [(c, true)]) p)
  | Some e => (Raise e, set_calls (p_calls p ++ [(c, false)]) p)
  end.

(** ** [app/core/tracing.py] *)

(** [_build_provider]; whether there is a provider. *)
Definition _build_provider (s : Settings) (service_name : pystr) : R bool :=
  if tracing_enabled s then
    if tracing_available then
      perform (MakeProvider service_name (otel_exporter_otlp_endpoint s)) ;; mret true
    else mret false
  else mret false.

Definition setup_fastapi_tracing (s : Settings) : R unit :=
  provider ← _build_provider s (otel_service_name_api s);
  if provider : bool then perform SetTracerProvider ;; perform InstrumentApp else mret tt.

Definition role_name (r : role) : pystr :=
  match r with unified => u "unified" | inference => u "inference" | downstream => u "downstream" end.

(** The default name is split by role. *)
Definition worker_service_name (s : Settings) : pystr :=
  if decide (otel_service_name_worker s = u "morphflow-worker") then u "morphflow-worker-" ++ role_name (worker_role s)
  else otel_service_name_worker s.

(** The tracer of [trace.get_tracer], by its name. *)
Definition setup_worker_tracing (s : Settings) : R (option pystr) :=
  let service_name := worker_service_name s in
  provider ← _build_provider s service_name;
  if provider : bool then
    perform SetTracerProvider ;; perform (GetTracer service_name) ;; mret (Some service_name)
  else mret None.

(** [instrument_runtime_libraries(engine=...)]; the engine by its identity. *)
Definition instrument_runtime_libraries (engine : option Z) : R unit :=
  if tracing_available then
    kafka ← query p_aiokafka_instrumented;
    (if kafka : bool then mret tt
     else perform (Instrument AioKafka) ;;
          update (λ p, set_instrumented (p_redis_instrumented p) true (p_sqlalchemy_engines p) p)) ;;
    redis ← query p_redis_instrumented;
    (if redis : bool then mret tt
     else perform (Instrument RedisClient) ;;
          update (λ p, set_instrumented true (p_aiokafka_instrumented p) (p_sqlalchemy_engines p) p)) ;;
    match engine with
    | None => mret tt
    | Some id =>
        engines ← query p_sqlalchemy_engines;
        if decide (id ∈ engines) then mret tt
        else perform (Instrument (SqlEngine id)) ;;
             update (λ p, set_instrumented (p_redis_instrumented p) (p_aiokafka_instrumented p)
                            ({[id]} ∪ p_sqlalchemy_engines p) p)
    end
  else mret tt.

Definition shutdown_tracing : R unit := if tracing_available then perform ShutdownProvider else mret tt.

(** ** [OutboxRelay.start] and [OutboxRelay.stop] *)

Definition relay_start : R unit :=
  r ← query p_relay;
  if rl_task r then mret tt
  else
    update (set_relay (MkRelay false false)) ;;
    perform CreateRelayTask ;;
    update (set_relay (MkRelay true false)).

Definition relay_stop : R unit :=
  r ← query p_relay;
  if rl_task r then
    update (set_relay (MkRelay true true)) ;;
    finally (unless_cancelled (perform AwaitRelayTask)) (update (set_relay (MkRelay false true)))
  else mret tt.

(** ** [app/core/lifespan.py] *)

Definition api_startup (s : Settings) : R unit :=
  perform (ConfigureLogging (log_level s)) ;;
  perform (CreateEngine (database_url s)) ;;
  perform CreateSessionFactory ;;
  perform (RedisFromUrl (redis_url s)) ;;
  instrument_runtime_libraries (Some engine_id) ;;
  perform EnsureKafkaTopics ;;
  perform (MakePublisher (kafka_bootstrap_servers s)) ;;
  perform PublisherStart ;;
  relay_start.

Definition api_teardown : R unit :=
  relay_stop ;; perform PublisherStop ;; perform RedisClose ;; perform EngineDispose ;; shutdown_tracing.

(** [lifespan]; the application runs in [serve]. *)
Definition lifespan (s : Settings) (serve : R unit) : R unit := api_startup s ;; finally serve api_teardown.

(** ** [run_worker] *)

(** Up to the first [start]. *)
Definition worker_prepare (s : Settings) : R unit :=
  perform (ConfigureLogging (log_level s)) ;;
  _ ← setup_worker_tracing s;
  perform (StartHttpServer (worker_metrics_port s)) ;;
  perform (CreateEngine (database_url s)) ;;
  perform CreateSessionFactory ;;
  perform (RedisFromUrl (redis_url s)) ;;
  instrument_runtime_libraries (Some engine_id) ;;
  perform EnsureKafkaTopics ;;
  perform (MakePublisher (kafka_bootstrap_servers s)) ;;
  perform (MakeConsumer (consume_topics s) (kafka_bootstrap_servers s) (resolve_worker_group_id s)).

Definition worker_startup (s : Settings) : R unit :=
  worker_prepare s ;; perform PublisherStart ;; relay_start ;; perform ConsumerStart.

Definition worker_teardown : R unit :=
  relay_stop ;; perform PublisherStop ;; perform ConsumerStop ;; perform RedisClose ;; perform EngineDispose ;;
  shutdown_tracing.

(** [run_worker]; its loop, which only ends by an exception, is [serve]. *)
Definition run_worker (s : Settings) (serve : R unit) : R unit := worker_startup s ;; finally serve worker_teardown.
End runtime.

(** ** Facts *)

Section facts.
Variable refused : nat → option exn.
Variable tracing_available : bool.
Variable engine_id : Z.

Abbreviation perform := (perform refused).

Lemma R_bind_inv {A B} (m : R A) (k : A → R B) p b p' :
  (m ≫= k) p = (Ok b, p') → ∃ a p1, m p = (Ok a, p1) ∧ k a p1 = (Ok b, p').
Proof. unfold mbind, R_bind. destruct (m p) as [[a|e] p1]; intros E; [eauto|done]. Qed.

Lemma R_bind_ok {A B} (m : R A) (k : A → R B) p a p1 : m p = (Ok a, p1) → (m ≫= k) p = k a p1.
Proof. intros E. unfold mbind, R_bind. by rewrite E. Qed.

Lemma R_bind_raise {A B} (m : R A) (k : A → R B) p e p1 : m p = (Raise e, p1) → (m ≫= k) p = (Raise e, p1).
Proof. intros E. unfold mbind, R_bind. by rewrite E. Qed.

Lemma perform_accepted c p :
  refused (length (p_calls p)) = None → perform c p = (Ok tt, set_calls (p_calls p ++ [(c, true)]) p).
Proof. intros E. unfold perform. by rewrite E. Qed.

Lemma perform_refused c p e :
  refused (length (p_calls p)) = Some e → perform c p = (Raise e, set_calls (p_calls p ++ [(c, false)]) p).
Proof. intros E. unfold perform. by rewrite E. Qed.

(** *** Stopping *)

(** The calls of the tear-down. *)
Definition teardown_calls : list call :=
  [AwaitRelayTask; PublisherStop; ConsumerStop; RedisClose; EngineDispose]
  ++ if tracing_available then [ShutdownProvider] else [].

(** What the [n]-th call raises; the cancellation of the awaited task is expected. *)
Definition refusal (n : nat) (c : call) : option exn :=
  match refused n with
  | Some e => if decide (c = AwaitRelayTask ∧ e = CancelledError) then None else Some e
  | None => None
  end.

(** The first [k] of the calls are made, from the [n]-th of the process on: all of them, or
    up to the first that is refused, with its exception. *)
Definition stops_after (n : nat) (cs : list call) (k : nat) (o : option exn) : Prop :=
  match o with
  | None => k = length cs ∧ ∀ i c, cs !! i = Some c → refusal (i + n) c = None
  | Some e => ∃ i c, k = S i ∧ cs !! i = Some c ∧ refusal (i + n) c = Some e
      ∧ ∀ j c', (j < i)%nat → cs !! j = Some c' → refusal (j + n) c' = None
  end.

Lemma stops_after_here n c cs e : refusal n c = Some e → stops_after n (c :: cs) 1 (Some e).
Proof. intros Hc. exists 0%nat, c. split_and!; [done..|]. intros j c' Hj. lia. Qed.

Lemma stops_after_cons n c cs k o :
  refusal n c = None → stops_after (S n) cs k o → stops_after n (c :: cs) (S k) o.
Proof.
  intros Hc. assert (∀ i, i + S n = S i + n)%nat as Hs by lia. destruct o as [e|].
  - intros (i & c' & -> & Hl & Hr & Ha). exists (S i), c'. rewrite <- Hs. split_and!; [done..|].
    intros [|j] d Hj Hd; simpl in Hd; [by simplify_eq|]. rewrite <- Hs. apply Ha; [lia|done].
  - intros [-> Ha]. split; [done|]. intros [|i] d Hd; simpl in Hd; [by simplify_eq|]. rewrite <- Hs. by apply Ha.
Qed.

(** What a stretch of calls [cs] does to the process: it made the first [k]. *)
Definition made (cs : list call) (p : process) (r : result unit) (p' : process) : Prop :=
  ∃ k o, r = match o with None => Ok tt | Some e => Raise e end
    ∧ stops_after (length (p_calls p)) cs k o ∧ (p_calls p').*1 = (p_calls p).*1 ++ take k cs
    ∧ p_relay p' = p_relay p.

Lemma made_cons c cs (m : R unit) p :
  c ≠ AwaitRelayTask → (∀ p, made cs p (m p).1 (m p).2) →
  made (c :: cs) p ((perform c ;; m) p).1 ((perform c ;; m) p).2.
Proof.
  intros Hc Hm. assert (refusal (length (p_calls p)) c = refused (length (p_calls p))) as Hr.
  { unfold refusal. destruct (refused _); [|done]. by rewrite decide_False by naive_solver. }
  destruct (refused (length (p_calls p))) as [e|] eqn:E.
  - rewrite (R_bind_raise _ _ _ _ _ (perform_refused c p e E)). exists 1%nat, (Some e).
    split_and!; [done|by apply stops_after_here|by simpl; rewrite fmap_app|done].
  - rewrite (R_bind_ok _ _ _ _ _ (perform_accepted c p E)). cbv beta.
    destruct (Hm (set_calls (p_calls p ++ [(c, true)]) p)) as (k & o & Ho & Hk & Hcs & Hrl).
    exists (S k), o. split_and!; [done| | |done].
    + apply stops_after_cons; [done|]. simpl in Hk. by rewrite length_app, Nat.add_1_r in Hk.
    + rewrite Hcs. simpl. by rewrite fmap_app, <- app_assoc.
Qed.

Lemma made_nil p : made [] p (Ok tt) p.
Proof. exists 0%nat, None. split_and!; [done|by split; [|intros i c]|by rewrite app_nil_r|done]. Qed.

Lemma run_relay_stop p :
  rl_task (p_relay p) = true →
  relay_stop refused p =
    (match refusal (length (p_calls p)) AwaitRelayTask with None => Ok tt | Some e => Raise e end,
     set_relay (MkRelay false true)
       (set_calls (p_calls p ++ [(AwaitRelayTask, negb (bool_decide (is_Some (refused (length (p_calls p))))))]) p)).
Proof.
  intros Ht. unfold relay_stop. unfold mbind, R_bind, query. rewrite Ht. simpl.
  unfold finally, unless_cancelled, Runtime.perform, refusal. simpl.
  destruct (refused _) as [e|]; simpl; [|done]. destruct (decide (e = CancelledError)) as [->|].
  - by rewrite decide_True.
  - rewrite decide_False by naive_solver. done.
Qed.

(** The tear-down gets as far as its calls are accepted, and the relay is stopped. *)
Lemma run_worker_teardown p :
  rl_task (p_relay p) = true →
  ∃ k o p', worker_teardown refused tracing_available p = (match o with None => Ok tt | Some e => Raise e end, p')
    ∧ stops_after (length (p_calls p)) teardown_calls k o
    ∧ (p_calls p').*1 = (p_calls p).*1 ++ take k teardown_calls ∧ rl_task (p_relay p') = false.
Proof.
  intros Ht. pose proof (run_relay_stop p Ht) as E. unfold worker_teardown, teardown_calls.
  destruct (refusal (length (p_calls p)) AwaitRelayTask) as [e|] eqn:Hr.
  - rewrite (R_bind_raise _ _ _ _ _ E). exists 1%nat, (Some e). eexists. split; [reflexivity|].
    split_and!; [by apply stops_after_here|by simpl; rewrite fmap_app|done].
  - rewrite (R_bind_ok _ _ _ _ _ E). cbv beta.
    set (p1 := set_relay _ _).
    assert (made ([PublisherStop; ConsumerStop; RedisClose; EngineDispose] ++
      (if tracing_available then [ShutdownProvider] else [])) p1
      ((perform PublisherStop ;; perform ConsumerStop ;; perform RedisClose ;; perform EngineDispose ;;
        shutdown_tracing refused tracing_available) p1).1
      ((perform PublisherStop ;; perform ConsumerStop ;; perform RedisClose ;; perform EngineDispose ;;
        shutdown_tracing refused tracing_available) p1).2) as (k & o & Ho & Hk & Hcs & Hrl).
    { do 4 (apply made_cons; [done|intros ?]). match goal with |- made _ ?x _ _ => generalize x; intros q end.
      unfold shutdown_tracing. destruct tracing_available; [|apply made_nil].
      pose proof (made_cons ShutdownProvider [] (mret tt) q ltac:(done) made_nil) as H.
      unfold mbind, R_bind in H. by destruct (perform ShutdownProvider q) as [[[]|] ?]. }
    exists (S k), o. eexists. split; [by rewrite <- Ho; apply surjective_pairing|]. split_and!.
    + apply stops_after_cons; [done|]. simpl in Hk. by rewrite length_app, Nat.add_1_r in Hk.
    + rewrite Hcs. simpl. by rewrite fmap_app, <- app_assoc.
    + by rewrite Hrl.
Qed.

Lemma relay_start_task p p' : relay_start refused p = (Ok tt, p') → rl_task (p_relay p') = true.
Proof.
  unfold relay_start, mbind, R_bind, query. destruct (rl_task (p_relay p)) eqn:Ht; [by intros [= <-]|].
  simpl. unfold Runtime.perform. simpl. destruct (refused _); [done|]. by intros [= <-].
Qed.

Lemma worker_startup_task s p p' :
  worker_startup refused tracing_available engine_id s p = (Ok tt, p') → rl_task (p_relay p') = true.
Proof.
  intros (? & p1 & _ & E)%R_bind_inv. apply R_bind_inv in E as (? & p2 & _ & E).
  apply R_bind_inv in E as ([] & p3 & E3 & E). apply relay_start_task in E3.
  unfold Runtime.perform in E. destruct (refused _); [done|]. by injection E as <-.
Qed.

(** *** Instrumenting *)

(** The libraries that were instrumented. *)
Definition instrumented (p : process) : list library :=
  omap (λ c, match c with (Instrument l, true) => Some l | _ => None end) (p_calls p).

(** The flag of a library. *)
Definition flagged (p : process) (l : library) : bool :=
  match l with
  | AioKafka => p_aiokafka_instrumented p
  | RedisClient => p_redis_instrumented p
  | SqlEngine id => bool_decide (id ∈ p_sqlalchemy_engines p)
  end.

Definition flags_ok (p : process) : Prop :=
  NoDup (instrumented p) ∧ ∀ l, l ∈ instrumented p ↔ flagged p l = true.

(** Instrumenting one library, unless its flag is set, and setting the flag. *)
Lemma instrument_step l p (mark : process → process) :
  (∀ p l', flagged (mark p) l' = flagged p l' || bool_decide (l' = l)) → (∀ p, p_calls (mark p) = p_calls p) →
  flags_ok p → flagged p l = false →
  flags_ok ((perform (Instrument l) ;; update mark) p).2
  ∧ (((perform (Instrument l) ;; update mark) p).1 = Ok tt → l ∈ instrumented ((perform (Instrument l) ;; update mark) p).2).
Proof.
  intros Hm Hc [Hn Hf] Hl. unfold mbind, R_bind, update, Runtime.perform. destruct (refused _) as [e|]; simpl.
  - split; [|done]. unfold flags_ok, instrumented. simpl. rewrite omap_app, app_nil_r. by split.
  - assert (∀ q, instrumented (mark (set_calls (p_calls p ++ [(Instrument l, true)]) q)) = instrumented p ++ [l]) as E.
    { intros q. unfold instrumented. rewrite Hc. simpl. by rewrite omap_app. }
    split; [|intros _; rewrite E; set_solver]. split; rewrite E.
    + apply NoDup_app. split_and!; [done| |apply NoDup_singleton].
      intros l' Hin ->%list_elem_of_singleton. apply Hf in Hin. congruence.
    + intros l'. rewrite Hm, elem_of_app, list_elem_of_singleton, orb_true_iff, bool_decide_eq_true, Hf. done.
Qed.

(** The same, with the test of the flag. *)
Lemma instrument_if l p (b : bool) (mark : process → process) :
  (∀ p l', flagged (mark p) l' = flagged p l' || bool_decide (l' = l)) → (∀ p, p_calls (mark p) = p_calls p) →
  flags_ok p → flagged p l = b →
  flags_ok ((if b then mret tt else perform (Instrument l) ;; update mark) p).2.
Proof.
  intros Hm Hc Hp <-. destruct (flagged p l) eqn:E; [done|]. by apply instrument_step.
Qed.

Lemma flags_ok_bind {A B} (m : R A) (k : A → R B) p :
  flags_ok (m p).2 → (∀ a p', flags_ok p' → flags_ok (k a p').2) → flags_ok ((m ≫= k) p).2.
Proof. intros Hm Hk. unfold mbind, R_bind. destruct (m p) as [[a|e] p'] eqn:E; [by apply Hk|done]. Qed.

#[local] Ltac mark_flag := apply instrument_if; [intros q [| |id]; simpl; by rewrite ?orb_true_r, ?orb_false_r|done..].

Lemma instrument_flags_ok engine p :
  flags_ok p → flags_ok (instrument_runtime_libraries refused tracing_available engine p).2.
Proof.
  intros Hp. unfold instrument_runtime_libraries. destruct tracing_available; [|done].
  unfold query. unfold mbind at 1, R_bind at 1. apply flags_ok_bind; [mark_flag|intros [] p1 Hp1].
  unfold mbind at 1, R_bind at 1. apply flags_ok_bind; [mark_flag|intros [] p2 Hp2].
  destruct engine as [id|]; [|done]. unfold mbind at 1, R_bind at 1. case_decide as Hid; [done|].
  apply instrument_step; [|done|done|by apply bool_decide_eq_false].
  intros q [| |id']; simpl; rewrite ?orb_false_r; [done..|].
  rewrite <- bool_decide_or. apply bool_decide_ext. set_solver.
Qed.

(** Requests to instrument, whatever becomes of each. *)
Definition instrument_all (engines : list (option Z)) (p : process) : process :=
  foldl (λ p engine, (instrument_runtime_libraries refused tracing_available engine p).2) p engines.

Lemma instrument_all_ok engines p : flags_ok p → flags_ok (instrument_all engines p).
Proof.
  revert p. induction engines as [|o os IH]; intros p Hp; [done|]. simpl. by apply IH, instrument_flags_ok.
Qed.

(** *** The relay's task *)

Inductive relay_request := StartRelay | StopRelay.

Definition relay_run (rq : relay_request) : R unit :=
  match rq with StartRelay => relay_start refused | StopRelay => relay_stop refused end.

Definition relay_runs (rqs : list relay_request) (p : process) : process := foldl (λ p rq, (relay_run rq p).2) p rqs.

(** The tasks that were created and the ones that were awaited. *)
Definition created_tasks (p : process) : nat :=
  length (filter (λ c, c = (CreateRelayTask, true)) (p_calls p)).
Definition awaited_tasks (p : process) : nat :=
  length (filter (λ c : call * bool, c.1 = AwaitRelayTask) (p_calls p)).

Definition one_task (p : process) : Prop :=
  created_tasks p = (awaited_tasks p + if rl_task (p_relay p) then 1 else 0)%nat
  ∧ (rl_task (p_relay p) = true → rl_stopping (p_relay p) = false).

Lemma filter_snoc (P : call * bool → Prop) `{∀ c, Decision (P c)} l c :
  length (filter P (l ++ [c])) = (length (filter P l) + if decide (P c) then 1 else 0)%nat.
Proof. rewrite filter_app, length_app, filter_cons, filter_nil. by case_decide. Qed.

Lemma relay_run_ok rq p : one_task p → one_task (relay_run rq p).2.
Proof.
  unfold one_task, created_tasks, awaited_tasks. intros [Hc Hs]. destruct rq; simpl.
  - unfold relay_start, mbind, R_bind, query. destruct (rl_task (p_relay p)) eqn:Ht; simpl; [by rewrite Ht|].
    unfold Runtime.perform. simpl. destruct (refused _); simpl; rewrite !filter_snoc; simpl in *; lia || done.
  - destruct (rl_task (p_relay p)) eqn:Ht.
    + rewrite run_relay_stop by done. simpl. rewrite (filter_snoc (λ c, c = _)), (filter_snoc (λ c, c.1 = _)).
      rewrite decide_False, decide_True by done. split; [lia|done].
    + unfold relay_stop, mbind, R_bind, query. rewrite Ht. simpl. by rewrite Ht.
Qed.

Lemma relay_runs_ok rqs p : one_task p → one_task (relay_runs rqs p).
Proof.
  revert p. induction rqs as [|rq rqs IH]; intros p Hp; [done|]. simpl. by apply IH, relay_run_ok.
Qed.
End facts.

(** ** What the processes promise *)

Section theorems.
Variables (refused : nat → option exn) (tracing_available : bool) (engine_id : Z).

(** C35: the worker stops in order. Once it has started, however its loop ends: the relay is
    stopped before the publisher it uses, then the publisher, the consumer, Redis, the
    engine and tracing, in this order and up to the first call that is refused. The
    exception that leaves [run_worker] is that call's, or else the loop's, and no task
    of the relay is left. *)
Theorem worker_stops_in_order s serve p p1 p2 r :
  worker_startup refused tracing_available engine_id s p = (Ok tt, p1) →
  serve p1 = (r, p2) → p_relay p2 = p_relay p1 →
  ∃ k o p3, run_worker refused tracing_available engine_id s serve p
      = (match o with None => r | Some e => Raise e end, p3)
    ∧ stops_after refused (length (p_calls p2)) (teardown_calls tracing_available) k o
    ∧ (p_calls p3).*1 = (p_calls p2).*1 ++ take k (teardown_calls tracing_available)
    ∧ rl_task (p_relay p3) = false.
Proof.
  intros E1 E2 Hr. pose proof (worker_startup_task _ _ _ _ _ _ E1) as Ht. rewrite <- Hr in Ht.
  destruct (run_worker_teardown refused tracing_available p2 Ht) as (k & o & p3 & E3 & Hk & Hc & Ht3).
  exists k, o, p3. split_and!; [|done..]. unfold run_worker. rewrite (R_bind_ok _ _ _ _ _ E1).
  unfold finally. rewrite E2, E3. by destruct o.
Qed.

(** A worker that does not start is not stopped. When the consumer cannot be started, the
    exception leaves [run_worker] at once: the publisher that was started is not stopped
    and the relay's task still runs. *)
Theorem failed_start_leaks s serve p p1 e :
  worker_prepare refused tracing_available engine_id s p = (Ok tt, p1) → rl_task (p_relay p1) = false →
  refused (length (p_calls p1)) = None → refused (S (length (p_calls p1))) = None →
  refused (S (S (length (p_calls p1)))) = Some e →
  ∃ p2, run_worker refused tracing_available engine_id s serve p = (Raise e, p2)
    ∧ p_calls p2 = p_calls p1 ++ [(PublisherStart, true); (CreateRelayTask, true); (ConsumerStart, false)]
    ∧ rl_task (p_relay p2) = true.
Proof.
  intros E1 Ht H0 H1 H2. eexists. split_and!.
  - unfold run_worker. apply R_bind_raise. unfold worker_startup. rewrite (R_bind_ok _ _ _ _ _ E1).
    rewrite (R_bind_ok _ _ _ _ _ (perform_accepted _ _ _ H0)). cbv beta.
    unfold relay_start, mbind, R_bind, query. simpl. rewrite Ht. unfold update. simpl.
    unfold perform at 1. simpl. rewrite length_app, Nat.add_1_r, H1. simpl.
    unfold perform. simpl. rewrite !length_app, !Nat.add_1_r, H2. reflexivity.
  - simpl. by rewrite <- !app_assoc.
  - done.
Qed.

(** Each library is instrumented once. Whatever sequence of requests a process makes, for
    whatever engines, and whichever of them are refused: no library and no engine is
    instrumented twice, and the flags of the module tell exactly which were. *)
Theorem instrumented_once engines :
  NoDup (instrumented (instrument_all refused tracing_available engines new_process))
  ∧ ∀ l, l ∈ instrumented (instrument_all refused tracing_available engines new_process)
       ↔ flagged (instrument_all refused tracing_available engines new_process) l = true.
Proof.
  apply instrument_all_ok. split; [constructor|]. intros l. split; [by intros ?%not_elem_of_nil|]. by destruct l.
Qed.

(** At most one loop drains the outbox of a process. Whatever sequence of [start] and
    [stop] a process makes, and whatever becomes of the tasks: the tasks that were created
    are those that were awaited and, if there is one, the current one. *)
Theorem one_relay_task rqs :
  let p := relay_runs refused rqs new_process in
  created_tasks p = (awaited_tasks p + if rl_task (p_relay p) then 1 else 0)%nat.
Proof. by apply (relay_runs_ok refused rqs new_process). Qed.
End theorems.

(** ** The hypotheses can hold *)

(** The loop ends by an exception, and the publisher cannot be stopped. *)
Definition demo_refused (n : nat) : option exn :=
  match n with
  | 17%nat => Some (RuntimeError (u "loop"))
  | 18%nat => Some CancelledError
  | 19%nat => Some (Exn (u "KafkaError") [])
  | _ => None
  end.
Definition demo_serve : R unit := perform demo_refused Serve.
Definition demo_started : process := (worker_startup demo_refused true 1 default_settings new_process).2.
Definition demo_served : process := (demo_serve demo_started).2.

Lemma worker_stops_in_order_witness :
  ∃ p3, run_worker demo_refused true 1 default_settings demo_serve new_process = (Raise (Exn (u "KafkaError") []), p3)
    ∧ (p_calls p3).*1 = (p_calls demo_served).*1 ++ [AwaitRelayTask; PublisherStop] ∧ rl_task (p_relay p3) = false.
Proof.
  destruct (worker_stops_in_order demo_refused true 1 default_settings demo_serve new_process demo_started demo_served
    (Raise (RuntimeError (u "loop")))) as (k & o & p3 & E & Hs & Hc & Ht).
  - vm_compute. reflexivity.
  - vm_compute. reflexivity.
  - vm_compute. reflexivity.
  - exists p3. assert (k = 2%nat ∧ o = Some (Exn (u "KafkaError") [])) as [-> ->].
    { destruct o as [e|]; [|destruct Hs as [_ Hs]; by specialize (Hs 1%nat PublisherStop eq_refl)].
      destruct Hs as (i & c & -> & Hl & Hr & Ha). destruct i as [|[|i]].
      - vm_compute in Hr. injection Hl as <-. discriminate Hr.
      - injection Hl as <-. vm_compute in Hr. by injection Hr as <-.
      - exfalso. specialize (Ha 1%nat PublisherStop ltac:(lia) eq_refl). vm_compute in Ha. discriminate Ha. }
    split_and!; [exact E|exact Hc|exact Ht].
Defined.

Definition demo_refused_start (n : nat) : option exn :=
  match n with 16%nat => Some (Exn (u "KafkaError") []) | _ => None end.

Lemma failed_start_leaks_witness :
  ∃ p2, run_worker demo_refused_start true 1 default_settings demo_serve new_process = (Raise (Exn (u "KafkaError") []), p2)
    ∧ rl_task (p_relay p2) = true.
Proof.
  destruct (failed_start_leaks demo_refused_start true 1 default_settings demo_serve new_process
    (worker_prepare demo_refused_start true 1 default_settings new_process).2 (Exn (u "KafkaError") []))
    as (p2 & E & _ & Ht); [vm_compute; reflexivity..|]. by exists p2.
Defined.
