(* ===== verification/Retry.v ===== *)
(** * Retries and dead letters: [app/workers/runner.py], one message

    Reading the headers of a message, the back-off, and [_handle_message]: the
    role's handler, then a retry with the headers of the next attempt or the
    dead-letter topic. *)
From Stdlib Require Import SpecFloat.
From S2P Require Import Prelude PyStr PyFloat Json Domain Database World Effects Ports Fixtures Messaging Settings.
#[local] Open Scope Z_scope.

(** ** Headers *)

Definition RETRY_COUNT_HEADER : pystr := u "retry-count".
Definition ERROR_REASON_HEADER : pystr := u "error-reason".
Definition ORIGINAL_TOPIC_HEADER : pystr := u "original-topic".
Definition RETRY_AT_HEADER : pystr := u "retry-at".

(** A record as the consumer delivers it. *)
Record consumed := MkConsumed {
  c_topic : pystr;
  c_partition : Z;
  c_offset : Z;
  c_value : json;
  c_headers : option (list (pystr * option pybytes));
}.

(** [_decode_headers] *)
Definition _decode_headers (hs : option (list (pystr * option pybytes))) : headers :=
  fold_left (λ decoded kv,
    match kv.2 with
    | None => decoded
    | Some bs => dict_set decoded kv.1 (utf8_decode bs)
    end) (default [] hs) [].

(** [_parse_retry_count] *)
Definition _parse_retry_count (hs : headers) : Z :=
  match py_int (default (u "0") (dict_lookup hs RETRY_COUNT_HEADER)) with
  | Some value => Z.max 0 value
  | None => 0
  end.

(** [_retry_due_at] *)
Definition _retry_due_at (hs : headers) : Z :=
  match dict_lookup hs RETRY_AT_HEADER with
  | None => 0
  | Some raw => default 0 (py_int raw)
  end.

(** [_compute_retry_backoff_seconds]; [pow] is the C library's. *)
Definition _compute_retry_backoff_seconds (pow : float → float → float) (retry_count : Z)
    (base multiplier max_seconds : float) : result float :=
  let retry_count := Z.max 1 retry_count in
  p ← f_pow_int pow multiplier (retry_count - 1);
  Ok (f_min (f_mul base p) max_seconds).

(** [int(delay_seconds * 1000)] for the given attempt. *)
Definition retry_delay_ms (pow : float → float → float) (settings : Settings) (attempt : Z) : result Z :=
  delay_seconds ← _compute_retry_backoff_seconds pow attempt (retry_backoff_seconds settings)
                    (retry_backoff_multiplier settings) (retry_backoff_max_seconds settings);
  ms ← f_mul_int delay_seconds 1000;
  int_of_float ms.

(** ** [_handle_message] *)

(** [int(time.time() * 1000)] of an instant in microseconds. *)
Definition millis (t : Z) : Z := t / 1000.

Definition unknown_error : pystr := u "unknown processing error".

(** [(error or "unknown processing error").strip()] *)
Definition error_reason_of (error : option pystr) : pystr :=
  strip (match error with Some (c :: s) => c :: s | _ => unknown_error end).

(** The headers of the next attempt and of a dead letter. *)
Definition retry_headers (count : Z) (original_topic reason : pystr) (due_ms : Z) : headers :=
  [(RETRY_COUNT_HEADER, py_str_int count); (ORIGINAL_TOPIC_HEADER, original_topic);
   (ERROR_REASON_HEADER, reason); (RETRY_AT_HEADER, py_str_int due_ms)].
Definition dlq_headers (count : Z) (original_topic reason : pystr) : headers :=
  [(RETRY_COUNT_HEADER, py_str_int count); (ORIGINAL_TOPIC_HEADER, original_topic);
   (ERROR_REASON_HEADER, reason)].

Section handle.
Context {RS : RedisServer} {WR : WorkerRole} {EP : EventPublisher}.
Variables (consume_topic retry_topic : pystr) (settings : Settings).

Definition _now_ms : M Z := reads (λ w, millis (w_clock w)).

(** A retry message that another role of the same retry topic is to handle. *)
Definition other_role (message : consumed) : bool :=
  bool_decide (c_topic message = retry_topic)
  && negb (bool_decide (default consume_topic (dict_lookup (_decode_headers (c_headers message)) ORIGINAL_TOPIC_HEADER)
                        = consume_topic)).

(** The part after a failed attempt: the next attempt, or the dead letter. *)
Definition reject (message : consumed) (error : option pystr) : M unit :=
  let headers := _decode_headers (c_headers message) in
  inc RETRY_FAILURE_TOTAL ;;
  let retry_count := _parse_retry_count headers in
  let original_topic := default (c_topic message) (dict_lookup headers ORIGINAL_TOPIC_HEADER) in
  let error_reason := error_reason_of error in
  if retry_count <? retry_max_count settings then
    let next_retry_count := retry_count + 1 in
    pow ← reads (λ w, env_pow (w_env w));
    delay_ms ← lift (retry_delay_ms pow settings next_retry_count);
    now ← _now_ms;
    publish retry_topic (c_value message)
      (Some (retry_headers next_retry_count original_topic error_reason (now + delay_ms))) ;;
    inc RETRY_PUBLISHED_TOTAL ;;
    lift (get (c_value message) (u "job_id") JNull) ;;
    mret tt
  else
    publish (kafka_dlq_topic settings) (c_value message)
      (Some (dlq_headers retry_count original_topic error_reason)) ;;
    inc DLQ_MESSAGES_TOTAL ;;
    lift (get (c_value message) (u "job_id") JNull) ;;
    mret tt.

Definition _handle_message (message : consumed) : M unit :=
  if other_role message then mret tt
  else
    '(success, error) ← (handle_event (c_value message) : M outcome);
    if success : bool then mret tt else reject message error.
End handle.

(** ** Headers survive the broker *)

(** Kafka hands over the headers it was given. *)
Definition delivered (bs : option (list (pystr * pybytes))) : option (list (pystr * option pybytes)) :=
  match bs with Some l => Some ((λ kv, (kv.1, Some kv.2)) <$> l) | None => None end.

(** A record as the consumer of a partition delivers it at an offset. *)
Definition consumed_of (partition offset : Z) (r : record) : consumed :=
  MkConsumed (r_topic r) partition offset (r_value r) (delivered (r_headers r)).

Lemma encode_decode_headers (hs : headers) bs :
  Forall (λ kv, Forall scalar kv.2) hs → mapM encode_header hs = Ok bs →
  _decode_headers (delivered (Some bs)) = dict_of hs.
Proof.
  unfold _decode_headers, dict_of. simpl. intros Hs Hm. revert bs Hm. generalize (@nil (pystr * pystr)).
  induction Hs as [|[k v] hs Hv Hs IH]; intros d bs Hm.
  - change (Ok (A := list (pystr * pybytes)) [] = Ok bs) in Hm. by simplify_eq.
  - simpl in Hm. apply result_bind_ok in Hm as (b & Hb & Hm). apply result_bind_ok in Hm as (bs' & Hbs & [= <-]).
    unfold encode_header in Hb. apply result_bind_ok in Hb as (e & He & [= <-]). simpl in *.
    rewrite (utf8_decode_encode v e Hv He). by apply IH.
Qed.

Lemma encode_headers_total (hs : headers) : Forall (λ kv, Forall scalar kv.2) hs → ∃ bs, mapM encode_header hs = Ok bs.
Proof.
  induction 1 as [|[k v] hs Hv Hs [bs IH]]; [by exists []|]. destruct (utf8_encode_total v Hv) as [b Hb].
  exists ((k, b) :: bs).
  assert (encode_header (k, v) = Ok (k, b)) as E by (unfold encode_header; simpl in *; by rewrite Hb).
  simpl. by rewrite E, IH.
Qed.

(** Texts in the headers of an attempt. *)
Lemma retry_headers_scalar count topic reason due :
  Forall scalar topic → Forall scalar reason →
  Forall (λ kv, Forall scalar kv.2) (retry_headers count topic reason due).
Proof. intros Ht Hr. repeat constructor; simpl; auto using py_str_int_scalar. Qed.

Lemma dlq_headers_scalar count topic reason :
  Forall scalar topic → Forall scalar reason →
  Forall (λ kv, Forall scalar kv.2) (dlq_headers count topic reason).
Proof. intros Ht Hr. repeat constructor; simpl; auto using py_str_int_scalar. Qed.

Lemma retry_headers_dict count topic reason due :
  dict_of (retry_headers count topic reason due) = retry_headers count topic reason due.
Proof. reflexivity. Qed.

(** What the next attempt reads. *)
Lemma retry_count_read count topic reason due :
  0 ≤ count → printable (Z.abs_N count) → _parse_retry_count (retry_headers count topic reason due) = count.
Proof.
  intros H0 Hc. unfold _parse_retry_count.
  change (dict_lookup _ RETRY_COUNT_HEADER) with (Some (py_str_int count)). simpl default.
  rewrite py_int_str_int by done. lia.
Qed.

Lemma dlq_count_read count topic reason :
  0 ≤ count → printable (Z.abs_N count) → _parse_retry_count (dlq_headers count topic reason) = count.
Proof.
  intros H0 Hc. unfold _parse_retry_count.
  change (dict_lookup _ RETRY_COUNT_HEADER) with (Some (py_str_int count)). simpl default.
  rewrite py_int_str_int by done. lia.
Qed.

Lemma retry_at_read count topic reason due :
  printable (Z.abs_N due) → _retry_due_at (retry_headers count topic reason due) = due.
Proof.
  intros Hd. change (default 0 (py_int (py_str_int due)) = due). by rewrite py_int_str_int.
Qed.

Lemma parse_retry_count_nonneg hs : 0 ≤ _parse_retry_count hs.
Proof. unfold _parse_retry_count. destruct (py_int _); lia. Qed.

(** ** One failed attempt *)

Section attempt.
Context {RS : RedisServer} {WR : WorkerRole}.
Variables (consume_topic retry_topic : pystr) (settings : Settings).
#[local] Existing Instance KafkaEventPublisher.

Abbreviation handled := (_handle_message consume_topic retry_topic settings).

(** The topic a message first came from. *)
Definition origin (message : consumed) : pystr :=
  default (c_topic message) (dict_lookup (_decode_headers (c_headers message)) ORIGINAL_TOPIC_HEADER).

Definition attempt_count (message : consumed) : Z := _parse_retry_count (_decode_headers (c_headers message)).

Lemma origin_not_other message : origin message = consume_topic → other_role consume_topic retry_topic message = false.
Proof.
  unfold origin, other_role. intros H. apply andb_false_iff. right. apply negb_false_iff, bool_decide_eq_true.
  by destruct (dict_lookup _ _).
Qed.

(** Kafka's record of a message with text headers. *)
Lemma record_for_ok topic payload hs :
  Forall (λ kv, Forall scalar kv.2) hs → hs ≠ [] →
  ∃ r, record_for topic payload (Some hs) = Ok r ∧ r_topic r = topic ∧ r_value r = payload
    ∧ _decode_headers (delivered (r_headers r)) = dict_of hs.
Proof.
  intros Hs Hne. destruct (encode_headers_total hs Hs) as [bs Hbs].
  exists (MkRecord topic payload (Some bs)). split_and!; [|done|done|by apply encode_decode_headers].
  unfold record_for, kafka_headers. destruct hs; [done|]. unfold mbind, result_bind in *. simpl in *. by rewrite Hbs.
Qed.

Definition fails (message : consumed) (error : option pystr) (w w1 : world) : Prop :=
  handle_event (c_value message) w = (Ok (false, error), w1) ∧ ready w1.

Lemma run_retry message error w w1 delay d :
  origin message = consume_topic → fails message error w w1 →
  attempt_count message < retry_max_count settings →
  retry_delay_ms (env_pow (w_env w1)) settings (attempt_count message + 1) = Ok delay →
  Forall scalar consume_topic → Forall scalar (error_reason_of error) → c_value message = JDict d →
  ∃ w2 r, handled message w = (Ok tt, w2) ∧ w_kafka w2 = w_kafka w1 ++ [r]
    ∧ r_topic r = retry_topic ∧ r_value r = c_value message
    ∧ _decode_headers (delivered (r_headers r))
      = retry_headers (attempt_count message + 1) consume_topic (error_reason_of error) (millis (w_clock w1) + delay)
    ∧ w_env w2 = w_env w1 ∧ w_db w2 = w_db w1 ∧ w_uuids w2 = w_uuids w1 ∧ w_clock w2 = w_clock w1.
Proof.
  intros Ho [He Hr] Hlt Hd Hs1 Hs2 Hv.
  set (hs := retry_headers (attempt_count message + 1) consume_topic (error_reason_of error) (millis (w_clock w1) + delay)).
  destruct (record_for_ok retry_topic (c_value message) hs) as (r & Er & Rt & Rv & Rh);
    [by apply retry_headers_scalar|done|].
  eexists _, r. split.
  - unfold _handle_message. rewrite origin_not_other by done.
    eapply run_bind; [exact He|]. cbv beta iota. unfold reject. run1.
    fold (attempt_count message) (origin message). rewrite Ho, (proj2 (Z.ltb_lt _ _)) by done.
    run1. eapply run_bind; [exact (f_equal (λ x, (x, _)) Hd)|]. eapply run_bind; [apply run_reads|].
    cbv beta. eapply run_bind; [apply (run_kafka_publish _ _ _ r); [exact Hr|exact Er]|].
    run1. eapply run_bind; [rewrite Hv; apply run_lift|]. reflexivity.
  - split_and!; [reflexivity|done|done|by rewrite Rh|done..].
Qed.

Lemma run_dead_letter message error w w1 d :
  origin message = consume_topic → fails message error w w1 →
  retry_max_count settings ≤ attempt_count message →
  Forall scalar consume_topic → Forall scalar (error_reason_of error) → c_value message = JDict d →
  ∃ w2 r, handled message w = (Ok tt, w2) ∧ w_kafka w2 = w_kafka w1 ++ [r]
    ∧ r_topic r = kafka_dlq_topic settings ∧ r_value r = c_value message
    ∧ _decode_headers (delivered (r_headers r))
      = dlq_headers (attempt_count message) consume_topic (error_reason_of error)
    ∧ w_env w2 = w_env w1 ∧ w_db w2 = w_db w1 ∧ w_uuids w2 = w_uuids w1 ∧ w_clock w2 = w_clock w1.
Proof.
  intros Ho [He Hr] Hge Hs1 Hs2 Hv.
  set (hs := dlq_headers (attempt_count message) consume_topic (error_reason_of error)).
  destruct (record_for_ok (kafka_dlq_topic settings) (c_value message) hs) as (r & Er & Rt & Rv & Rh);
    [by apply dlq_headers_scalar|done|].
  eexists _, r. split.
  - unfold _handle_message. rewrite origin_not_other by done.
    eapply run_bind; [exact He|]. cbv beta iota. unfold reject. run1.
    fold (attempt_count message) (origin message). rewrite Ho, (proj2 (Z.ltb_ge _ _)) by done.
    eapply run_bind; [apply (run_kafka_publish _ _ _ r); [exact Hr|exact Er]|].
    run1. eapply run_bind; [rewrite Hv; apply run_lift|]. reflexivity.
  - split_and!; [reflexivity|done|done|by rewrite Rh|done..].
Qed.
End attempt.

(** ** The life of a message whose handler always fails *)

Section chain.
Context {RS : RedisServer} {WR : WorkerRole}.
Variables (consume_topic retry_topic : pystr) (settings : Settings).
#[local] Existing Instance KafkaEventPublisher.

(** The handler fails on this value in every world, without touching Kafka. *)
Definition always_fails (value : json) (error : option pystr) : Prop :=
  ∀ w, ∃ w', handle_event value w = (Ok (false, error), w') ∧ w_env w' = w_env w ∧ w_kafka w' = w_kafka w.

(** The message is handled, and each retry message Kafka receives is delivered
    and handled in turn, at most [fuel] times. *)
Fixpoint attempts (fuel : nat) (message : consumed) : M unit :=
  match fuel with
  | O => mret tt
  | S fuel' =>
      _handle_message consume_topic retry_topic settings message ;;
      sent ← reads w_kafka;
      match last sent with
      | Some r =>
          if decide (r_topic r = retry_topic) then attempts fuel' (consumed_of 0 0 r) else mret tt
      | None => mret tt
      end
  end.

(** Where a record went and the attempts it counts. *)
Definition routed (r : record) : pystr * Z :=
  (r_topic r, _parse_retry_count (_decode_headers (delivered (r_headers r)))).

(** Every back-off can be computed. *)
Definition delays_ok (pow : float → float → float) : Prop :=
  ∀ n, 1 ≤ n ≤ retry_max_count settings → is_ok (retry_delay_ms pow settings n) = true.

Definition expected_route (count : Z) (n : nat) : list (pystr * Z) :=
  ((λ i : nat, (retry_topic, count + Z.of_nat i)) <$> seq 1 n)
  ++ [(kafka_dlq_topic settings, retry_max_count settings)].

Lemma expected_route_S count n :
  expected_route count (S n) = (retry_topic, count + 1) :: expected_route (count + 1) n.
Proof.
  unfold expected_route. cbn [seq]. rewrite fmap_cons, <- app_comm_cons, <- fmap_S_seq, <- list_fmap_compose.
  do 2 f_equal. apply list_fmap_ext. intros i x _. unfold compose. f_equal. lia.
Qed.

Section failing.
Variables (value : json) (error : option pystr) (d : list (pystr * json)).
Hypothesis value_fails : always_fails value error.
Hypothesis value_dict : value = JDict d.
Hypothesis topic_text : Forall scalar consume_topic.
Hypothesis reason_text : Forall scalar (error_reason_of error).
Hypothesis topics_differ : retry_topic ≠ kafka_dlq_topic settings.
Hypothesis count_printable : printable (Z.abs_N (retry_max_count settings)).

(** The attempt after the last retry isolates the message. *)
Lemma attempts_last message w :
  calm w → c_value message = value → origin message = consume_topic → attempt_count message = retry_max_count settings →
  ∃ w' r, attempts 1 message w = (Ok tt, w') ∧ w_kafka w' = w_kafka w ++ [r] ∧ r_value r = value
    ∧ routed r = (kafka_dlq_topic settings, retry_max_count settings).
Proof.
  intros Hc Hmv Ho Hn. assert (0 ≤ attempt_count message) as H0 by apply parse_retry_count_nonneg.
  destruct (value_fails w) as (w1 & E1 & En & K). rewrite <- Hmv in E1.
  assert (ready w1) as Hr by (unfold ready; rewrite En; apply Hc).
  destruct (run_dead_letter consume_topic retry_topic settings message error w w1 d)
    as (w2 & r & E2 & K2 & T & V & H & _); [done|by split|lia|done|done|congruence|].
  exists w2, r. split_and!.
  - cbn [attempts]. eapply run_bind; [exact E2|]. eapply run_bind; [apply run_reads|].
    rewrite K2, last_snoc, decide_False by congruence. done.
  - by rewrite K2, K.
  - congruence.
  - unfold routed. rewrite T, H, dlq_count_read; [by rewrite Hn|lia|by rewrite Hn].
Qed.

(** An attempt before it publishes a retry, which is handled next. *)
Lemma attempts_retry message w :
  calm w → delays_ok (env_pow (w_env w)) → c_value message = value → origin message = consume_topic →
  attempt_count message < retry_max_count settings →
  ∃ w' r, (∀ n, attempts (S n) message w = attempts n (consumed_of 0 0 r) w') ∧ w_env w' = w_env w
    ∧ w_kafka w' = w_kafka w ++ [r] ∧ r_value r = value ∧ routed r = (retry_topic, attempt_count message + 1)
    ∧ origin (consumed_of 0 0 r) = consume_topic.
Proof.
  intros Hc Hd Hmv Ho Hn. assert (0 ≤ attempt_count message) as H0 by apply parse_retry_count_nonneg.
  destruct (value_fails w) as (w1 & E1 & En & K). rewrite <- Hmv in E1.
  assert (ready w1) as Hr by (unfold ready; rewrite En; apply Hc).
  assert (∃ delay, retry_delay_ms (env_pow (w_env w1)) settings (attempt_count message + 1) = Ok delay) as [delay Hdel].
  { rewrite En. specialize (Hd (attempt_count message + 1) ltac:(lia)).
    destruct (retry_delay_ms _ _ _) as [x|]; [by exists x|done]. }
  destruct (run_retry consume_topic retry_topic settings message error w w1 delay d)
    as (w2 & r & E2 & K2 & T & V & H & En2 & _); [done|by split|lia|done|done|done|congruence|].
  assert (printable (Z.abs_N (attempt_count message + 1))) as Hpr.
  { unfold printable in *. eapply N.le_lt_trans; [|exact count_printable]. lia. }
  exists w2, r. split_and!.
  - intros n. cbn [attempts]. eapply run_bind; [exact E2|]. eapply run_bind; [apply run_reads|].
    by rewrite K2, last_snoc, decide_True.
  - congruence.
  - by rewrite K2, K.
  - congruence.
  - unfold routed. by rewrite T, H, retry_count_read by (done || lia).
  - unfold origin. change (c_headers (consumed_of 0 0 r)) with (delivered (r_headers r)). by rewrite H.
Qed.

Lemma run_attempts n message w :
  calm w → delays_ok (env_pow (w_env w)) → c_value message = value → origin message = consume_topic →
  attempt_count message + Z.of_nat n = retry_max_count settings →
  ∃ w' rs, attempts (S n) message w = (Ok tt, w') ∧ w_kafka w' = w_kafka w ++ rs
    ∧ Forall (λ r, r_value r = value) rs
    ∧ routed <$> rs = expected_route (attempt_count message) n.
Proof.
  revert message w. induction n as [|n IH]; intros message w Hc Hd Hmv Ho Hn.
  - destruct (attempts_last message w) as (w' & r & E & K & V & R); [done|done|done|lia|].
    exists w', [r]. split_and!; [done|done|by repeat constructor|]. unfold expected_route. simpl. by rewrite R.
  - destruct (attempts_retry message w) as (w1 & r & E & En & K & V & R & Ho'); [done|done|done|done|lia|].
    assert (attempt_count (consumed_of 0 0 r) = attempt_count message + 1) as Hcount by by injection R.
    destruct (IH (consumed_of 0 0 r) w1) as (w' & rs & E' & K' & F & R').
    { intros i. rewrite En. apply Hc. } { by rewrite En. } { done. } { done. } { rewrite Hcount. lia. }
    exists w', (r :: rs). split_and!; [by rewrite E|by rewrite K', K, <- app_assoc|by constructor|].
    by rewrite fmap_cons, R', R, Hcount, expected_route_S.
Qed.
End failing.
End chain.

(** ** What the retry machinery promises *)

Section theorems.
Context {RS : RedisServer} {WR : WorkerRole}.
Variables (consume_topic retry_topic : pystr) (settings : Settings).
#[local] Existing Instance KafkaEventPublisher.

(** C17: a message that can never be handled is retried a bounded number of times and
    then isolated. With no failing service, a message of the consumed topic without a
    retry count whose handler always fails is published to the retry topic exactly
    [retry_max_count] times, with the counts 1, 2, ..., and then exactly once to the
    dead-letter topic, always with its original value; then nothing more happens. *)
Theorem retries_end_in_dlq value error d message w :
  always_fails value error → calm w → delays_ok settings (env_pow (w_env w)) →
  Forall scalar consume_topic → Forall scalar (error_reason_of error) → value = JDict d →
  retry_topic ≠ kafka_dlq_topic settings → printable (Z.abs_N (retry_max_count settings)) →
  0 ≤ retry_max_count settings →
  c_value message = value → c_topic message = consume_topic → c_headers message = None →
  let n := Z.to_nat (retry_max_count settings) in
  ∃ w' rs, attempts consume_topic retry_topic settings (S n) message w = (Ok tt, w')
    ∧ w_kafka w' = w_kafka w ++ rs
    ∧ Forall (λ r, r_value r = value) rs
    ∧ routed <$> rs
      = ((λ i : nat, (retry_topic, Z.of_nat i)) <$> seq 1 n) ++ [(kafka_dlq_topic settings, retry_max_count settings)].
Proof.
  intros Hf Hc Hd Hs1 Hs2 Hv Hne Hp H0 Hmv Ht Hh n.
  assert (attempt_count message = 0) as Hz by (unfold attempt_count; by rewrite Hh).
  destruct (run_attempts consume_topic retry_topic settings value error d Hf Hv Hs1 Hs2 Hne Hp n message w) as (w' & rs & E & K & F & R);
    [done..|unfold origin; by rewrite Hh|rewrite Hz; unfold n; lia|].
  rewrite Hz in R. by exists w', rs.
Qed.

(** The headers of a record are what the next reader sees. Text headers with
    distinct names are encoded, and decoding what Kafka delivers gives them back. *)
Theorem headers_round_trip topic payload hs :
  Forall (λ kv, Forall scalar kv.2) hs → NoDup hs.*1 → hs ≠ [] →
  ∃ r, record_for topic payload (Some hs) = Ok r
    ∧ ∀ k, dict_lookup (_decode_headers (delivered (r_headers r))) k = dict_lookup hs k.
Proof.
  intros Hs Hnd Hne. destruct (record_for_ok topic payload hs Hs Hne) as (r & Er & _ & _ & Hd).
  exists r. split; [done|]. intros k. rewrite Hd. by apply dict_of_lookup.
Qed.

(** A retry message that does not say where it came from is lost. If a message of
    the retry topic without an original-topic header fails again, the next attempt
    is marked as coming from the retry topic, so the role that reads it skips it:
    no handler, no further retry, no dead letter. *)
Theorem retry_without_origin_lost message error w w1 delay d :
  c_topic message = retry_topic → retry_topic ≠ consume_topic →
  dict_lookup (_decode_headers (c_headers message)) ORIGINAL_TOPIC_HEADER = None →
  fails message error w w1 →
  attempt_count message < retry_max_count settings →
  retry_delay_ms (env_pow (w_env w1)) settings (attempt_count message + 1) = Ok delay →
  Forall scalar retry_topic → Forall scalar (error_reason_of error) → c_value message = JDict d →
  ∃ w2 r, _handle_message consume_topic retry_topic settings message w = (Ok tt, w2)
    ∧ w_kafka w2 = w_kafka w1 ++ [r] ∧ r_topic r = retry_topic
    ∧ ∀ partition offset w3,
        _handle_message consume_topic retry_topic settings (consumed_of partition offset r) w3 = (Ok tt, w3).
Proof.
  intros Ht Hne Hn [He Hr] Hlt Hd Hs1 Hs2 Hv.
  set (hs := retry_headers (attempt_count message + 1) retry_topic (error_reason_of error) (millis (w_clock w1) + delay)).
  destruct (record_for_ok retry_topic (c_value message) hs) as (r & Er & Rt & Rv & Rh);
    [by apply retry_headers_scalar|done|].
  eexists _, r. split; [|split_and!].
  - unfold _handle_message. assert (other_role consume_topic retry_topic message = false) as ->.
    { unfold other_role. rewrite Hn. simpl default. rewrite (bool_decide_true (consume_topic = consume_topic)) by done.
      apply andb_false_r. }
    eapply run_bind; [exact He|]. cbv beta iota. unfold reject. run1.
    fold (attempt_count message). rewrite Hn, Ht, (proj2 (Z.ltb_lt _ _)) by done. simpl default.
    run1. eapply run_bind; [exact (f_equal (λ x, (x, _)) Hd)|]. eapply run_bind; [apply run_reads|].
    cbv beta. eapply run_bind; [apply (run_kafka_publish _ _ _ r); [exact Hr|exact Er]|].
    run1. eapply run_bind; [rewrite Hv; apply run_lift|]. reflexivity.
  - done.
  - done.
  - intros partition offset w3. unfold _handle_message.
    assert (other_role consume_topic retry_topic (consumed_of partition offset r) = true) as ->; [|done].
    unfold other_role. simpl. rewrite Rh, Rt, bool_decide_true by done. simpl. by rewrite bool_decide_false.
Qed.
End theorems.

(** What is assumed of the C library's [pow]: a nonnegative finite base gives no NaN
    and no negative number. *)
Definition pow_nonneg (pow : float → float → float) : Prop :=
  ∀ x y, is_finite x = true → sign_of x = false → is_finite y = true →
    is_nan (pow x y) = false ∧ sign_of (pow x y) = false.

(** A setting that is a finite number and not negative. *)
Definition sane (x : float) : Prop := is_finite x = true ∧ sign_of x = false.

Lemma sane_not_nan x : sane x → is_nan x = false.
Proof. intros [H _]. by destruct x. Qed.

Lemma f_pow_int_sane pow x n p : pow_nonneg pow → sane x → f_pow_int pow x n = Ok p → sane p.
Proof.
  intros Hpow [Fx Sx]. unfold f_pow_int. destruct (f_of_int n) as [y|] eqn:Ey; [|done].
  pose proof (f_of_int_finite _ _ Ey) as Fy.
  destruct (is_zero y); [by intros [= <-]|]. destruct (is_nan x) eqn:Nx; [by destruct x|].
  destruct (is_inf x) eqn:Ix; [by destruct x|]. destruct (is_zero x); [by destruct (Z.odd n); intros [= <-]|].
  destruct (SFeqb x f_one); [by intros [= <-]|]. rewrite Sx. simpl.
  assert (SFabs x = x) as ->. { destruct x as [| | |s m e]; simpl in *; by subst. }
  destruct (Hpow x y Fx Sx Fy) as [Np Sp]. destruct (is_inf (pow x y)) eqn:Ip; [done|].
  intros [= <-]. split; [|done]. by destruct (pow x y).
Qed.

Section backoff.
Variable pow : float → float → float.

(** The back-off is bounded and never negative. For finite settings that are not
    negative the computed delay is a number, at least zero and at most the configured
    maximum (an overflow of the power is an exception, not a delay). *)
Theorem backoff_bounded n base multiplier max_seconds delay :
  pow_nonneg pow → sane base → sane multiplier → sane max_seconds →
  _compute_retry_backoff_seconds pow n base multiplier max_seconds = Ok delay →
  is_nan delay = false ∧ sign_of delay = false ∧ f_le delay max_seconds = true ∧ 0 ≤ f_trunc delay.
Proof.
  intros Hpow Hb Hm Hx. unfold _compute_retry_backoff_seconds.
  intros (p & Hp & [= <-])%result_bind_ok. apply f_pow_int_sane in Hp as [Fp Sp]; [|done|done].
  destruct Hb as [Fb Sb], Hx as [Fx Sx].
  pose proof (f_mul_not_nan base p Fb Fp) as Nm. assert (is_nan max_seconds = false) as Nx by by destruct max_seconds.
  assert (sign_of (f_min (f_mul base p) max_seconds) = false) as S by by apply f_min_sign; [apply f_mul_nonneg|].
  split_and!; [by apply f_min_not_nan|done|by apply f_min_le|by apply f_trunc_nonneg].
Qed.
End backoff.

(** ** The hypotheses can hold *)

Definition failing_role : WorkerRole := λ _, mret (false, Some (u "boom")).
Definition demo_value : json := JDict [(u "job_id", JStr demo_id)].
Definition demo_consumed : consumed := MkConsumed (u "request-topic") 0 5 demo_value None.
Definition demo_w : world := world_of calm_env empty_db.

Lemma demo_scalar s : forallb (λ c, (c <? 0x110000)%N && negb (is_surrogate c)) s = true → Forall scalar s.
Proof.
  intros H. apply Forall_forall. intros c Hc. rewrite forallb_forall in H. apply list_elem_of_In in Hc.
  specialize (H c Hc). apply andb_true_iff in H as [H1 H2]. split; [by apply N.ltb_lt|by apply negb_true_iff].
Qed.

Lemma demo_delays : delays_ok default_settings (env_pow calm_env).
Proof.
  intros n Hn. change (1 ≤ n ≤ 3) in Hn. assert (n = 1 ∨ n = 2 ∨ n = 3) as [-> | [-> | ->]] by lia;
    vm_compute; reflexivity.
Qed.

Lemma printable_small z : 0 ≤ z ≤ 1000 → printable (Z.abs_N z).
Proof.
  intros H. unfold printable. apply N.lt_le_trans with (10 ^ 4)%N; [lia|]. apply N.pow_le_mono_r; [done|].
  by vm_compute.
Qed.

Lemma retries_end_in_dlq_witness :
  ∃ w' rs, attempts (WR := failing_role) (u "request-topic") (u "retry-topic") default_settings 4 demo_consumed demo_w
      = (Ok tt, w')
    ∧ w_kafka w' = rs
    ∧ routed <$> rs = [(u "retry-topic", 1); (u "retry-topic", 2); (u "retry-topic", 3); (u "dlq-topic", 3)].
Proof.
  destruct (retries_end_in_dlq (WR := failing_role) (u "request-topic") (u "retry-topic") default_settings demo_value
    (Some (u "boom")) [(u "job_id", JStr demo_id)] demo_consumed demo_w) as (w' & rs & E & K & _ & R).
  - intros w. exists w. done.
  - apply calm_env_calm.
  - apply demo_delays.
  - by apply demo_scalar.
  - by apply demo_scalar.
  - done.
  - done.
  - by apply printable_small.
  - done.
  - done.
  - done.
  - done.
  - exists w', rs. split; [exact E|split; [exact K|exact R]].
Defined.

Lemma headers_round_trip_witness :
  ∃ r, record_for (u "t") JNull (Some [(u "a", u "x"); (u "b", [0x1F600]%N)]) = Ok r
    ∧ dict_lookup (_decode_headers (delivered (r_headers r))) (u "b") = Some [0x1F600%N].
Proof.
  destruct (headers_round_trip (u "t") JNull [(u "a", u "x"); (u "b", [0x1F600]%N)]) as (r & Er & H).
  - repeat constructor; simpl; by apply demo_scalar.
  - repeat constructor; vm_compute; set_solver.
  - done.
  - exists r. split; [exact Er|apply H].
Defined.

Definition demo_orphan : consumed := MkConsumed (u "retry-topic") 0 9 demo_value None.

Lemma retry_without_origin_lost_witness :
  ∃ w2 r, _handle_message (WR := failing_role) (EP := KafkaEventPublisher) (u "request-topic") (u "retry-topic")
      default_settings demo_orphan demo_w = (Ok tt, w2)
    ∧ w_kafka w2 = [r]
    ∧ _handle_message (WR := failing_role) (EP := KafkaEventPublisher) (u "request-topic") (u "retry-topic")
      default_settings (consumed_of 0 10 r) w2 = (Ok tt, w2).
Proof.
  destruct (retry_without_origin_lost (WR := failing_role) (u "request-topic") (u "retry-topic") default_settings
    demo_orphan (Some (u "boom")) demo_w demo_w 1000 [(u "job_id", JStr demo_id)]) as (w2 & r & E & K & _ & H).
  - done.
  - done.
  - done.
  - split; [reflexivity|apply calm_env_calm].
  - done.
  - vm_compute. reflexivity.
  - by apply demo_scalar.
  - by apply demo_scalar.
  - done.
  - exists w2, r. split; [exact E|split; [exact K|apply H]].
Defined.

(** A [pow] that satisfies the assumption. *)
Lemma backoff_bounded_witness :
  _compute_retry_backoff_seconds (λ x _, x) 3 (f_of 1 0) (f_of 2 0) (f_of 30 0) = Ok (f_of 2 0)
  ∧ f_le (f_of 2 0) (f_of 30 0) = true.
Proof.
  assert (_compute_retry_backoff_seconds (λ x _, x) 3 (f_of 1 0) (f_of 2 0) (f_of 30 0) = Ok (f_of 2 0)) as E
    by (vm_compute; reflexivity).
  split; [exact E|].
  apply (backoff_bounded (λ x _, x) 3 (f_of 1 0) (f_of 2 0) (f_of 30 0) (f_of 2 0)); [|done..|exact E].
  intros x y Fx Sx _. split; [by destruct x|done].
Defined.
