(* ===== verification/Consumer.v ===== *)
(** * The consumer loop: [app/workers/runner.py], partitions and offsets

    [_consume_partition] handles the messages of one partition in order and stops
    at the first that is not due yet or cannot be handled, to which it rewinds;
    [poll_turn] is one turn of the loop of [run_worker]: resume what is due, poll,
    consume each partition, commit the offsets. The Kafka client is an interface. *)
From Stdlib Require Import Sorted.
From S2P Require Import Prelude PyStr PyFloat Json Domain Database World Effects Ports Fixtures Messaging Settings Retry.
#[local] Open Scope Z_scope.

(** A topic partition. *)
Abbreviation tp := (pystr * Z)%type.

(** ** The client: an interface *)

(** What the loop relies on of [AIOKafkaConsumer]: positions and pauses are kept
    per partition; [getmany] returns, for partitions that are not paused, the
    messages from the position on, in order and without leaving one out, and moves
    the position behind them. [in_log] is what a partition holds. *)
Class KafkaConsumer := {
  consumer : Type;
  position : consumer → tp → Z;
  is_paused : consumer → tp → bool;
  committed : consumer → tp → option Z;
  seek : tp → Z → consumer → consumer;
  pause : tp → consumer → consumer;
  resume : tp → consumer → consumer;
  commit_offsets : list (tp * Z) → consumer → consumer;
  getmany : Z → consumer → list (tp * list consumed) * consumer;
  in_log : tp → consumed → Prop;

  seek_law p o c p' :
    position (seek p o c) p' = (if decide (p' = p) then o else position c p')
    ∧ is_paused (seek p o c) p' = is_paused c p' ∧ committed (seek p o c) p' = committed c p';
  pause_law p c p' :
    position (pause p c) p' = position c p'
    ∧ is_paused (pause p c) p' = (if decide (p' = p) then true else is_paused c p')
    ∧ committed (pause p c) p' = committed c p';
  resume_law p c p' :
    position (resume p c) p' = position c p'
    ∧ is_paused (resume p c) p' = (if decide (p' = p) then false else is_paused c p')
    ∧ committed (resume p c) p' = committed c p';
  commit_law offsets c p :
    NoDup offsets.*1 →
    position (commit_offsets offsets c) p = position c p
    ∧ is_paused (commit_offsets offsets c) p = is_paused c p
    ∧ (∀ o, (p, o) ∈ offsets → committed (commit_offsets offsets c) p = Some o)
    ∧ (p ∉ offsets.*1 → committed (commit_offsets offsets c) p = committed c p);
  getmany_keys n c : NoDup (getmany n c).1.*1;
  getmany_paused n c p : is_paused (getmany n c).2 p = is_paused c p;
  getmany_committed n c p : committed (getmany n c).2 p = committed c p;
  getmany_polled n c p ms :
    (p, ms) ∈ (getmany n c).1 →
    is_paused c p = false
    ∧ StronglySorted (λ m m', c_offset m < c_offset m') ms
    ∧ Forall (λ m, (c_topic m, c_partition m) = p ∧ position c p ≤ c_offset m < position (getmany n c).2 p) ms
    ∧ (∀ m, in_log p m → position c p ≤ c_offset m < position (getmany n c).2 p → m ∈ ms);
  getmany_forward n c p : position c p ≤ position (getmany n c).2 p;
  getmany_other n c p : p ∉ (getmany n c).1.*1 → position (getmany n c).2 p = position c p;
}.

Section consumer.
Context {RS : RedisServer} {WR : WorkerRole} {EP : EventPublisher} {KC : KafkaConsumer}.
Variables (consume_topic retry_topic : pystr) (settings : Settings).

(** The consumer and [paused_until]. *)
Record kstate := MkKstate { k_consumer : consumer; paused_until : gmap tp Z }.

(** One step of [_resume_due_partitions]: [paused_until.pop(tp)], [consumer.resume(tp)]. *)
Definition resume_one (st : kstate) (p : tp) : kstate :=
  MkKstate (resume p (k_consumer st)) (delete p (paused_until st)).

(** The partitions whose back-off is over. *)
Definition due_partitions (now : Z) (st : kstate) : list tp :=
  (filter (λ kv, kv.2 ≤ now) (map_to_list (paused_until st))).*1.

(** [_resume_due_partitions] *)
Definition _resume_due_partitions (now : Z) (st : kstate) : kstate :=
  foldl resume_one st (due_partitions now st).

(** The time a message is not to be handled before, if it is not due. *)
Definition deferred_until (now : Z) (message : consumed) : option Z :=
  if decide (c_topic message = retry_topic) then
    let due_at := _retry_due_at (_decode_headers (c_headers message)) in
    if now <? due_at then Some due_at else None
  else None.

(** [consumer.seek(tp, offset)] *)
Definition rewind (p : tp) (message : consumed) (st : kstate) : kstate :=
  MkKstate (seek p (c_offset message) (k_consumer st)) (paused_until st).

(** [seek], [pause] and [paused_until[tp] = due_at] *)
Definition defer (p : tp) (message : consumed) (due_at : Z) (st : kstate) : kstate :=
  MkKstate (pause p (seek p (c_offset message) (k_consumer st))) (<[p := due_at]> (paused_until st)).

(** The loop of [_consume_partition]. *)
Fixpoint consume_from (p : tp) (messages : list consumed) (commit_offset : option Z) (st : kstate)
    : M (option Z * kstate) :=
  match messages with
  | [] => mret (commit_offset, st)
  | message :: messages' =>
      now ← _now_ms;
      match deferred_until now message with
      | Some due_at => inc RETRY_DEFERRED_TOTAL ;; mret (commit_offset, defer p message due_at st)
      | None =>
          ok ← try_except (_handle_message consume_topic retry_topic settings message ;; mret true)
                          (λ _, mret false);
          if ok : bool then consume_from p messages' (Some (c_offset message + 1)) st
          else mret (commit_offset, rewind p message st)
      end
  end.

(** [_consume_partition] *)
Definition _consume_partition (p : tp) (messages : list consumed) (st : kstate) : M (option Z * kstate) :=
  consume_from p messages None st.

(** [asyncio.gather] over the polled partitions, one after the other: each
    touches only its own partition. *)
Fixpoint gather (polled : list (tp * list consumed)) (st : kstate) : M (list (tp * option Z) * kstate) :=
  match polled with
  | [] => mret ([], st)
  | (p, messages) :: polled' =>
      '(offset, st) ← (_consume_partition p messages st : M (option Z * kstate));
      '(results, st) ← (gather polled' st : M (list (tp * option Z) * kstate));
      mret ((p, offset) :: results, st)
  end.

(** [{tp: offset for tp, offset in results if offset is not None}] *)
Definition offsets_of (results : list (tp * option Z)) : list (tp * Z) :=
  omap (λ r, (λ o, (r.1, o)) <$> r.2) results.

Definition max_records : Z :=
  if kafka_consumer_batch_enabled settings then Z.max 1 (kafka_consumer_batch_max_records settings) else 1.

(** One turn of the loop. A failing commit ends the worker. *)
Definition poll_turn (st : kstate) : M kstate :=
  now ← _now_ms;
  let st := _resume_due_partitions now st in
  let '(polled, c) := getmany max_records (k_consumer st) in
  let st := MkKstate c (paused_until st) in
  match polled with
  | [] => mret st
  | _ =>
      '(results, st) ← (gather polled st : M (list (tp * option Z) * kstate));
      match offsets_of results with
      | [] => mret st
      | offsets =>
          external (mret tt) ;;
          mret (MkKstate (commit_offsets offsets (k_consumer st)) (paused_until st))
      end
  end.

(** ** One partition *)

(** A run of [_handle_message] over due messages, all of which return. *)
Inductive handles : list consumed → world → world → Prop :=
  | handles_nil w : handles [] w w
  | handles_cons m ms w w1 w2 :
      deferred_until (millis (w_clock w)) m = None →
      _handle_message consume_topic retry_topic settings m w = (Ok tt, w1) →
      handles ms w1 w2 → handles (m :: ms) w w2.

(** Why a partition stopped before [m], in world [w]. *)
Definition stops (p : tp) (m : consumed) (w : world) (st st' : kstate) : Prop :=
  (∃ due, deferred_until (millis (w_clock w)) m = Some due ∧ st' = defer p m due st)
  ∨ (deferred_until (millis (w_clock w)) m = None ∧
     (∃ e, (_handle_message consume_topic retry_topic settings m w).1 = Raise e) ∧ st' = rewind p m st).

(** The offset to commit after a handled prefix. *)
Definition prefix_offset (start : option Z) (handled : list consumed) : option Z :=
  match last handled with Some m => Some (c_offset m + 1) | None => start end.

Lemma prefix_offset_cons start m ms :
  prefix_offset (Some (c_offset m + 1)) ms = prefix_offset start (m :: ms).
Proof. unfold prefix_offset. destruct ms as [|m' ms]; [done|]. by rewrite !last_cons; destruct (last ms). Qed.

Lemma run_consume_from p ms start st w :
  ∃ ms1 ms2 w1 st' w',
    consume_from p ms start st w = (Ok (prefix_offset start ms1, st'), w')
    ∧ ms = ms1 ++ ms2 ∧ handles ms1 w w1
    ∧ match ms2 with [] => st' = st | m :: _ => stops p m w1 st st' end.
Proof.
  revert start w. induction ms as [|m ms IH]; intros start w.
  { exists [], [], w, st, w. split_and!; [done|done|constructor|done]. }
  cbn [consume_from]. rewrite (bind_ok _now_ms _ w (millis (w_clock w)) w eq_refl). cbv beta.
  destruct (deferred_until (millis (w_clock w)) m) as [due|] eqn:Ed.
  { exists [], (m :: ms), w, (defer p m due st). eexists. split_and!; [reflexivity|done|constructor|].
    left. by exists due. }
  destruct (_handle_message consume_topic retry_topic settings m w) as [[[]|e] w1] eqn:Em.
  - erewrite bind_ok; [|apply run_try_ok; eapply run_bind; [exact Em|reflexivity]]. cbv iota.
    destruct (IH (Some (c_offset m + 1)) w1) as (ms1 & ms2 & w2 & st' & w' & E & -> & H & S).
    exists (m :: ms1), ms2, w2, st', w'. rewrite <- (prefix_offset_cons start). split_and!; [done|done|by econstructor|done].
  - erewrite bind_ok; [|eapply run_try_raise; [eapply run_bind_raise; exact Em|reflexivity]]. cbv iota.
    exists [], (m :: ms), w, (rewind p m st). eexists. split_and!; [reflexivity|done|constructor|].
    right. split_and!; [done|exists e; by rewrite Em|done].
Qed.

(** The run of a turn: the messages handled in it, in order, among failed attempts
    and deferrals. *)
Inductive trace : list consumed → world → world → Prop :=
  | trace_nil w : trace [] w w
  | trace_handled m hs w w1 w2 :
      _handle_message consume_topic retry_topic settings m w = (Ok tt, w1) → trace hs w1 w2 → trace (m :: hs) w w2
  | trace_failed m e hs w w1 w2 :
      _handle_message consume_topic retry_topic settings m w = (Raise e, w1) → trace hs w1 w2 → trace hs w w2
  | trace_deferred hs w w2 :
      trace hs (inc RETRY_DEFERRED_TOTAL w).2 w2 → trace hs w w2.

Lemma trace_app hs1 hs2 w w1 w2 : trace hs1 w w1 → trace hs2 w1 w2 → trace (hs1 ++ hs2) w w2.
Proof. induction 1; intros; simpl; eauto using trace. Qed.

(** Where a partition stands after some of its messages were handled. *)
Definition stands (rest : list consumed) (at_end : Z) : Z :=
  match rest with [] => at_end | m :: _ => c_offset m end.

(** Nothing changes for a partition between two states. *)
Definition untouched (p : tp) (st st' : kstate) : Prop :=
  position (k_consumer st') p = position (k_consumer st) p
  ∧ is_paused (k_consumer st') p = is_paused (k_consumer st) p
  ∧ paused_until st' !! p = paused_until st !! p.

#[global] Instance untouched_preorder p : PreOrder (untouched p).
Proof. split; [by intros st|]. intros s1 s2 s3 (?&?&?) (?&?&?). split_and!; congruence. Qed.

Lemma rewind_facts p m st p' :
  position (k_consumer (rewind p m st)) p' = (if decide (p' = p) then c_offset m else position (k_consumer st) p')
  ∧ committed (k_consumer (rewind p m st)) p' = committed (k_consumer st) p'
  ∧ (p' ≠ p → untouched p' st (rewind p m st)).
Proof.
  destruct (seek_law p (c_offset m) (k_consumer st) p') as (H1 & H2 & H3). unfold rewind, untouched. simpl.
  split_and!; [done|done|]. intros Hne. by rewrite H1, H2, decide_False.
Qed.

Lemma defer_facts p m due st p' :
  position (k_consumer (defer p m due st)) p' = (if decide (p' = p) then c_offset m else position (k_consumer st) p')
  ∧ committed (k_consumer (defer p m due st)) p' = committed (k_consumer st) p'
  ∧ (p' ≠ p → untouched p' st (defer p m due st)).
Proof.
  destruct (seek_law p (c_offset m) (k_consumer st) p') as (H1 & H2 & H3).
  destruct (pause_law p (seek p (c_offset m) (k_consumer st)) p') as (P1 & P2 & P3). unfold defer, untouched. simpl.
  rewrite P1, P2, P3, H1, H2, H3. split_and!; [done|done|]. intros Hne. by rewrite !decide_False, lookup_insert_ne.
Qed.

Lemma run_consume_partition p ms start st w :
  ∃ ms1 ms2 st' w',
    consume_from p ms start st w = (Ok (prefix_offset start ms1, st'), w')
    ∧ ms = ms1 ++ ms2 ∧ trace ms1 w w'
    ∧ position (k_consumer st') p = stands ms2 (position (k_consumer st) p)
    ∧ (∀ p', committed (k_consumer st') p' = committed (k_consumer st) p')
    ∧ (∀ p', p' ≠ p → untouched p' st st').
Proof.
  revert start w. induction ms as [|m ms IH]; intros start w.
  { exists [], [], st, w. split_and!; [done|done|constructor|done|done|done]. }
  cbn [consume_from]. rewrite (bind_ok _now_ms _ w (millis (w_clock w)) w eq_refl). cbv beta.
  destruct (deferred_until (millis (w_clock w)) m) as [due|] eqn:Ed.
  { exists [], (m :: ms), (defer p m due st). eexists.
    split_and!; [reflexivity|done|apply trace_deferred, trace_nil| | |].
    - destruct (defer_facts p m due st p) as (-> & _ & _). by rewrite decide_True.
    - intros p'. by destruct (defer_facts p m due st p') as (_ & ? & ?).
    - intros p'. by destruct (defer_facts p m due st p') as (_ & ? & ?). }
  destruct (_handle_message consume_topic retry_topic settings m w) as [[[]|e] w1] eqn:Em.
  - erewrite bind_ok; [|apply run_try_ok; eapply run_bind; [exact Em|reflexivity]]. cbv iota.
    destruct (IH (Some (c_offset m + 1)) w1) as (ms1 & ms2 & st' & w' & E & -> & H & S & C & U).
    exists (m :: ms1), ms2, st', w'. rewrite <- (prefix_offset_cons start).
    split_and!; [done|done|by econstructor|done|done|done].
  - erewrite bind_ok; [|eapply run_try_raise; [eapply run_bind_raise; exact Em|reflexivity]]. cbv iota.
    exists [], (m :: ms), (rewind p m st). eexists.
    split_and!; [reflexivity|done|eapply trace_failed; [exact Em|apply trace_nil]| | |].
    + destruct (rewind_facts p m st p) as (-> & _ & _). by rewrite decide_True.
    + intros p'. by destruct (rewind_facts p m st p') as (_ & ? & ?).
    + intros p'. by destruct (rewind_facts p m st p') as (_ & ? & ?).
Qed.

(** What one partition of a gathered turn has come to. *)
Definition settled (st st' : kstate) (hs : list consumed) (results : list (tp * option Z)) (p : tp)
    (ms : list consumed) : Prop :=
  ∃ ms1 ms2, ms = ms1 ++ ms2 ∧ (∀ m, m ∈ ms1 → m ∈ hs) ∧ (p, prefix_offset None ms1) ∈ results
    ∧ position (k_consumer st') p = stands ms2 (position (k_consumer st) p).

Lemma run_gather polled st w :
  NoDup polled.*1 →
  ∃ results st' w' hs, gather polled st w = (Ok (results, st'), w') ∧ trace hs w w'
    ∧ results.*1 = polled.*1
    ∧ (∀ p ms, (p, ms) ∈ polled → settled st st' hs results p ms)
    ∧ (∀ p, committed (k_consumer st') p = committed (k_consumer st) p)
    ∧ (∀ p, p ∉ polled.*1 → untouched p st st').
Proof.
  revert st w. induction polled as [|[p ms] polled IH]; intros st w Hnd.
  { exists [], st, w, []. split_and!; [done|constructor|done|by intros ?? ?%elem_of_nil|done|done]. }
  rewrite fmap_cons in Hnd. apply NoDup_cons in Hnd as [Hp Hnd]. simpl in Hp.
  destruct (run_consume_partition p ms None st w) as (ms1 & ms2 & st1 & w1 & E1 & Ems & T1 & S1 & C1 & U1).
  destruct (IH st1 w1 Hnd) as (results & st2 & w2 & hs & E2 & T2 & K2 & P2 & C2 & U2).
  exists ((p, prefix_offset None ms1) :: results), st2, w2, (ms1 ++ hs). split_and!.
  - cbn [gather]. unfold _consume_partition. rewrite (bind_ok _ _ _ _ _ E1). cbv beta iota.
    rewrite (bind_ok _ _ _ _ _ E2). done.
  - by eapply trace_app.
  - csimpl. by rewrite K2.
  - intros p' ms' [[= -> ->]|Hin]%elem_of_cons.
    + exists ms1, ms2. split_and!; [done|set_solver|by left|]. destruct (U2 p Hp) as (-> & _ & _). done.
    + assert (p' ≠ p) as Hne by (intros ->; apply Hp, list_elem_of_fmap; by exists (p, ms')).
      destruct (P2 p' ms' Hin) as (a & b & Eab & Hh & Hr & Hs). exists a, b.
      split_and!; [done|set_solver|by right|]. rewrite Hs. by destruct (U1 p' Hne) as (-> & _ & _).
  - intros p'. by rewrite C2, C1.
  - intros p' [Hne Hn]%not_elem_of_cons. etrans; [by apply U1|by apply U2].
Qed.

(** *** Resuming *)

Lemma resume_fold_facts due st p :
  position (k_consumer (foldl resume_one st due)) p = position (k_consumer st) p
  ∧ committed (k_consumer (foldl resume_one st due)) p = committed (k_consumer st) p
  ∧ is_paused (k_consumer (foldl resume_one st due)) p
    = (if decide (p ∈ due) then false else is_paused (k_consumer st) p)
  ∧ paused_until (foldl resume_one st due) !! p = (if decide (p ∈ due) then None else paused_until st !! p).
Proof.
  revert st. induction due as [|q due IH]; intros st; simpl.
  { done. }
  destruct (IH (resume_one st q)) as (-> & -> & -> & ->). simpl.
  destruct (resume_law q (k_consumer st) p) as (-> & -> & ->). split_and!; [done|done| |].
  - destruct (decide (p ∈ due)); [by rewrite decide_True by set_solver|].
    destruct (decide (p = q)) as [->|]; [by rewrite decide_True by set_solver|by rewrite decide_False by set_solver].
  - destruct (decide (p ∈ due)); [by rewrite decide_True by set_solver|].
    destruct (decide (p = q)) as [->|]; [by rewrite lookup_delete_eq, decide_True by set_solver|].
    by rewrite lookup_delete_ne, decide_False by set_solver.
Qed.

Lemma elem_due now st p : p ∈ due_partitions now st ↔ ∃ t, paused_until st !! p = Some t ∧ t ≤ now.
Proof.
  unfold due_partitions. rewrite list_elem_of_fmap. split.
  - intros ([q t] & -> & [Hle Hin]%list_elem_of_filter). exists t. by apply elem_of_map_to_list in Hin.
  - intros (t & Hp & Hle). exists (p, t). split; [done|]. apply list_elem_of_filter. split; [done|].
    by apply elem_of_map_to_list.
Qed.

(** *** One partition of a turn *)

Lemma sorted_app_lt (ms1 ms2 : list consumed) m m' :
  StronglySorted (λ a b, c_offset a < c_offset b) (ms1 ++ ms2) → m ∈ ms1 → m' ∈ ms2 → c_offset m < c_offset m'.
Proof.
  induction ms1 as [|a ms1 IH]; intros Hs Hm Hm'; [by apply not_elem_of_nil in Hm|].
  apply StronglySorted_inv in Hs as [Hs Hall]. apply elem_of_cons in Hm as [->|Hm]; [|by apply IH].
  rewrite Forall_forall in Hall. apply Hall. set_solver.
Qed.

Lemma sorted_app_r (ms1 ms2 : list consumed) :
  StronglySorted (λ a b, c_offset a < c_offset b) (ms1 ++ ms2) → StronglySorted (λ a b, c_offset a < c_offset b) ms2.
Proof. induction ms1 as [|a ms1 IH]; [done|]. intros Hs. apply StronglySorted_inv in Hs as [Hs _]. auto. Qed.

Section partition.
Variables (p : tp) (start next : Z) (ms1 ms2 : list consumed).
Hypothesis Hsorted : StronglySorted (λ a b, c_offset a < c_offset b) (ms1 ++ ms2).
Hypothesis Hrange : Forall (λ m, start ≤ c_offset m < next) (ms1 ++ ms2).
Hypothesis Hfetch : ∀ m, in_log p m → start ≤ c_offset m < next → m ∈ ms1 ++ ms2.
Hypothesis Hforward : start ≤ next.

Lemma stands_range : start ≤ stands ms2 next ≤ next.
Proof.
  unfold stands. destruct ms2 as [|m ms]; [lia|]. rewrite Forall_forall in Hrange.
  assert (m ∈ ms1 ++ m :: ms) as Hin by set_solver. specialize (Hrange _ Hin). lia.
Qed.

Lemma stands_behind m : m ∈ ms1 → start ≤ c_offset m < stands ms2 next.
Proof.
  intros Hm. rewrite Forall_forall in Hrange. pose proof (Hrange m ltac:(set_solver)) as Hr. split; [lia|].
  unfold stands. destruct ms2 as [|m' ms]; [lia|]. eapply sorted_app_lt; [exact Hsorted|done|by left].
Qed.

Lemma stands_handled m : in_log p m → start ≤ c_offset m < stands ms2 next → m ∈ ms1.
Proof.
  intros Hin Hlt. pose proof stands_range. assert (m ∈ ms1 ++ ms2) as Hm by (apply Hfetch; [done|lia]).
  apply elem_of_app in Hm as [|Hm]; [done|]. exfalso. unfold stands in Hlt.
  apply sorted_app_r in Hsorted as Hs2. destruct ms2 as [|m' ms]; [by apply not_elem_of_nil in Hm|].
  apply StronglySorted_inv in Hs2 as [_ Hall]. apply elem_of_cons in Hm as [->|Hm]; [lia|].
  rewrite Forall_forall in Hall. specialize (Hall _ Hm). lia.
Qed.

Lemma stands_offset o : prefix_offset None ms1 = Some o → start < o ≤ stands ms2 next.
Proof.
  unfold prefix_offset. destruct (last ms1) as [m|] eqn:E; [|done]. intros [= <-].
  assert (m ∈ ms1) as Hm. { apply last_Some in E as [l ->]. set_solver. }
  pose proof (stands_behind m Hm). lia.
Qed.
End partition.

(** *** A turn *)

(** What a turn from [st] to [st'] does for the partitions, with [hs] handled in it. *)
Record turn_done (hs : list consumed) (st st' : kstate) : Prop := {
  td_forward p : position (k_consumer st) p ≤ position (k_consumer st') p;
  td_handled p m :
    in_log p m → position (k_consumer st) p ≤ c_offset m < position (k_consumer st') p → m ∈ hs;
  td_committed p o :
    committed (k_consumer st') p = Some o →
    committed (k_consumer st) p = Some o
    ∨ position (k_consumer st) p < o ≤ position (k_consumer st') p;
}.

Lemma offsets_keys results : (offsets_of results).*1 `sublist_of` results.*1.
Proof.
  apply omap_keys_sublist. intros [p [o|]] y; [by intros [= <-]|done].
Qed.

Lemma elem_offsets results p o : (p, o) ∈ offsets_of results ↔ (p, Some o) ∈ results.
Proof.
  unfold offsets_of. rewrite list_elem_of_omap. split.
  - intros ([q x] & Hin & H). simpl in H. destruct x as [x|]; [|done]. simpl in H. by simplify_eq.
  - intros Hin. by exists (p, Some o).
Qed.

(** The positions and results of a gathered turn, before the commit, from what each
    partition has come to. *)
Lemma settled_turn polled c st st' hs results :
  getmany max_records (k_consumer st) = (polled, c) →
  let st1 := MkKstate c (paused_until st) in
  results.*1 = polled.*1 →
  (∀ p ms, (p, ms) ∈ polled → settled st1 st' hs results p ms) →
  (∀ p, committed (k_consumer st') p = committed (k_consumer st1) p) →
  (∀ p, p ∉ polled.*1 → untouched p st1 st') →
  NoDup results.*1
  ∧ (∀ p, committed (k_consumer st') p = committed (k_consumer st) p)
  ∧ (∀ p, position (k_consumer st) p ≤ position (k_consumer st') p)
  ∧ (∀ p m, in_log p m → position (k_consumer st) p ≤ c_offset m < position (k_consumer st') p → m ∈ hs)
  ∧ (∀ p o, (p, Some o) ∈ results → position (k_consumer st) p < o ≤ position (k_consumer st') p).
Proof.
  intros Hg st1 K P C U. pose proof (getmany_keys max_records (k_consumer st)) as Hnd. rewrite Hg in Hnd.
  assert (∀ p ms, (p, ms) ∈ polled → ∃ ms1 ms2, ms = ms1 ++ ms2 ∧ (∀ m, m ∈ ms1 → m ∈ hs)
    ∧ (p, prefix_offset None ms1) ∈ results
    ∧ position (k_consumer st') p = stands ms2 (position c p)
    ∧ StronglySorted (λ a b, c_offset a < c_offset b) (ms1 ++ ms2)
    ∧ Forall (λ m, position (k_consumer st) p ≤ c_offset m < position c p) (ms1 ++ ms2)
    ∧ (∀ m, in_log p m → position (k_consumer st) p ≤ c_offset m < position c p → m ∈ ms1 ++ ms2)) as HP.
  { intros p ms Hin. destruct (P p ms Hin) as (ms1 & ms2 & -> & Hh & Hr & Hs). exists ms1, ms2.
    pose proof (getmany_polled max_records (k_consumer st) p (ms1 ++ ms2)) as Hl. rewrite Hg in Hl.
    destruct (Hl Hin) as (_ & Hso & Hra & Hfe). split_and!; try done.
    eapply Forall_impl; [exact Hra|]. by intros m [_ ?]. }
  pose proof (λ p, getmany_forward max_records (k_consumer st) p) as Hfw. rewrite Hg in Hfw. simpl in Hfw.
  assert (∀ p, p ∉ polled.*1 → position (k_consumer st') p = position (k_consumer st) p) as Hother.
  { intros p Hp. destruct (U p Hp) as (-> & _ & _). pose proof (getmany_other max_records (k_consumer st) p) as Ho.
    rewrite Hg in Ho. by apply Ho. }
  split_and!; [by rewrite K| | | |].
  - intros p. rewrite C. pose proof (getmany_committed max_records (k_consumer st) p) as Hc. by rewrite Hg in Hc.
  - intros p. destruct (decide (p ∈ polled.*1)) as [Hp|Hp]; [|by rewrite Hother].
    apply list_elem_of_fmap in Hp as ([q ms] & -> & Hin). simpl. destruct (HP q ms Hin) as (ms1 & ms2 & _ & _ & _ & -> & Hso & Hra & Hfe).
    assert (position (k_consumer st) q ≤ stands ms2 (position c q) ≤ position c q) as [? _]; [|done].
    by eapply (stands_range q).
  - intros p m Hlog Hlt. destruct (decide (p ∈ polled.*1)) as [Hp|Hp]; [|rewrite Hother in Hlt by done; lia].
    apply list_elem_of_fmap in Hp as ([q ms] & -> & Hin).
    destruct (HP q ms Hin) as (ms1 & ms2 & _ & Hh & _ & Hpos & Hso & Hra & Hfe). simpl in *. rewrite Hpos in Hlt.
    apply Hh. by eapply stands_handled.
  - intros p o Hin. assert (p ∈ polled.*1) as Hp by (rewrite <- K; apply list_elem_of_fmap; by exists (p, Some o)).
    apply list_elem_of_fmap in Hp as ([q ms] & Hq & Hin2). simpl in Hq. subst q.
    destruct (HP p ms Hin2) as (ms1 & ms2 & _ & _ & Hr & -> & Hso & Hra & Hfe).
    assert (prefix_offset None ms1 = Some o) as Ho.
    { assert (NoDup results.*1) as Hndr by by rewrite K.
      apply list_elem_of_lookup in Hin as [i Hi]. apply list_elem_of_lookup in Hr as [j Hj].
      assert (i = j) as ->; [|congruence]. eapply (NoDup_lookup _ _ _ p Hndr); by rewrite list_lookup_fmap, ?Hi, ?Hj. }
    eapply (stands_offset p); done.
Qed.

(** The same of [gather]. *)
Lemma gathered polled c st w :
  getmany max_records (k_consumer st) = (polled, c) →
  let st1 := MkKstate c (paused_until st) in
  ∃ results st' w' hs, gather polled st1 w = (Ok (results, st'), w') ∧ trace hs w w'
    ∧ NoDup results.*1
    ∧ (∀ p, committed (k_consumer st') p = committed (k_consumer st) p)
    ∧ (∀ p, position (k_consumer st) p ≤ position (k_consumer st') p)
    ∧ (∀ p m, in_log p m → position (k_consumer st) p ≤ c_offset m < position (k_consumer st') p → m ∈ hs)
    ∧ (∀ p o, (p, Some o) ∈ results → position (k_consumer st) p < o ≤ position (k_consumer st') p).
Proof.
  intros Hg st1. pose proof (getmany_keys max_records (k_consumer st)) as Hnd. rewrite Hg in Hnd.
  destruct (run_gather polled st1 w Hnd) as (results & st' & w' & hs & E & T & K & P & C & U).
  exists results, st', w', hs. split; [done|]. split; [done|].
  by apply (settled_turn polled c st st' hs results Hg).
Qed.

Lemma resumed_facts now st p :
  position (k_consumer (_resume_due_partitions now st)) p = position (k_consumer st) p
  ∧ committed (k_consumer (_resume_due_partitions now st)) p = committed (k_consumer st) p.
Proof. unfold _resume_due_partitions. by destruct (resume_fold_facts (due_partitions now st) st p) as (-> & -> & _). Qed.

(** A turn that commits, and one that has nothing to commit. *)
Lemma turn_done_gathered hs st st' st'' results :
  NoDup results.*1 →
  (∀ p, committed (k_consumer st') p = committed (k_consumer st) p) →
  (∀ p, position (k_consumer st) p ≤ position (k_consumer st') p) →
  (∀ p m, in_log p m → position (k_consumer st) p ≤ c_offset m < position (k_consumer st') p → m ∈ hs) →
  (∀ p o, (p, Some o) ∈ results → position (k_consumer st) p < o ≤ position (k_consumer st') p) →
  (offsets_of results = [] ∧ st'' = st'
   ∨ st'' = MkKstate (commit_offsets (offsets_of results) (k_consumer st')) (paused_until st')) →
  turn_done hs st st''.
Proof.
  intros Hnd C F H O [[_ ->]| ->]; [split; [done|done|intros p o; rewrite C; by left]|].
  assert (NoDup (offsets_of results).*1) as Hno by (eapply sublist_NoDup; [exact Hnd|apply offsets_keys]).
  pose proof (λ p, commit_law (offsets_of results) (k_consumer st') p Hno) as Hl.
  split; simpl.
  - intros p. destruct (Hl p) as (-> & _). apply F.
  - intros p m Hin. destruct (Hl p) as (-> & _). by apply H.
  - intros p o. destruct (Hl p) as (-> & _ & Hc & Hn).
    destruct (decide (p ∈ (offsets_of results).*1)) as [Hp|Hp].
    + apply list_elem_of_fmap in Hp as ([q o'] & Hq & Hin). simpl in Hq. subst q. rewrite (Hc o' Hin).
      intros [= <-]. right. apply O. by apply elem_offsets.
    + rewrite (Hn Hp), C. by left.
Qed.

(** Resuming first makes no difference to positions and commits. *)
Lemma turn_done_resumed now hs st st'' : turn_done hs (_resume_due_partitions now st) st'' → turn_done hs st st''.
Proof.
  intros [F H C]. split.
  - intros p. rewrite <- (proj1 (resumed_facts now st p)). apply F.
  - intros p m. rewrite <- (proj1 (resumed_facts now st p)). apply H.
  - intros p o. destruct (resumed_facts now st p) as [<- <-]. apply C.
Qed.

Lemma run_turn st w st'' w'' :
  poll_turn st w = (Ok st'', w'') → ∃ hs w', trace hs w w' ∧ turn_done hs st st''.
Proof.
  unfold poll_turn. rewrite (bind_ok _now_ms _ w (millis (w_clock w)) w eq_refl). cbv beta zeta.
  set (st0 := _resume_due_partitions (millis (w_clock w)) st).
  destruct (getmany max_records (k_consumer st0)) as [polled c] eqn:Hg.
  destruct (gathered polled c st0 w Hg) as (results & st' & w' & hs & E & T & Hnd & C & F & H & O).
  intros Et. exists hs, w'. split; [done|]. apply (turn_done_resumed (millis (w_clock w))).
  apply (turn_done_gathered hs st0 st' st'' results Hnd C F H O).
  destruct polled as [|q polled].
  - injection Et as <- <-. injection E as <- <- <-. by left.
  - rewrite (bind_ok _ _ _ _ _ E) in Et. cbv beta iota in Et.
    destruct (offsets_of results) as [|o offsets]; [injection Et as <- <-; by left|right].
    unfold external, mbind, M_bind in Et. destruct (env_fate _ _); [|discriminate|discriminate].
    by injection Et as <- <-.
Qed.
End consumer.

(** ** A client over one partition *)

(** A consumer of a single partition that holds [log], for the examples. *)
Record log_consumer := MkLogConsumer { lc_position : tp → Z; lc_paused : tp → bool; lc_committed : tp → option Z }.

Section log_client.
Variables (only : tp) (log : list consumed).
Hypothesis log_sorted : StronglySorted (λ m m', c_offset m < c_offset m') log.
Hypothesis log_only : Forall (λ m, (c_topic m, c_partition m) = only) log.

Definition lc_set {A} (f : tp → A) (p : tp) (a : A) : tp → A := λ p', if decide (p' = p) then a else f p'.

(** The next [n] records of a consumer that is not paused. *)
Definition lc_next (n : Z) (c : log_consumer) : list consumed :=
  if lc_paused c only then []
  else take (Z.to_nat n) (filter (λ m, lc_position c only ≤ c_offset m) log).

Definition lc_getmany (n : Z) (c : log_consumer) : list (tp * list consumed) * log_consumer :=
  match last (lc_next n c) with
  | None => ([], c)
  | Some m => ([(only, lc_next n c)],
               MkLogConsumer (lc_set (lc_position c) only (c_offset m + 1)) (lc_paused c) (lc_committed c))
  end.

Definition lc_commit (offsets : list (tp * Z)) (c : log_consumer) : log_consumer :=
  MkLogConsumer (lc_position c) (lc_paused c)
    (foldr (λ po f, lc_set f po.1 (Some po.2)) (lc_committed c) offsets).

Lemma sorted_filter (P : consumed → Prop) `{!∀ m, Decision (P m)} (ms : list consumed) :
  StronglySorted (λ a b, c_offset a < c_offset b) ms → StronglySorted (λ a b, c_offset a < c_offset b) (filter P ms).
Proof.
  induction ms as [|m ms IH]; intros Hs; [constructor|]. apply StronglySorted_inv in Hs as [Hs Hall].
  rewrite filter_cons. destruct (decide (P m)); [|by apply IH]. constructor; [by apply IH|].
  rewrite Forall_forall in Hall |- *. intros m' [_ Hm']%list_elem_of_filter. by apply Hall.
Qed.

Lemma sorted_app_l (ms1 ms2 : list consumed) :
  StronglySorted (λ a b, c_offset a < c_offset b) (ms1 ++ ms2) → StronglySorted (λ a b, c_offset a < c_offset b) ms1.
Proof.
  induction ms1 as [|m ms1 IH]; [constructor|]. intros Hs. apply StronglySorted_inv in Hs as [Hs Hall].
  constructor; [by apply IH|]. by apply Forall_app in Hall as [? _].
Qed.

(** What a poll returns, when it returns something. *)
Lemma lc_next_last n c m :
  last (lc_next n c) = Some m →
  lc_paused c only = false
  ∧ StronglySorted (λ a b, c_offset a < c_offset b) (lc_next n c)
  ∧ Forall (λ m', lc_position c only ≤ c_offset m' < c_offset m + 1) (lc_next n c)
  ∧ (∀ m', m' ∈ log → lc_position c only ≤ c_offset m' < c_offset m + 1 → m' ∈ lc_next n c).
Proof.
  unfold lc_next. destruct (lc_paused c only); [done|].
  set (ready := filter (λ m', lc_position c only ≤ c_offset m') log). intros Hlast.
  assert (StronglySorted (λ a b, c_offset a < c_offset b) ready) as Hs by by apply sorted_filter.
  rewrite <- (take_drop (Z.to_nat n) ready) in Hs. pose proof (sorted_app_l _ _ Hs) as Ht.
  apply last_Some in Hlast as [l Hl]. split_and!; [done|done| |].
  - rewrite Forall_forall. intros m' Hm'. split.
    + assert (m' ∈ ready) as [? _]%list_elem_of_filter; [|done]. rewrite <- (take_drop (Z.to_nat n) ready). set_solver.
    + rewrite Hl in Hm', Ht. apply elem_of_app in Hm' as [Hm'|Hm']; [|set_solver by lia].
      pose proof (sorted_app_lt l [m] m' m Ht Hm' ltac:(by left)). lia.
  - intros m' Hm' Hr. assert (m' ∈ ready) as Hin by (apply list_elem_of_filter; split; [lia|done]).
    rewrite <- (take_drop (Z.to_nat n) ready) in Hin. apply elem_of_app in Hin as [|Hd]; [done|]. exfalso.
    assert (m ∈ take (Z.to_nat n) ready) as Hm by (rewrite Hl; set_solver).
    pose proof (sorted_app_lt _ _ m m' Hs Hm Hd). lia.
Qed.

Lemma lc_commit_lookup (offsets : list (tp * Z)) (f : tp → option Z) (p : tp) :
  NoDup offsets.*1 →
  (∀ o, (p, o) ∈ offsets → foldr (λ po g, lc_set g po.1 (Some po.2)) f offsets p = Some o)
  ∧ (p ∉ offsets.*1 → foldr (λ po g, lc_set g po.1 (Some po.2)) f offsets p = f p).
Proof.
  induction offsets as [|[q o'] offsets IH]; simpl; intros Hnd; [split; [intros o Hin; by apply not_elem_of_nil in Hin|done]|].
  apply NoDup_cons in Hnd as [Hq Hnd]. destruct (IH Hnd) as [I1 I2]. unfold lc_set at 1 3. split.
  - intros o [[= <- <-]|Hin]%elem_of_cons; [by rewrite decide_True|]. rewrite decide_False; [by apply I1|].
    intros ->. apply Hq, list_elem_of_fmap. by exists (q, o).
  - intros [Hne Hn]%not_elem_of_cons. rewrite decide_False by done. by apply I2.
Qed.

Lemma lc_set_eq {A} (f : tp → A) p a p' : lc_set f p a p' = if decide (p' = p) then a else f p'.
Proof. done. Qed.

#[refine] #[local] Instance log_client : KafkaConsumer := {
  consumer := log_consumer;
  position := lc_position;
  is_paused := lc_paused;
  committed := lc_committed;
  seek := λ p o c, MkLogConsumer (lc_set (lc_position c) p o) (lc_paused c) (lc_committed c);
  pause := λ p c, MkLogConsumer (lc_position c) (lc_set (lc_paused c) p true) (lc_committed c);
  resume := λ p c, MkLogConsumer (lc_position c) (lc_set (lc_paused c) p false) (lc_committed c);
  commit_offsets := lc_commit;
  getmany := lc_getmany;
  in_log := λ p m, p = only ∧ m ∈ log;
}.
Proof.
  - done.
  - done.
  - done.
  - intros offsets c p Hnd. destruct (lc_commit_lookup offsets (lc_committed c) p Hnd). by split_and!.
  - intros n c. unfold lc_getmany. destruct (last _); simpl; [apply NoDup_singleton|constructor].
  - intros n c p. unfold lc_getmany. by destruct (last _).
  - intros n c p. unfold lc_getmany. by destruct (last _).
  - intros n c p ms. unfold lc_getmany. destruct (last (lc_next n c)) as [m|] eqn:E; simpl; [|by intros ?%not_elem_of_nil].
    intros [= -> ->]%list_elem_of_singleton. rewrite lc_set_eq, decide_True by done.
    destruct (lc_next_last n c m E) as (Hp & Hs & Hr & Hf). split_and!; [done|done| |by intros m' [_ ?]; apply Hf].
    rewrite Forall_forall in Hr |- *. intros m' Hm'. split; [|by apply Hr].
    rewrite Forall_forall in log_only. apply log_only. unfold lc_next in Hm'. destruct (lc_paused c only); [set_solver|].
    apply elem_of_take in Hm' as (i & Hi & _). apply list_elem_of_lookup_2 in Hi. by apply list_elem_of_filter in Hi as [_ ?].
  - intros n c p. unfold lc_getmany. destruct (last (lc_next n c)) as [m|] eqn:E; simpl; [|done].
    rewrite lc_set_eq. destruct (decide (p = only)) as [->|]; [|done]. destruct (lc_next_last n c m E) as (_ & _ & Hr & _).
    apply last_Some in E as [l Hl]. rewrite Forall_forall in Hr. specialize (Hr m ltac:(rewrite Hl; set_solver)). lia.
  - intros n c p. unfold lc_getmany. destruct (last (lc_next n c)) as [m|]; simpl; [|done].
    rewrite lc_set_eq. intros Hp. rewrite decide_False; [done|]. intros ->. set_solver.
Defined.
End log_client.

(** ** What the loop promises *)

Section theorems.
Context {RS : RedisServer} {WR : WorkerRole} {EP : EventPublisher} {KC : KafkaConsumer}.
Variables (consume_topic retry_topic : pystr) (settings : Settings).

(** C10: no message is passed over. Whatever the handlers and the services do in a turn of
    the loop that goes through: there is a run of the messages handled in it such that
    every message of a partition's log between its old and its new position was
    handled in this run; positions only go forward; and an offset committed in the
    turn lies behind handled messages only. So a failed or deferred message is
    read again, and no commit covers it. *)
Theorem turn_skips_nothing st w st' w' :
  poll_turn consume_topic retry_topic settings st w = (Ok st', w') →
  ∃ handled w1, trace consume_topic retry_topic settings handled w w1
    ∧ (∀ p m, in_log p m → position (k_consumer st) p ≤ c_offset m < position (k_consumer st') p → m ∈ handled)
    ∧ (∀ p, position (k_consumer st) p ≤ position (k_consumer st') p)
    ∧ (∀ p o, committed (k_consumer st') p = Some o →
         committed (k_consumer st) p = Some o
         ∨ position (k_consumer st) p < o ≤ position (k_consumer st') p).
Proof. intros E. apply run_turn in E as (hs & w1 & T & [F H C]). by exists hs, w1. Qed.

(** One partition. [_consume_partition] never raises. It handles a prefix of the
    messages in order; the offset to commit is the one behind that prefix, none if it
    is empty; and the partition is left at the first message it did not handle,
    which was not due, and then it is paused until that time, or whose handling
    raised. *)
Theorem partition_prefix p messages st w :
  ∃ handled rest w1 st' w',
    _consume_partition consume_topic retry_topic settings p messages st w
      = (Ok (prefix_offset None handled, st'), w')
    ∧ messages = handled ++ rest ∧ handles consume_topic retry_topic settings handled w w1
    ∧ match rest with
      | [] => st' = st
      | m :: _ => stops consume_topic retry_topic settings p m w1 st st'
      end.
Proof. apply run_consume_from. Qed.

(** A deferred partition waits, and no longer than its message. While the time it is
    paused until has not come, a turn does not poll it; once it has come, resuming
    makes it readable again and forgets the time; other partitions are not affected. *)
Theorem deferral_is_bounded now st p :
  let st' := _resume_due_partitions now st in
  (∀ t, paused_until st !! p = Some t → now < t →
     paused_until st' !! p = Some t
     ∧ (is_paused (k_consumer st) p = true →
        is_paused (k_consumer st') p = true
        ∧ ∀ n ms, (p, ms) ∉ (getmany n (k_consumer st')).1))
  ∧ (∀ t, paused_until st !! p = Some t → t ≤ now →
     paused_until st' !! p = None ∧ is_paused (k_consumer st') p = false)
  ∧ (paused_until st !! p = None →
     paused_until st' !! p = None ∧ is_paused (k_consumer st') p = is_paused (k_consumer st) p)
  ∧ position (k_consumer st') p = position (k_consumer st) p.
Proof.
  cbv zeta. pose proof (elem_due now st p) as Hd. unfold _resume_due_partitions.
  destruct (resume_fold_facts (due_partitions now st) st p) as (-> & _ & Hpa & Hpu). rewrite Hpu.
  split_and!; [| | |done].
  - intros t Ht Hlt. assert (p ∉ due_partitions now st) as Hn by (rewrite Hd; intros (t' & ? & ?); simplify_eq; lia).
    destruct (decide (p ∈ due_partitions now st)) as [|_]; [done|].
    split; [done|]. intros Hp. rewrite Hpa. split; [done|]. intros n ms Hin.
    destruct (getmany_polled n _ p ms Hin) as [Hn' _]. congruence.
  - intros t Ht Hle. rewrite Hpa. assert (p ∈ due_partitions now st) as Hin by (rewrite Hd; eauto).
    by destruct (decide (p ∈ due_partitions now st)).
  - intros Hnone. rewrite Hpa. assert (p ∉ due_partitions now st) as Hn by (rewrite Hd; intros (t' & ? & ?); congruence).
    by destruct (decide (p ∈ due_partitions now st)).
Qed.
End theorems.

(** ** The hypotheses can hold *)

(** Two messages: the first fails and is retried, the second is no JSON object, so
    that handling it raises. *)
Definition demo_tp : tp := (u "request-topic", 0).
Definition demo_poison : consumed := MkConsumed (u "request-topic") 0 6 JNull None.
Definition demo_log : list consumed := [demo_consumed; demo_poison].

Lemma demo_log_sorted : StronglySorted (λ m m', c_offset m < c_offset m') demo_log.
Proof. repeat constructor. Qed.

Lemma demo_log_only : Forall (λ m, (c_topic m, c_partition m) = demo_tp) demo_log.
Proof. repeat constructor. Qed.

Definition demo_client : KafkaConsumer := log_client demo_tp demo_log demo_log_sorted demo_log_only.
#[local] Existing Instance demo_client.
#[local] Existing Instance failing_role.
#[local] Existing Instance KafkaEventPublisher.

Definition demo_start : kstate :=
  MkKstate (MkLogConsumer (λ _, 0) (λ _, false) (λ _, None) : consumer) ∅.

Definition demo_turn : result kstate * world :=
  poll_turn (u "request-topic") (u "retry-topic") default_settings demo_start demo_w.

Lemma turn_skips_nothing_witness :
  ∃ st' (handled : list consumed), demo_turn.1 = Ok st' ∧ position (k_consumer st') demo_tp = 6
    ∧ committed (k_consumer st') demo_tp = Some 6 ∧ demo_consumed ∈ handled.
Proof.
  destruct demo_turn as [[st'|e] w'] eqn:E.
  - destruct (turn_skips_nothing (u "request-topic") (u "retry-topic") default_settings demo_start demo_w st' w' E)
      as (handled & w1 & _ & H & _).
    assert (position (k_consumer st') demo_tp = 6 ∧ committed (k_consumer st') demo_tp = Some 6) as [Hp Hc].
    { assert (demo_turn.1 = Ok st') as E1 by by rewrite E. revert E1. vm_compute. intros [= <-]. by split. }
    exists st', handled. split; [done|]. split; [exact Hp|]. split; [exact Hc|].
    apply (H demo_tp demo_consumed); [split; [done|by left]|]. rewrite Hp. vm_compute. split; [discriminate|done].
  - exfalso. assert (is_ok demo_turn.1 = true) as H by (vm_compute; reflexivity). by rewrite E in H.
Defined.

Lemma deferral_is_bounded_witness :
  let st := MkKstate (k_consumer demo_start) {[ demo_tp := 7 ]} in
  is_paused (k_consumer (_resume_due_partitions 7 st)) demo_tp = false
  ∧ paused_until (_resume_due_partitions 6 st) !! demo_tp = Some 7.
Proof.
  cbv zeta. set (st := MkKstate _ _).
  destruct (deferral_is_bounded 7 st demo_tp) as (_ & H7 & _). destruct (deferral_is_bounded 6 st demo_tp) as (H6 & _).
  assert (paused_until st !! demo_tp = Some 7) as Hp by apply lookup_singleton_eq.
  split; [by apply (H7 7 Hp)|by apply (H6 7 Hp)].
Defined.
