(* ===== verification/Interleaving.v ===== *)
(** * The partitions of a turn, interleaved

    [asyncio.gather] runs one [_consume_partition] for each polled partition, and they
    interleave wherever one of them waits. Between two of its steps a task waits inside
    [_handle_message], where the others and the services may do anything; what the task does
    with the consumer it does without waiting. So a task is a machine with two kinds of step, to look at
    the next message at some time, and to learn that its handler returned or raised, and a
    schedule is a list of steps with these times and answers. [Consumer.gather] is one
    of the schedules. *)
From Stdlib Require Import Sorted.
From S2P Require Import Prelude PyStr PyFloat Json Domain Database World Effects Ports Fixtures Messaging Settings Retry Consumer.
#[local] Open Scope Z_scope.

(** Where a task is: at the head of the loop, inside [_handle_message], or done with the offset to
    commit. *)
Inductive task :=
  | Ready (messages : list consumed) (commit_offset : option Z)
  | Handling (message : consumed) (messages : list consumed) (commit_offset : option Z)
  | Returned (commit_offset : option Z).

(** The steps of a task: it looks at the next message, or the handler it waits for ends. *)
Inductive task_event := Begin (now : Z) | Finish (returned : bool).

(** What a step does besides: nothing, count a message as handled, or change the consumer. *)
Inductive task_effect :=
  | Stay
  | Handled (m : consumed)
  | Deferred (m : consumed) (due_at : Z)
  | Failed (m : consumed).

#[global] Instance task_event_eq : EqDecision task_event.
Proof. solve_decision. Defined.

Section tasks.
Context {KC : KafkaConsumer}.
Variable retry_topic : pystr.

(** One stretch of [_consume_partition] between two awaits. *)
Definition task_step (e : task_event) (t : task) : option (task * task_effect) :=
  match t, e with
  | Ready [] offset, Begin _ => Some (Returned offset, Stay)
  | Ready (m :: ms) offset, Begin now =>
      match deferred_until retry_topic now m with
      | Some due => Some (Returned offset, Deferred m due)
      | None => Some (Handling m ms offset, Stay)
      end
  | Handling m ms offset, Finish returned =>
      if returned then Some (Ready ms (Some (c_offset m + 1)), Handled m)
      else Some (Returned offset, Failed m)
  | _, _ => None
  end.

(** The tasks, the consumer they share, and the messages whose handler returned. *)
Record gstate := MkG { g_tasks : gmap tp task; g_consumer : kstate; g_handled : list (tp * consumed) }.

Definition apply_effect (p : tp) (eff : task_effect) (st : kstate) : kstate :=
  match eff with
  | Stay | Handled _ => st
  | Deferred m due => defer p m due st
  | Failed m => rewind p m st
  end.

Definition log_effect (p : tp) (eff : task_effect) (handled : list (tp * consumed)) : list (tp * consumed) :=
  match eff with Handled m => handled ++ [(p, m)] | _ => handled end.

Definition gstep (pe : tp * task_event) (g : gstate) : option gstate :=
  match g_tasks g !! pe.1 with
  | Some t =>
      match task_step pe.2 t with
      | Some (t', eff) =>
          Some (MkG (<[pe.1 := t']> (g_tasks g)) (apply_effect pe.1 eff (g_consumer g))
                    (log_effect pe.1 eff (g_handled g)))
      | None => None
      end
  | None => None
  end.

Fixpoint grun (es : list (tp * task_event)) (g : gstate) : option gstate :=
  match es with [] => Some g | e :: es' => gstep e g ≫= grun es' end.

(** The tasks [gather] creates. *)
Definition gather_start (polled : list (tp * list consumed)) (st : kstate) : gstate :=
  MkG (list_to_map (prod_map id (λ ms, Ready ms None) <$> polled)) st [].

(** What [gather] returns when all tasks have: their results in the order of the arguments. *)
Definition results_of (polled : list (tp * list consumed)) (g : gstate) : option (list (tp * option Z)) :=
  mapM (λ pm, match g_tasks g !! pm.1 with Some (Returned o) => Some (pm.1, o) | _ => None end) polled.

(** [if offsets: await consumer.commit(offsets)] *)
Definition commit_results (results : list (tp * option Z)) (st : kstate) : kstate :=
  match offsets_of results with
  | [] => st
  | offsets => MkKstate (commit_offsets offsets (k_consumer st)) (paused_until st)
  end.

Variable settings : Settings.

(** What a turn polls at [now], and the consumer after that. *)
Definition poll_at (now : Z) (st : kstate) : list (tp * list consumed) * kstate :=
  let st := _resume_due_partitions now st in
  let '(polled, c) := getmany (max_records settings) (k_consumer st) in
  (polled, MkKstate c (paused_until st)).

(** A turn of the loop whose tasks run as the schedule says, to their ends. *)
Definition concurrent_turn (now : Z) (es : list (tp * task_event)) (st : kstate)
    : option (list (tp * consumed) * kstate) :=
  let '(polled, st) := poll_at now st in
  g ← grun es (gather_start polled st);
  results ← results_of polled g;
  Some (g_handled g, commit_results results (g_consumer g)).

(** ** One partition of a schedule *)

(** What concerns one key of a list of pairs, in order. *)
Definition of_key {A} (p : tp) (l : list (tp * A)) : list A :=
  omap (λ pa, if decide (pa.1 = p) then Some pa.2 else None) l.

Lemma of_key_cons {A} p q (a : A) l : of_key p ((q, a) :: l) = if decide (q = p) then a :: of_key p l else of_key p l.
Proof. unfold of_key. csimpl. by destruct (decide (q = p)). Qed.

Lemma of_key_app {A} p (l k : list (tp * A)) : of_key p (l ++ k) = of_key p l ++ of_key p k.
Proof. apply omap_app. Qed.

Lemma of_key_all {A} p (l : list A) : of_key p (pair p <$> l) = l.
Proof. induction l as [|a l IH]; [done|]. rewrite fmap_cons, of_key_cons, decide_True by done. by rewrite IH. Qed.

Lemma elem_of_key {A} p (a : A) l : a ∈ of_key p l ↔ (p, a) ∈ l.
Proof.
  unfold of_key. rewrite list_elem_of_omap. split.
  - intros ([q b] & Hin & H). case_decide; simplify_eq/=. done.
  - intros Hin. exists (p, a). by rewrite decide_True.
Qed.

(** What a state shows of a partition. *)
Record view := MkView {
  v_position : Z; v_paused : bool; v_committed : option Z; v_until : option Z; v_handled : list consumed
}.

Definition kview (p : tp) (handled : list (tp * consumed)) (st : kstate) : view :=
  MkView (position (k_consumer st) p) (is_paused (k_consumer st) p) (committed (k_consumer st) p)
         (paused_until st !! p) (of_key p handled).

Definition gview (p : tp) (g : gstate) : view := kview p (g_handled g) (g_consumer g).

Definition view_effect (eff : task_effect) (v : view) : view :=
  match eff with
  | Stay => v
  | Handled m => MkView (v_position v) (v_paused v) (v_committed v) (v_until v) (v_handled v ++ [m])
  | Deferred m due => MkView (c_offset m) true (v_committed v) (Some due) (v_handled v)
  | Failed m => MkView (c_offset m) (v_paused v) (v_committed v) (v_until v) (v_handled v)
  end.

(** The same schedule for one task, on what it sees. *)
Fixpoint local_run (es : list task_event) (t : task) (v : view) : option (task * view) :=
  match es with
  | [] => Some (t, v)
  | e :: es' =>
      match task_step e t with Some (t', eff) => local_run es' t' (view_effect eff v) | None => None end
  end.

(** A step of a partition changes what it shows as [view_effect] says, and no other partition. *)
Lemma effect_view p q eff handled st :
  kview q (log_effect p eff handled) (apply_effect p eff st)
  = if decide (q = p) then view_effect eff (kview q handled st) else kview q handled st.
Proof.
  destruct eff as [|m|m due|m]; simpl; unfold kview; simpl.
  - by case_decide.
  - rewrite of_key_app, of_key_cons. destruct (decide (q = p)) as [->|Hne]; [by rewrite decide_True|].
    rewrite decide_False by congruence. by rewrite app_nil_r.
  - destruct (seek_law p (c_offset m) (k_consumer st) q) as (H1 & H2 & H3).
    destruct (pause_law p (seek p (c_offset m) (k_consumer st)) q) as (P1 & P2 & P3).
    rewrite P1, P2, P3, H1, H2, H3.
    case_decide as Hq; [subst; by rewrite lookup_insert_eq|by rewrite lookup_insert_ne].
  - destruct (seek_law p (c_offset m) (k_consumer st) q) as (-> & -> & ->). by case_decide.
Qed.

Lemma gstep_inv pe g g' :
  gstep pe g = Some g' →
  ∃ t t' eff, g_tasks g !! pe.1 = Some t ∧ task_step pe.2 t = Some (t', eff)
    ∧ g_tasks g' = <[pe.1 := t']> (g_tasks g)
    ∧ ∀ q, gview q g' = if decide (q = pe.1) then view_effect eff (gview q g) else gview q g.
Proof.
  unfold gstep. destruct (g_tasks g !! pe.1) as [t|]; [|done].
  destruct (task_step pe.2 t) as [[t' eff]|] eqn:Et; [|done]. intros [= <-].
  exists t, t', eff. split_and!; [done|done|done|]. intros q. apply effect_view.
Qed.

(** A schedule does to each partition what the partition's own steps do. *)
Lemma grun_local es g g' p :
  grun es g = Some g' →
  match g_tasks g !! p with
  | Some t => ∃ t', g_tasks g' !! p = Some t'
      ∧ local_run (of_key p es) t (gview p g) = Some (t', gview p g')
  | None => g_tasks g' !! p = None ∧ of_key p es = [] ∧ gview p g' = gview p g
  end.
Proof.
  revert g. induction es as [|[q e] es IH]; intros g; cbn [grun].
  { intros [= <-]. destruct (g_tasks g !! p); eauto. }
  intros (g1 & E1 & E2)%bind_Some. apply gstep_inv in E1 as (t & t' & eff & Ht & Es & Hts & Hv). cbn [fst snd] in *.
  specialize (IH g1 E2). specialize (Hv p). rewrite of_key_cons. rewrite Hts in IH.
  destruct (decide (q = p)) as [->|Hne].
  - rewrite decide_True in Hv by done. rewrite lookup_insert_eq, Hv in IH. rewrite Ht. simpl. by rewrite Es.
  - rewrite decide_False in Hv by congruence. by rewrite lookup_insert_ne, Hv in IH by done.
Qed.

(** *** Where a task can be *)

(** A task that has to go through [ms] from [offset] and [v] has come to [t'] and [v'] after handling
    [ms1], in order. *)
Definition progress (ms ms1 : list consumed) (offset : option Z) (v : view) (t' : task) (v' : view) : Prop :=
  v_handled v' = v_handled v ++ ms1 ∧ v_committed v' = v_committed v ∧
  match t' with
  | Ready ms2 o => ms = ms1 ++ ms2 ∧ o = prefix_offset offset ms1 ∧ v_position v' = v_position v
  | Handling m ms2 o => ms = ms1 ++ m :: ms2 ∧ o = prefix_offset offset ms1 ∧ v_position v' = v_position v
  | Returned o => ∃ ms2, ms = ms1 ++ ms2 ∧ o = prefix_offset offset ms1
      ∧ v_position v' = stands ms2 (v_position v)
  end.

Lemma prefix_offset_snoc start ms m : prefix_offset start (ms ++ [m]) = Some (c_offset m + 1).
Proof. unfold prefix_offset. by rewrite last_snoc. Qed.

Lemma progress_step ms ms1 offset v e t v1 t' eff :
  progress ms ms1 offset v t v1 → task_step e t = Some (t', eff) →
  ∃ ms1', progress ms ms1' offset v t' (view_effect eff v1).
Proof.
  unfold progress. intros (Hh & Hc & H). destruct t as [[|m ms2] o|m ms2 o|o], e as [now|returned]; simpl; try done.
  - intros [= <- <-]. destruct H as (? & ? & ?). exists ms1. simpl. split_and!; [done|done|]. by exists [].
  - destruct H as (? & ? & ?). destruct (deferred_until _ _ _) as [due|]; intros [= <- <-]; exists ms1; simpl;
      (split; [done|split; [done|]]); [by exists (m :: ms2)|done].
  - destruct H as (-> & -> & ?). destruct returned; intros [= <- <-]; simpl.
    + exists (ms1 ++ [m]). rewrite Hh, <- !app_assoc, prefix_offset_snoc. by split_and!.
    + exists ms1. split_and!; [done|done|]. by exists (m :: ms2).
Qed.

Lemma local_progress ms offset es v ms1 t v1 t' v' :
  progress ms ms1 offset v t v1 → local_run es t v1 = Some (t', v') → ∃ ms1', progress ms ms1' offset v t' v'.
Proof.
  revert ms1 t v1. induction es as [|e es IH]; intros ms1 t v1 Hp; simpl; [intros [= <- <-]; by exists ms1|].
  destruct (task_step e t) as [[t2 eff]|] eqn:E; [|done].
  destruct (progress_step _ _ _ _ _ _ _ _ _ Hp E) as (ms1' & Hp'). by apply (IH ms1').
Qed.

(** ** The tasks of a turn *)

Lemma start_lookup polled st p :
  NoDup polled.*1 →
  match g_tasks (gather_start polled st) !! p with
  | Some t => ∃ ms, (p, ms) ∈ polled ∧ t = Ready ms None
  | None => p ∉ polled.*1
  end.
Proof.
  intros Hnd. simpl. destruct (list_to_map _ !! p) as [t|] eqn:E.
  - apply elem_of_list_to_map_2, list_elem_of_fmap in E as ([q ms] & [= -> ->] & Hin). by exists ms.
  - apply not_elem_of_list_to_map in E. intros Hp. apply E. rewrite <- list_fmap_compose. done.
Qed.

Lemma start_polled polled st p ms :
  NoDup polled.*1 → (p, ms) ∈ polled → g_tasks (gather_start polled st) !! p = Some (Ready ms None).
Proof.
  intros Hnd Hin. simpl. apply elem_of_list_to_map; [by rewrite <- list_fmap_compose|].
  apply list_elem_of_fmap. by exists (p, ms).
Qed.

Lemma elem_results polled g results p o :
  results_of polled g = Some results → (p, o) ∈ results →
  p ∈ polled.*1 ∧ g_tasks g !! p = Some (Returned o).
Proof.
  intros Hr Hin. apply mapM_Some in Hr. apply list_elem_of_lookup in Hin as [i Hi].
  eapply Forall2_lookup_r in Hr as ([q ms] & Hq & H); [|exact Hi]. simpl in H.
  destruct (g_tasks g !! q) as [[| |o']|] eqn:E; try done. injection H as -> ->. split; [|done].
  apply list_elem_of_fmap. exists (p, ms). split; [done|]. by eapply list_elem_of_lookup_2.
Qed.

Lemma results_keys polled g results : results_of polled g = Some results → results.*1 = polled.*1.
Proof.
  intros Hr. apply mapM_Some in Hr. induction Hr as [|[q ms] [p o] l k H _ IH]; [done|]. csimpl. rewrite IH.
  simpl in H. destruct (g_tasks g !! q) as [[| |o']|]; try done. by injection H as -> _.
Qed.

Lemma results_returned polled g results p :
  results_of polled g = Some results → p ∈ polled.*1 → ∃ o, (p, o) ∈ results ∧ g_tasks g !! p = Some (Returned o).
Proof.
  intros Hr. rewrite <- (results_keys _ _ _ Hr). intros ([q o] & -> & Hin)%list_elem_of_fmap. exists o. split; [done|].
  by eapply elem_results.
Qed.

(** A partition whose task has run has handled a prefix of its messages, in order. *)
Lemma settled_view polled st es g p ms :
  NoDup polled.*1 → grun es (gather_start polled st) = Some g → (p, ms) ∈ polled →
  ∃ ms1 t, g_tasks g !! p = Some t ∧ progress ms ms1 None (kview p [] st) t (gview p g).
Proof.
  intros Hnd Hg Hin. pose proof (grun_local _ _ _ p Hg) as H. rewrite (start_polled _ _ _ _ Hnd Hin) in H.
  destruct H as (t & Ht & Hl). eapply (local_progress ms None) with (ms1 := []) in Hl as (ms1 & Hp).
  - by exists ms1, t.
  - done.
Qed.

Lemma other_view polled st es g p :
  NoDup polled.*1 → grun es (gather_start polled st) = Some g → p ∉ polled.*1 → gview p g = kview p [] st.
Proof.
  intros Hnd Hg Hp. pose proof (grun_local _ _ _ p Hg) as H. pose proof (start_lookup polled st p Hnd) as Hs.
  destruct (g_tasks (gather_start polled st) !! p); [|by destruct H as (_ & _ & ->)].
  destruct Hs as (ms & Hin & _). destruct Hp. apply list_elem_of_fmap. by exists (p, ms).
Qed.

(** ** The turn *)

Lemma concurrent_turn_inv now es st hs st' :
  concurrent_turn now es st = Some (hs, st') →
  ∃ polled c g results,
    getmany (max_records settings) (k_consumer (_resume_due_partitions now st)) = (polled, c)
    ∧ grun es (gather_start polled (MkKstate c (paused_until (_resume_due_partitions now st)))) = Some g
    ∧ results_of polled g = Some results ∧ NoDup polled.*1
    ∧ hs = g_handled g ∧ st' = commit_results results (g_consumer g).
Proof.
  unfold concurrent_turn, poll_at. pose proof (getmany_keys (max_records settings) (k_consumer (_resume_due_partitions now st))) as Hnd.
  destruct (getmany _ _) as [polled c]. intros (g & Hg & (results & Hr & [= <- <-])%bind_Some)%bind_Some.
  by exists polled, c, g, results.
Qed.

Lemma concurrent_settled polled c st es g results :
  NoDup polled.*1 → let st1 := MkKstate c (paused_until st) in
  grun es (gather_start polled st1) = Some g → results_of polled g = Some results →
  (∀ p ms, (p, ms) ∈ polled → settled st1 (g_consumer g) (g_handled g).*2 results p ms
     ∧ ∃ ms1 ms2, ms = ms1 ++ ms2 ∧ of_key p (g_handled g) = ms1)
  ∧ (∀ p, committed (k_consumer (g_consumer g)) p = committed (k_consumer st1) p)
  ∧ (∀ p, p ∉ polled.*1 → untouched p st1 (g_consumer g) ∧ of_key p (g_handled g) = []).
Proof.
  intros Hnd st1 Hg Hr. split_and!.
  - intros p ms Hin. destruct (settled_view _ _ _ _ _ _ Hnd Hg Hin) as (ms1 & t & Ht & Hh & _ & Hp).
    assert (p ∈ polled.*1) as Hpk by (apply list_elem_of_fmap; by exists (p, ms)).
    destruct (results_returned _ _ _ _ Hr Hpk) as (o & Ho & Ht'). rewrite Ht in Ht'. injection Ht' as ->.
    destruct Hp as (ms2 & -> & -> & Hpos). simpl in Hh, Hpos. split; [|by exists ms1, ms2].
    exists ms1, ms2. split_and!; [done| |done|done]. intros m Hm. rewrite <- Hh, elem_of_key in Hm.
    apply list_elem_of_fmap. by exists (p, m).
  - intros p. destruct (decide (p ∈ polled.*1)) as [Hp|Hp].
    + apply list_elem_of_fmap in Hp as ([q ms] & -> & Hin).
      by destruct (settled_view _ _ _ _ _ _ Hnd Hg Hin) as (ms1 & t & Ht & _ & Hc & _).
    + pose proof (other_view _ _ _ _ _ Hnd Hg Hp) as Hv. by injection Hv as _ _ ? _ _.
  - intros p Hp. pose proof (other_view _ _ _ _ _ Hnd Hg Hp) as Hv. injection Hv as ? ? ? ? ?. done.
Qed.

Lemma concurrent_done now es st hs st' :
  concurrent_turn now es st = Some (hs, st') →
  turn_done hs.*2 st st'
  ∧ ∀ p, StronglySorted (λ m m', c_offset m < c_offset m') (of_key p hs).
Proof.
  intros (polled & c & g & results & Hg & Hrun & Hr & Hnd & -> & ->)%concurrent_turn_inv.
  set (st0 := _resume_due_partitions now st) in *.
  destruct (concurrent_settled polled c st0 es g results Hnd Hrun Hr) as (P & C & U). split.
  - apply (turn_done_resumed now). fold st0.
    destruct (settled_turn settings polled c st0 (g_consumer g) (g_handled g).*2 results Hg) as (Hn & Hc & F & H & O).
    + by apply results_keys with (g := g).
    + intros p ms Hin. by apply P.
    + done.
    + intros p Hp. by apply U.
    + apply (turn_done_gathered (g_handled g).*2 st0 (g_consumer g) _ results Hn Hc F H O).
      unfold commit_results. destruct (offsets_of results); [by left|by right].
  - intros p. destruct (decide (p ∈ polled.*1)) as [Hp|Hp].
    + apply list_elem_of_fmap in Hp as ([q ms] & -> & Hin). simpl.
      destruct (P q ms Hin) as (_ & ms1 & ms2 & -> & ->).
      pose proof (getmany_polled (max_records settings) (k_consumer st0) q (ms1 ++ ms2)) as Hl. rewrite Hg in Hl.
      destruct (Hl Hin) as (_ & Hs & _). by eapply sorted_app_l.
    + destruct (U p Hp) as [_ ->]. constructor.
Qed.

(** *** Schedules that agree *)

(** What commits show depends on the offsets only. *)
Lemma commit_results_view results p handled handled' st st' :
  NoDup results.*1 → kview p handled st = kview p handled' st' →
  kview p handled (commit_results results st) = kview p handled' (commit_results results st').
Proof.
  intros Hnd Hv. assert (NoDup (offsets_of results).*1) as Hno by (eapply sublist_NoDup; [exact Hnd|apply offsets_keys]).
  unfold commit_results. destruct (offsets_of results) as [|o os] eqn:E; [done|]. rewrite <- E in *.
  destruct (commit_law (offsets_of results) (k_consumer st) p Hno) as (P1 & Q1 & C1 & N1).
  destruct (commit_law (offsets_of results) (k_consumer st') p Hno) as (P2 & Q2 & C2 & N2).
  unfold kview in *. simpl. injection Hv as H1 H2 H3 H4 H5. rewrite P1, Q1, P2, Q2. f_equal; try done.
  destruct (decide (p ∈ (offsets_of results).*1)) as [Hp|Hp]; [|by rewrite N1, N2].
  apply list_elem_of_fmap in Hp as ([q o'] & Hq & Hin). simpl in Hq. subst q.
  by rewrite (C1 o' Hin), (C2 o' Hin).
Qed.

Lemma schedules_agree polled st es es' g g' results results' :
  NoDup polled.*1 →
  grun es (gather_start polled st) = Some g → grun es' (gather_start polled st) = Some g' →
  results_of polled g = Some results → results_of polled g' = Some results' →
  (∀ p, of_key p es' = of_key p es) →
  results' = results ∧ ∀ p, gview p g' = gview p g.
Proof.
  intros Hnd Hg Hg' Hr Hr' Hes.
  assert (∀ p, g_tasks g' !! p = g_tasks g !! p ∧ gview p g' = gview p g) as Hall.
  { intros p. pose proof (grun_local _ _ _ p Hg) as H. pose proof (grun_local _ _ _ p Hg') as H'.
    rewrite Hes in H'. destruct (g_tasks (gather_start polled st) !! p) as [t|].
    - destruct H as (t1 & -> & H), H' as (t2 & -> & H'). rewrite H in H'. split; congruence.
    - destruct H as (H1 & _ & H2), H' as (H3 & _ & H4). split; congruence. }
  split; [|intros p; apply Hall].
  assert (results_of polled g' = results_of polled g) as E; [|congruence].
  unfold results_of. clear -Hall. induction polled as [|[p ms] polled IH]; [done|].
  simpl. rewrite IH. by destruct (Hall p) as [-> _].
Qed.

Lemma turns_agree now es es' st hs hs' st1 st2 :
  concurrent_turn now es st = Some (hs, st1) → concurrent_turn now es' st = Some (hs', st2) →
  (∀ p, of_key p es' = of_key p es) → ∀ p, kview p hs' st2 = kview p hs st1.
Proof.
  intros (polled & c & g & results & Hg & Hrun & Hr & Hnd & -> & ->)%concurrent_turn_inv.
  intros (polled' & c' & g' & results' & Hg' & Hrun' & Hr' & _ & -> & ->)%concurrent_turn_inv Hes p.
  rewrite Hg in Hg'. injection Hg' as <- <-.
  destruct (schedules_agree _ _ _ _ _ _ _ _ Hnd Hrun Hrun' Hr Hr' Hes) as [-> Hv].
  apply commit_results_view; [by rewrite (results_keys _ _ _ Hr)|]. apply Hv.
Qed.

(** *** One after the other is a schedule *)

Lemma grun_app es1 es2 g : grun (es1 ++ es2) g = grun es1 g ≫= grun es2.
Proof.
  revert g. induction es1 as [|e es1 IH]; intros g; simpl; [done|]. destruct (gstep e g); simpl; [apply IH|done].
Qed.

(** A step, when the task can make it. *)
Lemma grun_cons p e es tasks st handled t t' eff :
  tasks !! p = Some t → task_step e t = Some (t', eff) →
  grun ((p, e) :: es) (MkG tasks st handled)
  = grun es (MkG (<[p := t']> tasks) (apply_effect p eff st) (log_effect p eff handled)).
Proof. intros Ht Es. cbn [grun]. unfold gstep. cbn [fst snd g_tasks g_consumer g_handled]. by rewrite Ht, Es. Qed.

Section sequential.
Context {RS : RedisServer} {WR : WorkerRole} {EP : EventPublisher}.
Variable consume_topic : pystr.

Lemma sequential_partition p ms start st w o st' w' :
  consume_from consume_topic retry_topic settings p ms start st w = (Ok (o, st'), w') →
  ∃ es, ∀ tasks handled, tasks !! p = Some (Ready ms start) →
    ∃ tasks' handled', grun (pair p <$> es) (MkG tasks st handled) = Some (MkG tasks' st' handled')
      ∧ tasks' !! p = Some (Returned o) ∧ ∀ q, q ≠ p → tasks' !! q = tasks !! q.
Proof.
  revert start w. induction ms as [|m ms IH]; intros start w.
  { cbn [consume_from]. intros [= <- <- _]. exists [Begin 0]. intros tasks handled Ht. eexists _, _.
    rewrite fmap_cons, (grun_cons p (Begin 0) _ _ _ _ _ (Returned start) Stay Ht eq_refl). split; [reflexivity|].
    rewrite lookup_insert_eq. split; [done|]. intros q Hq. by rewrite lookup_insert_ne. }
  cbn [consume_from]. rewrite (bind_ok _now_ms _ w (millis (w_clock w)) w eq_refl). cbv beta.
  set (now := millis (w_clock w)). destruct (deferred_until retry_topic now m) as [due|] eqn:Ed.
  { intros [= <- <- _]. exists [Begin now]. intros tasks handled Ht. eexists _, _.
    rewrite fmap_cons, (grun_cons p _ _ _ _ _ _ (Returned start) (Deferred m due) Ht) by (simpl; by rewrite Ed).
    split; [reflexivity|]. rewrite lookup_insert_eq. split; [done|]. intros q Hq. by rewrite lookup_insert_ne. }
  assert (task_step (Begin now) (Ready (m :: ms) start) = Some (Handling m ms start, Stay)) as Eb by (simpl; by rewrite Ed).
  destruct (_handle_message consume_topic retry_topic settings m w) as [[[]|e] w1] eqn:Em.
  - erewrite bind_ok; [|apply run_try_ok; eapply run_bind; [exact Em|reflexivity]]. cbv iota.
    intros (es & Hes)%IH. exists (Begin now :: Finish true :: es). intros tasks handled Ht.
    destruct (Hes (<[p := Ready ms (Some (c_offset m + 1))]> (<[p := Handling m ms start]> tasks)) (handled ++ [(p, m)]))
      as (tasks' & handled' & E & Hp & Hq); [by rewrite lookup_insert_eq|].
    exists tasks', handled'. rewrite !fmap_cons, (grun_cons p _ _ _ _ _ _ _ _ Ht Eb).
    rewrite (grun_cons p (Finish true) _ _ _ _ (Handling m ms start) _ (Handled m) (lookup_insert_eq _ _ _) eq_refl). split; [exact E|]. split; [done|].
    intros q Hne. by rewrite Hq, !lookup_insert_ne.
  - erewrite bind_ok; [|eapply run_try_raise; [eapply run_bind_raise; exact Em|reflexivity]]. cbv iota.
    intros [= <- <- _]. exists [Begin now; Finish false]. intros tasks handled Ht. eexists _, _.
    rewrite !fmap_cons, (grun_cons p _ _ _ _ _ _ _ _ Ht Eb).
    rewrite (grun_cons p (Finish false) _ _ _ _ (Handling m ms start) _ (Failed m) (lookup_insert_eq _ _ _) eq_refl). split; [reflexivity|].
    rewrite lookup_insert_eq. split; [done|]. intros q Hq. by rewrite !lookup_insert_ne.
Qed.

Lemma sequential_gather polled st w results st' w' :
  NoDup polled.*1 →
  gather consume_topic retry_topic settings polled st w = (Ok (results, st'), w') →
  ∃ es, ∀ tasks handled, (∀ p ms, (p, ms) ∈ polled → tasks !! p = Some (Ready ms None)) →
    ∃ g, grun es (MkG tasks st handled) = Some g ∧ g_consumer g = st' ∧ results_of polled g = Some results
      ∧ ∀ q, q ∉ polled.*1 → g_tasks g !! q = tasks !! q.
Proof.
  revert st w results st' w'. induction polled as [|[p ms] polled IH]; intros st w results st' w' Hnd.
  { cbn [gather]. intros [= <- <- _]. exists []. intros tasks handled _. by eexists. }
  rewrite fmap_cons in Hnd. apply NoDup_cons in Hnd as [Hp Hnd]. simpl in Hp.
  destruct (run_consume_partition consume_topic retry_topic settings p ms None st w)
    as (ms1 & ms2 & st1 & w1 & E1 & _).
  destruct (run_gather consume_topic retry_topic settings polled st1 w1 Hnd) as (results2 & st2 & w2 & hs & E2 & _).
  cbn [gather]. unfold _consume_partition. rewrite (bind_ok _ _ _ _ _ E1). cbv beta iota.
  rewrite (bind_ok _ _ _ _ _ E2). intros [= <- <- _].
  destruct (sequential_partition _ _ _ _ _ _ _ _ E1) as (es1 & H1).
  destruct (IH _ _ _ _ _ Hnd E2) as (es2 & H2). exists ((pair p <$> es1) ++ es2). intros tasks handled Ht.
  destruct (H1 tasks handled (Ht p ms ltac:(by left))) as (tasks1 & handled1 & G1 & R1 & O1).
  destruct (H2 tasks1 handled1) as (g & G2 & Hst & R2 & O2).
  { intros q ms' Hin. rewrite O1; [apply Ht; by right|]. intros ->. apply Hp, list_elem_of_fmap. by exists (p, ms'). }
  exists g. rewrite grun_app, G1. split; [exact G2|]. split; [done|]. split.
  - unfold results_of in *. simpl. rewrite (O2 p Hp), R1. simpl. by rewrite R2.
  - intros q [Hne Hq]%not_elem_of_cons. by rewrite O2, O1.
Qed.

Lemma sequential_turn st w st' w' :
  poll_turn consume_topic retry_topic settings st w = (Ok st', w') →
  ∃ es hs, concurrent_turn (millis (w_clock w)) es st = Some (hs, st').
Proof.
  unfold poll_turn. rewrite (bind_ok _now_ms _ w (millis (w_clock w)) w eq_refl). cbv beta zeta.
  set (st0 := _resume_due_partitions (millis (w_clock w)) st).
  unfold concurrent_turn, poll_at. fold st0.
  pose proof (getmany_keys (max_records settings) (k_consumer st0)) as Hnd.
  destruct (getmany (max_records settings) (k_consumer st0)) as [polled c]. simpl in Hnd.
  destruct (run_gather consume_topic retry_topic settings polled (MkKstate c (paused_until st0)) w Hnd)
    as (results & st1 & w1 & hs & E & _).
  intros Et. destruct (sequential_gather _ _ _ _ _ _ Hnd E) as (es & Hes).
  destruct (Hes (g_tasks (gather_start polled (MkKstate c (paused_until st0)))) []) as (g & Hg & Hst & Hr & _).
  { intros p ms. by apply start_polled. }
  exists es, (g_handled g). unfold gather_start in Hg |- *. cbn [g_tasks] in Hg. rewrite Hg. simpl. rewrite Hr. simpl.
  do 2 f_equal. rewrite Hst. unfold commit_results. destruct polled as [|q polled].
  { injection E as <- <- _. by injection Et as <- _. }
  rewrite (bind_ok _ _ _ _ _ E) in Et. cbv beta iota in Et.
  destruct (offsets_of results) as [|o offsets]; [by injection Et as <- _|].
  unfold external, mbind, M_bind in Et. destruct (env_fate _ _); [|discriminate|discriminate]. by injection Et as <- _.
Qed.
End sequential.
End tasks.

(** ** A client over several partitions *)

Section logs_client.
Variable logs : gmap tp (list consumed).
Hypothesis logs_sorted : ∀ p log, logs !! p = Some log → StronglySorted (λ m m', c_offset m < c_offset m') log.
Hypothesis logs_own : ∀ p log, logs !! p = Some log → Forall (λ m, (c_topic m, c_partition m) = p) log.

(** What the next poll takes from each partition that has something to read. *)
Definition logs_next (n : Z) (c : log_consumer) : gmap tp (list consumed) :=
  map_imap (λ p log, match lc_next p log n c with [] => None | ms => Some ms end) logs.

Definition logs_position (n : Z) (c : log_consumer) (p : tp) : Z :=
  match logs_next n c !! p ≫= last with Some m => c_offset m + 1 | None => lc_position c p end.

Definition logs_getmany (n : Z) (c : log_consumer) : list (tp * list consumed) * log_consumer :=
  (map_to_list (logs_next n c), MkLogConsumer (logs_position n c) (lc_paused c) (lc_committed c)).

Lemma logs_next_lookup n c p ms :
  logs_next n c !! p = Some ms →
  ∃ log m, logs !! p = Some log ∧ ms = lc_next p log n c ∧ last ms = Some m ∧ logs_position n c p = c_offset m + 1.
Proof.
  intros Hms. assert (logs_position n c p = match last ms with Some m => c_offset m + 1 | None => lc_position c p end) as ->
    by (unfold logs_position; by rewrite Hms).
  unfold logs_next in Hms. rewrite map_lookup_imap in Hms. apply bind_Some in Hms as (log & Hlog & Hms).
  destruct (lc_next p log n c) as [|m0 ms0] eqn:E; [done|]. injection Hms as <-.
  destruct (last (m0 :: ms0)) as [m|] eqn:El; [by exists log, m|]. by apply last_None in El.
Qed.

Lemma lc_next_own n c p log : logs !! p = Some log → Forall (λ m, (c_topic m, c_partition m) = p) (lc_next p log n c).
Proof.
  intros Hlog. pose proof (logs_own _ _ Hlog) as Ho. unfold lc_next. destruct (lc_paused c p); [constructor|].
  apply Forall_take, Forall_forall. intros m [_ Hm]%list_elem_of_filter. rewrite Forall_forall in Ho. by apply Ho.
Qed.

#[refine] Definition logs_client : KafkaConsumer := {|
  consumer := log_consumer;
  position := lc_position;
  is_paused := lc_paused;
  committed := lc_committed;
  seek := λ p o c, MkLogConsumer (lc_set (lc_position c) p o) (lc_paused c) (lc_committed c);
  pause := λ p c, MkLogConsumer (lc_position c) (lc_set (lc_paused c) p true) (lc_committed c);
  resume := λ p c, MkLogConsumer (lc_position c) (lc_set (lc_paused c) p false) (lc_committed c);
  commit_offsets := lc_commit;
  getmany := logs_getmany;
  in_log := λ p m, ∃ log, logs !! p = Some log ∧ m ∈ log;
|}.
Proof.
  - done.
  - done.
  - done.
  - intros offsets c p Hnd. destruct (lc_commit_lookup offsets (lc_committed c) p Hnd). by split_and!.
  - intros n c. apply NoDup_fst_map_to_list.
  - done.
  - done.
  - intros n c p ms Hin%elem_of_map_to_list. simpl.
    destruct (logs_next_lookup n c p ms Hin) as (log & m & Hlog & -> & Hm & ->).
    destruct (lc_next_last p log (logs_sorted _ _ Hlog) (logs_own _ _ Hlog) n c m Hm) as (Hp & Hs & Hr & Hf).
    split_and!; [done|done| |intros m' (log' & Hlog' & ?); simplify_eq; by apply Hf].
    pose proof (lc_next_own n c p log Hlog) as Ho. rewrite Forall_forall in Hr, Ho |- *. auto.
  - intros n c p. simpl. destruct (logs_next n c !! p) as [ms|] eqn:E; [|unfold logs_position; by rewrite E].
    destruct (logs_next_lookup n c p ms E) as (log & m & Hlog & -> & Hm & ->).
    destruct (lc_next_last p log (logs_sorted _ _ Hlog) (logs_own _ _ Hlog) n c m Hm) as (_ & _ & Hr & _).
    apply last_Some in Hm as [l Hl]. rewrite Forall_forall in Hr. specialize (Hr m ltac:(rewrite Hl; set_solver)). lia.
  - intros n c p Hp. simpl. unfold logs_position. destruct (logs_next n c !! p) as [ms|] eqn:E; [|done].
    destruct Hp. apply list_elem_of_fmap. exists (p, ms). split; [done|]. by apply elem_of_map_to_list.
Defined.
End logs_client.

(** ** What holds in every interleaving *)

Section theorems.
Context {KC : KafkaConsumer}.
Variables (retry_topic : pystr) (settings : Settings).

(** C11: no message is passed over, however the partitions of a turn interleave and whatever
    their handlers answer. When all tasks have returned: every message of a
    partition's log between its old and its new position was handled; positions
    only go forward; an offset committed in the turn lies behind handled messages
    only; and the messages of one partition were handled in the order of their offsets. *)
Theorem interleaved_turn_skips_nothing now es st handled st' :
  concurrent_turn retry_topic settings now es st = Some (handled, st') →
  (∀ p m, in_log p m → position (k_consumer st) p ≤ c_offset m < position (k_consumer st') p → m ∈ handled.*2)
  ∧ (∀ p, position (k_consumer st) p ≤ position (k_consumer st') p)
  ∧ (∀ p o, committed (k_consumer st') p = Some o →
       committed (k_consumer st) p = Some o
       ∨ position (k_consumer st) p < o ≤ position (k_consumer st') p)
  ∧ (∀ p, StronglySorted (λ m m', c_offset m < c_offset m') (of_key p handled)).
Proof. intros H. by destruct (concurrent_done _ _ _ _ _ _ _ H) as [[F Ha C] Hs]. Qed.

(** C23: the partitions may as well be consumed one after the other. What [poll_turn], which
    runs the handlers of one partition after the other, comes to is what a schedule comes to;
    and every schedule in which each partition sees the same times and answers
    comes to the same for every partition: position, pause, time to resume,
    committed offset, and messages handled in order. *)
Theorem interleaving_irrelevant {RS : RedisServer} {WR : WorkerRole} {EP : EventPublisher} consume_topic st w st' w' :
  poll_turn consume_topic retry_topic settings st w = (Ok st', w') →
  ∃ es handled, concurrent_turn retry_topic settings (millis (w_clock w)) es st = Some (handled, st')
    ∧ ∀ es' handled' st'', (∀ p, of_key p es' = of_key p es) →
        concurrent_turn retry_topic settings (millis (w_clock w)) es' st = Some (handled', st'') →
        ∀ p, kview p handled' st'' = kview p handled st'.
Proof.
  intros H. apply sequential_turn in H as (es & handled & H). exists es, handled. split; [done|].
  intros es' handled' st'' Hes H' p. by apply (turns_agree _ _ _ _ _ _ _ _ _ _ H H').
Qed.
End theorems.

(** ** The hypotheses can hold *)

(** Two partitions: in the first a message is handled and the next fails; in the other, of the retry
    topic, the first message is handled and the next is due at time 1000. *)
Definition demo_message (topic : pystr) (offset : Z) (hs : option (list (pystr * option pybytes))) : consumed :=
  MkConsumed topic 0 offset demo_value hs.

Definition demo_tp' : tp := (u "retry-topic", 0).
Definition demo_due : list (pystr * option pybytes) := [(RETRY_AT_HEADER, Some (u "1000"))].
Definition demo_logs : gmap tp (list consumed) :=
  {[ demo_tp := [demo_message (u "request-topic") 5 None; demo_message (u "request-topic") 6 None];
     demo_tp' := [demo_message (u "retry-topic") 2 None; demo_message (u "retry-topic") 3 (Some demo_due)] ]}.

Lemma demo_logs_lookup p log :
  demo_logs !! p = Some log →
  StronglySorted (λ m m', c_offset m < c_offset m') log ∧ Forall (λ m, (c_topic m, c_partition m) = p) log.
Proof.
  unfold demo_logs. intros [[<- <-]|[_ [<- <-]%lookup_singleton_Some]]%lookup_insert_Some; split; repeat constructor.
Qed.

#[local] Instance demo_logs_client : KafkaConsumer :=
  logs_client demo_logs (λ p log H, proj1 (demo_logs_lookup p log H)) (λ p log H, proj2 (demo_logs_lookup p log H)).
#[local] Existing Instance failing_role.
#[local] Existing Instance KafkaEventPublisher.

Definition demo_begin : kstate := MkKstate (MkLogConsumer (λ _, 0) (λ _, false) (λ _, None) : consumer) ∅.

Definition demo_schedule : list (tp * task_event) :=
  [(demo_tp, Begin 5); (demo_tp', Begin 5); (demo_tp', Finish true); (demo_tp, Finish true);
   (demo_tp', Begin 6); (demo_tp, Begin 6); (demo_tp, Finish false)].

Definition demo_concurrent : option (list (tp * consumed) * kstate) :=
  concurrent_turn (u "retry-topic") default_settings 5 demo_schedule demo_begin.

Definition demo_ended : bool := match demo_concurrent with Some _ => true | None => false end.

(** What is seen of a partition after the turn: position, committed offset, time to resume. *)
Definition demo_seen (p : tp) (st : kstate) : Z * option Z * option Z :=
  (position (k_consumer st) p, committed (k_consumer st) p, paused_until st !! p).

Lemma interleaved_turn_skips_nothing_witness :
  ∃ handled st', demo_concurrent = Some (handled, st')
    ∧ c_offset <$> handled.*2 = [2; 5]
    ∧ demo_seen demo_tp st' = (6, Some 6, None) ∧ demo_seen demo_tp' st' = (3, Some 3, Some 1000)
    ∧ demo_message (u "retry-topic") 2 None ∈ handled.*2.
Proof.
  destruct demo_concurrent as [[handled st']|] eqn:E.
  - pose proof (interleaved_turn_skips_nothing (u "retry-topic") default_settings 5 demo_schedule demo_begin handled st' E)
      as (H & _).
    assert ((λ r : list (tp * consumed) * kstate, (c_offset <$> r.1.*2, demo_seen demo_tp r.2, demo_seen demo_tp' r.2))
              <$> demo_concurrent = Some ([2; 5], (6, Some 6, None), (3, Some 3, Some 1000))) as Hv
      by (vm_compute; reflexivity).
    rewrite E in Hv. cbn [fmap option_fmap option_map fst snd] in Hv.
    apply (inj Some), pair_eq in Hv as [[Ho H1]%pair_eq H2].
    exists handled, st'. split; [reflexivity|]. split; [exact Ho|]. split; [exact H1|]. split; [exact H2|].
    apply (H demo_tp'); [eexists; split; [vm_compute; reflexivity|by left]|].
    apply pair_eq in H2 as [[-> _]%pair_eq _]. vm_compute. split; [discriminate|reflexivity].
  - exfalso. assert (demo_ended = true) as H by (vm_compute; reflexivity). unfold demo_ended in H. by rewrite E in H.
Defined.

Lemma interleaving_irrelevant_witness :
  ∃ st' w' es handled,
    poll_turn (u "request-topic") (u "retry-topic") default_settings demo_begin demo_w = (Ok st', w')
    ∧ concurrent_turn (u "retry-topic") default_settings (millis (w_clock demo_w)) es demo_begin = Some (handled, st').
Proof.
  destruct (poll_turn (u "request-topic") (u "retry-topic") default_settings demo_begin demo_w) as [[st'|e] w'] eqn:E.
  - destruct (interleaving_irrelevant (u "retry-topic") default_settings (u "request-topic") demo_begin demo_w st' w' E)
      as (es & handled & H & _). exists st', w', es, handled. split; [reflexivity|exact H].
  - exfalso. assert (is_ok (poll_turn (u "request-topic") (u "retry-topic") default_settings demo_begin demo_w).1 = true)
      as H by (vm_compute; reflexivity). by rewrite E in H.
Defined.
