(* ===== verification/Processing.v ===== *)
(** * Processors: [app/adapters/processing]

    The two dummies and the GPU simulator's treatment of one request: the
    latency and the failure rate a payload may override, the result, and
    [_run_single]. Micro-batching is in [Batching]. The time a processor sleeps is
    not counted: the services are proved for any passing of time between their
    transactions. *)
From Stdlib Require Import SpecFloat.
From S2P Require Import Prelude PyStr PyFloat Json Domain World Effects Ports Fixtures Settings.
#[local] Open Scope Z_scope.

(** ** Computations that leave the stores alone *)

Section stores.
Context {RS : RedisServer}.

Lemma stores_metrics ms w : same_stores w (set_metrics ms w).
Proof. by split. Qed.
Lemma stores_inc_by m n : stays same_stores (inc_by m n).
Proof. apply stays_modify. intros w. apply stores_metrics. Qed.
Lemma stores_gauge_set m n : stays same_stores (gauge_set m n).
Proof. apply stays_modify. intros w. apply stores_metrics. Qed.
Lemma stores_gauge_set_float m x : stays same_stores (gauge_set_float m x).
Proof. apply stores_gauge_set. Qed.
Lemma stores_inc m : stays same_stores (inc m).
Proof. apply stores_inc_by. Qed.
Lemma stores_observe m : stays same_stores (observe m).
Proof. apply stores_inc_by. Qed.
End stores.

#[export] Hint Resolve stores_inc_by stores_inc stores_observe stores_gauge_set stores_gauge_set_float : mflow.

(** ** The dummies *)

Section processors.
Context {RS : RedisServer}.

(** [payload.get("input", {}).get("content", "")] *)
Definition input_content (payload : json) : result json :=
  input ← get payload (u "input") (JDict []);
  get input (u "content") (JStr []).

(** [DummyTaskProcessor.process] *)
Definition dummy_process : TaskProcessor := λ payload,
  content ← lift (input_content payload);
  n ← lift (py_len content);
  mret (JDict [(u "message", JStr (u "dummy processing completed")); (u "echo", content); (u "length", JInt n)]).

(** [DownstreamDummyProcessor]: [base_latency_ms], at least 1. *)
Definition downstream_latency (base_latency_ms : Z) : Z := Z.max 1 base_latency_ms.

(** [asyncio.sleep(n / 1000)] *)
Definition sleep_ms (n : Z) : result unit := if millis_quotient_ok n then Ok tt else Raise division_overflow.

(** [DownstreamDummyProcessor.process] *)
Definition downstream_dummy_process (base_latency_ms : Z) : TaskProcessor := λ payload,
  try_finally
    (lift (sleep_ms (downstream_latency base_latency_ms)) ;;
     request ← lift (get payload (u "request") (JDict []));
     inference_result ← lift (get payload (u "inference_result") (JDict []));
     content ← lift (input_content request);
     n ← lift (py_len content);
     mode ← lift (get inference_result (u "mode") JNull);
     mret (JDict [(u "message", JStr (u "downstream dummy completed")); (u "persisted", JBool true);
                  (u "notified", JBool true); (u "input_length", JInt n); (u "inference_mode", mode)]))
    (observe DOWNSTREAM_PROCESSING_SECONDS).

(** ** The simulator *)

(** [min(max(x, 0.0), 1.0)] *)
Definition clamp (x : float) : float := f_min (f_max x f_zero) f_one.

(** The attributes [__init__] computes from its arguments. *)
Record simulator := MkSimulator {
  permits : Z;
  _base_latency_ms : Z;
  _simulated_gpu_utilization : float;
  _failure_rate : float;
  _batch_enabled : bool;
  _batch_size : Z;
  _batch_timeout_ms : Z;
  _batch_overhead_ms : Z;
}.

Definition new_simulator (args : simulator_args) : simulator := {|
  permits := Z.max 1 (sa_max_concurrency args);
  _base_latency_ms := Z.max 1 (sa_base_latency_ms args);
  _simulated_gpu_utilization := clamp (sa_simulated_gpu_utilization args);
  _failure_rate := clamp (sa_failure_rate args);
  _batch_enabled := sa_batch_enabled args;
  _batch_size := Z.max 1 (sa_batch_size args);
  _batch_timeout_ms := Z.max 1 (sa_batch_timeout_ms args);
  _batch_overhead_ms := Z.max 0 (sa_batch_overhead_ms args);
|}.

Variable self : simulator.

(** [_resolve_latency_ms] *)
Definition _resolve_latency_ms (payload : json) : result Z :=
  options ← get payload (u "options") (JDict []);
  override_ms ← get options (u "simulate_inference_ms") JNull;
  match as_number override_ms with Some n => number_int n | None => Ok (_base_latency_ms self) end.

(** The failure rate of a payload, overridden or configured, and the one
    [_should_fail] compares with. *)
Definition configured_failure_rate (payload : json) : result float :=
  options ← get payload (u "options") (JDict []);
  override_failure_rate ← get options (u "simulate_inference_failure_rate") JNull;
  match as_number override_failure_rate with
  | Some n => number_float n
  | None => Ok (_failure_rate self)
  end.

Definition resolve_failure_rate (payload : json) : result float :=
  failure_rate ← configured_failure_rate payload; Ok (clamp failure_rate).

(** [_should_fail] *)
Definition _should_fail (payload : json) : M bool :=
  failure_rate ← lift (resolve_failure_rate payload);
  r ← random;
  mret (f_lt r failure_rate).

(** [_build_result] *)
Definition _build_result (payload : json) (latency_ms batch_size : Z) : result json :=
  content ← input_content payload;
  n ← py_len content;
  Ok (JDict [(u "message", JStr (u "gpu inference simulator completed")); (u "mode", JStr (u "simulated-gpu"));
             (u "echo", content); (u "length", JInt n); (u "simulated_latency_ms", JInt latency_ms);
             (u "simulated_gpu_utilization", JFloat (_simulated_gpu_utilization self));
             (u "simulated_batch_size", JInt batch_size)]).

Definition simulated_failure : exn := RuntimeError (u "simulated inference failure").

(** The body of [_run_single], holding the semaphore. *)
Definition infer (payload : json) : M json :=
  latency_ms ← lift (_resolve_latency_ms payload);
  lift (sleep_ms (Z.max 1 latency_ms)) ;;
  failed ← _should_fail payload;
  if failed : bool then inc INFERENCE_SIMULATED_FAILURE_TOTAL ;; raise simulated_failure
  else lift (_build_result payload latency_ms 1).

(** [_run_single] *)
Definition _run_single (payload : json) : M json :=
  observe INFERENCE_SEMAPHORE_WAIT_SECONDS ;;
  inc INFERENCE_ACTIVE_JOBS ;;
  gauge_set_float INFERENCE_SIMULATED_GPU_UTILIZATION (_simulated_gpu_utilization self) ;;
  try_finally (infer payload)
    (observe INFERENCE_PROCESSING_SECONDS ;; inc_by INFERENCE_ACTIVE_JOBS (-1)).

(** [process] of a simulator that does not batch. *)
Definition simulator_process : TaskProcessor := _run_single.
End processors.

(** ** They are processors the services can use *)

Section laws.
Context {RS : RedisServer}.

#[global] Instance dummy_laws : TaskProcessorLaws dummy_process.
Proof. intros payload. change (stays same_stores (dummy_process payload)). unfold dummy_process. stay. Qed.

#[global] Instance downstream_dummy_laws ms : TaskProcessorLaws (downstream_dummy_process ms).
Proof.
  intros payload. change (stays same_stores (downstream_dummy_process ms payload)).
  unfold downstream_dummy_process. stay.
Qed.

Lemma should_fail_stores self payload : stays same_stores (_should_fail self payload).
Proof. unfold _should_fail. stay. Qed.

Lemma infer_stores self payload : stays same_stores (infer self payload).
Proof. unfold infer. pose proof (should_fail_stores self payload). stay. Qed.

#[global] Instance simulator_laws self : TaskProcessorLaws (simulator_process self).
Proof.
  intros payload. change (stays same_stores (_run_single self payload)). unfold _run_single.
  pose proof (infer_stores self payload). stay.
Qed.
End laws.

(** ** What the simulator computes *)

(** The outcome of one request, for a draw of [random.random()]. *)
Definition single_outcome (self : simulator) (draw : float) (payload : json) : result json :=
  latency_ms ← _resolve_latency_ms self payload;
  sleep_ms (Z.max 1 latency_ms);;
  failure_rate ← resolve_failure_rate self payload;
  if f_lt draw failure_rate then Raise simulated_failure else _build_result self payload latency_ms 1.

Lemma metric_add_eq m n ms : metric_add m n ms m = ms m + n.
Proof. unfold metric_add. by rewrite decide_True. Qed.
Lemma metric_add_ne m m' n ms : m' ≠ m → metric_add m n ms m' = ms m'.
Proof. intros H. unfold metric_add. by rewrite decide_False. Qed.
Lemma metric_set_ne m m' n ms : m' ≠ m → metric_set m n ms m' = ms m'.
Proof. intros H. unfold metric_set. by rewrite decide_False. Qed.

(** Requests in flight. *)
Definition active {RS : RedisServer} (w : world) : Z := w_metrics w INFERENCE_ACTIVE_JOBS.

Section outcomes.
Context {RS : RedisServer}.
Variable self : simulator.

Lemma run_should_fail payload w :
  ∃ w', _should_fail self payload w
    = (r ← resolve_failure_rate self payload; Ok (f_lt (env_random (w_env w) (w_draws w)) r), w')
    ∧ w_metrics w' = w_metrics w ∧ same_stores w w'.
Proof.
  unfold _should_fail. destruct (resolve_failure_rate self payload) as [r|e] eqn:E.
  - eexists. split; [eapply run_bind; [apply run_lift|]; reflexivity|]. by split_and!.
  - exists w. split; [by apply run_bind_raise|by split_and!].
Qed.

Lemma lift_bind {A B} (r : result A) (k : A → M B) w :
  (lift r ≫= k) w = match r with Ok a => k a w | Raise e => (Raise e, w) end.
Proof. by destruct r. Qed.

Lemma run_infer payload w :
  ∃ w', infer self payload w = (single_outcome self (env_random (w_env w) (w_draws w)) payload, w')
    ∧ active w' = active w ∧ same_stores w w'.
Proof.
  unfold infer, single_outcome. rewrite lift_bind.
  destruct (_resolve_latency_ms self payload) as [l|e]; [|exists w; by split_and!].
  rewrite lift_bind. simpl. destruct (sleep_ms (Z.max 1 l)) as [[]|e]; [|exists w; by split_and!].
  destruct (run_should_fail payload w) as (w1 & E1 & M1 & S1). simpl.
  destruct (resolve_failure_rate self payload) as [r|e]; simpl in *.
  2: { exists w1. split; [apply run_bind_raise, E1|]. split; [unfold active; by rewrite M1|done]. }
  rewrite (bind_ok _ _ _ _ _ E1). destruct (f_lt _ r).
  - eexists. split; [eapply run_bind; [apply run_inc|]; reflexivity|].
    split; [unfold active; simpl; by rewrite M1|]. etrans; [exact S1|apply stores_metrics].
  - exists w1. split; [done|]. split; [unfold active; by rewrite M1|done].
Qed.

Lemma run_single_eq payload w :
  ∃ w', _run_single self payload w = (single_outcome self (env_random (w_env w) (w_draws w)) payload, w')
    ∧ active w' = active w ∧ same_stores w w'.
Proof.
  unfold _run_single. set (ms := λ w0 : world, metric_add INFERENCE_SEMAPHORE_WAIT_SECONDS 1 (w_metrics w0)).
  set (w1 := set_metrics (metric_set INFERENCE_SIMULATED_GPU_UTILIZATION
    (f_trunc (f_mul (_simulated_gpu_utilization self) (f_of 1000000 0)))
    (metric_add INFERENCE_ACTIVE_JOBS 1 (ms w))) w).
  destruct (run_infer payload w1) as (w2 & E2 & A2 & S2). eexists. split; [|split].
  - eapply run_bind; [apply run_observe|]. eapply run_bind; [apply run_inc|].
    eapply run_bind; [apply run_gauge_set|]. eapply run_try_finally; [exact E2|].
    eapply run_bind; [apply run_observe|]. apply run_inc_by.
  - unfold active in *. simpl w_metrics in *. rewrite metric_add_eq, metric_add_ne, A2 by done.
    rewrite metric_set_ne, metric_add_eq by done. unfold ms. rewrite metric_add_ne by done. lia.
  - etrans; [apply (stores_metrics (w_metrics w1) w)|]. etrans; [exact S2|].
    etrans; [apply stores_metrics|]. apply stores_metrics.
Qed.

Lemma clamp_bounds x :
  is_nan x = false → f_le f_zero (clamp x) = true ∧ f_le (clamp x) f_one = true.
Proof.
  intros Hx. unfold clamp. destruct (f_max_ge x f_zero Hx eq_refl) as [_ H0].
  assert (is_nan (f_max x f_zero) = false) as Hn by (unfold f_max; by destruct (f_lt x f_zero)).
  split; [|by apply f_min_le]. unfold f_min. by destruct (f_lt f_one _).
Qed.

Lemma clamp_low x : f_le x f_zero = true → ∃ s, clamp x = S754_zero s.
Proof. destruct x as [s|[]| |[] m e]; try done; [by exists s|by exists false..]. Qed.

Lemma f_one_unique x : f_le f_one x = true → f_lt f_one x = false → x = f_one.
Proof.
  unfold f_le, f_lt, SFleb, SFltb. destruct (SFcompare f_one x) as [[]|] eqn:E; try done. intros _ _. revert E.
  replace f_one with (S754_finite false 4503599627370496 (-52)) by by vm_compute.
  destruct x as [|[]| |[] m e]; simpl; try done. destruct e as [|e|e]; try done.
  destruct (Pos.compare_spec 52 e) as [<-| |]; simpl; try done.
  intros [= E]. f_equal. symmetry. by apply Pos.compare_eq.
Qed.

Lemma clamp_high x : f_le f_one x = true → clamp x = f_one.
Proof.
  intros H. unfold clamp. assert (f_max x f_zero = x) as ->.
  { unfold f_max. assert (f_lt x f_zero = false) as ->; [|done]. by destruct x as [[]|[]| |[] ??]. }
  unfold f_min. destruct (f_lt f_one x) eqn:E; [done|]. by apply f_one_unique.
Qed.

Lemma clamp_id x : f_le f_zero x = true → f_le x f_one = true → clamp x = x.
Proof.
  intros H0 H1. unfold clamp. assert (f_max x f_zero = x) as ->.
  { unfold f_max. assert (f_lt x f_zero = false) as ->; [|done]. by destruct x as [[]|[]| |[] ??]. }
  unfold f_min. destruct (f_lt f_one x) eqn:E; [|done]. revert E H1. unfold f_lt, f_le, SFltb, SFleb.
  rewrite (compare_antisym x f_one). by destruct (SFcompare x f_one) as [[]|].
Qed.
End outcomes.

(** ** What the processors promise *)

Section theorems.
Context {RS : RedisServer}.

(** One request. On every payload, well-formed or not, [_run_single] ends as the
    pure [single_outcome] says for the next random number: with the result, with
    the simulated failure, or with the exception a bad override or a bad input
    raises; and in every case the gauge of requests in flight is back where it was and
    the database, Redis and Kafka are untouched. *)
Theorem simulator_outcome self payload w :
  ∃ w', _run_single self payload w = (single_outcome self (env_random (w_env w) (w_draws w)) payload, w')
    ∧ active w' = active w ∧ same_stores w w'.
Proof. apply run_single_eq. Qed.

(** Failure rates are probabilities. Whatever rate is configured or overridden, and for
    a draw from [0, 1): a rate of at most 0, or one that is not a number, never fails,
    a rate of at least 1 always does, and a rate between them is used as it is. *)
Theorem failure_rate_clamped self payload rate draw :
  configured_failure_rate self payload = Ok rate →
  f_le f_zero draw = true → f_lt draw f_one = true →
  ∃ used, resolve_failure_rate self payload = Ok used
    ∧ (f_le rate f_zero = true ∨ is_nan rate = true → f_lt draw used = false)
    ∧ (f_le f_one rate = true → f_lt draw used = true)
    ∧ (f_le f_zero rate = true → f_le rate f_one = true → used = rate)
    ∧ (is_nan rate = false → f_le f_zero used = true ∧ f_le used f_one = true).
Proof.
  intros Hr Hd0 Hd1. exists (clamp rate). split_and!.
  - unfold resolve_failure_rate. by rewrite Hr.
  - intros [Hle|Hn]; [|by destruct draw as [[]|[]| |[] ??], rate].
    destruct (clamp_low rate Hle) as [z ->]. by destruct draw as [[]|[]| |[] ??].
  - intros Hle. by rewrite (clamp_high rate Hle).
  - apply clamp_id.
  - apply clamp_bounds.
Qed.
(** The stages fit together. Whatever the inference stage computes for a request, the
    downstream stage completes on the payload of the hand-off: it reports the length
    the simulator reported and the simulator's mode. *)
Theorem stages_compose self base request latency n computed w :
  _build_result self request latency n = Ok computed →
  millis_quotient_ok (downstream_latency base) = true →
  ∃ len w', downstream_dummy_process base
        (JDict [(u "request", request); (u "inference_result", computed)]) w
      = (Ok (JDict [(u "message", JStr (u "downstream dummy completed")); (u "persisted", JBool true);
                    (u "notified", JBool true); (u "input_length", len);
                    (u "inference_mode", JStr (u "simulated-gpu"))]), w')
    ∧ getitem computed (u "length") = Ok len.
Proof.
  unfold _build_result. intros (content & Hc & (len & Hl & Hr)%result_bind_ok)%result_bind_ok Hs.
  assert (getitem computed (u "length") = Ok (JInt len) ∧ get computed (u "mode") JNull = Ok (JStr (u "simulated-gpu")))
    as [Hlen Hmode] by (injection Hr as <-; done).
  exists (JInt len). eexists. split; [|exact Hlen]. unfold downstream_dummy_process, sleep_ms. rewrite Hs.
  eapply run_try_finally; [|apply run_observe].
  set (d := JDict [(u "request", request); (u "inference_result", computed)]).
  assert (get d (u "request") (JDict []) = Ok request) as H1 by reflexivity.
  assert (get d (u "inference_result") (JDict []) = Ok computed) as H2 by reflexivity.
  rewrite lift_bind. cbv beta iota.
  by rewrite lift_bind, H1, lift_bind, H2, lift_bind, Hc, lift_bind, Hl, lift_bind, Hmode.
Qed.
End theorems.

(** ** The hypotheses can hold *)

Definition demo_simulator : simulator :=
  match build_primary_processor default_settings false with
  | GpuInferenceSimulator args => new_simulator args
  | _ => MkSimulator 1 1 f_zero f_zero false 1 1 0
  end.

(** A request that asks for a failure rate of 2. *)
Definition demo_failing_request : json :=
  JDict [(u "options", JDict [(u "simulate_inference_failure_rate", JInt 2)])].
Definition demo_request : json := JDict [(u "input", JDict [(u "content", JStr (u "hi"))])].

Lemma failure_rate_clamped_witness :
  ∃ used, resolve_failure_rate demo_simulator demo_failing_request = Ok used ∧ f_lt (f_of 1 (-1)) used = true.
Proof.
  destruct (failure_rate_clamped demo_simulator demo_failing_request (f_of 2 0) (f_of 1 (-1)))
    as (used & E & _ & H & _); [vm_compute; reflexivity..|].
  exists used. split; [exact E|]. apply H. vm_compute. reflexivity.
Defined.

Lemma stages_compose_witness :
  ∃ w', downstream_dummy_process 300
      (JDict [(u "request", demo_request);
              (u "inference_result", default JNull (match _build_result demo_simulator demo_request 700 1 with
                                                    | Ok r => Some r | Raise _ => None end))])
      (world_of calm_env empty_db)
    = (Ok (JDict [(u "message", JStr (u "downstream dummy completed")); (u "persisted", JBool true);
                  (u "notified", JBool true); (u "input_length", JInt 2);
                  (u "inference_mode", JStr (u "simulated-gpu"))]), w').
Proof.
  destruct (_build_result demo_simulator demo_request 700 1) as [r|e] eqn:E; [|by vm_compute in E].
  destruct (stages_compose demo_simulator 300 demo_request 700 1 r (world_of calm_env empty_db) E) as (len & w' & Ew & El);
    [vm_compute; reflexivity|].
  exists w'. assert (len = JInt 2) as ->; [|exact Ew]. assert (Ok len = Ok (JInt 2)) as H; [|by injection H].
  rewrite <- El. assert (Ok r = _build_result demo_simulator demo_request 700 1) as Er by done.
  vm_compute in Er. injection Er as ->. vm_compute. reflexivity.
Defined.
