(* ===== verification/Batching.v ===== *)
(** * Micro-batching: [app/adapters/processing/gpu_simulator.py]

    The queue, the flush task and the futures of [GpuInferenceSimulator] as a state,
    with one definition for each of [_enqueue_and_wait] (up to the wait),
    [_batch_flush_loop] (between two awaits) and [_run_batch], and their
    interleavings as a step relation. A batch is run in one step: while it runs, the
    other coroutines touch the queue only. A flush task that an exception has ended
    never sets the futures of its batch. *)
From Stdlib Require Import Sorted.
From S2P Require Import Prelude PyStr PyFloat Json Domain World Effects Ports Fixtures Settings Processing.
#[local] Open Scope Z_scope.

(** ** State and operations *)

(** [_BatchItem]; the number stands for its future. *)
Record item := MkItem { it_id : nat; it_payload : json }.

(** What the futures were resolved to. *)
Abbreviation futures := (gmap nat (result json)).

(** [_batch_flush_task]: [None], waiting for the event or the timeout, running a batch,
    or ended by an exception ([done()]). *)
Inductive task := NoTask | Waiting | Flushing (batch : list item) | Crashed (e : exn).

(** [next_item] numbers the futures. *)
Record batcher := MkBatcher {
  _batch_queue : list item;
  _batch_flush_task : task;
  _batch_event : bool;
  resolved : futures;
  next_item : nat;
}.

Section batching.
Context {RS : RedisServer}.
Variable self : simulator.

(** [_enqueue_and_wait], up to [await item.future]. *)
Definition enqueue (payload : json) (st : batcher) : batcher :=
  let queue := _batch_queue st ++ [MkItem (next_item st) payload] in
  MkBatcher queue
    (match _batch_flush_task st with NoTask | Crashed _ => Waiting | t => t end)
    (if _batch_size self <=? Z.of_nat (length queue) then true else _batch_event st)
    (resolved st) (S (next_item st)).

(** [_batch_flush_loop] after the wait, up to [_run_batch]. *)
Definition wake (st : batcher) : batcher :=
  match _batch_queue st with
  | [] => MkBatcher [] NoTask false (resolved st) (next_item st)
  | queue =>
      let rest := drop (Z.to_nat (_batch_size self)) queue in
      MkBatcher rest (Flushing (take (Z.to_nat (_batch_size self)) queue))
        (_batch_size self <=? Z.of_nat (length rest)) (resolved st) (next_item st)
  end.

(** The outcome of a computation, as a value. *)
Definition attempt {A} (m : M A) : M (result A) := λ w, let '(r, w') := m w in (Ok r, w').

(** What the future of one item of a batch of [n] is set to. *)
Definition finalize_one (n latency_ms : Z) (payload : json) : M (result json) :=
  failed ← _should_fail self payload;
  if failed : bool then inc INFERENCE_SIMULATED_FAILURE_TOTAL ;; mret (Raise simulated_failure)
  else result ← lift (_build_result self payload latency_ms n); mret (Ok result).

(** The loop over the items; the exception that ends it, if any. *)
Fixpoint finalize (n : Z) (items : list (item * Z)) (fs : futures) : M (futures * option exn) :=
  match items with
  | [] => mret (fs, None)
  | (it, latency_ms) :: items' =>
      r ← attempt (finalize_one n latency_ms (it_payload it));
      match r with
      | Ok outcome => finalize n items' (<[it_id it := outcome]> fs)
      | Raise e => mret (fs, Some e)
      end
  end.

(** [max(latencies)] *)
Definition max_latency (ls : list Z) : result Z :=
  match ls with
  | [] => Raise (ValueError (u "max() iterable argument is empty"))
  | l :: ls' => Ok (foldl Z.max l ls')
  end.

(** The latencies of a batch, once it has slept. *)
Definition batch_latencies (items : list item) : result (list Z) :=
  latencies ← mapM (λ it, _resolve_latency_ms self (it_payload it)) items;
  longest ← max_latency latencies;
  sleep_ms (longest + _batch_overhead_ms self);;
  Ok latencies.

(** The [try] of [_run_batch]. *)
Definition execute_batch (items : list item) (fs : futures) : M (futures * option exn) :=
  r ← attempt (lift (batch_latencies items));
  match r with
  | Ok latencies => finalize (Z.of_nat (length items)) (zip items latencies) fs
  | Raise e => mret (fs, Some e)
  end.

(** [_run_batch]: the futures it leaves, and the exception it raises, if any. *)
Definition _run_batch (items : list item) (fs : futures) : M (futures * option exn) :=
  match items with
  | [it] => r ← attempt (_run_single self (it_payload it)); mret (<[it_id it := r]> fs, None)
  | _ =>
      let n := Z.of_nat (length items) in
      inc_by INFERENCE_ACTIVE_JOBS n ;;
      gauge_set_float INFERENCE_SIMULATED_GPU_UTILIZATION (_simulated_gpu_utilization self) ;;
      inc_by INFERENCE_SEMAPHORE_WAIT_SECONDS n ;;
      r ← (execute_batch items fs : M (futures * option exn));
      inc_by INFERENCE_PROCESSING_SECONDS n ;;
      inc_by INFERENCE_ACTIVE_JOBS (- n) ;;
      mret r
  end.

(** [await self._run_batch(batch)] in the loop. *)
Definition flush (batch : list item) (st : batcher) : M batcher :=
  '(fs, err) ← (_run_batch batch (resolved st) : M (futures * option exn));
  mret (MkBatcher (_batch_queue st) (match err with None => Waiting | Some e => Crashed e end)
          (_batch_event st) fs (next_item st)).

(** The flush task alone, as long as it runs: two steps of fuel for each batch. *)
Fixpoint serve (fuel : nat) (st : batcher) : M batcher :=
  match fuel with
  | O => mret st
  | S fuel' =>
      match _batch_flush_task st with
      | NoTask | Crashed _ => mret st
      | Waiting => serve fuel' (wake st)
      | Flushing batch => st' ← flush batch st; serve fuel' st'
      end
  end.
End batching.

(** ** A batch *)

(** What a future may be set to for a payload, in batches of at most [size]. *)
Definition outcome_of (self : simulator) (payload : json) (r : result json) : Prop :=
  r = Raise simulated_failure
  ∨ (∃ l n, 1 ≤ n ≤ Z.max 1 (_batch_size self) ∧ _resolve_latency_ms self payload = Ok l
       ∧ r = _build_result self payload l n)
  ∨ ∃ draw, r = single_outcome self draw payload.

(** A payload on which no step of a batch can raise. *)
Definition servable (self : simulator) (payload : json) : bool :=
  match _resolve_latency_ms self payload with
  | Ok l => millis_quotient_ok (Z.abs l + _batch_overhead_ms self)
  | Raise _ => false
  end
  && is_ok (resolve_failure_rate self payload)
  && is_ok (content ← input_content payload; py_len content).

Section batch.
Context {RS : RedisServer}.
Variable args : simulator_args.
Abbreviation self := (new_simulator args).

Lemma batch_size_pos : 1 ≤ _batch_size self.
Proof. simpl. lia. Qed.

Lemma build_ok payload l n :
  is_ok (content ← input_content payload; py_len content) = true →
  ∃ r, _build_result self payload l n = Ok r.
Proof.
  unfold _build_result. destruct (input_content payload) as [c|]; [|done]. simpl.
  destruct (py_len c); [|done]. simpl. eauto.
Qed.

Lemma run_finalize_one n l payload w :
  1 ≤ n ≤ _batch_size self → _resolve_latency_ms self payload = Ok l →
  ∃ r w', finalize_one self n l payload w = (r, w') ∧ active w' = active w
    ∧ (∀ o, r = Ok o → outcome_of self payload o)
    ∧ (servable self payload = true → ∃ o, r = Ok o).
Proof.
  intros Hn Hl. unfold finalize_one. destruct (run_should_fail self payload w) as (w1 & E1 & M1 & _).
  assert (active w1 = active w) as A1 by (unfold active; by rewrite M1).
  destruct (resolve_failure_rate self payload) as [rate|e] eqn:Er; simpl in E1.
  2: { exists (Raise e), w1. split_and!; [by apply run_bind_raise|done|done|].
       unfold servable. rewrite Er, andb_false_r. done. }
  rewrite (bind_ok _ _ _ _ _ E1). destruct (f_lt _ rate).
  - eexists (Ok (Raise simulated_failure)), _. split_and!; [eapply run_bind; [apply run_inc|]; reflexivity|done| |eauto].
    intros o [= <-]. by left.
  - rewrite lift_bind. destruct (_build_result self payload l n) as [r|e] eqn:Eb.
    + exists (Ok (Ok r)), w1. split_and!; [done|done| |eauto]. intros o [= <-]. right; left.
      exists l, n. split_and!; [lia|simpl in *; lia|done|done].
    + exists (Raise e), w1. split_and!; [done|done|done|]. intros Hs. unfold servable in Hs.
      apply andb_true_iff in Hs as [_ Hc]. destruct (build_ok payload l n Hc). congruence.
Qed.

(** What a run leaves of the futures [fs] when it handles [items]. *)
Record settles (items : list item) (fs fs' : futures) (err : option exn) : Prop := {
  st_other i : i ∉ it_id <$> items → fs' !! i = fs !! i;
  st_item it : it ∈ items →
    fs' !! it_id it = fs !! it_id it
    ∨ ∃ r, fs' !! it_id it = Some r ∧ outcome_of self (it_payload it) r;
  st_all : Forall (λ it, servable self (it_payload it) = true) items →
    err = None ∧ ∀ it, it ∈ items → is_Some (fs' !! it_id it);
}.

Lemma settles_nil fs : settles [] fs fs None.
Proof. split; [done|by intros it ?%not_elem_of_nil|]. intros _. split; [done|by intros it ?%not_elem_of_nil]. Qed.

Lemma settles_cons it items fs fs' err o :
  it_id it ∉ it_id <$> items → outcome_of self (it_payload it) o →
  settles items (<[it_id it := o]> fs) fs' err → settles (it :: items) fs fs' err.
Proof.
  intros Hn Ho [S1 S2 S3].
  assert (fs' !! it_id it = Some o) as Hit by (rewrite (S1 _ Hn); apply lookup_insert_eq).
  split.
  - intros i. rewrite fmap_cons. intros [Hne Hi]%not_elem_of_cons. by rewrite (S1 _ Hi), lookup_insert_ne.
  - intros it' [->|Hin]%elem_of_cons; [right; eauto|]. destruct (S2 it' Hin) as [E|?]; [left|by right].
    rewrite E. apply lookup_insert_ne. intros Heq. apply Hn. rewrite Heq. by apply list_elem_of_fmap_2.
  - intros [_ Hall]%Forall_cons. destruct (S3 Hall) as [-> Hs]. split; [done|].
    intros it' [->|Hin]%elem_of_cons; [by rewrite Hit|by apply Hs].
Qed.

Lemma settles_stop items fs e : ¬ Forall (λ it, servable self (it_payload it) = true) items → settles items fs fs (Some e).
Proof. intros H. split; [done|by left|done]. Qed.

Lemma run_finalize n items ls fs w :
  1 ≤ n ≤ _batch_size self → NoDup (it_id <$> items) →
  mapM (λ it, _resolve_latency_ms self (it_payload it)) items = Ok ls →
  ∃ fs' err w', finalize self n (zip items ls) fs w = (Ok (fs', err), w') ∧ active w' = active w
    ∧ settles items fs fs' err.
Proof.
  intros Hn. revert ls fs w. induction items as [|it items IH]; intros ls fs w Hnd Hm.
  { exists fs, None, w. injection Hm as <-. split_and!; [done|done|apply settles_nil]. }
  simpl in Hm. apply result_bind_ok in Hm as (l & Hl & Hm). apply result_bind_ok in Hm as (ls' & Hls & Hm).
  injection Hm as <-. rewrite fmap_cons in Hnd. apply NoDup_cons in Hnd as [Hni Hnd].
  destruct (run_finalize_one n l (it_payload it) w Hn Hl) as (r & w1 & E1 & A1 & Ho & Hs).
  cbn [zip zip_with finalize].
  assert (attempt (finalize_one self n l (it_payload it)) w = (Ok r, w1)) as Ea by (unfold attempt; by rewrite E1).
  rewrite (bind_ok _ _ _ _ _ Ea). destruct r as [o|e].
  - destruct (IH ls' (<[it_id it := o]> fs) w1 Hnd Hls) as (fs' & err & w2 & E2 & A2 & S2).
    exists fs', err, w2. split_and!; [done|congruence|]. eapply settles_cons; [done|by apply Ho|done].
  - exists fs, (Some e), w1. split_and!; [done|done|]. apply settles_stop. intros [H _]%Forall_cons.
    by destruct (Hs H).
Qed.

Lemma max_in l ls : foldl Z.max l ls ∈ l :: ls.
Proof.
  revert l. induction ls as [|l' ls IH]; intros l; simpl; [by left|].
  specialize (IH (l `max` l')). apply elem_of_cons in IH as [->|IH]; [|set_solver].
  destruct (Z.max_spec l l') as [[_ ->]|[_ ->]]; set_solver.
Qed.

Lemma latencies_servable items :
  items ≠ [] → Forall (λ it, servable self (it_payload it) = true) items →
  ∃ ls, batch_latencies self items = Ok ls.
Proof.
  intros Hne Hall. unfold batch_latencies.
  assert (∃ ls, mapM (λ it, _resolve_latency_ms self (it_payload it)) items = Ok ls
    ∧ Forall (λ l, millis_quotient_ok (Z.abs l + _batch_overhead_ms self) = true) ls ∧ (items ≠ [] → ls ≠ []))
    as (ls & Hm & Hls & Hn).
  { clear Hne. induction Hall as [|it items Hs _ (ls & Hm & Hls & _)]; [by exists []|].
    unfold servable in Hs. apply andb_true_iff in Hs as [[Hs _]%andb_true_iff _]. simpl.
    destruct (_resolve_latency_ms self (it_payload it)) as [l|]; [|done]. exists (l :: ls). split_and!; [|by constructor|done].
    simpl. by rewrite Hm. }
  rewrite Hm. simpl. destruct ls as [|l ls]; [by destruct (Hn Hne)|]. simpl.
  rewrite Forall_forall in Hls. specialize (Hls _ (max_in l ls)). unfold millis_quotient_ok in Hls. apply Z.ltb_lt in Hls.
  exists (l :: ls). unfold sleep_ms, millis_quotient_ok. rewrite (proj2 (Z.ltb_lt _ _)); [done|].
  eapply Z.le_lt_trans; [|exact Hls]. simpl. lia.
Qed.

Lemma latencies_mapM items ls :
  batch_latencies self items = Ok ls → mapM (λ it, _resolve_latency_ms self (it_payload it)) items = Ok ls.
Proof.
  unfold batch_latencies. intros (ls' & Hm & (m & _ & ([] & _ & [= <-])%result_bind_ok)%result_bind_ok)%result_bind_ok. done.
Qed.

Lemma run_execute_batch items fs w :
  items ≠ [] → Z.of_nat (length items) ≤ _batch_size self → NoDup (it_id <$> items) →
  ∃ fs' err w', execute_batch self items fs w = (Ok (fs', err), w') ∧ active w' = active w
    ∧ settles items fs fs' err.
Proof.
  intros Hne Hlen Hnd. unfold execute_batch.
  assert (attempt (lift (batch_latencies self items)) w = (Ok (batch_latencies self items), w)) as Ea by done.
  rewrite (bind_ok _ _ _ _ _ Ea). destruct (batch_latencies self items) as [ls|e] eqn:El.
  - apply run_finalize; [|done|by apply latencies_mapM]. destruct items; [done|]. simpl length in *. lia.
  - exists fs, (Some e), w. split_and!; [done|done|]. apply settles_stop. intros Hall.
    destruct (latencies_servable items Hne Hall). congruence.
Qed.

Lemma single_servable payload :
  servable self payload = true → ∀ draw, single_outcome self draw payload = Raise simulated_failure
    ∨ ∃ l r, _resolve_latency_ms self payload = Ok l ∧ _build_result self payload l 1 = Ok r
        ∧ single_outcome self draw payload = Ok r.
Proof.
  unfold servable, single_outcome. intros [[Hl Hr]%andb_true_iff Hc]%andb_true_iff draw.
  destruct (_resolve_latency_ms self payload) as [l|]; [|done]. simpl.
  assert (sleep_ms (Z.max 1 l) = Ok tt) as ->.
  { unfold sleep_ms, millis_quotient_ok in *. apply Z.ltb_lt in Hl. rewrite (proj2 (Z.ltb_lt _ _)); [done|].
    assert (Z.abs (1 `max` l) ≤ Z.max 1 (Z.abs l)) as H1 by lia. eapply Z.le_lt_trans; [exact H1|].
    apply Z.max_lub_lt; [vm_compute; reflexivity|]. eapply Z.le_lt_trans; [|exact Hl]. simpl. lia. }
  simpl. destruct (resolve_failure_rate self payload) as [rate|]; [|done]. simpl.
  destruct (f_lt draw rate); [by left|right]. destruct (build_ok payload l 1 Hc) as [r E]. eauto.
Qed.

(** A batch settles its futures, and leaves the gauge of requests in flight as it was. *)
Lemma run_run_batch items fs w :
  items ≠ [] → Z.of_nat (length items) ≤ _batch_size self → NoDup (it_id <$> items) →
  ∃ fs' err w', _run_batch self items fs w = (Ok (fs', err), w') ∧ active w' = active w
    ∧ settles items fs fs' err.
Proof.
  intros Hne Hlen Hnd. destruct items as [|it [|it2 items]]; [done| |].
  - simpl. destruct (run_single_eq self (it_payload it) w) as (w' & E & A & _).
    set (o := single_outcome self _ _) in E.
    assert (attempt (_run_single self (it_payload it)) w = (Ok o, w')) as Ea by (unfold attempt; by rewrite E).
    eexists _, None, w'. split_and!; [rewrite (bind_ok _ _ _ _ _ Ea); reflexivity|done|].
    eapply settles_cons; [by apply not_elem_of_nil| |apply settles_nil]. right; right. by eexists.
  - set (l := it :: it2 :: items) in *. set (n := Z.of_nat (length l)).
    set (util := f_trunc (f_mul (_simulated_gpu_utilization self) (f_of 1000000 0))).
    set (w1 := set_metrics (metric_add INFERENCE_SEMAPHORE_WAIT_SECONDS n
      (metric_set INFERENCE_SIMULATED_GPU_UTILIZATION util (metric_add INFERENCE_ACTIVE_JOBS n (w_metrics w)))) w).
    destruct (run_execute_batch l fs w1) as (fs' & err & w2 & E2 & A2 & S2); [done..|].
    exists fs', err. eexists. split_and!; [| |exact S2].
    + change (_run_batch self l fs) with (inc_by INFERENCE_ACTIVE_JOBS n ;;
        gauge_set_float INFERENCE_SIMULATED_GPU_UTILIZATION (_simulated_gpu_utilization self) ;;
        inc_by INFERENCE_SEMAPHORE_WAIT_SECONDS n ;;
        r ← (execute_batch self l fs : M (futures * option exn));
        inc_by INFERENCE_PROCESSING_SECONDS n ;; inc_by INFERENCE_ACTIVE_JOBS (- n) ;; mret r).
      eapply run_bind; [apply run_inc_by|]. eapply run_bind; [apply run_gauge_set|].
      eapply run_bind; [apply run_inc_by|]. eapply run_bind; [exact E2|].
      eapply run_bind; [apply run_inc_by|]. eapply run_bind; [apply run_inc_by|]. reflexivity.
    + unfold active in *. simpl w_metrics in *. rewrite metric_add_eq, metric_add_ne, A2 by done.
      rewrite metric_add_ne, metric_set_ne, metric_add_eq by done. lia.
Qed.
End batch.

(** ** Requests, the flush task and the rest of the process, interleaved *)

Section machine.
Context {RS : RedisServer}.
Variable args : simulator_args.
Abbreviation self := (new_simulator args).

(** The simulator, the world, and the payloads in the order of their requests. *)
Record system := MkSystem { s_batcher : batcher; s_world : world; s_submitted : list json }.

(** One step: a request (with a payload that is [accepted]) arrives; the event or the
    timeout wakes the flush task; it runs its batch; other coroutines change the
    world. *)
Inductive step (accepted : json → Prop) : system → system → Prop :=
  | step_enqueue payload st w ps :
      accepted payload →
      step accepted (MkSystem st w ps) (MkSystem (enqueue self payload st) w (ps ++ [payload]))
  | step_wake st w ps :
      _batch_flush_task st = Waiting → step accepted (MkSystem st w ps) (MkSystem (wake self st) w ps)
  | step_flush batch st w ps st' w' :
      _batch_flush_task st = Flushing batch → flush self batch st w = (Ok st', w') →
      step accepted (MkSystem st w ps) (MkSystem st' w' ps)
  | step_other st w ps w' : step accepted (MkSystem st w ps) (MkSystem st w' ps).

(** A new simulator. *)
Definition idle (w : world) : system := MkSystem (MkBatcher [] NoTask false ∅ 0) w [].

Definition in_flight (t : task) : list item := match t with Flushing batch => batch | _ => [] end.

(** The requests without an answer that will still get one, in order. *)
Definition waiting (st : batcher) : list item := in_flight (_batch_flush_task st) ++ _batch_queue st.

Record batch_ok (s : system) : Prop := {
  ok_next : next_item (s_batcher s) = length (s_submitted s);
  ok_items : Forall (λ it, s_submitted s !! it_id it = Some (it_payload it)) (waiting (s_batcher s));
  ok_sorted : StronglySorted lt (it_id <$> waiting (s_batcher s));
  ok_fresh it : it ∈ waiting (s_batcher s) → resolved (s_batcher s) !! it_id it = None;
  ok_resolved i r : resolved (s_batcher s) !! i = Some r →
    ∃ p, s_submitted s !! i = Some p ∧ outcome_of self p r;
  ok_batch batch : _batch_flush_task (s_batcher s) = Flushing batch →
    batch ≠ [] ∧ Z.of_nat (length batch) ≤ _batch_size self;
  ok_awake : _batch_queue (s_batcher s) ≠ [] → _batch_flush_task (s_batcher s) ≠ NoTask;
}.

(** Every request is answered or will be. *)
Record batch_alive (s : system) : Prop := {
  al_ok : batch_ok s;
  al_servable : Forall (λ p, servable self p = true) (s_submitted s);
  al_all i : (i < length (s_submitted s))%nat →
    is_Some (resolved (s_batcher s) !! i) ∨ i ∈ it_id <$> waiting (s_batcher s);
  al_running e : _batch_flush_task (s_batcher s) ≠ Crashed e;
}.

Lemma idle_ok w : batch_ok (idle w).
Proof. split; simpl; [done|constructor|constructor|by intros it ?%not_elem_of_nil|done|done|done]. Qed.

Lemma idle_alive w : batch_alive (idle w).
Proof. split; [apply idle_ok|constructor|simpl; lia|done]. Qed.

(** *** A request arrives *)

Lemma waiting_enqueue payload st :
  waiting (enqueue self payload st) = waiting st ++ [MkItem (next_item st) payload].
Proof. unfold waiting. simpl. rewrite <- app_assoc. by destruct (_batch_flush_task st). Qed.

Lemma sorted_snoc (l : list nat) n : StronglySorted lt l → Forall (λ i, i < n)%nat l → StronglySorted lt (l ++ [n]).
Proof.
  induction l as [|i l IH]; simpl; intros Hs Hn; [repeat constructor|].
  apply StronglySorted_inv in Hs as [Hs Hi]. apply Forall_cons in Hn as [Hin Hn].
  constructor; [by apply IH|]. by apply Forall_app; split; [|repeat constructor].
Qed.

Lemma enqueue_ok payload st w ps :
  batch_ok (MkSystem st w ps) → batch_ok (MkSystem (enqueue self payload st) w (ps ++ [payload])).
Proof.
  intros [On Oi Os Of Or Ob Oa]. simpl in *.
  assert (∀ i p, ps !! i = Some p → (i < length ps)%nat) as Hlt by (intros i p ?; by eapply lookup_lt_Some).
  split; cbn [s_batcher s_submitted]; try rewrite waiting_enqueue.
  - simpl. rewrite length_app, On. simpl. lia.
  - apply Forall_app. split; [|repeat constructor; simpl; rewrite On; by apply list_lookup_middle].
    eapply Forall_impl; [exact Oi|]. intros it H. simpl in *. by apply lookup_app_l_Some.
  - rewrite fmap_app. apply sorted_snoc; [done|]. apply Forall_fmap. eapply Forall_impl; [exact Oi|].
    intros it H. simpl in *. rewrite On. by eapply Hlt.
  - intros it [H|Hx]%elem_of_app; [by apply Of|]. apply list_elem_of_singleton in Hx as ->. simpl.
    destruct (resolved st !! next_item st) as [r|] eqn:E; [|done]. destruct (Or _ _ E) as (p & Hp & _).
    apply Hlt in Hp. lia.
  - intros i r H. destruct (Or i r H) as (p & Hp & Ho). exists p. split; [by apply lookup_app_l_Some|done].
  - intros batch. simpl. destruct (_batch_flush_task st) eqn:E; try done. intros [= <-]. by apply Ob.
  - intros _. simpl. by destruct (_batch_flush_task st).
Qed.

(** *** The flush task wakes up *)

Lemma waiting_wake st : _batch_flush_task st = Waiting → waiting (wake self st) = waiting st.
Proof.
  intros E. unfold waiting, wake. rewrite E. destruct (_batch_queue st) as [|it q]; [done|].
  cbn [_batch_flush_task _batch_queue in_flight]. by rewrite take_drop.
Qed.

Lemma wake_ok st w ps :
  _batch_flush_task st = Waiting → batch_ok (MkSystem st w ps) → batch_ok (MkSystem (wake self st) w ps).
Proof.
  intros E [On Oi Os Of Or Ob Oa]. simpl in *.
  assert (next_item (wake self st) = next_item st ∧ resolved (wake self st) = resolved st) as [En Er]
    by (unfold wake; by destruct (_batch_queue st)).
  split; cbn [s_batcher s_submitted]; rewrite ?waiting_wake, ?En, ?Er by done; try done.
  - unfold wake. destruct (_batch_queue st) as [|it q]; [done|]. intros batch. cbn [_batch_flush_task].
    pose proof (batch_size_pos args) as Hn. generalize dependent (_batch_size self). intros n Hn [= <-].
    rewrite length_take. destruct (Z.to_nat n) as [|k] eqn:En'; [lia|]. split; [done|lia].
  - unfold wake. by destruct (_batch_queue st).
Qed.

(** *** A batch is run *)

Lemma sorted_NoDup (l : list nat) : StronglySorted lt l → NoDup l.
Proof.
  induction 1 as [|i l Hs IH Hi]; constructor; [|done]. intros Hin. rewrite Forall_forall in Hi.
  specialize (Hi i Hin). lia.
Qed.

Lemma sorted_tail (l1 l2 : list nat) : StronglySorted lt (l1 ++ l2) → StronglySorted lt l2.
Proof. induction l1 as [|i l1 IH]; [done|]. simpl. intros [Hs _]%StronglySorted_inv. auto. Qed.

(** What [flush] leaves. *)
Lemma run_flush_task batch st w ps :
  _batch_flush_task st = Flushing batch → batch_ok (MkSystem st w ps) →
  ∃ fs' err w', flush self batch st w
      = (Ok (MkBatcher (_batch_queue st) (match err with None => Waiting | Some e => Crashed e end)
               (_batch_event st) fs' (next_item st)), w')
    ∧ settles args batch (resolved st) fs' err.
Proof.
  intros Et [On Oi Os Of Or Ob Oa]. simpl in *. destruct (Ob batch Et) as [Hne Hlen].
  assert (NoDup (it_id <$> batch)) as Hnd.
  { apply sorted_NoDup in Os. unfold waiting in Os. rewrite Et, fmap_app in Os. by apply NoDup_app in Os as (? & _ & _). }
  destruct (run_run_batch args batch (resolved st) w Hne Hlen Hnd) as (fs' & err & w' & E & _ & S).
  exists fs', err, w'. split; [|done]. unfold flush. by rewrite (bind_ok _ _ _ _ _ E).
Qed.

Lemma flush_ok batch st w ps fs' err w' :
  _batch_flush_task st = Flushing batch → batch_ok (MkSystem st w ps) → settles args batch (resolved st) fs' err →
  batch_ok (MkSystem (MkBatcher (_batch_queue st) (match err with None => Waiting | Some e => Crashed e end)
               (_batch_event st) fs' (next_item st)) w' ps)
  ∧ resolved st ⊆ fs'.
Proof.
  intros Et [On Oi Os Of Or Ob Oa] [S1 S2 S3]. simpl in *.
  assert (waiting st = batch ++ _batch_queue st) as Hw by (unfold waiting; by rewrite Et).
  rewrite Hw in Oi, Os, Of. rewrite fmap_app in Os. pose proof (sorted_NoDup _ Os) as Hnd.
  apply NoDup_app in Hnd as (_ & Hdisj & _). apply Forall_app in Oi as [Oi1 Oi2]. rewrite Forall_forall in Oi1.
  assert (∀ i, (∃ it, it ∈ batch ∧ i = it_id it) ∨ i ∉ it_id <$> batch) as Hcase.
  { intros i. destruct (decide (i ∈ it_id <$> batch)) as [H|H]; [left|by right].
    apply list_elem_of_fmap in H as (it & -> & ?). eauto. }
  assert (waiting (MkBatcher (_batch_queue st) (match err with None => Waiting | Some e => Crashed e end)
               (_batch_event st) fs' (next_item st)) = _batch_queue st) as Hw' by (unfold waiting; by destruct err).
  split; [split; cbn [s_batcher s_submitted]; rewrite ?Hw'; try done|].
  - by eapply sorted_tail.
  - intros it Hin. simpl. rewrite S1; [apply Of; set_solver|]. intros H. apply (Hdisj _ H). by apply list_elem_of_fmap_2.
  - intros i r. simpl. intros Hr. destruct (Hcase i) as [(it & Hin & ->)|Hn]; [|rewrite S1 in Hr by done; by apply Or].
    destruct (S2 it Hin) as [E|(r' & E & Ho)]; [rewrite E in Hr; by apply Or|]. exists (it_payload it).
    assert (r = r') as -> by congruence. split; [by apply Oi1|done].
  - intros b. simpl. by destruct err.
  - intros _. simpl. by destruct err.
  - apply map_subseteq_spec. intros i r Hr. destruct (Hcase i) as [(it & Hin & ->)|Hn]; [|by rewrite S1].
    rewrite Of in Hr; [done|set_solver].
Qed.

Lemma step_ok accepted s s' :
  step accepted s s' → batch_ok s → batch_ok s' ∧ resolved (s_batcher s) ⊆ resolved (s_batcher s').
Proof.
  destruct 1 as [payload st w ps _|st w ps E|batch st w ps st' w' Et Ef|st w ps w']; intros Hok.
  - split; [by apply enqueue_ok|done].
  - split; [by apply wake_ok|]. unfold wake; simpl. by destruct (_batch_queue st).
  - destruct (run_flush_task batch st w ps Et Hok) as (fs' & err & w1 & E & S). rewrite E in Ef. injection Ef as <- <-.
    by apply (flush_ok batch st w ps fs' err w1).
  - split; [|done]. by destruct Hok; split.
Qed.

Lemma steps_ok accepted s s' :
  rtc (step accepted) s s' → batch_ok s → batch_ok s' ∧ resolved (s_batcher s) ⊆ resolved (s_batcher s').
Proof.
  induction 1 as [s|s1 s2 s3 H12 _ IH]; [done|]. intros H1. destruct (step_ok accepted s1 s2 H12 H1) as [H2 M].
  destruct (IH H2). split; [done|by etrans].
Qed.

(** *** When every payload is servable *)

Lemma flush_alive batch st w ps fs' err w' :
  _batch_flush_task st = Flushing batch → batch_alive (MkSystem st w ps) → settles args batch (resolved st) fs' err →
  err = None
  ∧ batch_alive (MkSystem (MkBatcher (_batch_queue st) Waiting (_batch_event st) fs' (next_item st)) w' ps).
Proof.
  intros Et [Hok Hse Hal Hr] S. pose proof (flush_ok batch st w ps fs' err w' Et Hok S) as [Hok' Hsub].
  assert (waiting st = batch ++ _batch_queue st) as Hw by (unfold waiting; by rewrite Et).
  assert (Forall (λ it, servable self (it_payload it) = true) batch) as Hb.
  { rewrite Forall_forall. intros it Hin. pose proof (ok_items _ Hok) as Oi. simpl in *. rewrite Hw in Oi.
    apply Forall_app in Oi as [Oi _]. rewrite Forall_forall in Oi. apply (Forall_lookup_1 _ _ (it_id it) _ Hse). by apply Oi. }
  destruct (st_all _ _ _ _ _ S Hb) as [-> Hsome]. split; [done|]. split; [done|done| |done].
  intros i Hi. simpl. destruct (Hal i Hi) as [Hres|Hin].
  - left. destruct Hres as [r Hres]. exists r. by eapply map_subseteq_spec in Hsub.
  - simpl in Hin. rewrite Hw, fmap_app in Hin. apply elem_of_app in Hin as [Hin|Hin]; [left|by right].
    apply list_elem_of_fmap in Hin as (it & -> & Hin). by apply Hsome.
Qed.

Lemma wake_alive st w ps :
  _batch_flush_task st = Waiting → batch_alive (MkSystem st w ps) → batch_alive (MkSystem (wake self st) w ps).
Proof.
  intros E [Hok Hse Hal Hr]. split; [by apply wake_ok|done| |].
  - intros i Hi. cbn [s_batcher]. rewrite waiting_wake by done.
    assert (resolved (wake self st) = resolved st) as -> by (unfold wake; by destruct (_batch_queue st)). by apply Hal.
  - intros e. unfold wake; simpl. by destruct (_batch_queue st).
Qed.

Lemma step_alive s s' : step (λ p, servable self p = true) s s' → batch_alive s → batch_alive s'.
Proof.
  destruct 1 as [payload st w ps Hp|st w ps E|batch st w ps st' w' Et Ef|st w ps w']; intros Hs.
  - destruct Hs as [Hok Hse Hal Hr]. split; [by apply enqueue_ok|by apply Forall_app; split; [|repeat constructor]| |].
    + intros i. simpl. rewrite length_app. simpl. intros Hi. rewrite waiting_enqueue, fmap_app.
      destruct (decide (i = length ps)) as [->|Hne].
      * right. apply elem_of_app. right. simpl. pose proof (ok_next _ Hok) as On. simpl in On. rewrite On. by left.
      * destruct (Hal i) as [|Hin]; [simpl; lia|by left|right]. apply elem_of_app. by left.
    + intros e. simpl. specialize (Hr e). simpl in Hr. by destruct (_batch_flush_task st).
  - by apply wake_alive.
  - pose proof (al_ok _ Hs) as Hok. destruct (run_flush_task batch st w ps Et Hok) as (fs' & err & w1 & E & S).
    destruct (flush_alive batch st w ps fs' err w1 Et Hs S) as [-> Ha]. rewrite E in Ef. by injection Ef as <- <-.
  - destruct Hs as [Hok Hse Hal Hr]. split; [by destruct Hok; split|done..].
Qed.

Lemma steps_alive s s' : rtc (step (λ p, servable self p = true)) s s' → batch_alive s → batch_alive s'.
Proof. induction 1; eauto using step_alive. Qed.

(** On a servable payload, an outcome is a result or the simulated failure. *)
Lemma outcome_servable payload r :
  servable self payload = true → outcome_of self payload r →
  r = Raise simulated_failure
  ∨ ∃ l n res, _resolve_latency_ms self payload = Ok l ∧ 1 ≤ n ≤ _batch_size self
      ∧ _build_result self payload l n = Ok res ∧ r = Ok res.
Proof.
  intros Hs [->|[(l & n & Hn & Hl & ->)|(draw & ->)]]; [by left|right|].
  - assert (is_ok (content ← input_content payload; py_len content) = true) as Hc
      by (unfold servable in Hs; by apply andb_true_iff in Hs as [_ ?]).
    destruct (build_ok args payload l n Hc) as [res E]. exists l, n, res. simpl in *. split_and!; [done|lia|lia|done|done].
  - destruct (single_servable args payload Hs draw) as [->|(l & res & Hl & Hb & ->)]; [by left|right].
    pose proof (batch_size_pos args). exists l, 1, res. split_and!; [done|lia|lia|done|done].
Qed.

(** *** The flush task empties the queue *)

(** The fuel [serve] needs. *)
Definition work (st : batcher) : nat :=
  match _batch_flush_task st with
  | Waiting => 2 * length (_batch_queue st) + 1
  | Flushing _ => 2 * length (_batch_queue st) + 2
  | _ => 0
  end.

Lemma work_wake st : _batch_flush_task st = Waiting → (work (wake self st) < work st)%nat.
Proof.
  intros E. unfold work, wake. rewrite E. destruct (_batch_queue st) as [|it q]; [simpl; lia|].
  pose proof (batch_size_pos args) as Hn. generalize dependent (_batch_size self). intros n Hn.
  cbn [_batch_flush_task _batch_queue]. rewrite length_drop. cbn [length]. lia.
Qed.

Lemma run_serve fuel st w ps :
  batch_alive (MkSystem st w ps) → (work st ≤ fuel)%nat →
  ∃ st' w', serve self fuel st w = (Ok st', w') ∧ batch_alive (MkSystem st' w' ps) ∧ _batch_flush_task st' = NoTask.
Proof.
  revert st w. induction fuel as [|fuel IH]; intros st w Ha Hf; cbn [serve].
  - exists st, w. split_and!; [done|done|]. unfold work in Hf. pose proof (al_running _ Ha) as Hr. simpl in Hr.
    destruct (_batch_flush_task st); [done|lia|lia|by destruct (Hr e)].
  - destruct (_batch_flush_task st) as [| |batch|e] eqn:E.
    + by exists st, w.
    + pose proof (work_wake st E). apply IH; [by apply wake_alive|lia].
    + destruct (run_flush_task batch st w ps E (al_ok _ Ha)) as (fs' & err & w1 & E1 & S).
      destruct (flush_alive batch st w ps fs' err w1 E Ha S) as [-> Ha1]. rewrite (bind_ok _ _ _ _ _ E1).
      apply IH; [done|]. unfold work in *. rewrite E in Hf. simpl in *. lia.
    + by destruct (al_running _ Ha e).
Qed.

(** *** Requests that are lost *)

(** Request [i] has no answer and no one will give it one. *)
Definition stranded (i : nat) (s : system) : Prop :=
  resolved (s_batcher s) !! i = None ∧ i ∉ it_id <$> waiting (s_batcher s) ∧ (i < next_item (s_batcher s))%nat.

Lemma stranded_step accepted i s s' : step accepted s s' → batch_ok s → stranded i s → stranded i s'.
Proof.
  intros Hstep Hok (Hr & Hw & Hn). destruct Hstep as [payload st w ps Hp|st w ps E|batch st w ps st' w' Et Ef|st w ps w'];
    simpl in *; [| | |done].
  - split_and!; [done| |simpl; lia]. cbn [s_batcher]. rewrite waiting_enqueue, fmap_app. simpl.
    intros [H|H]%elem_of_app; [done|]. apply list_elem_of_singleton in H as ->. lia.
  - unfold stranded. cbn [s_batcher]. rewrite waiting_wake by done. unfold wake. by destruct (_batch_queue st).
  - destruct (run_flush_task batch st w ps Et Hok) as (fs' & err & w1 & E & S). rewrite E in Ef. injection Ef as <- <-.
    unfold waiting in Hw. rewrite Et, fmap_app in Hw. split_and!; simpl; [rewrite (st_other _ _ _ _ _ S); [done|]| |done].
    + intros H. apply Hw, elem_of_app. by left.
    + intros H. apply Hw, elem_of_app. right. by destruct err.
Qed.

Lemma stranded_steps accepted i s s' : rtc (step accepted) s s' → batch_ok s → stranded i s → stranded i s'.
Proof.
  induction 1 as [|s1 s2 s3 H12 _ IH]; [done|]. intros Hok Hs. apply IH; [by eapply step_ok|by eapply stranded_step].
Qed.

Lemma run_bad_batch batch fs w e :
  (2 ≤ length batch)%nat → batch_latencies self batch = Raise e →
  ∃ w', _run_batch self batch fs w = (Ok (fs, Some e), w').
Proof.
  intros Hlen He. destruct batch as [|it [|it2 batch]]; simpl in Hlen; [lia|lia|].
  set (l := it :: it2 :: batch) in *. eexists. unfold _run_batch, execute_batch. fold l.
  eapply run_bind; [apply run_inc_by|]. eapply run_bind; [apply run_gauge_set|].
  eapply run_bind; [apply run_inc_by|]. eapply run_bind; [eapply run_bind; [reflexivity|]; rewrite He; reflexivity|].
  eapply run_bind; [apply run_inc_by|]. eapply run_bind; [apply run_inc_by|]. reflexivity.
Qed.

(** A task that has not ended. *)
Inductive alive : task → Prop :=
  | alive_waiting : alive Waiting
  | alive_flushing batch : alive (Flushing batch).

Lemma step_submitted accepted s s' : step accepted s s' → s_submitted s `prefix_of` s_submitted s'.
Proof. intros []; simpl; [by apply prefix_app_r|done..]. Qed.

(** If all requests are servable, the steps are those of servable requests. *)
Lemma servable_steps accepted w0 s :
  rtc (step accepted) (idle w0) s → Forall (λ p, servable self p = true) (s_submitted s) →
  rtc (step (λ p, servable self p = true)) (idle w0) s.
Proof.
  intros H. revert s H. refine (rtc_ind_r _ _ _ _); [done|]. intros s1 s2 _ H12 IH Hs.
  eapply rtc_r; [apply IH|].
  - destruct (step_submitted _ _ _ H12) as [k E]. rewrite E, Forall_app in Hs. apply Hs.
  - destruct H12; [|by econstructor..]. simpl in Hs. apply Forall_app in Hs as [_ Hp]. constructor. by apply Forall_cons in Hp as [? _].
Qed.

(** Only a request on which the simulator's steps raise ends the flush task. *)
Lemma crash_has_cause accepted w0 s e :
  rtc (step accepted) (idle w0) s → _batch_flush_task (s_batcher s) = Crashed e →
  ∃ p, p ∈ s_submitted s ∧ servable self p = false.
Proof.
  intros H E. destruct (decide (Forall (λ p, servable self p = true) (s_submitted s))) as [Hs|Hs].
  - exfalso. by apply (al_running _ (steps_alive _ _ (servable_steps _ _ _ H Hs) (idle_alive w0)) e).
  - apply not_Forall_Exists in Hs; [|intros p; solve_decision]. apply Exists_exists in Hs as (p & Hp & Hn). exists p. split; [done|]. by apply not_true_is_false.
Qed.

(** ** What micro-batching promises *)

(** C29: every request gets its own answer, once. In any interleaving of arrivals, flushes and
    other work, and whatever the payloads: the answer of request [i] is an outcome
    of the payload of request [i]; an answer, once given, never changes; the requests
    still waiting have none and are kept in the order of their arrival; a batch is
    never empty nor longer than the batch size; while requests are queued there is a flush task that
    waits or runs a batch, unless an exception has ended it, and then there was a request
    on which the simulator's own steps raise; and a request that arrives always finds a flush task that is
    alive, or starts one. *)
Theorem answers_match_requests accepted w0 s s' :
  rtc (step accepted) (idle w0) s → rtc (step accepted) s s' →
  (∀ i r, resolved (s_batcher s) !! i = Some r →
     resolved (s_batcher s') !! i = Some r ∧ ∃ p, s_submitted s !! i = Some p ∧ outcome_of self p r)
  ∧ StronglySorted lt (it_id <$> waiting (s_batcher s))
  ∧ (∀ it, it ∈ waiting (s_batcher s) →
       resolved (s_batcher s) !! it_id it = None ∧ s_submitted s !! it_id it = Some (it_payload it))
  ∧ (∀ batch, _batch_flush_task (s_batcher s) = Flushing batch →
       1 ≤ Z.of_nat (length batch) ≤ Z.max 1 (sa_batch_size args))
  ∧ (_batch_queue (s_batcher s) ≠ [] →
       alive (_batch_flush_task (s_batcher s))
       ∨ ∃ e p, _batch_flush_task (s_batcher s) = Crashed e ∧ p ∈ s_submitted s ∧ servable self p = false)
  ∧ ∀ payload, alive (_batch_flush_task (enqueue self payload (s_batcher s))).
Proof.
  intros H1 H2. destruct (steps_ok accepted _ _ H1 (idle_ok w0)) as [Hok _].
  destruct (steps_ok accepted _ _ H2 Hok) as [_ Hsub]. rewrite map_subseteq_spec in Hsub. split_and!.
  - intros i r Hr. split; [by apply Hsub|]. by apply (ok_resolved _ Hok).
  - apply (ok_sorted _ Hok).
  - intros it Hin. split; [by apply (ok_fresh _ Hok)|]. pose proof (ok_items _ Hok) as Hi.
    rewrite Forall_forall in Hi. by apply Hi.
  - intros batch Hb. destruct (ok_batch _ Hok batch Hb) as [Hne Hlen]. simpl in Hlen. split; [|done].
    destruct batch; [done|simpl; lia].
  - intros Hq. pose proof (ok_awake _ Hok Hq) as Hn. destruct (_batch_flush_task (s_batcher s)) as [| |batch|e] eqn:E; [done|left; constructor..|].
    right. destruct (crash_has_cause _ _ _ _ H1 E) as (p & Hp & Hs). by exists e, p.
  - intros payload. simpl. destruct (_batch_flush_task (s_batcher s)); constructor.
Qed.

(** C30: every request is answered. If the payloads are ones on which the simulator's own
    steps do not raise, then at any point of any interleaving the flush task, left to
    itself, empties the queue in at most two of its steps for each waiting request
    and two more, and every request so far has its answer: its result, or the simulated
    failure. *)
Theorem requests_served w0 s :
  rtc (step (λ p, servable self p = true)) (idle w0) s →
  ∃ st' w', serve self (2 * length (_batch_queue (s_batcher s)) + 2) (s_batcher s) (s_world s) = (Ok st', w')
    ∧ _batch_queue st' = []
    ∧ ∀ i p, s_submitted s !! i = Some p →
        ∃ r, resolved st' !! i = Some r
          ∧ (r = Raise simulated_failure
             ∨ ∃ l n res, _resolve_latency_ms self p = Ok l ∧ 1 ≤ n ≤ _batch_size self
                 ∧ _build_result self p l n = Ok res ∧ r = Ok res).
Proof.
  intros Hs. pose proof (steps_alive _ _ Hs (idle_alive w0)) as Ha. destruct s as [st w ps]. simpl in *.
  destruct (run_serve (2 * length (_batch_queue st) + 2) st w ps Ha) as (st' & w' & E & Ha' & Et).
  { unfold work. destruct (_batch_flush_task st); lia. }
  assert (_batch_queue st' = []) as Hq.
  { pose proof (ok_awake _ (al_ok _ Ha')) as Haw. simpl in Haw. destruct (_batch_queue st'); [done|]. by destruct Haw. }
  exists st', w'. split_and!; [done|done|]. intros i p Hp.
  destruct (al_all _ Ha' i) as [[r Hr]|Hin]; [by eapply lookup_lt_Some| |].
  - exists r. split; [done|]. destruct (ok_resolved _ (al_ok _ Ha') i r Hr) as (p' & Hp' & Ho). simpl in Hp'.
    assert (p' = p) as -> by congruence. apply outcome_servable; [|done].
    apply (Forall_lookup_1 _ _ _ _ (al_servable _ Ha') Hp).
  - simpl in Hin. unfold waiting in Hin. rewrite Et, Hq in Hin. by apply not_elem_of_nil in Hin.
Qed.

(** C40: one bad request takes its batch with it. When a batch of at least two holds a payload
    whose latency cannot be computed, the run ends the flush task with the exception and
    no request of the batch is ever answered, however the system goes on: their callers
    wait for ever. *)
Theorem bad_request_strands_batch accepted w0 st w ps batch e :
  rtc (step accepted) (idle w0) (MkSystem st w ps) →
  _batch_flush_task st = Flushing batch → (2 ≤ length batch)%nat → batch_latencies self batch = Raise e →
  ∃ st' w', flush self batch st w = (Ok st', w') ∧ _batch_flush_task st' = Crashed e
    ∧ ∀ s', rtc (step accepted) (MkSystem st' w' ps) s' →
        ∀ it, it ∈ batch → resolved (s_batcher s') !! it_id it = None.
Proof.
  intros Hr Et Hlen He. destruct (steps_ok accepted _ _ Hr (idle_ok w0)) as [Hok _].
  destruct (run_bad_batch batch (resolved st) w e Hlen He) as (w' & E). eexists _, w'.
  assert (flush self batch st w = (Ok (MkBatcher (_batch_queue st) (Crashed e) (_batch_event st) (resolved st)
    (next_item st)), w')) as Ef by (unfold flush; by rewrite (bind_ok _ _ _ _ _ E)).
  split_and!; [exact Ef|done|]. intros s' Hs' it Hin.
  assert (step accepted (MkSystem st w ps) (MkSystem (MkBatcher (_batch_queue st) (Crashed e) (_batch_event st)
    (resolved st) (next_item st)) w' ps)) as Hstep by (by eapply step_flush).
  apply (stranded_steps accepted _ _ _ Hs'); [by eapply step_ok|].
  assert (it ∈ waiting st) as Hw by (unfold waiting; rewrite Et; set_solver).
  split_and!; simpl; [by apply (ok_fresh _ Hok)| |].
  - unfold waiting. simpl. intros H. pose proof (sorted_NoDup _ (ok_sorted _ Hok)) as Hnd. simpl in Hnd.
    unfold waiting in Hnd. rewrite Et, fmap_app in Hnd. apply NoDup_app in Hnd as (_ & Hd & _).
    by apply (Hd (it_id it)); [apply list_elem_of_fmap_2|].
  - pose proof (ok_items _ Hok) as Hi. pose proof (ok_next _ Hok) as Hn. simpl in *. rewrite Forall_forall in Hi.
    rewrite Hn. eapply lookup_lt_Some, Hi, Hw.
Qed.
End machine.

(** ** The hypotheses can hold *)

Definition demo_args : simulator_args := MkSimulatorArgs 2 700 (tenths 8) (tenths 0) true 8 50 120.
Definition demo_w0 : world := world_of calm_env empty_db.

(** Two requests, one of them with a latency no float can hold. *)
Definition demo_endless : json := JDict [(u "options", JDict [(u "simulate_inference_ms", JInt (10 ^ 400))])].

Definition demo_queued (ps : list json) : batcher :=
  foldl (λ st p, enqueue (new_simulator demo_args) p st) (s_batcher (idle demo_w0)) ps.

Lemma demo_arrivals (accepted : json → Prop) p1 p2 :
  accepted p1 → accepted p2 →
  rtc (step demo_args accepted) (idle demo_w0) (MkSystem (demo_queued [p1; p2]) demo_w0 [p1; p2]).
Proof.
  intros H1 H2. eapply rtc_l; [by apply (step_enqueue _ _ p1)|]. eapply rtc_l; [by apply (step_enqueue _ _ p2)|].
  apply rtc_refl.
Qed.

Lemma answers_match_requests_witness :
  StronglySorted lt (it_id <$> waiting (demo_queued [demo_request; demo_endless])) ∧
  resolved (demo_queued [demo_request; demo_endless]) !! 1%nat = None.
Proof.
  destruct (answers_match_requests demo_args (λ _, True) demo_w0 _ _
    (demo_arrivals (λ _, True) demo_request demo_endless I I) (rtc_refl _ _)) as (_ & Hs & Hw & _).
  split; [exact Hs|]. apply (Hw (MkItem 1 demo_endless)). right; left.
Defined.

Lemma requests_served_witness :
  ∃ st' w', serve (new_simulator demo_args) 6 (demo_queued [demo_request; demo_failing_request]) demo_w0 = (Ok st', w')
    ∧ is_Some (resolved st' !! 1%nat).
Proof.
  destruct (requests_served demo_args demo_w0
    (MkSystem (demo_queued [demo_request; demo_failing_request]) demo_w0 [demo_request; demo_failing_request]))
    as (st' & w' & E & _ & H).
  - apply demo_arrivals; vm_compute; reflexivity.
  - exists st', w'. split; [exact E|]. destruct (H 1%nat demo_failing_request eq_refl) as (r & Hr & _). by exists r.
Defined.

Lemma bad_request_strands_batch_witness :
  ∃ st' w', flush (new_simulator demo_args) [MkItem 0 demo_request; MkItem 1 demo_endless]
      (wake (new_simulator demo_args) (demo_queued [demo_request; demo_endless])) demo_w0 = (Ok st', w')
    ∧ _batch_flush_task st' = Crashed division_overflow ∧ resolved st' !! 0%nat = None.
Proof.
  destruct (bad_request_strands_batch demo_args (λ _, True) demo_w0
    (wake (new_simulator demo_args) (demo_queued [demo_request; demo_endless])) demo_w0 [demo_request; demo_endless]
    [MkItem 0 demo_request; MkItem 1 demo_endless] division_overflow) as (st' & w' & E & Ec & H).
  - eapply rtc_r; [by apply demo_arrivals|]. by apply step_wake.
  - reflexivity.
  - simpl. lia.
  - vm_compute. reflexivity.
  - exists st', w'. split; [exact E|split; [exact Ec|]].
    apply (H _ (rtc_refl _ _) (MkItem 0 demo_request)). left.
Defined.
