(* ===== verification/Semaphore.v ===== *)
(** * The simulator's semaphore: who computes at the same time

    [_run_single] and [_run_batch] of [gpu_simulator.py] hold [self._semaphore] while they
    compute, one place for a request and one for a whole batch; the gauge of active jobs
    counts the requests behind the places. The bodies are modelled in [Processing] and
    [Batching]; here their entries and exits interleave in any order. *)
From S2P Require Import Prelude PyStr PyFloat Json World Settings Ports Processing.
#[local] Open Scope Z_scope.

(** One [async with self._semaphore]: its number and how many requests it computes. *)
Record entry := MkEntry { e_id : nat; e_items : Z }.

#[global] Instance entry_eq_dec : EqDecision entry.
Proof. solve_decision. Defined.

(** The entries that compute; those that were handed a place by a release and have not resumed
    yet; those that wait, in their order; the value of [INFERENCE_ACTIVE_JOBS]; and the
    entries in the order they were given their places. *)
Record floor := MkFloor {
  f_holding : list entry;
  f_granted : list entry;
  f_waiting : list entry;
  f_active : Z;
  f_admitted : list entry;
}.

Definition empty_floor : floor := MkFloor [] [] [] 0 [].

(** Removes one occurrence. *)
Fixpoint remove_one (e : entry) (l : list entry) : list entry :=
  match l with
  | [] => []
  | x :: l' => if decide (x = e) then l' else x :: remove_one e l'
  end.

Section semaphore.
(** [asyncio.Semaphore(max(1, max_concurrency))] *)
Variable places : Z.

Definition used (s : floor) : Z := Z.of_nat (length (f_holding s) + length (f_granted s)).

(** [not self.locked()]: there is a place, and nobody is waiting or about to resume. *)
Definition open (s : floor) : bool := (used s <? places) && bool_decide (f_waiting s = [] ∧ f_granted s = []).

(** [__aenter__]: [acquire] returns at once and the requests count as active, or the end of
    the queue. *)
Definition enter (e : entry) (s : floor) : floor :=
  if open s then
    MkFloor (f_holding s ++ [e]) (f_granted s) (f_waiting s) (f_active s + e_items e) (f_admitted s ++ [e])
  else MkFloor (f_holding s) (f_granted s) (f_waiting s ++ [e]) (f_active s) (f_admitted s).

(** [_wake_up_next] *)
Definition wake_up_next (s : floor) : floor :=
  match f_waiting s with
  | [] => s
  | w :: ws => MkFloor (f_holding s) (f_granted s ++ [w]) ws (f_active s) (f_admitted s ++ [w])
  end.

(** [while self._value > 0: if not self._wake_up_next(): break]; each turn takes one waiter. *)
Fixpoint wake_up_all (fuel : nat) (s : floor) : floor :=
  match fuel with
  | O => s
  | S fuel' => if used s <? places then wake_up_all fuel' (wake_up_next s) else s
  end.

(** A waiter resumes with its place: the rest of [acquire], and its requests count. *)
Definition resume (e : entry) (s : floor) : floor :=
  if decide (e ∈ f_granted s) then
    wake_up_all (length (f_waiting s))
      (MkFloor (f_holding s ++ [e]) (remove_one e (f_granted s)) (f_waiting s) (f_active s + e_items e) (f_admitted s))
  else s.

(** [INFERENCE_ACTIVE_JOBS.dec(n)] and [__aexit__], after a result or an exception: [release]. *)
Definition leave (e : entry) (s : floor) : floor :=
  if decide (e ∈ f_holding s) then
    wake_up_next
      (MkFloor (remove_one e (f_holding s)) (f_granted s) (f_waiting s) (f_active s - e_items e) (f_admitted s))
  else s.

Inductive event := Enters (e : entry) | Resumes (e : entry) | Leaves (e : entry).

Definition happens (s : floor) (ev : event) : floor :=
  match ev with Enters e => enter e s | Resumes e => resume e s | Leaves e => leave e s end.

Definition run_floor (evs : list event) : floor := foldl happens empty_floor evs.

(** The entries of the events, in order. *)
Definition entered (evs : list event) : list entry :=
  omap (λ ev, match ev with Enters e => Some e | _ => None end) evs.

(** ** The invariant *)

Definition total (l : list entry) : Z := foldr (λ e n, e_items e + n) 0 l.

Record floor_ok (es : list entry) (s : floor) : Prop := {
  fo_bound : used s ≤ places;
  fo_busy : f_waiting s ≠ [] → f_granted s = [] → used s = places;
  fo_active : f_active s = total (f_holding s);
  fo_order : f_admitted s ++ f_waiting s = es;
}.

Lemma total_app l k : total (l ++ k) = total l + total k.
Proof. induction l as [|e l IH]; simpl; lia. Qed.

Lemma remove_one_length e l : e ∈ l → length l = S (length (remove_one e l)).
Proof.
  induction l as [|x l IH]; intros H; [by apply not_elem_of_nil in H|]. simpl.
  case_decide as Hx; [done|]. simpl. rewrite <- IH; [done|]. set_solver.
Qed.

Lemma remove_one_total e l : e ∈ l → total l = total (remove_one e l) + e_items e.
Proof.
  induction l as [|x l IH]; intros H; [by apply not_elem_of_nil in H|]. simpl.
  case_decide as Hx; [subst; lia|]. simpl. rewrite IH; [lia|]. set_solver.
Qed.

Lemma entered_app evs evs' : entered (evs ++ evs') = entered evs ++ entered evs'.
Proof. apply omap_app. Qed.

Lemma enter_ok es s e : floor_ok es s → floor_ok (es ++ [e]) (enter e s).
Proof.
  intros [Hb Hf Ha Ho]. unfold enter, open. destruct (Z.ltb_spec (used s) places) as [Hu|Hu];
    [case_bool_decide as Hw|]; simpl; unfold used in *.
  - destruct Hw as [Hw Hg]. split; unfold used; simpl; rewrite ?length_app, ?total_app; simpl; [lia|done|lia|].
    rewrite <- Ho, Hw. by rewrite !app_nil_r.
  - split; unfold used; simpl; rewrite ?app_assoc; [done|intros _ Hg|done|by rewrite Ho].
    apply Hf; [|done]. intros Hw'. by apply Hw.
  - split; unfold used; simpl; rewrite ?app_assoc; [done|intros _ _; lia|done|by rewrite Ho].
Qed.

(** A place is free: the first waiter may have it. *)
Lemma wake_up_next_ok es s :
  used s < places → f_active s = total (f_holding s) → f_admitted s ++ f_waiting s = es → floor_ok es (wake_up_next s).
Proof.
  intros Hu Ha Ho. unfold wake_up_next, used in *. destruct (f_waiting s) as [|w ws] eqn:Hw.
  - split; [unfold used; lia|by rewrite Hw|done|by rewrite Hw].
  - split; unfold used; simpl; [rewrite length_app; simpl; lia|intros _ Hg; by destruct (f_granted s)|done|].
    by rewrite <- app_assoc.
Qed.

Lemma wake_up_all_ok es fuel s :
  length (f_waiting s) = fuel → used s ≤ places → f_active s = total (f_holding s) → f_admitted s ++ f_waiting s = es →
  floor_ok es (wake_up_all fuel s).
Proof.
  revert s. induction fuel as [|fuel IH]; intros s Hl Hb Ha Ho; simpl.
  - split; [done| |done|done]. intros Hw. by destruct (f_waiting s).
  - destruct (Z.ltb_spec (used s) places) as [Hu|Hu]; [|split; [done|intros; lia|done|done]].
    destruct (wake_up_next_ok es s Hu Ha Ho) as [Hb' _ Ha' Ho']. apply IH; [|done..].
    unfold wake_up_next. destruct (f_waiting s); simpl in *; lia.
Qed.

Lemma resume_ok es s e : floor_ok es s → floor_ok es (resume e s).
Proof.
  intros [Hb Hf Ha Ho]. unfold resume. case_decide as He; [|by split].
  pose proof (remove_one_length _ _ He). apply wake_up_all_ok; simpl; [done| |rewrite total_app; simpl; lia|done].
  unfold used in *. simpl. rewrite length_app. simpl. lia.
Qed.

Lemma leave_ok es s e : floor_ok es s → floor_ok es (leave e s).
Proof.
  intros [Hb Hf Ha Ho]. unfold leave. case_decide as He; [|by split].
  pose proof (remove_one_length _ _ He). pose proof (remove_one_total _ _ He).
  apply wake_up_next_ok; simpl; [|lia|done]. unfold used in *. simpl. lia.
Qed.

Lemma run_floor_ok evs : 0 ≤ places → floor_ok (entered evs) (run_floor evs).
Proof.
  intros Hp. induction evs as [|ev evs IH] using rev_ind; [by split|].
  unfold run_floor in *. rewrite foldl_app, entered_app. simpl.
  destruct ev; simpl; rewrite ?app_nil_r; [by apply enter_ok|by apply resume_ok|by apply leave_ok].
Qed.
End semaphore.

(** ** What the semaphore promises *)

(** C31: bounded and fair concurrency. For the simulator of whatever settings, and however the
    requests and batches come, resume and go, with or without an exception: at most
    [max(1, max_concurrency)] of them have a place, and only those compute; if one waits,
    either all places are taken or a waiter is about to resume; places are given in the
    order of arrival; and the gauge of active jobs is the number of requests that are
    being computed. *)
Theorem concurrency_bounded args evs :
  let self := new_simulator args in
  let s := run_floor (permits self) evs in
  Z.of_nat (length (f_holding s) + length (f_granted s)) ≤ Z.max 1 (sa_max_concurrency args)
  ∧ (f_waiting s ≠ [] → f_granted s = [] → Z.of_nat (length (f_holding s)) = Z.max 1 (sa_max_concurrency args))
  ∧ f_admitted s ++ f_waiting s = entered evs
  ∧ f_active s = total (f_holding s).
Proof.
  intros self s. destruct (run_floor_ok (permits self) evs) as [Hb Hf Ha Ho]; [simpl; lia|].
  fold s in Hb, Hf, Ha, Ho. unfold used in *. split_and!; [done| |done|done].
  intros Hw Hg. specialize (Hf Hw Hg). rewrite Hg in Hf. simpl in Hf. rewrite Nat.add_0_r in Hf. exact Hf.
Qed.

(** Three requests and two places. *)
Example semaphore_run :
  let e i := MkEntry i 1 in
  let s := run_floor 2 [Enters (e 1%nat); Enters (e 2%nat); Enters (e 3%nat); Leaves (e 1%nat); Resumes (e 3%nat)] in
  (f_holding s, f_waiting s, f_active s) = ([e 2%nat; e 3%nat], [], 2).
Proof. reflexivity. Qed.
