(* ===== verification/KafkaTopics.v ===== *)
(** * Topics: [app/core/kafka_topics.py]

    The partition counts the settings ask for, and [ensure_kafka_topics], which
    creates missing topics and adds partitions to small ones. The admin client is an
    interface. *)
From S2P Require Import Prelude PyStr PyFloat Json Settings.
#[local] Open Scope Z_scope.

(** [build_topic_partition_targets] *)
Definition build_topic_partition_targets (s : Settings) : list (pystr * Z) :=
  let worker_partitions := Z.max 1 (kafka_partitions_worker_topic s) in
  let downstream_partitions := Z.max 1 (kafka_partitions_downstream_topic s) in
  dict_of [(kafka_request_topic s, worker_partitions);
           (kafka_inference_topic s, worker_partitions);
           (kafka_retry_topic_request s, worker_partitions);
           (kafka_retry_topic_downstream s, downstream_partitions);
           (kafka_dlq_topic s, Z.max 1 (kafka_partitions_dlq s));
           (kafka_downstream_topic s, downstream_partitions)].

(** [NewTopic] *)
Record NewTopic := MkNewTopic { name : pystr; num_partitions : Z; replication_factor : Z }.

(** ** The admin client: an interface *)

(** What the code relies on of [AIOKafkaAdminClient] when the cluster answers:
    [partitions c] is the number of partitions of each topic; a request to create
    topics that do not exist and that the cluster [accepts] (their names, and as many replicas as it has
    brokers for), or to add partitions to topics that do, is carried
    out and touches no other topic. *)
Class KafkaAdmin := {
  cluster : Type;
  partitions : cluster → gmap pystr Z;
  accepts : cluster → NewTopic → Prop;
  list_topics : cluster → list pystr;
  create_topics : list NewTopic → cluster → result cluster;
  describe_topics : list pystr → cluster → list (pystr * Z);
  create_partitions : list (pystr * Z) → cluster → result cluster;

  list_law c n : n ∈ list_topics c ↔ is_Some (partitions c !! n);
  create_law new c :
    NoDup (name <$> new) →
    (∀ t, t ∈ new →
       partitions c !! name t = None ∧ 1 ≤ num_partitions t ∧ 1 ≤ replication_factor t ∧ accepts c t) →
    ∃ c', create_topics new c = Ok c'
      ∧ (∀ t, t ∈ new → partitions c' !! name t = Some (num_partitions t))
      ∧ (∀ n, n ∉ name <$> new → partitions c' !! n = partitions c !! n);
  describe_law ns c :
    (∀ n, n ∈ ns → is_Some (partitions c !! n)) → NoDup ns →
    NoDup (describe_topics ns c).*1
    ∧ ∀ n k, (n, k) ∈ describe_topics ns c ↔ n ∈ ns ∧ partitions c !! n = Some k;
  expand_law wanted c :
    NoDup wanted.*1 →
    (∀ n k, (n, k) ∈ wanted → ∃ k0, partitions c !! n = Some k0 ∧ k0 < k) →
    ∃ c', create_partitions wanted c = Ok c'
      ∧ (∀ n k, (n, k) ∈ wanted → partitions c' !! n = Some k)
      ∧ (∀ n, n ∉ wanted.*1 → partitions c' !! n = partitions c !! n);
}.

Section topics.
Context {KA : KafkaAdmin}.

(** [missing] and the topics to create. *)
Definition missing_topics (targets : list (pystr * Z)) (c : cluster) : list (pystr * Z) :=
  filter (λ t, t.1 ∉ list_topics c) targets.
Definition new_topics (s : Settings) (missing : list (pystr * Z)) : list NewTopic :=
  (λ t, MkNewTopic t.1 t.2 (Z.max 1 (kafka_topic_replication_factor s))) <$> missing.

(** [expand_map] *)
Definition expand_map (targets described : list (pystr * Z)) : list (pystr * Z) :=
  dict_of (omap (λ d : pystr * Z,
    let '(topic, current) := d in
    let target := default current (dict_lookup targets topic) in
    if current <? target then Some (topic, target) else None) described).

(** [ensure_kafka_topics] *)
Definition ensure_kafka_topics (s : Settings) (c : cluster) : result cluster :=
  if negb (kafka_topic_auto_configure s) then Ok c
  else
    let targets := build_topic_partition_targets s in
    let missing := missing_topics targets c in
    c ← match missing with [] => Ok c | _ => create_topics (new_topics s missing) c end;
    let described := describe_topics targets.*1 c in
    match expand_map targets described with
    | [] => Ok c
    | expansions => create_partitions expansions c
    end.
End topics.

(** ** Facts *)

Section facts.
Context {KA : KafkaAdmin}.

Lemma targets_NoDup s : NoDup (build_topic_partition_targets s).*1.
Proof. apply dict_of_NoDup. Qed.

Lemma targets_positive s : Forall (λ t, 1 ≤ t.2) (build_topic_partition_targets s).
Proof. apply (dict_of_Forall (λ k, 1 ≤ k)). repeat constructor; simpl; lia. Qed.

Lemma elem_missing targets c t : t ∈ missing_topics targets c ↔ t ∈ targets ∧ partitions c !! t.1 = None.
Proof.
  unfold missing_topics. rewrite list_elem_of_filter, list_law, <- eq_None_not_Some. tauto.
Qed.

Lemma missing_NoDup targets c : NoDup targets.*1 → NoDup (missing_topics targets c).*1.
Proof.
  intros H. eapply sublist_NoDup; [exact H|]. unfold missing_topics.
  induction targets as [|t targets IH]; csimpl in *; [done|]. apply NoDup_cons in H as [_ H].
  rewrite filter_cons. case_decide; csimpl; [by apply sublist_skip, IH|by apply sublist_cons, IH].
Qed.

(** The cluster accepts every topic of the settings it does not have. *)
Definition acceptable (s : Settings) (c : cluster) : Prop :=
  ∀ t, t ∈ new_topics s (missing_topics (build_topic_partition_targets s) c) → accepts c t.

(** After the missing topics are created. *)
Lemma created s c :
  acceptable s c →
  let targets := build_topic_partition_targets s in
  let missing := missing_topics targets c in
  ∃ c1, match missing with [] => Ok c | _ => create_topics (new_topics s missing) c end = Ok c1
    ∧ ∀ n, partitions c1 !! n
        = match partitions c !! n with Some k => Some k | None => dict_lookup targets n end.
Proof.
  intros Hac. cbv zeta. unfold acceptable in Hac. set (targets := build_topic_partition_targets s) in *. set (missing := missing_topics targets c) in *.
  pose proof (targets_NoDup s) as Hnd. fold targets in Hnd.
  assert (∃ c1, match missing with [] => Ok c | _ => create_topics (new_topics s missing) c end = Ok c1
    ∧ (∀ t, t ∈ missing → partitions c1 !! t.1 = Some t.2) ∧ (∀ n, n ∉ missing.*1 → partitions c1 !! n = partitions c !! n))
    as (c1 & E & H1 & H2).
  { destruct missing as [|t0 ms] eqn:Em; [exists c; split_and!; [done|by intros t ?%not_elem_of_nil|done]|].
    rewrite <- Em. destruct (create_law (new_topics s missing) c) as (c1 & E & H1 & H2).
    - unfold new_topics. rewrite <- list_fmap_compose. by apply missing_NoDup.
    - intros t Ht. pose proof (Hac t) as Ha. rewrite <- Em in Ha. specialize (Ha Ht). unfold new_topics in Ht.
      apply list_elem_of_fmap in Ht as (x & -> & Hx). subst missing.
      apply elem_missing in Hx as [Hx Hn]. simpl. split_and!; [done| |lia|exact Ha].
      pose proof (targets_positive s) as Hp. rewrite Forall_forall in Hp. by apply Hp.
    - exists c1. split_and!; [done| |].
      + intros t Ht. apply (H1 (MkNewTopic t.1 t.2 (Z.max 1 (kafka_topic_replication_factor s)))).
        apply list_elem_of_fmap. by exists t.
      + intros n Hn. apply H2. unfold new_topics. by rewrite <- list_fmap_compose. }
  exists c1. split; [done|]. intros n. destruct (decide (n ∈ missing.*1)) as [Hn|Hn].
  - apply list_elem_of_fmap in Hn as (t & -> & Ht). rewrite (H1 t Ht). apply elem_missing in Ht as [Ht ->].
    symmetry. apply dict_elem_lookup; [done|]. by destruct t.
  - rewrite (H2 n Hn). destruct (partitions c !! n) as [k|] eqn:E1; [done|].
    destruct (dict_lookup targets n) as [k|] eqn:E2; [|done]. exfalso. apply Hn, list_elem_of_fmap. exists (n, k).
    split; [done|]. apply elem_missing. split; [by apply dict_lookup_elem|done].
Qed.

Lemma elem_expand targets described topic k :
  NoDup described.*1 →
  NoDup (expand_map targets described).*1
  ∧ ((topic, k) ∈ expand_map targets described ↔
       ∃ current, (topic, current) ∈ described ∧ dict_lookup targets topic = Some k ∧ current < k).
Proof.
  intros Hnd. split; [apply dict_of_NoDup|]. unfold expand_map. rewrite dict_of_nodup.
  2: { eapply sublist_NoDup; [exact Hnd|]. apply omap_keys_sublist. intros [t c] y. case_match; [by intros [= <-]|done]. }
  rewrite list_elem_of_omap. split.
  - intros ([t c] & Hin & H). destruct (Z.ltb_spec c (default c (dict_lookup targets t))); [|done].
    injection H as -> <-. exists c. split; [done|]. destruct (dict_lookup targets topic); simpl in *; [done|lia].
  - intros (c & Hin & Hk & Hlt). exists (topic, c). split; [done|]. rewrite Hk. simpl. by rewrite (proj2 (Z.ltb_lt _ _)).
Qed.

(** After the small topics are expanded. *)
Lemma expanded targets c :
  NoDup targets.*1 → (∀ n, n ∈ targets.*1 → is_Some (partitions c !! n)) →
  ∃ c', match expand_map targets (describe_topics targets.*1 c) with
        | [] => Ok c
        | expansions => create_partitions expansions c
        end = Ok c'
    ∧ ∀ n, partitions c' !! n
        = match dict_lookup targets n with
          | Some t => (λ k, Z.max t k) <$> partitions c !! n
          | None => partitions c !! n
          end.
Proof.
  intros Hnd Hex. destruct (describe_law targets.*1 c Hex Hnd) as [Hdn Hd]. set (ds := describe_topics _ _) in *.
  set (wanted := expand_map targets ds).
  assert (∀ n k, (n, k) ∈ wanted ↔ ∃ k0, partitions c !! n = Some k0 ∧ dict_lookup targets n = Some k ∧ k0 < k) as Hw.
  { intros n k. unfold wanted. rewrite (proj2 (elem_expand targets ds n k Hdn)). split.
    - intros (k0 & [_ Hin]%Hd & ? & ?). eauto.
    - intros (k0 & Hk0 & Ht & Hlt). exists k0. split; [|done]. apply Hd. split; [|done].
      apply dict_lookup_elem in Ht. apply list_elem_of_fmap. by exists (n, k). }
  assert (∃ c', match wanted with [] => Ok c | _ => create_partitions wanted c end = Ok c'
    ∧ (∀ n k, (n, k) ∈ wanted → partitions c' !! n = Some k) ∧ (∀ n, n ∉ wanted.*1 → partitions c' !! n = partitions c !! n))
    as (c' & E & H1 & H2).
  { destruct wanted as [|x ws] eqn:Ew; [exists c; split_and!; [done|by intros n k ?%not_elem_of_nil|done]|].
    destruct (expand_law (x :: ws) c) as (c' & E & ?); [| |by exists c'].
    - rewrite <- Ew. exact (proj1 (elem_expand targets ds [] 0 Hdn)).
    - intros n k (k0 & ? & _ & ?)%Hw. eauto. }
  exists c'. split; [rewrite <- E; by destruct wanted|]. intros n. destruct (decide (n ∈ wanted.*1)) as [Hn|Hn].
  - apply list_elem_of_fmap in Hn as ([n' k] & Hq & Hin). simpl in Hq. subst n'. rewrite (H1 _ _ Hin). apply Hw in Hin as (k0 & Hk0 & Ht & Hlt).
    simpl. rewrite Ht, Hk0. simpl. f_equal. lia.
  - rewrite (H2 n Hn). destruct (dict_lookup targets n) as [t|] eqn:Et; [|done].
    destruct (partitions c !! n) as [k0|] eqn:Ek; [|done]. simpl. f_equal. destruct (Z.lt_ge_cases k0 t); [|lia].
    exfalso. apply Hn, list_elem_of_fmap. exists (n, t). split; [done|]. apply Hw. eauto.
Qed.

Lemma run_ensure s c :
  kafka_topic_auto_configure s = true → acceptable s c →
  ∃ c', ensure_kafka_topics s c = Ok c'
    ∧ ∀ n, partitions c' !! n
        = match dict_lookup (build_topic_partition_targets s) n with
          | Some t => Some (match partitions c !! n with Some k => Z.max t k | None => t end)
          | None => partitions c !! n
          end.
Proof.
  intros Ha Hac. unfold ensure_kafka_topics. rewrite Ha. simpl negb. cbv iota zeta.
  destruct (created s c Hac) as (c1 & E1 & H1). rewrite E1. cbn [mbind result_bind].
  destruct (expanded (build_topic_partition_targets s) c1) as (c' & E & H).
  - apply targets_NoDup.
  - intros n Hn. rewrite H1. destruct (partitions c !! n); [done|].
    destruct (dict_lookup (build_topic_partition_targets s) n) eqn:E; [done|]. by apply dict_lookup_None in E.
  - exists c'. split; [exact E|]. intros n. rewrite H, H1.
    destruct (dict_lookup _ n) as [t|]; [|by destruct (partitions c !! n)].
    destruct (partitions c !! n); simpl; [done|]. f_equal. lia.
Qed.

(** With all topics there, nothing is left to accept. *)
Lemma nothing_missing s c c' :
  (∀ n, partitions c' !! n
     = match dict_lookup (build_topic_partition_targets s) n with
       | Some t => Some (match partitions c !! n with Some k => Z.max t k | None => t end)
       | None => partitions c !! n
       end) → acceptable s c'.
Proof.
  intros H t (x & _ & Hx)%list_elem_of_fmap. apply elem_missing in Hx as [Hx Hn]. exfalso. rewrite H in Hn.
  destruct x as [n k]. simpl in Hn. by rewrite (proj1 (dict_elem_lookup _ n k (targets_NoDup s)) Hx) in Hn.
Qed.

(** ** What is promised *)

(** C32: topics are provisioned and never shrink. With automatic configuration and a cluster
    that answers and accepts the topics of the settings that it does not have, [ensure_kafka_topics] returns; every topic of the settings then has
    its target number of partitions, or the number it had where that is greater; every
    other topic is as before; and running it again (every process does, at its start)
    changes nothing. *)
Theorem topics_ensured s c :
  kafka_topic_auto_configure s = true → acceptable s c →
  ∃ c', ensure_kafka_topics s c = Ok c'
    ∧ (∀ n, partitions c' !! n
         = match dict_lookup (build_topic_partition_targets s) n with
           | Some t => Some (match partitions c !! n with Some k => Z.max t k | None => t end)
           | None => partitions c !! n
           end)
    ∧ ∃ c'', ensure_kafka_topics s c' = Ok c'' ∧ partitions c'' = partitions c'.
Proof.
  intros Ha Hac. destruct (run_ensure s c Ha Hac) as (c' & E & H). exists c'. split; [done|]. split; [done|].
  destruct (run_ensure s c' Ha) as (c'' & E' & H'); [by eapply nothing_missing|]. exists c''. split; [done|]. apply map_eq. intros n.
  rewrite H', H. destruct (dict_lookup _ n); [|done]. destruct (partitions c !! n); f_equal; lia.
Qed.

(** The worker finds its topics. Every topic the roles consume, publish to or move
    dead letters to has a target, and every target is at least one partition. *)
Theorem every_topic_has_a_target s a r :
  let targets := build_topic_partition_targets s in
  Forall (λ t, is_Some (dict_lookup targets t))
    (consume_topics (with_role a r s) ++ [job_service_topic s; kafka_downstream_topic s; kafka_dlq_topic s])
  ∧ Forall (λ t, 1 ≤ t.2) targets.
Proof.
  cbv zeta. split; [|apply targets_positive].
  assert (∀ t, t ∈ [kafka_request_topic s; kafka_retry_topic_request s; kafka_retry_topic_downstream s;
    kafka_dlq_topic s; kafka_downstream_topic s] → is_Some (dict_lookup (build_topic_partition_targets s) t)) as H.
  { intros t Ht. unfold build_topic_partition_targets, dict_of. cbn [fold_left fst snd].
    rewrite !dict_lookup_set. repeat (destruct (decide (_ = t)) as [|?]; [done|]). exfalso. set_solver. }
  apply Forall_forall. intros t Ht. apply H. unfold consume_topics, job_service_topic in Ht.
  destruct r; simpl in Ht; destruct (decide _); set_solver.
Qed.
End facts.

(** ** A cluster as a map *)

(** It has one broker, and refuses topics with more replicas. *)

#[local] Program Instance map_admin : KafkaAdmin := {|
  cluster := gmap pystr Z;
  partitions := λ c, c;
  accepts := λ _ t, replication_factor t ≤ 1;
  list_topics := λ c, (map_to_list c).*1;
  create_topics := λ new c,
    if forallb (λ t, replication_factor t <=? 1) new then Ok (foldr (λ t c, <[name t := num_partitions t]> c) c new)
    else Raise (RuntimeError (u "InvalidReplicationFactorError"));
  describe_topics := λ ns c, omap (λ n, (λ k, (n, k)) <$> c !! n) ns;
  create_partitions := λ wanted c, Ok (foldr (λ t c, <[t.1 := t.2]> c) c wanted);
|}.
Next Obligation.
  intros c n. simpl. rewrite list_elem_of_fmap. split.
  - intros ([n' k] & -> & Hin%elem_of_map_to_list). by exists k.
  - intros [k Hk]. exists (n, k). split; [done|]. by apply elem_of_map_to_list.
Qed.
Next Obligation.
  intros new c Hnd Hac. simpl. assert (forallb (λ t, replication_factor t <=? 1) new = true) as ->.
  { apply forallb_forall. intros t Ht%list_elem_of_In. apply Z.leb_le, (Hac t Ht). }
  clear Hac. eexists. split; [done|]. induction new as [|t new IH]; simpl.
  { split; [by intros t ?%not_elem_of_nil|done]. }
  rewrite fmap_cons in *. apply NoDup_cons in Hnd as [Hn Hnd]. destruct (IH Hnd) as [I1 I2]. split.
  - intros t' [->|Hin]%elem_of_cons; [apply lookup_insert_eq|]. rewrite lookup_insert_ne; [by apply I1|].
    intros Heq. apply Hn. rewrite Heq. by apply list_elem_of_fmap_2.
  - intros n [Hne Hn']%not_elem_of_cons. rewrite lookup_insert_ne by done. by apply I2.
Qed.
Next Obligation.
  intros ns c Hex Hnd. simpl. split.
  - eapply sublist_NoDup; [exact Hnd|]. clear. induction ns as [|n ns IH]; [done|]. cbn [omap list_omap].
    destruct (c !! n); simpl; [by apply sublist_skip|by apply sublist_cons].
  - intros n k. rewrite list_elem_of_omap. split.
    + intros (n' & Hin & H). destruct (c !! n') eqn:E; [|done]. simpl in H. by simplify_eq.
    + intros [Hin Hk]. exists n. by rewrite Hk.
Qed.
Next Obligation.
  intros wanted c Hnd _. simpl. eexists. split; [done|]. induction wanted as [|[n0 k0] wanted IH]; simpl.
  { split; [by intros n k ?%not_elem_of_nil|done]. }
  rewrite fmap_cons in *. apply NoDup_cons in Hnd as [Hn Hnd]. destruct (IH Hnd) as [I1 I2]. split.
  - intros n k [[= -> ->]|Hin]%elem_of_cons; [apply lookup_insert_eq|]. rewrite lookup_insert_ne; [by apply I1|].
    intros ->. apply Hn, list_elem_of_fmap. by exists (n, k).
  - intros n [Hne Hn']%not_elem_of_cons. rewrite lookup_insert_ne by done. by apply I2.
Qed.

(** A cluster with the request topic, bigger than its target. *)
Definition demo_cluster : gmap pystr Z := {[ u "request-topic" := 6; u "audit" := 2 ]}.

Lemma topics_ensured_witness :
  ∃ c' : gmap pystr Z, ensure_kafka_topics (KA := map_admin) default_settings demo_cluster = Ok c'
    ∧ c' !! u "request-topic" = Some 6 ∧ c' !! u "dlq-topic" = Some 1 ∧ c' !! u "audit" = Some 2.
Proof.
  destruct (topics_ensured (KA := map_admin) default_settings demo_cluster eq_refl) as (c' & E & H & _).
  { intros t (x & -> & _)%list_elem_of_fmap. exact (Z.le_refl 1). }
  exists c'. split; [exact E|]. split_and!.
  - etrans; [apply (H (u "request-topic"))|]. vm_compute. reflexivity.
  - etrans; [apply (H (u "dlq-topic"))|]. vm_compute. reflexivity.
  - etrans; [apply (H (u "audit"))|]. vm_compute. reflexivity.
Defined.
