(* ===== verification/Api.v ===== *)
(** * The HTTP interface: [app/api]

    The routes of [jobs.py] and [health.py] as computations that return a status
    code and a body, with the request and response models of [schemas.py].
    FastAPI's part is its documented behaviour: an invalid request is answered 422,
    an [HTTPException] with its code. *)
From S2P Require Import Prelude PyStr PyFloat Json Domain Database Evolution World Effects Ports Fixtures JobService Messaging.
#[local] Open Scope Z_scope.

(** ** [schemas.py] *)

(** [model_dump()] of the [JobCreateRequest] made of a body: [input] is required, [options] defaults to
    an empty dict, both are dicts, other fields are dropped. *)
Definition JobCreateRequest (body : json) : option json :=
  match body with
  | JDict d =>
      match dict_lookup d (u "input"), default (JDict []) (dict_lookup d (u "options")) with
      | Some (JDict i), JDict o => Some (JDict [(u "input", JDict i); (u "options", JDict o)])
      | _, _ => None
      end
  | _ => None
  end.

(** [JobResponse] *)
Definition JobResponse (job : Job) : json :=
  JDict [(u "job_id", JStr (job_id job)); (u "status", JStr (status_value (job_status job)))].

(** [JobDetailResponse]: a result is a dict or null. *)
Definition invalid_response : exn := Exn (u "ResponseValidationError") (u "result").
Definition JobDetailResponse (job : Job) : result json :=
  match job_result job with
  | None | Some JNull | Some (JDict _) =>
      Ok (JDict [(u "job_id", JStr (job_id job)); (u "status", JStr (status_value (job_status job)));
                 (u "result", default JNull (job_result job));
                 (u "error", match job_error job with Some e => JStr e | None => JNull end)])
  | _ => Raise invalid_response
  end.

(** [HealthResponse]: the state and the detail of each dependency. *)
Record HealthResponse := MkHealthResponse {
  h_status : pystr;
  h_dependencies : list (pystr * (pystr * pystr));
  h_details : list (pystr * pystr);
}.

Section api.
Context {RS : RedisServer} {IP : IdempotencyPort}.

(** A status code and a body. *)
Abbreviation response := (Z * json)%type.

(** ** [jobs.py] *)

(** [POST /jobs] *)
Definition create_job_route (topic : pystr) (body : json) (idempotency_key : option pystr) : M response :=
  match JobCreateRequest body with
  | None => mret (422, JDict [(u "detail", JList [])])
  | Some payload =>
      job ← create_job topic payload idempotency_key;
      mret (202, JobResponse job)
  end.

(** [GET /jobs/{job_id}] *)
Definition get_job_route (id : pystr) : M response :=
  job ← get_job id;
  match job with
  | None => mret (404, JDict [(u "detail", JStr (u "Job not found"))])
  | Some job => body ← lift (JobDetailResponse job); mret (200, body)
  end.

(** ** [health.py] *)

(** [GET /health/live] *)
Definition live : HealthResponse := MkHealthResponse (u "ok") [] [(u "service", u "alive")].

(** One dependency: what the [try] reports, or the text of the exception. *)
Definition probe (check : M pystr) : M (pystr * pystr) :=
  try_except (detail ← check; mret (u "ok", detail)) (λ exc, mret (u "error", exn_msg exc)).

Definition check_database : M pystr :=
  with_session (execute (λ d, Ok (tt, d))) ;; mret (u "connection ok").
Definition check_redis : M pystr := external (mret tt) ;; mret (u "ping ok").
Definition check_kafka (publisher : producer) : M pystr :=
  let '(is_ready, detail) := readiness publisher in
  if negb is_ready then raise (RuntimeError detail) else mret detail.

(** [GET /health/ready] *)
Definition ready_route (publisher : producer) : M (Z * HealthResponse) :=
  database ← probe check_database;
  redis ← probe check_redis;
  kafka ← probe (check_kafka publisher);
  let dependencies := [(u "database", database); (u "redis", redis); (u "kafka", kafka)] in
  let all_ok := forallb (λ d : pystr * (pystr * pystr), bool_decide (d.2.1 = u "ok")) dependencies in
  mret (if all_ok then 200 else 503,
        MkHealthResponse (if all_ok then u "ok" else u "degraded") dependencies
          ((λ d : pystr * (pystr * pystr), (d.1, d.2.1)) <$> dependencies)).

End api.

(** ** Facts *)

Section facts.
Context {RS : RedisServer}.

(** What an external call without an effect of its own returns. *)
Definition answer {A} (a : A) (f : fate) : result A :=
  match f with Done => Ok a | Failed e | Lost e => Raise e end.

Lemma run_check_database w :
  ∃ w', check_database w = (answer (u "connection ok") (env_fate (w_env w) (w_calls w)), w')
    ∧ w_calls w' = S (w_calls w) ∧ w_env w' = w_env w ∧ w_db w' = w_db w.
Proof.
  unfold check_database, with_session, mbind, M_bind, open_session, modify, try_finally, execute, external. simpl.
  destruct (env_fate (w_env w) (w_calls w)); eexists; by split_and!.
Qed.

Lemma run_check_redis w :
  ∃ w', check_redis w = (answer (u "ping ok") (env_fate (w_env w) (w_calls w)), w')
    ∧ w_env w' = w_env w ∧ w_db w' = w_db w.
Proof.
  unfold check_redis, mbind, M_bind, external. simpl.
  destruct (env_fate (w_env w) (w_calls w)); eexists; by split_and!.
Qed.

Lemma run_check_kafka p w :
  check_kafka p w = (if (readiness p).1 then Ok (readiness p).2 else Raise (RuntimeError (readiness p).2), w).
Proof. unfold check_kafka. by destruct (readiness p) as [[] d]. Qed.

(** The state a probe reports. *)
Lemma run_probe check w r w' :
  check w = (r, w') →
  ∃ state detail, probe check w = (Ok (state, detail), w') ∧ state = (if is_ok r then u "ok" else u "error").
Proof.
  intros E. unfold probe. destruct r as [d|e].
  - exists (u "ok"), d. split; [|done]. apply run_try_ok. by eapply run_bind; [exact E|].
  - exists (u "error"), (exn_msg e). split; [|done]. eapply run_try_raise; [by apply run_bind_raise, E|done].
Qed.

Lemma answer_ok {A} (a : A) f : is_ok (answer a f) = true ↔ f = Done.
Proof. by destruct f. Qed.
End facts.

(** ** What the interface promises *)

Section theorems.
Context {RS : RedisServer} {IP : IdempotencyPort} {IL : IdempotencyLaws IP}.

(** An accepted request can be asked for. A valid request with a free key is answered 202
    with the id of a PENDING job; and from then on, whatever the workers make of the
    job and whatever else happens to the database, asking for this id finds it, with
    the payload of the request, and answers 200 with its state (if its result is one
    the response model admits). *)
Theorem post_then_get topic k body payload w :
  calm w → fresh_ids w → k ≠ [] → seen (w_clock w) k (w_redis w) = Ok None →
  JobCreateRequest body = Some payload →
  ∃ id w1, create_job_route topic body (Some k) w
      = (Ok (202, JDict [(u "job_id", JStr id); (u "status", JStr (u "PENDING"))]), w1)
    ∧ ∀ w2, calm w2 → db_evolves (w_db w1) (w_db w2) →
        ∃ job w3, job_get id (w_db w2) = Ok (Some job) ∧ job_id job = id ∧ job_request_payload job = payload
          ∧ get_job_route id w2 = (body ← JobDetailResponse job; Ok (200, body), w3) ∧ w_db w3 = w_db w2.
Proof.
  intros Hc Hf Hk Hs Hb. destruct (create_job_stores topic k payload w) as (w1 & E1 & Ed & _); [done..|].
  exists (nth_uuid w 0), w1. split.
  { unfold create_job_route. rewrite Hb. eapply run_bind; [exact E1|]. reflexivity. }
  intros w2 Hc2 He.
  destruct (dv_jobs _ _ He (nth_uuid w 0) (job_row_of (w_db_clock w) (new_job_of w payload)))
    as (row & Hrow & Hev); [by rewrite Ed; apply lookup_insert_eq|].
  destruct (ev_valid _ _ Hev) as [s Hst]; [by exists PENDING|].
  destruct (job_of_row_ok row s Hst) as (job & Hj & Hjid & _).
  assert (job_get (nth_uuid w 0) (w_db w2) = Ok (Some job)) as Hg by (unfold job_get; by rewrite Hrow, Hj).
  exists job. eexists. split_and!; [done| | | |].
  - rewrite Hjid. apply (ev_id _ _ Hev).
  - rewrite (job_payload_of_row _ _ Hj). apply (ev_payload _ _ Hev).
  - unfold get_job_route. rewrite (bind_ok _ _ _ _ _ (eq_trans (run_get_job _ w2 Hc2) (f_equal (λ x, (x, _)) Hg))).
    destruct (JobDetailResponse job); reflexivity.
  - done.
Qed.

(** Readiness is the conjunction of the three dependencies. Whatever they do, the probe
    answers: 200 and "ok" exactly when the database and Redis take their calls and the
    publisher is ready, 503 and "degraded" otherwise; it reports each of them by name,
    as an error exactly when it failed, and writes nothing. *)
Theorem readiness_reported publisher w :
  ∃ code resp w' db redis kafka, ready_route publisher w = (Ok (code, resp), w') ∧ w_db w' = w_db w
    ∧ h_details resp = [(u "database", db); (u "redis", redis); (u "kafka", kafka)]
    ∧ (db = u "ok" ↔ env_fate (w_env w) (w_calls w) = Done)
    ∧ (redis = u "ok" ↔ env_fate (w_env w) (S (w_calls w)) = Done)
    ∧ (kafka = u "ok" ↔ (readiness publisher).1 = true)
    ∧ (code = 200 ∧ h_status resp = u "ok" ∧ db = u "ok" ∧ redis = u "ok" ∧ kafka = u "ok"
       ∨ code = 503 ∧ h_status resp = u "degraded" ∧ ¬ (db = u "ok" ∧ redis = u "ok" ∧ kafka = u "ok")).
Proof.
  destruct (run_check_database w) as (w1 & E1 & Hc1 & He1 & Hd1). destruct (run_probe _ _ _ _ E1) as (s1 & d1 & P1 & S1).
  destruct (run_check_redis w1) as (w2 & E2 & He2 & Hd2). destruct (run_probe _ _ _ _ E2) as (s2 & d2 & P2 & S2).
  destruct (run_probe _ _ _ _ (run_check_kafka publisher w2)) as (s3 & d3 & P3 & S3).
  assert (∀ b : bool, (if b then u "ok" else u "error") = u "ok" ↔ b = true) as Hb by by intros [].
  assert (s1 = u "ok" ↔ env_fate (w_env w) (w_calls w) = Done) as H1 by by rewrite S1, Hb, answer_ok.
  assert (s2 = u "ok" ↔ env_fate (w_env w) (S (w_calls w)) = Done) as H2 by by rewrite S2, Hb, answer_ok, He1, Hc1.
  assert (s3 = u "ok" ↔ (readiness publisher).1 = true) as H3 by (rewrite S3, Hb; by destruct (readiness publisher).1).
  do 2 eexists. exists w2, s1, s2, s3. split_and!.
  - unfold ready_route. eapply run_bind; [exact P1|]. eapply run_bind; [exact P2|]. eapply run_bind; [exact P3|].
    reflexivity.
  - congruence.
  - reflexivity.
  - exact H1.
  - exact H2.
  - exact H3.
  - simpl. rewrite andb_true_r. destruct (_ && (_ && _)) eqn:E; [left|right].
    + rewrite !andb_true_iff, !bool_decide_eq_true in E. tauto.
    + split_and!; [done|done|]. intros (-> & -> & ->). by rewrite !bool_decide_eq_true_2 in E.
Qed.
End theorems.

(** ** The hypotheses can hold *)

Definition demo_body : json := JDict [(u "input", JDict [(u "content", JStr (u "hi"))])].

Lemma post_then_get_witness :
  ∃ id w1 w3, create_job_route (IP := demo_store) (u "jobs") demo_body (Some (u "order-17")) (world_of calm_env empty_db)
      = (Ok (202, JDict [(u "job_id", JStr id); (u "status", JStr (u "PENDING"))]), w1)
    ∧ get_job_route id (set_session (w_db w1) [] w1)
      = (Ok (200, JDict [(u "job_id", JStr id); (u "status", JStr (u "PENDING")); (u "result", JNull); (u "error", JNull)]), w3).
Proof.
  destruct (post_then_get (IP := demo_store) (u "jobs") (u "order-17") demo_body
    (JDict [(u "input", JDict [(u "content", JStr (u "hi"))]); (u "options", JDict [])]) (world_of calm_env empty_db))
    as (id & w1 & E & H).
  - apply calm_env_calm.
  - by apply empty_fresh, calm_env_inj.
  - done.
  - vm_compute. reflexivity.
  - reflexivity.
  - assert (w1 = (create_job_route (IP := demo_store) (u "jobs") demo_body (Some (u "order-17"))
      (world_of calm_env empty_db)).2) as Hw by by rewrite E.
    assert (∃ id', id = id' ∧ id' = env_uuid4 calm_env 0) as (id' & <- & Hid).
    { exists id. split; [done|]. pose proof (f_equal fst E) as E'. vm_compute in E'. by injection E'. }
    destruct (H (set_session (w_db w1) [] w1)) as (job & w3 & Hg & _ & _ & Er & _).
    + rewrite Hw. intros n. vm_compute. reflexivity.
    + reflexivity.
    + exists id, w1, w3. split; [exact E|]. rewrite Er. simpl w_db in Hg. rewrite Hid. rewrite Hid, Hw in Hg.
      vm_compute in Hg. injection Hg as <-. vm_compute. reflexivity.
Defined.
