(* ===== verification/Http.v ===== *)
(** * The application: [app/main.py], and the metrics it serves

    The routers of [jobs.py], [health.py] and [metrics.py] behind the counting middleware of
    [app/main.py]. Starlette's part is its documented behaviour: an exception of a route passes
    through the middleware, and the server answers it with 500 outside of it. *)
From S2P Require Import Prelude PyStr PyFloat Json Domain Database World Effects Ports Fixtures JobService Messaging Api.
#[local] Open Scope Z_scope.

(** What a client can ask for. *)
Inductive http_request :=
  | PostJobs (request : json) (idempotency_key : option pystr)
  | GetJob (id : pystr)
  | GetLive
  | GetReady
  | GetMetrics.

(** The bodies of the answers; a text has its media type. *)
Inductive http_body := JobBody (b : json) | HealthBody (h : HealthResponse) | TextBody (media_type text : pystr).
Abbreviation http_response := (Z * http_body)%type.

(** [request.method] and [request.url.path] *)
Definition http_method (r : http_request) : pystr := match r with PostJobs _ _ => u "POST" | _ => u "GET" end.
Definition url_path (r : http_request) : pystr :=
  match r with
  | PostJobs _ _ => u "/jobs"
  | GetJob id => u "/jobs/" ++ id
  | GetLive => u "/health/live"
  | GetReady => u "/health/ready"
  | GetMetrics => u "/metrics"
  end.

Section app.
Context {RS : RedisServer} {IP : IdempotencyPort}.

(** The client library's text of the registry, and its media type. *)
Variables (generate_latest : metrics → pystr) (CONTENT_TYPE_LATEST : pystr).

(** The topic of the job service and the publisher of the container. *)
Variables (topic : pystr) (publisher : producer).

(** [metrics_response] of [app/core/metrics.py]: a [Response] has the status 200. *)
Definition metrics_response : M http_response :=
  text ← reads (λ w, generate_latest (w_metrics w)); mret (200, TextBody CONTENT_TYPE_LATEST text).

(** [GET /metrics] *)
Definition metrics_route : M http_response := metrics_response.

(** The routers that [main.py] includes. *)
Definition route (r : http_request) : M http_response :=
  match r with
  | PostJobs request key => x ← create_job_route topic request key; mret (x.1, JobBody x.2)
  | GetJob id => x ← get_job_route id; mret (x.1, JobBody x.2)
  | GetLive => mret (200, HealthBody live)
  | GetReady => x ← ready_route publisher; mret (x.1, HealthBody x.2)
  | GetMetrics => metrics_route
  end.

(** [record_http_metrics] *)
Definition record_http_metrics (request : http_request) (call_next : http_request → M http_response) : M http_response :=
  response ← call_next request;
  inc (HTTP_REQUESTS_TOTAL (http_method request) (url_path request) response.1) ;;
  mret response.

(** [app] *)
Definition app (request : http_request) : M http_response := record_http_metrics request route.

(** The status code that the client sees. *)
Definition client_status (r : result http_response) : Z := match r with Ok response => response.1 | Raise _ => 500 end.
End app.

(** ** Facts *)

(** The middleware's counters are left alone. *)
Definition same_http {RS : RedisServer} (w w' : world) : Prop :=
  ∀ m path code, w_metrics w' (HTTP_REQUESTS_TOTAL m path code) = w_metrics w (HTTP_REQUESTS_TOTAL m path code).

#[global] Instance same_http_relation {RS : RedisServer} : StepRelation same_http.
Proof. split; [split|]; unfold same_http; [done|intros ??? H1 H2 ???; by rewrite H2|done]. Qed.

Section facts.
Context {RS : RedisServer} {IP : IdempotencyPort} {IL : IdempotencyLaws IP}.

Lemma same_http_modify f : (∀ w, w_metrics (f w) = w_metrics w) → stays same_http (modify f).
Proof. intros H w m path code. simpl. by rewrite H. Qed.
#[local] Hint Extern 2 (stays same_http (modify _)) => apply same_http_modify; by intros : mflow.

(** The other metrics. *)
Lemma same_http_inc m : match m with HTTP_REQUESTS_TOTAL _ _ _ => False | _ => True end → stays same_http (inc m).
Proof. intros H w m' path code. simpl. unfold metric_add. rewrite decide_False; [done|]. by intros <-. Qed.
#[local] Hint Extern 2 (stays same_http (inc _)) => (by apply same_http_inc) : mflow.

Lemma same_http_redis {A} (m : M A) : (∀ w, redis_step w (m w).2) → stays same_http m.
Proof. intros H w m' path code. destruct (H w) as (r & c & ->). done. Qed.

Lemma same_http_on_tx {A} (f : db → result (A * db)) : stays same_http (on_tx f).
Proof. intros w. unfold on_tx. by destruct (f (w_tx w)) as [[]|]. Qed.
#[local] Hint Resolve same_http_on_tx : mflow.

Lemma same_http_flush : stays same_http flush.
Proof.
  unfold flush. stay. induction a as [|p ps IH]; simpl; [stay|].
  stay_bind; [|done]. unfold flush_one, insert. stay_bind; [stay|intros now]. destruct p; stay.
Qed.
#[local] Hint Resolve same_http_flush : mflow.

Lemma same_http_session {A} (m : M A) : stays same_http m → stays same_http (with_session m).
Proof. intros H. unfold with_session, open_session. stay. Qed.

Lemma same_http_get_job id : stays same_http (get_job id).
Proof. apply same_http_session. unfold repo_get, execute. stay. Qed.
#[local] Hint Resolve same_http_get_job : mflow.

Lemma same_http_write_job job event : ∀ topic, stays same_http (write_job topic job event).
Proof. intros topic. apply same_http_session. unfold session_add, event_add, outbox_add, session_add, commit. stay. Qed.
#[local] Hint Resolve same_http_write_job : mflow.

Lemma same_http_duplicate k recorded : stays same_http (duplicate_job k recorded).
Proof. unfold duplicate_job. stay. Qed.
#[local] Hint Resolve same_http_duplicate : mflow.

Lemma same_http_port k j :
  stays same_http (get_request_record k) ∧ stays same_http (reserve_request k j) ∧ stays same_http (complete_request k j).
Proof. split_and!; apply same_http_redis; intros w; [apply get_request_step|apply reserve_step|apply complete_step]. Qed.

Lemma same_http_create topic payload k : stays same_http (create_with_key topic payload k).
Proof.
  unfold create_with_key. stay_bind; [exact (proj1 (same_http_port k k))|intros e]. destruct (truthy_job_id e); [stay|].
  stay_bind; [stay|intros j]. stay_bind; [stay|intros t]. stay_bind; [apply (same_http_port k j)|intros []].
  - stay_bind; [unfold new_event_json; stay|intros ev]. stay_bind; [stay|intros c]. stay_bind; [stay|intros c'].
    stay_bind; [stay|intros _]. stay_bind; [apply (same_http_port k j)|intros _]. stay.
  - stay_bind; [exact (proj1 (same_http_port k k))|intros e']. stay.
Qed.

Lemma same_http_route latest ctype topic publisher r : stays same_http (route latest ctype topic publisher r).
Proof.
  destruct r as [body key|id| | |]; simpl.
  - unfold create_job_route. stay_bind; [destruct (JobCreateRequest body)|intros; stay]; [|stay].
    stay_bind; [|intros; stay]. unfold create_job. stay_bind; [destruct key as [[]|]; stay|intros; apply same_http_create].
  - unfold get_job_route. stay.
  - stay.
  - unfold ready_route, probe. stay_bind; [|intros; stay]. assert (stays same_http check_database) as H.
    { unfold check_database. stay_bind; [apply same_http_session; unfold execute; stay|intros; stay]. }
    unfold check_redis, check_kafka. stay.
  - unfold metrics_route, metrics_response. stay.
Qed.
End facts.

(** ** What is counted *)

Section theorems.
Context {RS : RedisServer} {IP : IdempotencyPort} {IL : IdempotencyLaws IP}.
Variables (generate_latest : metrics → pystr) (CONTENT_TYPE_LATEST topic : pystr) (publisher : producer).

(** Whether the request is one for the jobs. *)
Definition job_request (r : http_request) : bool := match r with PostJobs _ _ | GetJob _ => true | _ => false end.

Lemma run_app r w :
  app generate_latest CONTENT_TYPE_LATEST topic publisher r w
  = let '(x, w1) := route generate_latest CONTENT_TYPE_LATEST topic publisher r w in
    (x, match x with
        | Ok response => set_metrics (metric_add (HTTP_REQUESTS_TOTAL (http_method r) (url_path r) response.1) 1 (w_metrics w1)) w1
        | Raise _ => w1
        end).
Proof. unfold app, record_http_metrics, mbind, M_bind. by destruct (route _ _ _ _ r w) as [[response|e] w1]. Qed.

Lemma job_route_code r w response w' :
  job_request r = true → route generate_latest CONTENT_TYPE_LATEST topic publisher r w = (Ok response, w') → response.1 < 500.
Proof.
  destruct r as [body key|id| | |]; [| |done..]; intros _; simpl; intros (x & w1 & E & [= <- _])%bind_inv; simpl.
  - unfold create_job_route in E. destruct (JobCreateRequest body); [|by injection E as <- _].
    apply bind_inv in E as (job & w2 & _ & [= <- _]). done.
  - apply bind_inv in E as (job & w2 & _ & E). destruct job as [job|]; [|by injection E as <- _].
    by apply bind_inv in E as (b & w3 & _ & [= <- _]).
Qed.

(** C36: the counters of the requests count the answers of the routes, and no error of the server.
    A request that a route answers moves one counter by one, that of its method, path and status;
    one whose route raises is answered 500 by the server and moves none. So no counter of a
    status from 500 on ever moves for the jobs, whatever the client sees: the rate of accepted
    requests cannot be read off these counters. *)
Theorem server_errors_uncounted r w x w' m path code :
  app generate_latest CONTENT_TYPE_LATEST topic publisher r w = (x, w') →
  w_metrics w' (HTTP_REQUESTS_TOTAL m path code)
  = w_metrics w (HTTP_REQUESTS_TOTAL m path code)
    + (if decide (is_ok x = true ∧ m = http_method r ∧ path = url_path r ∧ code = client_status x) then 1 else 0)
  ∧ (job_request r = true → 500 ≤ code → w_metrics w' (HTTP_REQUESTS_TOTAL m path code) = w_metrics w (HTTP_REQUESTS_TOTAL m path code))
  ∧ (job_request r = true → 500 ≤ client_status x ↔ is_ok x = false).
Proof.
  intros E. rewrite run_app in E. pose proof (same_http_route generate_latest CONTENT_TYPE_LATEST topic publisher r w) as Hs.
  destruct (route _ _ _ _ r w) as [y w1] eqn:Er. injection E as -> <-. specialize (Hs m path code). simpl in Hs.
  destruct x as [response|e]; simpl.
  - assert (job_request r = true → response.1 < 500) as Hlt by (intros Hj; by apply (job_route_code _ _ _ _ Hj Er)).
    unfold metric_add. split_and!.
    + destruct (decide (HTTP_REQUESTS_TOTAL m path code = _)) as [Hd|Hd].
      * injection Hd as -> -> ->. rewrite decide_True by done. lia.
      * rewrite decide_False by (intros (_ & -> & -> & ->); by apply Hd). lia.
    + intros Hj Hc. specialize (Hlt Hj). rewrite decide_False; [done|]. intros [= _ _ ->]. lia.
    + intros Hj. specialize (Hlt Hj). split; [lia|done].
  - split_and!; [lia|done|done].
Qed.

(** A scrape shows the counters as they were before it. *)
Lemma scrape_answers w :
  ∃ w', app generate_latest CONTENT_TYPE_LATEST topic publisher GetMetrics w
      = (Ok (200, TextBody CONTENT_TYPE_LATEST (generate_latest (w_metrics w))), w') ∧ w_db w' = w_db w.
Proof. eexists. split; reflexivity. Qed.
End theorems.

(** ** The hypotheses can hold *)

(** The database refuses the transaction of the first request: the client sees 500, and nothing is counted. *)
Definition refused_world : world := world_of (env_with_fate 2 (Failed (Exn (u "OperationalError") (u "down")))) empty_db.
Definition refused_request : http_request :=
  PostJobs (JDict [(u "input", JDict [(u "content", JStr (u "hi"))])]) (Some (u "order-17")).
Definition new_producer : producer := MkProducer false (Ok 0) (Ok false) (Ok 0).
Definition refused : result http_response * world :=
  app (IP := demo_store) (λ _, []) (u "text/plain") (u "jobs") new_producer refused_request refused_world.

Lemma server_errors_uncounted_witness :
  client_status refused.1 = 500 ∧ w_metrics refused.2 (HTTP_REQUESTS_TOTAL (u "POST") (u "/jobs") 500) = 0.
Proof.
  assert (refused.1 = Raise (Exn (u "OperationalError") (u "down"))) as E by (vm_compute; reflexivity).
  split; [by rewrite E|].
  destruct (server_errors_uncounted (IL := demo_store_laws) (λ _, []) (u "text/plain") (u "jobs") new_producer
    refused_request refused_world refused.1 refused.2 (u "POST") (u "/jobs") 500 (surjective_pairing _)) as (_ & H & _).
  rewrite H; [vm_compute; reflexivity|reflexivity|done].
Defined.
