(* ===== verification/EndToEnd.v ===== *)
(** * From the request to the result

    The components composed: a request through the HTTP interface, the relay, Kafka, the
    consumer with the service its role selects, and the question for the result, for
    the single worker and for the two stages. *)
From S2P Require Import Prelude PyStr PyFloat Json Domain Database WellFormed Ledger Evolution World Effects Ports Fixtures JobService WorkerService PipelineServices Messaging OutboxRelay Settings Retry Api.
#[local] Open Scope Z_scope.

(** ** The worker's role *)

(** A worker role: its name and the service it delegates to. *)
Record role_object {RS : RedisServer} := MkRoleObject { ro_role_name : pystr; ro_service : WorkerRole }.
Arguments MkRoleObject {RS} ro_role_name ro_service.

Section roles.
Context {RS : RedisServer}.

Definition UnifiedWorkerRole (service : WorkerRole) : role_object := MkRoleObject (u "unified") service.
Definition InferenceWorkerRole (service : WorkerRole) : role_object := MkRoleObject (u "inference") service.
Definition DownstreamWorkerRole (service : WorkerRole) : role_object := MkRoleObject (u "downstream") service.

(** [handle_event] of the three classes *)
Definition role_handle_event (self : role_object) : WorkerRole := λ event, ro_service self event.

(** The service [build_worker_role] makes, as a handler; the processor is given separately. *)
Definition service_handler (TP : TaskProcessor) (worker_id : pystr) (svc : service) : WorkerRole :=
  match svc with
  | WorkerService _ secs => worker_handle_event worker_id secs (u "worker")
  | InferencePipelineService _ secs topic => inference_handle_event worker_id secs topic
  | DownstreamPipelineService _ => downstream_handle_event
  end.

(** [build_worker_role(...)]: the class the role selects, around the service. *)
Definition worker_role_object (TP : TaskProcessor) (worker_id : pystr) (s : Settings) : role_object :=
  let service := service_handler TP worker_id (build_worker_role s) in
  match worker_role s with
  | unified => UnifiedWorkerRole service
  | inference => InferenceWorkerRole service
  | downstream => DownstreamWorkerRole service
  end.

(** The id the service draws when [build_worker_role] makes it, without a [worker_id]; the
    downstream service has none. *)
Definition service_worker_id (svc : service) : M pystr :=
  match svc with
  | WorkerService _ _ => worker_service_init None
  | InferencePipelineService _ _ _ => inference_service_init None
  | DownstreamPipelineService _ => mret []
  end.

(** [build_worker_role(...)], with the id it draws. *)
Definition new_worker_role (TP : TaskProcessor) (s : Settings) : M role_object :=
  worker_id ← service_worker_id (build_worker_role s);
  mret (worker_role_object TP worker_id s).

(** The worker of the given settings handles a record, as [run_worker] sets it up. *)
Definition worker_consumes (TP : TaskProcessor) (worker_id : pystr) (s : Settings) (message : consumed) : M unit :=
  _handle_message (WR := role_handle_event (worker_role_object TP worker_id s)) (EP := KafkaEventPublisher)
    (resolve_worker_topic s) (resolve_worker_retry_topic s) s message.

Lemma role_delegates TP worker_id s event :
  role_handle_event (worker_role_object TP worker_id s) event
  = service_handler TP worker_id (build_worker_role s) event.
Proof. unfold worker_role_object. by destruct (worker_role s). Qed.
End roles.

(** What [GET] answers about a finished job. *)
Definition finished_body (id : pystr) (result : json) : json :=
  JDict [(u "job_id", JStr id); (u "status", JStr (u "SUCCESS")); (u "result", result); (u "error", JNull)].

Section flow.
Context {RS : RedisServer} {IP : IdempotencyPort} {IL : IdempotencyLaws IP}.
Variables (dialect : pystr) (batch_size : Z).
#[local] Existing Instance KafkaEventPublisher.

(** *** The outbox along the way *)

Lemma pending_append now m d :
  pending_rows (append_outbox now m d)
  = pending_rows d ++ [MkOutboxRow (next_outbox_id d) (nm_message_id m) (nm_topic m) (nm_payload m) (nm_headers m)
                         OUTBOX_PENDING 0 None now None].
Proof. unfold pending_rows, append_outbox. simpl. by rewrite filter_app, (filter_cons_True _ _ []). Qed.

(** One turn of the relay with one pending message without headers. *)
Lemma run_drain_one w row :
  calm w → fresh_ids w → outbox_ids (w_db w) → pending_rows (w_db w) = [row] → ob_headers row = None →
  ∃ w', drain_once dialect ∅ batch_size w = (Ok 1, w')
    ∧ calm w' ∧ fresh_ids w' ∧ jobs (w_db w') = jobs (w_db w)
    ∧ outbox_ids (w_db w') ∧ pending_rows (w_db w') = []
    ∧ w_kafka w' = w_kafka w ++ [MkRecord (ob_topic row) (ob_payload row) None] ∧ w_clock w' = w_clock w.
Proof.
  intros Hc Hf Hi Hp Hh.
  assert (fetch_pending dialect ∅ (_batch_size batch_size) (w_db w) = [message_of_row row]) as Hfe.
  { rewrite fetched_pending, Hp. unfold _batch_size. destruct (Z.to_nat _) eqn:E; [lia|]. by rewrite firstn_cons, take_nil. }
  destruct (run_drain dialect ∅ batch_size w [MkRecord (ob_topic row) (ob_payload row) None])
    as (w' & E & Hc' & D & K & T & V & U); [done| |].
  { rewrite Hfe. simpl. unfold record_of, record_for, kafka_headers. simpl. by rewrite Hh. }
  rewrite Hfe in E, D. exists w'.
  assert (pending_rows (mark_published (w_clock w) [ob_id row] (w_db w)) = []) as Hp'.
  { pose proof (mark_published_pending (w_clock w) (w_db w) 1 Hi) as H. by rewrite Hp in H. }
  split_and!; [done|done| | | | |done|done].
  - unfold fresh_ids. rewrite V, U, D. by apply mark_published_fresh.
  - by rewrite D.
  - rewrite D. by apply mark_published_ids.
  - by rewrite D.
Qed.

(** *** The consumer *)

(** A record without headers is not for another role, and its handling succeeds when
    the service's does. *)
Lemma run_worker_consumes TP worker_id s partition offset topic value w w' :
  service_handler TP worker_id (build_worker_role s) value w = (Ok (true, None), w') →
  worker_consumes TP worker_id s (consumed_of partition offset (MkRecord topic value None)) w = (Ok tt, w').
Proof.
  intros E. unfold worker_consumes, _handle_message.
  assert (∀ a b, other_role a b (consumed_of partition offset (MkRecord topic value None)) = false) as Ho.
  { intros a b. unfold other_role. simpl. rewrite (bool_decide_true (a = a)) by done. apply andb_false_r. }
  rewrite Ho. eapply run_bind; [unfold handle_event; rewrite role_delegates; exact E|]. reflexivity.
Qed.

(** *** The question *)

Lemma run_get_finished id w row (d : list (pystr * json)) :
  calm w → jobs (w_db w) !! id = Some row → jr_id row = id → jr_status row = status_value SUCCESS →
  jr_result row = Some (JDict d) → jr_error_message row = None →
  ∃ w', get_job_route id w = (Ok (200, finished_body id (JDict d)), w').
Proof.
  intros Hc Hr Hid Hs Hres He. destruct (job_of_row_ok row SUCCESS Hs) as (job & Hj & Hjid & Hjs & Hjr & Hje).
  assert (job_get id (w_db w) = Ok (Some job)) as Hg by (unfold job_get; by rewrite Hr, Hj).
  eexists. unfold get_job_route. eapply run_bind; [exact (eq_trans (run_get_job _ w Hc) (f_equal (λ x, (x, _)) Hg))|].
  cbv beta iota. unfold JobDetailResponse, finished_body. by rewrite Hjr, Hje, Hjs, Hjid, Hres, He, Hid.
Qed.

(** *** The request and the relay *)

(** A valid request, relayed: Kafka holds its event, the job is pending. *)
Lemma run_request topic k body payload w :
  calm w → fresh_ids w → k ≠ [] → seen (w_clock w) k (w_redis w) = Ok None →
  outbox_ids (w_db w) → pending_rows (w_db w) = [] → JobCreateRequest body = Some payload →
  ∃ w1 w2, create_job_route topic body (Some k) w
      = (Ok (202, JDict [(u "job_id", JStr (nth_uuid w 0)); (u "status", JStr (u "PENDING"))]), w1)
    ∧ drain_once dialect ∅ batch_size w1 = (Ok 1, w2)
    ∧ w_kafka w2 = w_kafka w ++ [MkRecord topic (new_job_event w payload) None]
    ∧ calm w2 ∧ fresh_ids w2 ∧ outbox_ids (w_db w2) ∧ pending_rows (w_db w2) = [] ∧ w_clock w2 = w_clock w
    ∧ jobs (w_db w2) !! nth_uuid w 0 = Some (job_row_of (w_db_clock w) (new_job_of w payload)).
Proof.
  intros Hc Hf Hk Hs Hi Hp Hb.
  destruct (create_job_stores topic k payload w) as (w1 & E1 & D1 & K1 & _ & _ & V1 & U1 & T1); [done..|].
  destruct (run_drain_one w1 (MkOutboxRow (next_outbox_id (w_db w)) (nth_uuid w 3) topic (new_job_event w payload) None
    OUTBOX_PENDING 0 None (w_db_clock w) None)) as (w2 & E2 & Hc2 & Hf2 & J2 & I2 & P2 & K2 & T2).
  - intros n. rewrite V1. apply Hc.
  - unfold fresh_ids. rewrite V1, U1, D1. by apply new_job_fresh.
  - rewrite D1. by apply append_outbox_ids.
  - rewrite D1. unfold new_job_db. rewrite pending_append. unfold pending_rows in *. simpl. by rewrite Hp.
  - done.
  - exists w1, w2. split_and!; [|exact E2| |done|done|done|done|by rewrite T2|].
    + unfold create_job_route. rewrite Hb. eapply run_bind; [exact E1|]. reflexivity.
    + by rewrite K2, K1.
    + rewrite J2, D1. apply lookup_insert_eq.
Qed.

(** The new job can be claimed. *)
Lemma new_job_claimable secs w w2 payload expires :
  calm w2 → fresh_ids w2 → w_clock w2 = w_clock w →
  jobs (w_db w2) !! nth_uuid w 0 = Some (job_row_of (w_db_clock w) (new_job_of w payload)) →
  datetime_add_seconds (w_clock w) secs = Ok expires →
  can_claim secs w2 (nth_uuid w 0) (job_row_of (w_db_clock w) (new_job_of w payload)) expires.
Proof. intros Hc Hf T J He. split; [done|done|done|done|done|by rewrite T]. Qed.
End flow.

(** ** What the composition promises *)

Section theorems.
Context {RS : RedisServer} {IP : IdempotencyPort} {IL : IdempotencyLaws IP}.
Variables (dialect : pystr) (batch_size : Z) (worker_id : pystr) (s : Settings).
#[local] Existing Instance KafkaEventPublisher.

(** C2: an accepted job is completed by one worker. With no failing service and nothing else pending in
    the outbox, a valid request with a free key is answered 202; one turn of the relay sends its event to the topic
    the worker reads; handling the record Kafka delivers, on whatever partition and
    offset, succeeds and publishes nothing more; and asking for the id of the answer
    then returns 200 with SUCCESS and the processor's result. *)
Theorem job_completes (TP : TaskProcessor) p secs k body payload d expires w :
  TaskProcessorLaws TP →
  build_worker_role s = WorkerService p secs → worker_role s ≠ downstream →
  calm w → fresh_ids w → outbox_ids (w_db w) → pending_rows (w_db w) = [] →
  k ≠ [] → seen (w_clock w) k (w_redis w) = Ok None → JobCreateRequest body = Some payload →
  datetime_add_seconds (w_clock w) secs = Ok expires → (∀ w0, (TP payload w0).1 = Ok (JDict d)) →
  ∃ id r w1 w2, create_job_route (job_service_topic s) body (Some k) w
      = (Ok (202, JDict [(u "job_id", JStr id); (u "status", JStr (u "PENDING"))]), w1)
    ∧ drain_once dialect ∅ batch_size w1 = (Ok 1, w2) ∧ w_kafka w2 = w_kafka w ++ [r]
    ∧ r_topic r = resolve_worker_topic s
    ∧ ∀ partition offset, ∃ w3 w4,
        worker_consumes TP worker_id s (consumed_of partition offset r) w2 = (Ok tt, w3) ∧ w_kafka w3 = w_kafka w2
        ∧ get_job_route id w3 = (Ok (200, finished_body id (JDict d)), w4).
Proof.
  intros L Hsvc Hrole Hc Hf Hi Hp Hk Hs Hb He Hproc.
  destruct (run_request dialect batch_size (job_service_topic s) k body payload w)
    as (w1 & w2 & E1 & E2 & K2 & Hc2 & Hf2 & I2 & P2 & T2 & J2); [done..|].
  exists (nth_uuid w 0), (MkRecord (job_service_topic s) (new_job_event w payload) None), w1, w2.
  split_and!; [done|done|done| |].
  { unfold resolve_worker_topic, job_service_topic. by destruct (worker_role s). }
  intros partition offset. set (row := job_row_of (w_db_clock w) (new_job_of w payload)) in *.
  destruct (run_worker_success (TP := TP) worker_id secs w2 (new_job_event w payload) (nth_uuid w 0) (nth_uuid w 1)
    row expires (JDict d)) as (w3' & w3 & D3 & E3 & D3' & K3 & Hc3 & _);
    [done|by apply (new_job_claimable secs w)|by split|exact Hproc|].
  destruct (run_get_finished (nth_uuid w 0) w3 (status_values (w_db_clock w3') SUCCESS
    (success_update (JDict d) worker_id (jr_lease_epoch row + 1)) (claimed_row (w_db_clock w2) worker_id expires row)) d)
    as (w4 & E4); [done|rewrite D3'; simpl; apply lookup_insert_eq|done..|].
  exists w3, w4. split_and!; [|done|done]. apply run_worker_consumes. rewrite Hsvc. exact E3.
Qed.

(** The settings of the two workers of the stages. *)
Definition inference_settings : Settings := with_role (architecture_mode s) inference s.
Definition downstream_settings : Settings := with_role (architecture_mode s) downstream s.

(** C4: an accepted job goes through both stages. In the modes C and BC, with no failing
    service and nothing else pending in the outbox: the request is answered 202; the relay sends its event to the topic the
    inference worker reads; handling it succeeds and a second turn of the relay sends
    the hand-off to the topic the downstream worker reads; handling that succeeds; and
    asking for the job then returns 200 with SUCCESS and the results of both stages. *)
Theorem staged_job_completes (TPi TPd : TaskProcessor) k body payload result down expires w :
  TaskProcessorLaws TPi → TaskProcessorLaws TPd → staged s = true →
  calm w → fresh_ids w → outbox_ids (w_db w) → pending_rows (w_db w) = [] →
  k ≠ [] → seen (w_clock w) k (w_redis w) = Ok None → JobCreateRequest body = Some payload →
  datetime_add_seconds (w_clock w) (worker_processing_ttl_seconds s) = Ok expires →
  (∀ w0, (TPi payload w0).1 = Ok result) →
  (∀ w0, (TPd (JDict [(u "request", payload); (u "inference_result", result)]) w0).1 = Ok down) →
  ∃ id r1 w1 w2, create_job_route (job_service_topic s) body (Some k) w
      = (Ok (202, JDict [(u "job_id", JStr id); (u "status", JStr (u "PENDING"))]), w1)
    ∧ drain_once dialect ∅ batch_size w1 = (Ok 1, w2) ∧ w_kafka w2 = w_kafka w ++ [r1]
    ∧ r_topic r1 = resolve_worker_topic inference_settings
    ∧ ∀ partition offset, ∃ r2 w3 w4,
        worker_consumes TPi worker_id inference_settings (consumed_of partition offset r1) w2 = (Ok tt, w3)
        ∧ drain_once dialect ∅ batch_size w3 = (Ok 1, w4) ∧ w_kafka w4 = w_kafka w2 ++ [r2]
        ∧ r_topic r2 = resolve_worker_topic downstream_settings
        ∧ ∀ partition' offset', ∃ w5 w6,
            worker_consumes TPd worker_id downstream_settings (consumed_of partition' offset' r2) w4 = (Ok tt, w5)
            ∧ get_job_route id w5 = (Ok (200, finished_body id (combined result down)), w6).
Proof.
  intros Li Ld Hst Hc Hf Hi Hp Hk Hs Hb He Hpi Hpd.
  destruct (run_request dialect batch_size (job_service_topic s) k body payload w)
    as (w1 & w2 & E1 & E2 & K2 & Hc2 & Hf2 & I2 & P2 & T2 & J2); [done..|].
  exists (nth_uuid w 0), (MkRecord (job_service_topic s) (new_job_event w payload) None), w1, w2.
  split_and!; [done|done|done|done|]. intros partition offset.
  set (id := nth_uuid w 0) in *. set (trace := nth_uuid w 1).
  set (row := job_row_of (w_db_clock w) (new_job_of w payload)) in *.
  set (secs := worker_processing_ttl_seconds s) in *.
  destruct (run_inference (TP := TPi) worker_id secs (kafka_downstream_topic s) w2 (new_job_event w payload) id trace
    row expires payload result) as (w3' & eid & now & w3 & D3 & E3 & D3' & K3 & Hc3 & Hf3);
    [by apply (new_job_claimable secs w)|by split|done|exact Hpi|].
  set (ev := handoff_event eid now id trace payload result) in *.
  set (row1 := claimed_row (w_db_clock w2) worker_id expires row).
  assert (outbox_messages (w_db w3') = outbox_messages (w_db w2)) as O3 by by rewrite D3.
  destruct (run_drain_one dialect batch_size w3 (MkOutboxRow (next_outbox_id (w_db w3'))
    (env_uuid4 (w_env w3') (1 + w_uuids w3')) (kafka_downstream_topic s) ev None OUTBOX_PENDING 0 None
    (w_db_clock w3') None)) as (w4 & E4 & Hc4 & Hf4 & J4 & _ & _ & K4 & _); [done|done| | |done|].
  { rewrite D3'. unfold handed_off. apply append_outbox_ids. unfold outbox_ids in *. rewrite D3. exact I2. }
  { rewrite D3'. unfold handed_off. rewrite pending_append. unfold pending_rows in *. simpl. by rewrite O3, P2. }
  assert (jobs (w_db w4) !! id = Some row1) as J4'.
  { rewrite J4, D3', D3. apply lookup_insert_eq. }
  exists (MkRecord (kafka_downstream_topic s) ev None), w3, w4. split_and!.
  - apply run_worker_consumes. unfold inference_settings, build_worker_role. simpl worker_role. cbv iota.
    assert (staged (with_role (architecture_mode s) inference s) = true) as -> by exact Hst. exact E3.
  - exact E4.
  - by rewrite K4, K3.
  - done.
  - intros partition' offset'.
    destruct (run_downstream_success (TP := TPd) w4 ev id trace
      (JDict [(u "request", payload); (u "inference_result", result)]) result down row1
      (MkJob id PROCESSING payload None None 0 (w_db_clock w) (w_db_clock w2))) as (w5' & w5 & D5 & E5 & D5' & Hc5);
      [done|done|done|by split|by split|done|done|reflexivity|done|].
    destruct (run_get_finished id w5 (status_values (w_db_clock w5') SUCCESS
      (downstream_success (combined result down)) row1) [(u "inference", result); (u "downstream", down)])
      as (w6 & E6); [done|rewrite D5'; simpl; apply lookup_insert_eq|done..|].
    exists w5, w6. split; [|exact E6]. apply run_worker_consumes. unfold downstream_settings, build_worker_role.
    simpl worker_role. cbv iota.
    assert (staged (with_role (architecture_mode s) downstream s) = true) as -> by exact Hst. exact E5.
Qed.
End theorems.

(** ** The hypotheses can hold *)

Definition demo_body : json := JDict [(u "input", JDict [(u "content", JStr (u "hi"))])].
Definition demo_payload : json :=
  JDict [(u "input", JDict [(u "content", JStr (u "hi"))]); (u "options", JDict [])].
Definition demo_world : world := world_of calm_env empty_db.
Definition demo_expires : Z := start_time + 1800 * MICROS.

Lemma demo_empty_outbox_ids : outbox_ids empty_db.
Proof. split; constructor. Qed.

Lemma demo_free : store_seen (w_clock demo_world) (u "order-17") (w_redis demo_world) = Ok None.
Proof. vm_compute. reflexivity. Qed.

Lemma job_completes_witness :
  ∃ id r w2 w3 w4,
    worker_consumes echo_processor (u "w-1") default_settings (consumed_of 0 0 r) w2 = (Ok tt, w3)
    ∧ w_kafka w2 = [r] ∧ r_topic r = u "request-topic"
    ∧ get_job_route id w3 = (Ok (200, finished_body id (JDict [(u "echo", demo_payload)])), w4).
Proof.
  destruct (job_completes (IP := demo_store) (u "sqlite") 100 (u "w-1") default_settings echo_processor
    (build_primary_processor default_settings false) 1800 (u "order-17") demo_body demo_payload
    [(u "echo", demo_payload)] demo_expires demo_world)
    as (id & r & w1 & w2 & _ & _ & K & T & H).
  - apply _.
  - reflexivity.
  - done.
  - apply calm_env_calm.
  - apply empty_fresh, calm_env_inj.
  - apply demo_empty_outbox_ids.
  - reflexivity.
  - done.
  - exact demo_free.
  - reflexivity.
  - vm_compute. reflexivity.
  - reflexivity.
  - destruct (H 0 0) as (w3 & w4 & E3 & _ & E4). exists id, r, w2, w3, w4.
    split; [exact E3|]. split; [exact K|]. split; [exact T|exact E4].
Defined.

Definition demo_staged : Settings := with_role MODE_BC unified default_settings.

Lemma staged_job_completes_witness :
  ∃ id r2 w4 w5 w6,
    worker_consumes echo_processor (u "w-1") (downstream_settings demo_staged) (consumed_of 0 0 r2) w4 = (Ok tt, w5)
    ∧ r_topic r2 = u "downstream-topic"
    ∧ get_job_route id w5
      = (Ok (200, finished_body id (combined (JDict [(u "echo", demo_payload)])
           (JDict [(u "echo", JDict [(u "request", demo_payload);
                                     (u "inference_result", JDict [(u "echo", demo_payload)])])]))), w6).
Proof.
  destruct (staged_job_completes (IP := demo_store) (u "sqlite") 100 (u "w-1") demo_staged echo_processor echo_processor
    (u "order-17") demo_body demo_payload (JDict [(u "echo", demo_payload)])
    (JDict [(u "echo", JDict [(u "request", demo_payload); (u "inference_result", JDict [(u "echo", demo_payload)])])])
    demo_expires demo_world)
    as (id & r1 & w1 & w2 & _ & _ & _ & _ & H).
  - apply _.
  - apply _.
  - reflexivity.
  - apply calm_env_calm.
  - apply empty_fresh, calm_env_inj.
  - apply demo_empty_outbox_ids.
  - reflexivity.
  - done.
  - exact demo_free.
  - reflexivity.
  - vm_compute. reflexivity.
  - reflexivity.
  - reflexivity.
  - destruct (H 0 0) as (r2 & w3 & w4 & _ & _ & _ & T & H2). destruct (H2 0 0) as (w5 & w6 & E5 & E6).
    exists id, r2, w4, w5, w6. split; [exact E5|]. split; [exact T|exact E6].
Defined.
