(* ===== verification/Life.v ===== *)
(** * The life of a worker: turns, crashes and restarts

    The loop of [run_worker] ([app/workers/runner.py]) turn after turn, in the words of
    [Consumer]. The worker may die between two messages and be started again, so that it
    reads on from the offsets it has committed. Here its loop and the handler of
    [WorkerService] are put together: every event in the log is processed, and exactly once. *)
From S2P Require Import Prelude PyStr PyFloat Json Domain Database Evolution World Effects Ports Fixtures WorkerService Messaging Delivery Settings Retry Consumer EndToEnd.
#[local] Open Scope Z_scope.

(** What is relied on besides [KafkaConsumer]: a poll returns what the log holds, and something
    when a partition that is not paused has something to read (a poll that times out before is
    not counted); a consumer that joins the group reads on from what was committed, and without
    that from the start of the log ([auto_offset_reset="earliest"]). *)
Class ConsumerGroup (KC : KafkaConsumer) := {
  log_start : tp → Z;
  rejoin : consumer → consumer;
  rejoin_law c p :
    position (rejoin c) p = default (log_start p) (committed c p)
    ∧ is_paused (rejoin c) p = false ∧ committed (rejoin c) p = committed c p;
  getmany_in_log n c p ms : (p, ms) ∈ (getmany n c).1 → Forall (in_log p) ms;
  getmany_progress n c p m :
    0 < n → is_paused c p = false → in_log p m → position c p ≤ c_offset m →
    ∃ p' m' ms, (p', m' :: ms) ∈ (getmany n c).1;
}.

(** ** The loop *)

Section life.
Context {RS : RedisServer} {WR : WorkerRole} {EP : EventPublisher} {KC : KafkaConsumer} {KG : ConsumerGroup KC}.
Variables (consume_topic retry_topic : pystr) (settings : Settings).

(** [while True], for a number of turns. *)
Fixpoint turns (n : nat) (st : kstate) : M kstate :=
  match n with
  | O => mret st
  | S n' => st' ← poll_turn consume_topic retry_topic settings st; turns n' st'
  end.

(** A new process: [consumer.start()], and [paused_until = {}]. *)
Definition restart (st : kstate) : kstate := MkKstate (rejoin (k_consumer st)) ∅.

(** Some partition holds the message. *)
Definition known (m : consumed) : Prop := ∃ p, in_log p m.

(** Which messages have arrived in their partitions, and what else happens in the world: both grow
    and go on while the worker runs. *)
Variable readable : world → consumed → Prop.
Variable others : world → world → Prop.

Definition arrived (w : world) (m : consumed) : Prop := known m ∧ readable w m.

(** What a turn polls. *)
Abbreviation poll st := (getmany (max_records settings) (k_consumer st)).

(** A turn polls what has arrived. *)
Definition polls_arrived (st : kstate) (w : world) : Prop :=
  Forall (λ pm : tp * list consumed, Forall (readable w) pm.2) (poll st).1.

Inductive life (st0 : kstate) (w0 : world) : kstate → world → Prop :=
  | life_start : life st0 w0 st0 w0
  (** a turn that goes through *)
  | life_turn st w st' w' :
      life st0 w0 st w → polls_arrived (_resume_due_partitions (millis (w_clock w)) st) w →
      poll_turn consume_topic retry_topic settings st w = (Ok st', w') → life st0 w0 st' w'
  (** the worker dies in a turn in which it has handled some messages, and is started again *)
  | life_dies st w ms w' :
      life st0 w0 st w → Forall (arrived w) ms → handles consume_topic retry_topic settings ms w w' →
      life st0 w0 (restart st) w'
  (** the rest of the world goes on *)
  | life_others st w w' : life st0 w0 st w → others w w' → life st0 w0 st w'.

(** *** When every message can be handled *)

(** What holds of the world once the messages [hs] have been handled: with it, each message that has
    arrived is due and can be handled. *)
Variable holds : list consumed → world → Prop.

Record serviceable : Prop := {
  sv_handle hs m w :
    arrived w m → holds hs w →
    deferred_until retry_topic (millis (w_clock w)) m = None
    ∧ ∃ w', _handle_message consume_topic retry_topic settings m w = (Ok tt, w') ∧ holds (hs ++ [m]) w'
        ∧ ∀ m', readable w m' → readable w' m';
  sv_ready hs w : holds hs w → ready w ∧ holds hs (called w) ∧ ∀ m', readable w m' → readable (called w) m';
  sv_others hs w w' : holds hs w → others w w' → holds hs w';
}.
Hypothesis Hsv : serviceable.

(** Nothing that has arrived is gone. *)
Definition keeps_arrived (w w' : world) : Prop := ∀ m, readable w m → readable w' m.

Lemma arrived_later w w' ms : keeps_arrived w w' → Forall (arrived w) ms → Forall (arrived w') ms.
Proof. intros H Hf. eapply Forall_impl; [exact Hf|]. intros m [Hk Hr]. split; [done|by apply H]. Qed.

Lemma run_consume_good p ms start st hs w :
  Forall (arrived w) ms → holds hs w →
  ∃ w', consume_from consume_topic retry_topic settings p ms start st w = (Ok (prefix_offset start ms, st), w')
    ∧ holds (hs ++ ms) w' ∧ keeps_arrived w w'.
Proof.
  revert start hs w. induction ms as [|m ms IH]; intros start hs w Hk Hh.
  { exists w. rewrite app_nil_r. split; [done|]. split; [done|by intros m]. }
  apply Forall_cons in Hk as [Hm Hk]. destruct (sv_handle Hsv hs m w Hm Hh) as (Hd & w1 & E1 & H1 & R1).
  destruct (IH (Some (c_offset m + 1)) (hs ++ [m]) w1 (arrived_later w w1 ms R1 Hk) H1) as (w2 & E2 & H2 & R2).
  exists w2. rewrite <- (prefix_offset_cons start), cons_middle, app_assoc. split; [|split; [done|intros m' ?; auto]].
  cbn [consume_from]. rewrite (bind_ok _now_ms _ w (millis (w_clock w)) w eq_refl). cbv beta. rewrite Hd.
  erewrite bind_ok; [|apply run_try_ok; eapply run_bind; [exact E1|reflexivity]]. exact E2.
Qed.

Lemma run_gather_good polled st hs w :
  Forall (λ pm, Forall (arrived w) pm.2) polled → holds hs w →
  ∃ w', gather consume_topic retry_topic settings polled st w
      = (Ok ((λ pm : tp * list consumed, (pm.1, prefix_offset None pm.2)) <$> polled, st), w')
    ∧ holds (hs ++ concat polled.*2) w' ∧ keeps_arrived w w'.
Proof.
  revert hs w. induction polled as [|[p ms] polled IH]; intros hs w Hk Hh.
  { exists w. rewrite app_nil_r. split; [done|]. split; [done|by intros m]. }
  apply Forall_cons in Hk as [Hm Hk]. destruct (run_consume_good p ms None st hs w Hm Hh) as (w1 & E1 & H1 & R1).
  destruct (IH (hs ++ ms) w1) as (w2 & E2 & H2 & R2); [|done|].
  { eapply Forall_impl; [exact Hk|]. intros pm. by apply arrived_later. }
  exists w2. split; [|split; [csimpl; by rewrite app_assoc|intros m' ?; auto]].
  cbn [gather]. unfold _consume_partition. rewrite (bind_ok _ _ _ _ _ E1). cbv beta iota.
  by rewrite (bind_ok _ _ _ _ _ E2).
Qed.

Lemma handles_good ms hs w w' :
  Forall (arrived w) ms → holds hs w → handles consume_topic retry_topic settings ms w w' → holds (hs ++ ms) w'.
Proof.
  intros Hk Hh H. revert hs Hk Hh. induction H as [w|m ms w w1 w2 Hd E _ IH]; intros hs Hk Hh; [by rewrite app_nil_r|].
  apply Forall_cons in Hk as [Hm Hk]. destruct (sv_handle Hsv hs m w Hm Hh) as (_ & w1' & E' & H1 & R1).
  assert (w1' = w1) as -> by congruence. rewrite cons_middle, app_assoc. apply IH; [by apply (arrived_later w)|done].
Qed.

Lemma resume_nothing now st : paused_until st = ∅ → _resume_due_partitions now st = st.
Proof. intros H. unfold _resume_due_partitions, due_partitions. by rewrite H. Qed.

Lemma offsets_nodup (results : list (tp * option Z)) : NoDup results.*1 → NoDup (offsets_of results).*1.
Proof. intros H. eapply sublist_NoDup; [exact H|apply offsets_keys]. Qed.

Lemma polled_known st : Forall (λ pm : tp * list consumed, Forall known pm.2) (poll st).1.
Proof.
  apply Forall_forall. intros [p ms] Hin. eapply Forall_impl; [by eapply getmany_in_log|]. intros m Hm. by exists p.
Qed.

Lemma polled_arrived st w : polls_arrived st w → Forall (λ pm : tp * list consumed, Forall (arrived w) pm.2) (poll st).1.
Proof.
  intros H. apply Forall_forall. intros pm Hin. unfold polls_arrived in H. pose proof (polled_known st) as Hk.
  rewrite Forall_forall in H, Hk. apply Forall_forall. intros m Hm. specialize (H pm Hin). specialize (Hk pm Hin).
  rewrite Forall_forall in H, Hk. by split; auto.
Qed.

(** A turn goes through, handles what it polled, and leaves the positions behind it. *)
Lemma run_turn_good st hs w :
  paused_until st = ∅ → holds hs w → polls_arrived st w →
  ∃ st' w', poll_turn consume_topic retry_topic settings st w = (Ok st', w') ∧ paused_until st' = ∅
    ∧ (holds (hs ++ concat (poll st).1.*2) w' ∧ keeps_arrived w w')
    ∧ ∀ p, position (k_consumer st') p = position (poll st).2 p
        ∧ is_paused (k_consumer st') p = is_paused (k_consumer st) p
        ∧ (committed (k_consumer st') p = committed (k_consumer st) p ∨ is_Some (committed (k_consumer st') p)).
Proof.
  intros Hp Hh Hpoll. unfold poll_turn. rewrite (bind_ok _now_ms _ w (millis (w_clock w)) w eq_refl). cbv beta zeta.
  rewrite (resume_nothing _ st Hp). pose proof (polled_arrived st w Hpoll) as Hk.
  pose proof (getmany_keys (max_records settings) (k_consumer st)) as Hnd.
  assert (∀ p, is_paused (poll st).2 p = is_paused (k_consumer st) p) as Hpa by apply getmany_paused.
  assert (∀ p, committed (poll st).2 p = committed (k_consumer st) p) as Hco by apply getmany_committed.
  destruct (poll st) as [polled c]. simpl in *.
  destruct (run_gather_good polled (MkKstate c (paused_until st)) hs w Hk Hh) as (w1 & E1 & H1 & R1).
  destruct polled as [|q polled].
  { clear R1. exists (MkKstate c (paused_until st)), w. simpl. rewrite app_nil_r. split; [done|]. split; [done|].
    split; [split; [done|by intros m]|]. intros p. by split_and!; [..|left]. }
  set (results := (λ pm : tp * list consumed, (pm.1, prefix_offset None pm.2)) <$> q :: polled) in E1.
  assert (NoDup (offsets_of results).*1) as Hno.
  { apply offsets_nodup. unfold results. rewrite <- list_fmap_compose. exact Hnd. }
  rewrite (bind_ok _ _ _ _ _ E1). cbv beta iota.
  destruct (offsets_of results) as [|o os]; [exists (MkKstate c (paused_until st)), w1; split_and!; [done..|]; intros p; by split_and!; [..|left]|].
  destruct (sv_ready Hsv _ _ H1) as (Hr & H2 & R2). eexists _, (called w1).
  split; [unfold mbind, M_bind, external; rewrite Hr; reflexivity|]. split; [done|].
  split; [split; [done|intros m ?; auto]|]. intros p. simpl. destruct (commit_law (o :: os) c p Hno) as (-> & -> & Hin & Hn). split_and!; [done|done|].
  destruct (decide (p ∈ (o :: os).*1)) as [Hp'|Hp']; [right|left; by rewrite Hn].
  apply list_elem_of_fmap in Hp' as ([q' n] & -> & Hq). exists n. by apply Hin.
Qed.

(** *** What holds in the course of its life *)

Variables (st0 : kstate) (w0 : world).

(** Where a partition would be read from after a restart. *)
Abbreviation fallback st p := (default (log_start p) (committed (k_consumer st) p)).

Record alive (hs : list consumed) (st : kstate) (w : world) : Prop := {
  al_holds : holds hs w;
  al_running : paused_until st = ∅ ∧ ∀ p, is_paused (k_consumer st) p = false;
  al_offsets p : position (k_consumer st0) p ≤ fallback st p ≤ position (k_consumer st) p;
  al_handled p m : in_log p m → position (k_consumer st0) p ≤ c_offset m < position (k_consumer st) p → m ∈ hs;
  al_known : Forall known hs;
}.

Lemma alive_turn hs st w :
  alive hs st w → polls_arrived st w →
  ∃ st' w', poll_turn consume_topic retry_topic settings st w = (Ok st', w')
    ∧ alive (hs ++ concat (poll st).1.*2) st' w' ∧ keeps_arrived w w'
    ∧ ∀ p, position (k_consumer st') p = position (poll st).2 p.
Proof.
  intros [Hh [Hp Hpa] Ho Hc Hk] Hpoll.
  destruct (run_turn_good st hs w Hp Hh Hpoll) as (st' & w' & E & Hp' & [Hh' R'] & Hpos).
  exists st', w'. split; [done|]. split; [|split; [done|apply Hpos]].
  destruct (run_turn _ _ _ _ _ _ _ E) as (_ & _ & _ & [_ _ Hcom]).
  split; [done| | | |].
  - split; [done|]. intros p. by destruct (Hpos p) as (_ & -> & _).
  - intros p. destruct (Ho p) as [H1 H2]. pose proof (getmany_forward (max_records settings) (k_consumer st) p).
    destruct (Hpos p) as (Hpp & _ & Hsame). specialize (Hcom p). rewrite Hpp in Hcom |- *.
    destruct (committed (k_consumer st') p) as [o|].
    + destruct (Hcom o eq_refl) as [E'|E']; simpl; [rewrite E' in H1, H2; simpl in *; lia|lia].
    + destruct Hsame as [Hs|[? [=]]]. rewrite <- Hs in H1, H2. simpl in *. lia.
  - intros p m Hin [H1 H2]. rewrite elem_of_app. destruct (decide (c_offset m < position (k_consumer st) p)) as [Hlt|Hge].
    + left. by apply (Hc p).
    + right. rewrite (proj1 (Hpos p)) in H2. destruct (decide (p ∈ (poll st).1.*1)) as [Hin'|Hn].
      * apply list_elem_of_fmap in Hin' as ([q ms] & -> & Hq).
        destruct (getmany_polled _ _ _ _ Hq) as (_ & _ & _ & Hall).
        apply list_elem_of_In, in_concat. exists ms. split; [|apply list_elem_of_In, Hall; [done|simpl in *; lia]].
        apply list_elem_of_In, list_elem_of_fmap. by exists (q, ms).
      * rewrite (getmany_other _ _ _ Hn) in H2. lia.
  - apply Forall_app. split; [done|]. apply Forall_concat, Forall_fmap. apply polled_known.
Qed.

(** A process that reads on from the committed offsets. *)
Lemma alive_restart hs st w : alive hs st w → alive hs (restart st) w.
Proof.
  intros [Hh _ Ho Hc Hk]. pose proof (rejoin_law (k_consumer st)) as Hl. split; [done| | | |done].
  - split; [done|]. intros p. apply (Hl p).
  - intros p. simpl. destruct (Hl p) as (-> & _ & ->). destruct (Ho p). lia.
  - intros p m Hin. simpl. destruct (Hl p) as (-> & _ & _). intros [H1 H2]. apply (Hc p); [done|]. destruct (Ho p). lia.
Qed.

Lemma alive_more hs ms st w w' : Forall known ms → holds (hs ++ ms) w' → alive hs st w → alive (hs ++ ms) st w'.
Proof.
  intros Hms Hh' [_ Hr Ho Hc Hk]. split; [done|done|done| |by apply Forall_app].
  intros p m Hin Hm. rewrite elem_of_app. left. by apply (Hc p).
Qed.

Lemma life_alive st w : life st0 w0 st w → alive [] st0 w0 → ∃ hs, alive hs st w.
Proof.
  intros Hl H0. induction Hl as [|st w st' w' _ [hs IH] Hpoll E|st w ms w' _ [hs IH] Hms H|st w w' _ [hs IH] Ho].
  - by exists [].
  - rewrite resume_nothing in Hpoll by apply IH.
    destruct (alive_turn hs st w IH Hpoll) as (st1 & w1 & E1 & A & _). rewrite E in E1. injection E1 as <- <-. by eexists.
  - exists (hs ++ ms). apply alive_restart, (alive_more hs ms st w).
    + eapply Forall_impl; [exact Hms|]. by intros m [? _].
    + apply (handles_good ms hs w); [done|apply (al_holds _ _ _ IH)|done].
    + done.
  - exists hs. destruct IH as [Hh ? ? ? ?]. split; try done. by apply (sv_others Hsv hs w).
Qed.

(** *** The log is read to its end *)

Variable log : list (tp * consumed).
Hypothesis Hlog : ∀ p m, in_log p m ↔ (p, m) ∈ log.

Definition ahead (st : kstate) (pm : tp * consumed) : Prop := position (k_consumer st) pm.1 ≤ c_offset pm.2.
#[local] Instance ahead_dec st pm : Decision (ahead st pm).
Proof. unfold ahead. apply _. Defined.

Definition unread (st : kstate) : list (tp * consumed) := filter (ahead st) log.

Lemma filter_not_longer {A} (P Q : A → Prop) `{∀ x, Decision (P x), ∀ x, Decision (Q x)} (l : list A) :
  (∀ y, Q y → P y) → (length (filter Q l) ≤ length (filter P l))%nat.
Proof.
  intros Himp. induction l as [|y l IH]; [done|]. rewrite !filter_cons. destruct (decide (Q y)) as [Hq|_].
  - rewrite decide_True by by apply Himp. simpl. lia.
  - destruct (decide (P y)); simpl; lia.
Qed.

Lemma filter_shorter {A} (P Q : A → Prop) `{∀ x, Decision (P x), ∀ x, Decision (Q x)} (l : list A) x :
  (∀ y, Q y → P y) → x ∈ l → P x → ¬ Q x → (length (filter Q l) < length (filter P l))%nat.
Proof.
  intros Himp Hin HP HQ. apply list_elem_of_split in Hin as (l1 & l2 & ->).
  rewrite !filter_app, !filter_cons, decide_False, decide_True, !length_app by done. simpl.
  pose proof (filter_not_longer P Q l1 Himp). pose proof (filter_not_longer P Q l2 Himp). lia.
Qed.

Lemma max_records_positive : 0 < max_records settings.
Proof. unfold max_records. destruct (kafka_consumer_batch_enabled settings); lia. Qed.

Lemma turn_reads hs st w st' :
  alive hs st w → (∀ p, position (k_consumer st') p = position (poll st).2 p) →
  (length (unread st') ≤ pred (length (unread st)))%nat.
Proof.
  intros [_ [_ Hpa] _ _ _] Hpos. assert (∀ pm, ahead st' pm → ahead st pm) as Himp.
  { intros [q n]. unfold ahead. simpl. rewrite Hpos. pose proof (getmany_forward (max_records settings) (k_consumer st) q). lia. }
  destruct (unread st) as [|[p m] rest] eqn:E.
  { rewrite <- E. etrans; [exact (filter_not_longer (ahead st) (ahead st') log Himp)|]. fold (unread st). by rewrite E. }
  assert ((p, m) ∈ unread st) as Hin by (rewrite E; left). apply list_elem_of_filter in Hin as [Hah Hin].
  destruct (getmany_progress _ (k_consumer st) p m max_records_positive (Hpa p) (proj2 (Hlog p m) Hin) Hah)
    as (p' & m' & ms & Hp').
  destruct (getmany_polled _ _ _ _ Hp') as (_ & _ & [[_ Hm'] _]%Forall_cons & _).
  pose proof (getmany_in_log _ _ _ _ Hp') as [Hl' _]%Forall_cons.
  rewrite <- E. apply Nat.lt_le_pred, (filter_shorter (ahead st) (ahead st') log (p', m')); [done| | |].
  - by apply Hlog.
  - unfold ahead. simpl. lia.
  - unfold ahead. simpl. rewrite Hpos. lia.
Qed.

(** As many turns as there are messages to read are enough, when all have arrived. *)
Lemma turns_drain n hs st w :
  alive hs st w → (∀ m, known m → readable w m) → (length (unread st) ≤ n)%nat →
  ∃ hs' st' w', turns n st w = (Ok st', w') ∧ alive hs' st' w' ∧ unread st' = [].
Proof.
  revert hs st w. induction n as [|n IH]; intros hs st w A Hall Hn.
  { exists hs, st, w. split_and!; [done|done|]. by apply nil_length_inv; lia. }
  assert (polls_arrived st w) as Hpoll.
  { eapply Forall_impl; [apply polled_known|]. intros pm Hpm. eapply Forall_impl; [exact Hpm|exact Hall]. }
  destruct (alive_turn hs st w A Hpoll) as (st1 & w1 & E1 & A1 & R1 & Hpos).
  destruct (IH _ st1 w1 A1) as (hs' & st' & w' & E' & A' & Hu); [intros m Hm; by apply R1, Hall| |].
  { pose proof (turn_reads hs st w st1 A Hpos). lia. }
  exists hs', st', w'. split_and!; [|done|done]. cbn [turns]. by rewrite (bind_ok _ _ _ _ _ E1).
Qed.
End life.

(** A worker that has just been started. *)
Lemma alive_started {RS : RedisServer} {KC : KafkaConsumer} {KG : ConsumerGroup KC} holds st w :
  holds [] w → alive holds (restart st) [] (restart st) w.
Proof.
  intros Hh. pose proof (rejoin_law (k_consumer st)) as Hl. split; [done| | | |constructor].
  - split; [done|]. intros p. apply (Hl p).
  - intros p. simpl. destruct (Hl p) as (-> & _ & ->). lia.
  - intros p m _. lia.
Qed.

(** ** The clock of a worker *)

Section clock.
Context {RS : RedisServer} {TP : TaskProcessor}.
Variable in_time : Z → Prop.

Definition keeps_time (w w' : world) : Prop := in_time (w_clock w) → in_time (w_clock w').

#[global] Instance keeps_time_relation : StepRelation keeps_time.
Proof. split; [split|]; unfold keeps_time; auto. Qed.

Lemma same_redis_keeps_time {A} (m : M A) : stays same_redis m → stays keeps_time m.
Proof. intros H w Hw. destruct (H w) as [_ Hc]. by rewrite Hc. Qed.

Lemma worker_keeps_time worker_id secs source event :
  (∀ payload, stays keeps_time (process payload)) → stays keeps_time (worker_handle_event worker_id secs source event).
Proof.
  intros Hp. unfold worker_handle_event. stay_bind; [stay|intros job_id]. stay_bind; [stay|intros trace_id].
  stay_bind; [apply same_redis_keeps_time; unfold claim_phase; stay|intros [o|lease]; [stay|]].
  apply stays_try_finally; [apply _| |apply same_redis_keeps_time; unfold observe; stay].
  apply stays_try_except; [apply _| |intros e; apply same_redis_keeps_time; unfold failure_phase; stay].
  stay_bind; [apply same_redis_keeps_time; unfold request_payload; stay|intros request]. stay_bind; [apply Hp|intros result].
  apply same_redis_keeps_time. unfold success_phase. stay.
Qed.
End clock.

(** ** The worker of the unified mode, and a log of requests *)

Section worker.
Context {RS : RedisServer} {TP : TaskProcessor} {TL : TaskProcessorLaws TP} {KC : KafkaConsumer} {KG : ConsumerGroup KC}.
Variables (worker_id : pystr) (s : Settings) (p : processor) (secs : Z).
Hypothesis service_is : build_worker_role s = WorkerService p secs.
Hypothesis topics_differ : resolve_worker_retry_topic s ≠ resolve_worker_topic s.

#[local] Instance worker_role_instance : WorkerRole := role_handle_event (worker_role_object TP worker_id s).
#[local] Existing Instance KafkaEventPublisher.
Abbreviation topic := (resolve_worker_topic s).
Abbreviation retry_topic := (resolve_worker_retry_topic s).

(** The end of a lease that is taken now is a date. *)
Definition in_time (t : Z) : Prop := is_ok (datetime_add_seconds t secs) = true.
Hypothesis process_in_time : ∀ payload, stays (keeps_time in_time) (process payload).

(** The first delivery of a request, or another one, of a job at rest. *)
Lemma handle_request answer m id trace w :
  calm w → fresh_ids w → in_time (w_clock w) → c_topic m = topic → c_headers m = None →
  addressed (c_value m) id trace → computes (c_value m) (Ok (answer id)) → at_rest id (w_db w) →
  ∃ w', _handle_message topic retry_topic s m w = (Ok tt, w') ∧ dealt answer w w' id ∧ in_time (w_clock w').
Proof.
  intros Hc Hf Ht Htop Hhd Ha Hcomp Hr. set (x := MkDelivery worker_id (w_clock w) (w_db_clock w) (c_value m)).
  destruct (run_deliver secs answer x w id trace TL Hc Hf Ha Hcomp Hr) as (w' & E & D).
  { unfold in_time in Ht. simpl. destruct (datetime_add_seconds _ _) as [e|]; [by exists e|done]. }
  unfold deliver in E. rewrite (bind_ok _ _ _ _ _ (run_modify _ _)) in E.
  assert (set_clock (d_time x) (d_db_time x) w = w) as Hw by by destruct w. rewrite Hw in E. simpl in E.
  exists w'. split; [|split; [done|]].
  - unfold _handle_message. rewrite origin_not_other by (unfold origin; by rewrite Hhd).
    assert (handle_event (c_value m) w = (Ok (true, None), w')) as Eh.
    { unfold handle_event, worker_role_instance. by rewrite role_delegates, service_is. }
    eapply run_bind; [exact Eh|reflexivity].
  - pose proof (worker_keeps_time in_time worker_id secs (u "worker") (c_value m) process_in_time w Ht) as H.
    by rewrite E in H.
Qed.

(** What each job's request computes to, and the database the worker starts with. *)
Variables (answer : pystr → json) (d0 : db).

(** A first request for a job nobody works on. *)
Definition request_for (m : consumed) (id : pystr) : Prop :=
  c_topic m = topic ∧ c_headers m = None
  ∧ ∃ trace, addressed (c_value m) id trace ∧ computes (c_value m) (Ok (answer id)) ∧ at_rest id d0.
Hypothesis all_requests : ∀ m, known m → ∃ id, request_for m id.

Definition named (hs : list consumed) : list pystr := omap (event_job ∘ c_value) hs.

(** A job whose event was handled, however often. *)
Definition settled_job (id : pystr) (d : db) : Prop :=
  if unfinished id d0 then processed_once answer id d0 d else untouched_job id d0 d.

(** After [hs]: the jobs they name are done, the others are as they were. *)
Record served (hs : list consumed) (w : world) : Prop := {
  sd_calm : calm w;
  sd_fresh : fresh_ids w;
  sd_time : in_time (w_clock w);
  sd_rest id : at_rest id d0 → at_rest id (w_db w);
  sd_jobs id :
    if bool_decide (id ∈ named hs)
    then unfinished id (w_db w) = false
      ∧ settled_job id (w_db w)
    else untouched_job id d0 (w_db w);
}.

Lemma named_snoc hs m id : request_for m id → named (hs ++ [m]) = named hs ++ [id].
Proof.
  intros (_ & _ & trace & Ha & _). unfold named. rewrite omap_app. cbn [omap list_omap]. unfold compose at 2.
  by rewrite (addressed_job _ _ _ Ha).
Qed.

(** One more message. *)
Lemma served_next hs m w :
  known m → served hs w →
  ∃ w', _handle_message topic retry_topic s m w = (Ok tt, w') ∧ served (hs ++ [m]) w'.
Proof.
  intros Hm [Hc Hf Ht Hrest Hjobs]. destruct (all_requests m Hm) as (id & Hreq).
  pose proof Hreq as (Htop & Hhd & trace & Ha & Hcomp & Hr).
  destruct (handle_request answer m id trace w Hc Hf Ht Htop Hhd Ha Hcomp (Hrest id Hr))
    as (w' & E & [Hc' Hf' _ _ Hj Hdone Hr' Hu] & Ht').
  exists w'. split; [done|]. split; [done|done|done| |].
  - intros id' H'. destruct (decide (id' = id)) as [->|Hne]; [done|].
    destruct (Hrest id' H') as (row & st & Hrow & Hs). exists row, st. by destruct (Hu id' Hne) as [-> _].
  - intros id'. specialize (Hjobs id'). rewrite (named_snoc hs m id Hreq).
    destruct (decide (id' = id)) as [->|Hne].
    + rewrite (bool_decide_true (id ∈ _ ++ _)) by (apply elem_of_app; right; by left). split; [done|].
      case_bool_decide as Hin.
      * destruct Hjobs as [Hn Hjobs]. rewrite Hn in Hj. unfold settled_job in *.
         destruct (unfinished id d0); [by eapply processed_untouched|by eapply untouched_trans].
      * rewrite (untouched_unfinished _ _ _ Hjobs) in Hj. unfold settled_job.
         destruct (unfinished id d0); [by eapply untouched_processed|by eapply untouched_trans].
    + assert (bool_decide (id' ∈ named hs ++ [id]) = bool_decide (id' ∈ named hs)) as ->.
      { apply bool_decide_ext. rewrite elem_of_app, list_elem_of_singleton. naive_solver. }
      specialize (Hu id' Hne). case_bool_decide; [|by eapply untouched_trans].
      destruct Hjobs as [Hn Hjobs]. split; [by rewrite (untouched_unfinished _ _ _ Hu)|]. unfold settled_job in *.
      destruct (unfinished id' d0); [by eapply processed_untouched|by eapply untouched_trans].
Qed.

(** While the worker runs time passes, and the log stays as it is. *)
Definition time_passes (w w' : world) : Prop := ∃ t dt, w' = set_clock t dt w ∧ w_clock w ≤ t ∧ in_time t.
Definition from_the_start (w : world) (m : consumed) : Prop := True.

Lemma served_serviceable : serviceable topic retry_topic s from_the_start time_passes served.
Proof.
  split.
  - intros hs m w [Hm _] Hh. split; [|by destruct (served_next hs m w Hm Hh) as (w' & E & H'); exists w']. unfold deferred_until.
    destruct (all_requests m Hm) as (id & Htop & _). rewrite Htop, decide_False; [done|]. congruence.
  - intros hs w [Hc Hf Ht Hr Hj]. split; [by apply Hc|]. split; [by split|done].
  - intros hs w w' [Hc Hf Ht Hr Hj] (t & dt & -> & _ & Hi). by split.
Qed.

(** What is known of a job that a handled message names, and of one that no message names. *)
Lemma served_named hs w m id : served hs w → m ∈ hs → request_for m id → settled_job id (w_db w).
Proof.
  intros [_ _ _ _ Hj] Hin (_ & _ & trace & Ha & _). specialize (Hj id). rewrite bool_decide_true in Hj; [apply Hj|].
  apply list_elem_of_omap. exists m. split; [done|]. by apply (addressed_job _ _ trace).
Qed.

Lemma served_unnamed hs w id :
  served hs w → Forall known hs → (∀ m, known m → ¬ request_for m id) → untouched_job id d0 (w_db w).
Proof.
  intros [_ _ _ _ Hj] Hk Hn. specialize (Hj id). rewrite bool_decide_false in Hj; [done|].
  intros (m & Hin & Hm)%list_elem_of_omap. rewrite Forall_forall in Hk. specialize (Hk m Hin).
  destruct (all_requests m Hk) as (id' & Hreq). pose proof Hreq as (_ & _ & trace & Ha & _).
  unfold compose in Hm. rewrite (addressed_job _ _ _ Ha) in Hm. injection Hm as ->. by apply (Hn m).
Qed.

Lemma served_start w : calm w → fresh_ids w → in_time (w_clock w) → w_db w = d0 → served [] w.
Proof.
  intros Hc Hf Ht Hd. split; [done|done|done|by rewrite Hd|]. intros id. rewrite bool_decide_false by apply not_elem_of_nil. by rewrite Hd.
Qed.
End worker.

(** ** Every request is processed, and exactly once *)

Section theorems.
Context {RS : RedisServer} {TP : TaskProcessor} {TL : TaskProcessorLaws TP} {KC : KafkaConsumer} {KG : ConsumerGroup KC}.

(** C6: every request in the log is processed exactly once, crashes or not. A worker in the unified
    mode is started on partitions that hold a finite log of requests (first deliveries, perhaps
    several for one job) for jobs nobody works on. It makes any number of turns, and may die
    between two messages, and be restarted at its committed offsets, any number of times. If no
    service fails and the processor answers, then at every moment: each job whose request lies between the offset
    the worker started from and its position has been processed once, or was finished before and is as it
    was; a job that no request names is untouched; and as many turns as the log is long, without
    a further crash, bring the worker to the end of every partition, all requests processed. *)
Theorem requests_processed_once worker_id s p secs answer log st w0 st1 w1 :
  build_worker_role s = WorkerService p secs → resolve_worker_retry_topic s ≠ resolve_worker_topic s →
  (∀ payload, stays (keeps_time (in_time secs)) (process payload)) →
  (∀ q m, in_log q m ↔ (q, m) ∈ log) → (∀ m, known m → ∃ id, request_for s answer (w_db w0) m id) →
  calm w0 → fresh_ids w0 → in_time secs (w_clock w0) →
  let start := restart st in
  let WR := role_handle_event (worker_role_object TP worker_id s) in
  life (WR := WR) (EP := KafkaEventPublisher) (resolve_worker_topic s) (resolve_worker_retry_topic s) s
    from_the_start (time_passes secs) start w0 st1 w1 →
  (∀ q m id, in_log q m → position (k_consumer start) q ≤ c_offset m < position (k_consumer st1) q →
     request_for s answer (w_db w0) m id → settled_job answer (w_db w0) id (w_db w1))
  ∧ (∀ id, (∀ m, known m → ¬ request_for s answer (w_db w0) m id) → untouched_job id (w_db w0) (w_db w1))
  ∧ ∃ st2 w2, turns (WR := WR) (EP := KafkaEventPublisher) (resolve_worker_topic s) (resolve_worker_retry_topic s) s
                (length log) st1 w1 = (Ok st2, w2)
    ∧ (∀ q m, in_log q m → c_offset m < position (k_consumer st2) q)
    ∧ ∀ q m id, in_log q m → position (k_consumer start) q ≤ c_offset m →
        request_for s answer (w_db w0) m id → settled_job answer (w_db w0) id (w_db w2).
Proof.
  intros Hs Ht Hp Hlog Hall Hc Hf Hi start WR Hlife.
  pose proof (served_serviceable worker_id s p secs Hs Ht Hp answer (w_db w0) Hall) as Hsv.
  destruct (life_alive _ _ _ _ _ _ Hsv _ _ _ _ Hlife) as [hs A].
  { by apply alive_started, served_start. }
  destruct (turns_drain _ _ _ _ _ _ Hsv _ log Hlog (length log) hs st1 w1 A) as (hs' & st2 & w2 & E & A2 & Hu); [done| |].
  { apply length_filter. }
  assert (∀ q m, in_log q m → c_offset m < position (k_consumer st2) q) as Hend.
  { intros q m Hin. destruct (decide (c_offset m < position (k_consumer st2) q)) as [|Hn]; [done|].
    assert ((q, m) ∈ unread log st2) as Hin'; [|rewrite Hu in Hin'; by apply not_elem_of_nil in Hin'].
    apply list_elem_of_filter. split; [unfold ahead; simpl; lia|by apply Hlog]. }
  split_and!.
  - intros q m id Hin Hm. apply (served_named s secs answer (w_db w0) hs w1 m id); [apply A|].
    by apply (al_handled _ _ _ _ _ A q).
  - intros id. apply (served_unnamed s secs answer (w_db w0) Hall hs w1 id); apply A.
  - exists st2, w2. split_and!; [done|done|]. intros q m id Hin Hm.
    apply (served_named s secs answer (w_db w0) hs' w2 m id); [apply A2|].
    apply (al_handled _ _ _ _ _ A2 q); [done|]. split; [done|by apply Hend].
Qed.
End theorems.

(** ** The hypotheses can hold *)

(** The client of [Consumer] over one partition, in its group. *)
Section log_group.
Variables (only : tp) (log : list consumed).
Hypothesis log_sorted : Sorted.StronglySorted (λ m m', c_offset m < c_offset m') log.
Hypothesis log_only : Forall (λ m, (c_topic m, c_partition m) = only) log.

Lemma lc_next_in_log n c m : m ∈ lc_next only log n c → m ∈ log.
Proof.
  unfold lc_next. destruct (lc_paused c only); [by intros ?%not_elem_of_nil|].
  intros (i & Hi & _)%elem_of_take. by apply list_elem_of_lookup_2, list_elem_of_filter in Hi as [_ ?].
Qed.

Lemma lc_next_some n c m :
  0 < n → lc_paused c only = false → m ∈ log → lc_position c only ≤ c_offset m → lc_next only log n c ≠ [].
Proof.
  intros Hn Hp Hin Ho. unfold lc_next. rewrite Hp. set (ready := filter _ _).
  assert (m ∈ ready) as Hr by by apply list_elem_of_filter. destruct ready as [|m' ready]; [by apply not_elem_of_nil in Hr|].
  destruct (Z.to_nat n) eqn:E; [lia|done].
Qed.

Definition lc_rejoin (c : log_consumer) : log_consumer :=
  MkLogConsumer (λ p, default 0 (lc_committed c p)) (λ _, false) (lc_committed c).

#[refine] Definition log_group : ConsumerGroup (log_client only log log_sorted log_only) :=
  @Build_ConsumerGroup (log_client only log log_sorted log_only) (λ _, 0) lc_rejoin _ _ _.
Proof.
  - done.
  - intros n c p ms. simpl. unfold lc_getmany. destruct (last (lc_next only log n c)) as [m|]; simpl; [|by intros ?%not_elem_of_nil].
    intros [= -> ->]%list_elem_of_singleton. apply Forall_forall. intros m' Hm'. split; [done|by eapply lc_next_in_log].
  - intros n c p m Hn Hp [-> Hin] Ho. simpl in *. pose proof (lc_next_some n c m Hn Hp Hin Ho) as Hne.
    unfold lc_getmany. destruct (lc_next only log n c) as [|m' ms] eqn:E; [done|].
    destruct (last (m' :: ms)) as [l|] eqn:El; [|by apply last_None in El]. exists only, m', ms. by left.
Defined.
End log_group.

(** Three requests for two jobs; the worker dies after the first one, and is restarted. *)
Definition demo_partition : tp := (u "request-topic", 0).
Definition demo_request (offset : Z) (id : pystr) : consumed :=
  MkConsumed (u "request-topic") 0 offset (request_event id) None.
Definition demo_requests : list consumed :=
  [demo_request 3 demo_id; demo_request 4 demo_other; demo_request 5 demo_id].

Lemma demo_requests_sorted : Sorted.StronglySorted (λ m m', c_offset m < c_offset m') demo_requests.
Proof. repeat constructor. Qed.

Lemma demo_requests_only : Forall (λ m, (c_topic m, c_partition m) = demo_partition) demo_requests.
Proof. repeat constructor. Qed.

Definition demo_member : KafkaConsumer := log_client demo_partition demo_requests demo_requests_sorted demo_requests_only.
#[local] Existing Instance demo_member.
#[local] Instance demo_group : ConsumerGroup demo_member :=
  log_group demo_partition demo_requests demo_requests_sorted demo_requests_only.
#[local] Existing Instance echo_processor.
#[local] Instance demo_role : WorkerRole :=
  role_handle_event (worker_role_object echo_processor (u "w-1") default_settings).
#[local] Existing Instance KafkaEventPublisher.

Definition demo_fresh : kstate := MkKstate (MkLogConsumer (λ _, 0) (λ _, false) (λ _, None) : consumer) ∅.
Definition demo_started : kstate := restart demo_fresh.
Definition demo_first : world :=
  (_handle_message (u "request-topic") (u "retry-topic") default_settings (demo_request 3 demo_id) demo_before).2.

Lemma demo_known m : known m ↔ m ∈ demo_requests.
Proof. split; [by intros (p & _ & H)|]. intros H. by exists demo_partition. Qed.

(** The first request is handled, its offset is not committed. *)
Lemma demo_life :
  life (u "request-topic") (u "retry-topic") default_settings from_the_start (time_passes 1800) demo_started
    demo_before (restart demo_started) demo_first.
Proof.
  apply (life_dies _ _ _ _ _ _ _ demo_started demo_before [demo_request 3 demo_id]); [constructor| |].
  - repeat constructor. apply (proj2 (demo_known (demo_request 3 demo_id))). by left.
  - eapply handles_cons; [vm_compute; reflexivity| |constructor].
    unfold demo_first. rewrite (surjective_pairing (_handle_message _ _ _ _ _)) at 1.
    apply (f_equal2 pair); [vm_compute; reflexivity|reflexivity].
Qed.

Lemma demo_rests : at_rest demo_id demo_jobs ∧ at_rest demo_other demo_jobs.
Proof.
  split; eexists.
  - exists PENDING. split; [apply lookup_insert_eq|]. by split_and!.
  - exists FAILED. split; [simpl; rewrite lookup_insert_ne by (vm_compute; done); apply lookup_insert_eq|]. by split_and!.
Qed.

Lemma demo_request_for offset id :
  at_rest id demo_jobs → request_for default_settings demo_answer demo_jobs (demo_request offset id) id.
Proof. intros Hr. split; [done|]. split; [done|]. exists (u "trace"). by split_and!. Qed.

Lemma demo_all_requests m : known m → ∃ id, request_for default_settings demo_answer (w_db demo_before) m id.
Proof.
  intros Hm%demo_known. destruct demo_rests as [H1 H2].
  apply elem_of_cons in Hm as [->|[->|[->|[]%not_elem_of_nil]%elem_of_cons]%elem_of_cons];
    eexists; apply demo_request_for; (exact H1 || exact H2).
Qed.

Lemma requests_processed_once_witness :
  ∃ st2 w2, turns (u "request-topic") (u "retry-topic") default_settings 3 (restart demo_started) demo_first = (Ok st2, w2)
    ∧ processed_once demo_answer demo_id demo_jobs (w_db w2)
    ∧ processed_once demo_answer demo_other demo_jobs (w_db w2).
Proof.
  destruct (requests_processed_once (TL := echo_laws) (u "w-1") default_settings
    (build_primary_processor default_settings false) 1800 demo_answer ((λ m, (demo_partition, m)) <$> demo_requests)
    demo_fresh demo_before (restart demo_started) demo_first) as (_ & _ & st2 & w2 & E & _ & H).
  - reflexivity.
  - discriminate.
  - intros payload w Hw. exact Hw.
  - intros q m. rewrite list_elem_of_fmap. split; [by intros [-> H]; exists m|by intros (m' & [= -> ->] & H)].
  - exact demo_all_requests.
  - apply calm_env_calm.
  - exact demo_jobs_fresh.
  - vm_compute. reflexivity.
  - exact demo_life.
  - exists st2, w2. split; [exact E|].
    destruct demo_rests as [R1 R2]. split.
    + apply (H demo_partition (demo_request 3 demo_id) demo_id); [split; [done|by left]|vm_compute; discriminate|].
      by apply demo_request_for.
    + apply (H demo_partition (demo_request 4 demo_other) demo_other); [split; [done|by right; left]|vm_compute; discriminate|].
      by apply demo_request_for.
Defined.
