(* ===== verification/Service.v ===== *)
(** * The whole service, one worker doing the job

    The API, the relay, Kafka and the worker of the unified modes run side by side: requests
    arrive, the outbox is drained (by a relay that may die after it has published and before it
    has marked), the worker makes its turns, dies and is restarted, and time passes, in any order.
    The components are those of [Api], [OutboxRelay], [Consumer] and [WorkerService]; the worker's
    side of the interleaving is [Life.life], with the rest of the service as the world it runs in. *)
From S2P Require Import Processing Prelude PyStr PyFloat Json Domain Database WellFormed Evolution World Effects Ports Fixtures JobService WorkerService Messaging OutboxRelay Delivery Settings Retry Consumer Api EndToEnd Life.
#[local] Open Scope Z_scope.

Section service.
Context {RS : RedisServer} {IP : IdempotencyPort} {IL : IdempotencyLaws IP} {TP : TaskProcessor} {TL : TaskProcessorLaws TP}.
Context {KC : KafkaConsumer} {KG : ConsumerGroup KC}.
Variables (worker_id : pystr) (s : Settings) (p : processor) (secs : Z) (dialect : pystr) (batch_size : Z).
Hypothesis service_is : build_worker_role s = WorkerService p secs.
Hypothesis role_is : worker_role s ≠ downstream.
Hypothesis topics_differ : resolve_worker_retry_topic s ≠ resolve_worker_topic s.
Hypothesis process_in_time : ∀ payload, stays (keeps_time (in_time secs)) (process payload).

(** What the processor computes of the payloads it can answer. *)
Variable f : json → json.
Definition answers (payload : json) : Prop := ∀ w, (process payload w).1 = Ok (f payload).

#[local] Instance service_role : WorkerRole := role_handle_event (worker_role_object TP worker_id s).
#[local] Existing Instance KafkaEventPublisher.
Abbreviation topic := (job_service_topic s).

Lemma topic_worker : resolve_worker_topic s = topic.
Proof. unfold resolve_worker_topic, job_service_topic. by destruct (worker_role s). Qed.

(** ** The jobs *)

(** A request as it was accepted, and nothing since. *)
Definition waiting_job (id : pystr) (d : db) : Prop :=
  ∃ row, jobs d !! id = Some row ∧ jr_status row = status_value PENDING ∧ jr_lease_epoch row = 0
    ∧ jr_result row = None ∧ jr_error_message row = None
    ∧ log_of id d = [(u "REQUESTED", JDict [(u "request", jr_request_payload row)])].

(** Processed once: one claim, one start, one completion, and the processor's result. *)
Definition done_job (id : pystr) (d : db) : Prop :=
  ∃ row, jobs d !! id = Some row ∧ jr_status row = status_value SUCCESS ∧ jr_lease_epoch row = 1
    ∧ jr_result row = (match f (jr_request_payload row) with JNull => None | r => Some r end)
    ∧ jr_error_message row = None
    ∧ log_of id d = [(u "REQUESTED", JDict [(u "request", jr_request_payload row)]);
                     (u "PROCESSING_STARTED", JDict [(u "lease_epoch", JInt 1)]);
                     (u "PROCESSING_COMPLETED", JDict [(u "result", f (jr_request_payload row))])].

Lemma waiting_untouched id d d' : untouched_job id d d' → waiting_job id d → waiting_job id d'.
Proof. intros [J L] (row & H). exists row. by rewrite J, L. Qed.
Lemma done_untouched id d d' : untouched_job id d d' → done_job id d → done_job id d'.
Proof. intros [J L] (row & H). exists row. by rewrite J, L. Qed.

Lemma waiting_done id d d' row :
  jobs d !! id = Some row → waiting_job id d → processed_once (λ _, f (jr_request_payload row)) id d d' → done_job id d'.
Proof.
  intros Hr (row0 & Hr0 & Hs & He & Hres & Herr & Hl) (row1 & row' & Hr1 & Hr' & F & Hl'). simplify_eq.
  rewrite Hl, He in Hl'. destruct F as [_ Fp Fs Fr Fe _ _ Fep]. exists row'. rewrite Fp. split_and!; [done|done|lia| |done|done].
  rewrite Fr, Hres. by destruct (f _).
Qed.

Lemma waiting_rest id d : waiting_job id d → at_rest id d ∧ unfinished id d = true.
Proof.
  intros (row & Hr & Hs & He & _). split.
  - exists row, PENDING. split_and!; [done|done|done|]. rewrite He. intros _. vm_compute. done.
  - by rewrite (unfinished_status _ _ _ _ Hr Hs).
Qed.

Lemma done_rest id d : done_job id d → at_rest id d ∧ unfinished id d = false.
Proof.
  intros (row & Hr & Hs & _). split; [by exists row, SUCCESS|]. by rewrite (unfinished_status _ _ _ _ Hr Hs).
Qed.

(** ** The messages *)

(** The first event of a job. *)
Definition asks (d : db) (value : json) (id : pystr) : Prop :=
  ∃ row trace, jobs d !! id = Some row ∧ addressed value id trace ∧ computes value (Ok (f (jr_request_payload row))).

Definition request_row (d : db) (r : outbox_row) : Prop :=
  ob_topic r = topic ∧ ob_headers r = None ∧ ∃ id, asks d (ob_payload r) id.

Definition request_record (d : db) (r : record) : Prop :=
  r_topic r = topic ∧ r_headers r = None ∧ ∃ id, asks d (r_value r) id.

(** The record a row becomes. *)
Definition relayed (r : outbox_row) : record := MkRecord (ob_topic r) (ob_payload r) (ob_headers r).

(** Jobs stay, and so do their requests. *)
Definition keeps_jobs (d d' : db) : Prop :=
  ∀ id row, jobs d !! id = Some row →
    ∃ row', jobs d' !! id = Some row' ∧ jr_request_payload row' = jr_request_payload row.

Lemma asks_later d d' value id : keeps_jobs d d' → asks d value id → asks d' value id.
Proof.
  intros H (row & trace & Hr & Ha & Hc). destruct (H id row Hr) as (row' & Hr' & E). exists row', trace. by rewrite E.
Qed.

Lemma rows_later d d' rs : keeps_jobs d d' → Forall (request_row d) rs → Forall (request_row d') rs.
Proof.
  intros H F. eapply Forall_impl; [exact F|]. intros r (Ht & Hh & id & Ha). split_and!; [done|done|].
  exists id. by apply (asks_later d).
Qed.

Lemma records_later d d' rs : keeps_jobs d d' → Forall (request_record d) rs → Forall (request_record d') rs.
Proof.
  intros H F. eapply Forall_impl; [exact F|]. intros r (Ht & Hh & id & Ha). split_and!; [done|done|].
  exists id. by apply (asks_later d).
Qed.

Lemma asks_named d value id : asks d value id → event_job value = Some id.
Proof. intros (row & trace & _ & Ha & _). by apply (addressed_job _ _ trace). Qed.

(** ** The invariant *)

(** A job's request is pending in the outbox, or it is in Kafka. *)
Definition covered (id : pystr) (w : world) : Prop :=
  ∃ r, r ∈ outbox_messages (w_db w) ∧ event_job (ob_payload r) = Some id ∧ (is_pending r ∨ relayed r ∈ w_kafka w).

Record running (hs : list consumed) (w : world) : Prop := {
  ru_calm : calm w;
  ru_fresh : fresh_ids w;
  ru_time : in_time secs (w_clock w);
  ru_ids : outbox_ids (w_db w);
  ru_jobs id : is_Some (jobs (w_db w) !! id) →
    if bool_decide (id ∈ named hs) then done_job id (w_db w) else waiting_job id (w_db w);
  ru_named id : id ∈ named hs → is_Some (jobs (w_db w) !! id);
  ru_logs id : jobs (w_db w) !! id = None → log_of id (w_db w) = [];
  ru_outbox : Forall (request_row (w_db w)) (outbox_messages (w_db w));
  ru_kafka : Forall (request_record (w_db w)) (w_kafka w);
  ru_covered id : is_Some (jobs (w_db w) !! id) → covered id w;
}.

(** A message has arrived when Kafka has accepted its record. *)
Definition in_kafka (w : world) (m : consumed) : Prop :=
  ∃ r partition offset, r ∈ w_kafka w ∧ m = consumed_of partition offset r.

(** *** The worker *)

Lemma running_message hs w m :
  running hs w → in_kafka w m →
  c_topic m = topic ∧ c_headers m = None ∧ ∃ id, asks (w_db w) (c_value m) id.
Proof.
  intros R (r & partition & offset & Hin & ->). pose proof (ru_kafka _ _ R) as Hk. rewrite Forall_forall in Hk.
  destruct (Hk r Hin) as (Ht & Hh & Ha). simpl. by rewrite Hh.
Qed.

(** What [dealt] leaves of the jobs. *)
Lemma dealt_keeps w w' id row :
  jobs (w_db w) !! id = Some row → dealt (λ _, f (jr_request_payload row)) w w' id → keeps_jobs (w_db w) (w_db w').
Proof.
  intros Hr [_ _ _ _ Hj _ _ Hu] id' row' Hr'. destruct (decide (id' = id)) as [->|Hne].
  - simplify_eq. destruct (unfinished id (w_db w)).
    + destruct Hj as (row1 & row2 & H1 & H2 & F & _). simplify_eq. exists row2. split; [done|apply F].
    + exists row. by destruct Hj as [-> _].
  - exists row'. by destruct (Hu id' Hne) as [-> _].
Qed.

Lemma dealt_exists w w' id row id' :
  jobs (w_db w) !! id = Some row → dealt (λ _, f (jr_request_payload row)) w w' id →
  is_Some (jobs (w_db w') !! id') ↔ is_Some (jobs (w_db w) !! id').
Proof.
  intros Hr D. split.
  - destruct (decide (id' = id)) as [->|Hne]; [by eauto|]. by destruct (de_others _ _ _ _ D id' Hne) as [-> _].
  - intros [row' Hr']. destruct (dealt_keeps w w' id row Hr D id' row' Hr') as (row2 & H2 & _). by exists row2.
Qed.

(** A handled request: its job is done. *)
Lemma running_jobs hs w w' id row id' :
  running hs w → jobs (w_db w) !! id = Some row → dealt (λ _, f (jr_request_payload row)) w w' id →
  is_Some (jobs (w_db w) !! id') →
  if bool_decide (id' ∈ named hs ++ [id]) then done_job id' (w_db w') else waiting_job id' (w_db w').
Proof.
  intros R Hr D Hid'. pose proof (ru_jobs _ _ R id' Hid') as Hj. destruct (decide (id' = id)) as [->|Hne].
  - rewrite (bool_decide_true (id ∈ _ ++ _)) by (apply elem_of_app; right; by left). pose proof (de_job _ _ _ _ D) as Hd.
    case_bool_decide.
    + rewrite (proj2 (done_rest _ _ Hj)) in Hd. by eapply done_untouched.
    + rewrite (proj2 (waiting_rest _ _ Hj)) in Hd. by eapply waiting_done.
  - assert (bool_decide (id' ∈ named hs ++ [id]) = bool_decide (id' ∈ named hs)) as ->.
    { apply bool_decide_ext. rewrite elem_of_app, list_elem_of_singleton. naive_solver. }
    pose proof (de_others _ _ _ _ D id' Hne). case_bool_decide; [by eapply done_untouched|by eapply waiting_untouched].
Qed.

Lemma running_handle hs m w :
  in_kafka w m → running hs w →
  ∃ w', _handle_message topic (resolve_worker_retry_topic s) s m w = (Ok tt, w') ∧ running (hs ++ [m]) w'
    ∧ w_kafka w' = w_kafka w.
Proof.
  intros Hm R. destruct (running_message hs w m R Hm) as (Htop & Hhd & id & row & trace & Hr & Ha & Hcomp).
  assert (at_rest id (w_db w)) as Hrest.
  { pose proof (ru_jobs _ _ R id ltac:(by eauto)) as Hj. case_bool_decide; [by apply done_rest|by apply waiting_rest]. }
  destruct (handle_request worker_id s p secs service_is process_in_time (λ _, f (jr_request_payload row)) m id trace w)
    as (w' & E & D & Ht'); [apply R|apply R|apply R|by rewrite topic_worker|done|done|done|done|].
  rewrite topic_worker in E. exists w'. split; [exact E|]. pose proof (de_kafka _ _ _ _ D) as HK.
  pose proof (dealt_keeps _ _ _ _ Hr D) as Hk. pose proof (de_outbox _ _ _ _ D) as [Ho Hn].
  pose proof (λ id', dealt_exists w w' id row id' Hr D) as Hex. split; [|done].
  assert (named (hs ++ [m]) = named hs ++ [id]) as Hnm.
  { unfold named. rewrite omap_app. cbn [omap list_omap]. unfold compose at 2. by rewrite (addressed_job _ _ _ Ha). }
  split.
  - apply D.
  - apply D.
  - exact Ht'.
  - unfold outbox_ids. rewrite Ho, Hn. apply R.
  - intros id' Hid'%Hex. rewrite Hnm. by eapply running_jobs.
  - intros id'. rewrite Hnm, elem_of_app, list_elem_of_singleton. intros [Hin| ->]; apply Hex; [by apply (ru_named _ _ R)|by eauto].
  - intros id' Hnone. assert (id' ≠ id) as Hne by (intros ->; destruct (Hk id row Hr) as (? & ? & _); congruence).
    destruct (de_others _ _ _ _ D id' Hne) as [J L]. rewrite L. apply (ru_logs _ _ R). by rewrite <- J.
  - rewrite Ho. apply (rows_later (w_db w)); [done|apply R].
  - rewrite HK. apply (records_later (w_db w)); [done|apply R].
  - intros id' Hid'%Hex. destruct (ru_covered _ _ R id' Hid') as (r & Hin & H). exists r. by rewrite Ho, HK.
Qed.

(** *** The API *)

(** A new job in the database. *)
Lemma new_job_lookup w payload id :
  jobs (new_job_db topic w payload (w_db w)) !! id
  = if decide (id = nth_uuid w 0) then Some (job_row_of (w_db_clock w) (new_job_of w payload)) else jobs (w_db w) !! id.
Proof. simpl. case_decide as H; [subst; apply lookup_insert_eq|by apply lookup_insert_ne]. Qed.

Lemma new_job_log w payload id :
  log_of id (new_job_db topic w payload (w_db w))
  = log_of id (w_db w) ++ (if decide (nth_uuid w 0 = id) then [(u "REQUESTED", JDict [(u "request", payload)])] else []).
Proof.
  unfold new_job_db. change (log_of id (append_outbox ?now ?m ?d)) with (log_of id d). by rewrite log_of_append.
Qed.

Lemma new_job_asks w payload :
  answers payload → asks (new_job_db topic w payload (w_db w)) (new_job_event w payload) (nth_uuid w 0).
Proof.
  intros Ha. exists (job_row_of (w_db_clock w) (new_job_of w payload)), (nth_uuid w 1).
  rewrite new_job_lookup, decide_True by done. split; [done|]. split; [by split|exact Ha].
Qed.

Lemma running_elsewhere hs w w' :
  running hs w → w_env w' = w_env w → w_db w' = w_db w → w_kafka w' = w_kafka w → (w_uuids w ≤ w_uuids w')%nat →
  in_time secs (w_clock w') → running hs w'.
Proof.
  intros [Hc Hf _ Hi Hj Hn Hl Ho Hk Hcov] V D K U T.
  split; rewrite ?D, ?K; try done; [intros i; rewrite V; apply Hc| |intros id; unfold covered; rewrite D, K; apply Hcov].
  unfold fresh_ids. rewrite V, D. by eapply fresh_later.
Qed.

Lemma running_new_key hs payload k w :
  running hs w → answers payload → seen (w_clock w) k (w_redis w) = Ok None →
  running hs (create_with_key topic payload k w).2.
Proof.
  intros R Ha Hs.
  destruct (create_with_key_stores topic k payload w) as (w1 & E1 & D & K & _ & _ & V & U & T); [apply R|apply R|done|].
  rewrite E1. simpl.
  assert (jobs (w_db w) !! nth_uuid w 0 = None) as Hnone by (apply (ru_fresh _ _ R); lia).
  assert (nth_uuid w 0 ∉ named hs) as Hnew by (intros Hin; destruct (ru_named _ _ R _ Hin); congruence).
  assert (keeps_jobs (w_db w) (w_db w1)) as Hkeep.
  { intros id row Hr. exists row. rewrite D, new_job_lookup, decide_False; [done|congruence]. }
  assert (∀ id, id ≠ nth_uuid w 0 → untouched_job id (w_db w) (w_db w1)) as Hother.
  { intros id Hne. split; [by rewrite D, new_job_lookup, decide_False|]. by rewrite D, new_job_log, decide_False, app_nil_r. }
  split.
  - intros n. rewrite V. apply (ru_calm _ _ R).
  - unfold fresh_ids. rewrite V, U, D. apply new_job_fresh, R.
  - rewrite T. apply R.
  - rewrite D. apply append_outbox_ids, R.
  - intros id Hid. destruct (decide (id = nth_uuid w 0)) as [->|Hne].
    + rewrite bool_decide_false by done. eexists. rewrite D, new_job_lookup, new_job_log, !decide_True by done.
      rewrite (ru_logs _ _ R _ Hnone). by split_and!.
    + pose proof (Hother id Hne) as Hu. rewrite (proj1 Hu) in Hid. pose proof (ru_jobs _ _ R id Hid).
      case_bool_decide; [by eapply done_untouched|by eapply waiting_untouched].
  - intros id Hin. destruct (ru_named _ _ R id Hin) as [row Hr]. destruct (Hkeep id row Hr) as (row' & Hr' & _). by exists row'.
  - intros id Hid. assert (id ≠ nth_uuid w 0) as Hne by (intros ->; by rewrite D, new_job_lookup, decide_True in Hid).
    destruct (Hother id Hne) as [J L]. rewrite L. apply (ru_logs _ _ R). by rewrite <- J.
  - pose proof (rows_later _ _ _ Hkeep (ru_outbox _ _ R)) as Ho. rewrite D in *. apply Forall_app. split; [exact Ho|].
    repeat constructor. exists (nth_uuid w 0). by apply new_job_asks.
  - rewrite K. apply (records_later (w_db w)); [done|apply R].
  - intros id Hid. destruct (decide (id = nth_uuid w 0)) as [->|Hne].
    + eexists. rewrite D. split; [apply elem_of_app; right; by left|]. split; [done|by left].
    + rewrite (proj1 (Hother id Hne)) in Hid. destruct (ru_covered _ _ R id Hid) as (r & Hin & H).
      exists r. rewrite D, K. split; [apply elem_of_app; by left|exact H].
Qed.

(** A request, whatever its key: without one, or with an empty one, a fresh id is the key; a key that is not
    free creates nothing. *)
Lemma running_request hs body key r w w' :
  running hs w → (∀ payload, JobCreateRequest body = Some payload → answers payload) →
  create_job_route topic body key w = (r, w') → running hs w'.
Proof.
  intros R Ha E. unfold create_job_route in E. destruct (JobCreateRequest body) as [payload|]; [|by injection E as <- <-].
  assert (∃ k w0, running hs w0 ∧ create_job topic payload key w = create_with_key topic payload k w0) as (k & w0 & R0 & Ek).
  { assert (running hs (set_counters (S (w_uuids w)) (w_calls w) (w_draws w) w)) as Rn.
    { eapply running_elsewhere; [exact R|done..|simpl; lia|apply R]. }
    destruct key as [[|c k]|]; [|by exists (c :: k), w|]; by eexists _, _. }
  assert (running hs (create_with_key topic payload k w0).2) as R1.
  { destruct (seen (w_clock w0) k (w_redis w0)) as [[x|]|e] eqn:Es; [|by apply running_new_key; [|apply Ha|]|];
      (destruct (create_with_key_quiet topic k payload w0) as [V D K T U]; [apply R0|by rewrite Es|];
       eapply running_elsewhere; [exact R0|done..|rewrite T; apply R0]). }
  unfold mbind, M_bind in E. rewrite Ek in E. destruct (create_with_key topic payload k w0) as [[job|e] w1]; by injection E as _ <-.
Qed.

(** *** The relay *)

Lemma relayed_records d rows :
  Forall (request_row d) rows → mapM record_of (message_of_row <$> rows) = Ok (relayed <$> rows).
Proof.
  induction 1 as [|r rows (Ht & Hh & _) _ IH]; [done|]. rewrite !fmap_cons. cbn [mapM].
  assert (record_of (message_of_row r) = Ok (relayed r)) as ->.
  { unfold record_of, record_for, kafka_headers, relayed. simpl. by rewrite Hh. }
  simpl. by rewrite IH.
Qed.

Lemma relayed_requests d rows : Forall (request_row d) rows → Forall (request_record d) (relayed <$> rows).
Proof. intros H. apply Forall_fmap. eapply Forall_impl; [exact H|]. by intros r. Qed.

(** What a pass reads. *)
Definition fetched_rows (locked : gset Z) (d : db) : list outbox_row :=
  take (Z.to_nat (_batch_size batch_size))
    (filter (λ r, is_pending r ∧ ob_id r ∉ (if decide (dialect ∈ _ROW_LOCK_DIALECTS) then locked else ∅)) (outbox_messages d)).

Lemma fetched_rows_spec locked d :
  fetch_pending dialect locked (_batch_size batch_size) d = message_of_row <$> fetched_rows locked d.
Proof. done. Qed.

Lemma fetched_in locked d r : r ∈ fetched_rows locked d → r ∈ outbox_messages d.
Proof.
  intros (i & Hi & _)%elem_of_take. apply list_elem_of_lookup_2 in Hi. by apply list_elem_of_filter in Hi as [_ ?].
Qed.

Lemma fetched_requests hs w locked : running hs w → Forall (request_row (w_db w)) (fetched_rows locked (w_db w)).
Proof.
  intros R. pose proof (ru_outbox _ _ R) as Ho. rewrite Forall_forall in Ho |- *. intros r Hr. by eapply Ho, fetched_in.
Qed.

(** The row after the pass. *)
Definition marked (now : Z) (ids : list Z) (r : outbox_row) : outbox_row :=
  if decide (ob_id r ∈ ids) then
    MkOutboxRow (ob_id r) (ob_message_id r) (ob_topic r) (ob_payload r) (ob_headers r)
      OUTBOX_PUBLISHED (ob_attempts r) None (ob_created_at r) (Some now)
  else r.

Lemma mark_published_rows now ids d : outbox_messages (mark_published now ids d) = marked now ids <$> outbox_messages d.
Proof.
  destruct ids as [|i ids]; [|done]. simpl. symmetry. etrans; [|apply list_fmap_id]. apply list_fmap_ext. intros j r _.
  unfold marked. by rewrite decide_False by apply not_elem_of_nil.
Qed.

Lemma mark_published_jobs now ids d :
  jobs (mark_published now ids d) = jobs d ∧ job_events (mark_published now ids d) = job_events d.
Proof. by destruct ids. Qed.

Lemma marked_relayed now ids r : relayed (marked now ids r) = relayed r.
Proof. unfold marked. by case_decide. Qed.

(** The database is as before up to the marks on the outbox; Kafka has more requests. *)
Lemma running_published hs w w' now ids rs :
  running hs w → calm w' → w_env w' = w_env w → w_uuids w' = w_uuids w → w_clock w' = w_clock w →
  w_db w' = mark_published now ids (w_db w) → w_kafka w' = w_kafka w ++ rs → Forall (request_record (w_db w)) rs →
  (∀ r, r ∈ outbox_messages (w_db w) → ob_id r ∈ ids → relayed r ∈ rs) →
  running hs w'.
Proof.
  intros R Hc V U T D K Hrs Hids. destruct (mark_published_jobs now ids (w_db w)) as [HJ HE].
  assert (jobs (w_db w') = jobs (w_db w)) as J by by rewrite D.
  assert (∀ id, untouched_job id (w_db w) (w_db w')) as Hu.
  { intros id. split; [by rewrite J|]. unfold log_of. by rewrite D, HE. }
  assert (keeps_jobs (w_db w) (w_db w')) as Hk by (intros id row Hr; exists row; by rewrite J).
  split.
  - exact Hc.
  - unfold fresh_ids. rewrite V, U, D. apply mark_published_fresh, R.
  - rewrite T. apply R.
  - rewrite D. apply mark_published_ids, R.
  - intros id. rewrite J. intros Hid. pose proof (ru_jobs _ _ R id Hid).
    case_bool_decide; [by eapply done_untouched|by eapply waiting_untouched].
  - intros id. rewrite J. apply (ru_named _ _ R).
  - intros id. rewrite J. intros Hid. rewrite (proj2 (Hu id)). by apply (ru_logs _ _ R).
  - apply (rows_later (w_db w)); [done|]. rewrite D, mark_published_rows. apply Forall_fmap.
    eapply Forall_impl; [apply (ru_outbox _ _ R)|]. intros r H. unfold compose, marked. by case_decide.
  - rewrite K. apply (records_later (w_db w)); [done|]. apply Forall_app. split; [apply R|done].
  - intros id. rewrite J. intros Hid. destruct (ru_covered _ _ R id Hid) as (r & Hin & Hev & H).
    exists (marked now ids r). rewrite D, mark_published_rows, K, marked_relayed. split; [by apply list_elem_of_fmap_2|].
    split; [unfold marked; by case_decide|]. unfold marked. rewrite elem_of_app. case_decide as Hi; [|naive_solver].
    right. right. by apply Hids.
Qed.

Lemma running_relay hs locked r w w' :
  running hs w → drain_once dialect locked batch_size w = (r, w') →
  running hs w' ∧ jobs (w_db w') = jobs (w_db w).
Proof.
  intros R E. pose proof (fetched_requests hs w locked R) as Hf.
  destruct (run_drain dialect locked batch_size w (relayed <$> fetched_rows locked (w_db w)))
    as (w1 & E1 & C & D & K & T & V & U); [apply R|rewrite fetched_rows_spec; by apply (relayed_records (w_db w))|].
  rewrite E in E1. injection E1 as _ <-. split; [|by rewrite D; apply mark_published_jobs].
  apply (running_published hs w w' (w_clock w) (m_id <$> fetch_pending dialect locked (_batch_size batch_size) (w_db w))
    (relayed <$> fetched_rows locked (w_db w))); try done; [by apply relayed_requests|].
  intros q Hq. rewrite fetched_rows_spec, <- list_fmap_compose. change (m_id ∘ message_of_row) with ob_id.
  intros (q' & Hid & Hq')%list_elem_of_fmap. assert (q = q') as ->; [|by apply list_elem_of_fmap_2].
  eapply same_row; [apply R|done|by eapply fetched_in|done].
Qed.

(** The relay has published some of what it read, and dies. *)
Lemma running_relay_dies hs locked n r w w' :
  running hs w → publish_batch (take n (fetch_pending dialect locked (_batch_size batch_size) (w_db w))) w = (r, w') →
  running hs w'.
Proof.
  intros R E. pose proof (fetched_requests hs w locked R) as Hf. apply (Forall_take _ n) in Hf.
  rewrite fetched_rows_spec, <- fmap_take in E.
  set (rows := take n (fetched_rows locked (w_db w))) in *.
  destruct (run_publish_batch (message_of_row <$> rows) (relayed <$> rows) w) as [mt E1].
  { intros i _. apply (ru_calm _ _ R). }
  { by apply (relayed_records (w_db w)). }
  rewrite E in E1. injection E1 as _ ->.
  apply (running_published hs w _ 0 [] (relayed <$> rows)); try done; [exact (ru_calm _ _ R)|by apply relayed_requests|].
  by intros q _ ?%not_elem_of_nil.
Qed.

Lemma running_relay_loop hs n r w w' :
  running hs w → relay_loop dialect ∅ batch_size n w = (r, w') → running hs w' ∧ jobs (w_db w') = jobs (w_db w).
Proof.
  revert r w w'. induction n as [|n IH]; intros r w w' R E; [by injection E as <- <-|].
  cbn [relay_loop] in E. unfold relay_turn, try_except, mbind, M_bind in E.
  destruct (drain_once dialect ∅ batch_size w) as [x w1] eqn:E1. destruct (running_relay hs ∅ x w w1 R E1) as [R1 J1].
  destruct x as [k|e]; simpl in E; destruct (relay_loop dialect ∅ batch_size n w1) as [y w2] eqn:E2;
    destruct (IH y w1 w2 R1 E2) as [R2 J2]; destruct y; injection E as <- <-; by rewrite J2.
Qed.

(** *** The rest of the service *)

(** What happens beside the worker. *)
Inductive service_step (w w' : world) : Prop :=
  (** a request, with or without a key, that is free or not; the processor can answer its payload *)
  | service_request body key r :
      (∀ payload, JobCreateRequest body = Some payload → answers payload) →
      create_job_route topic body key w = (r, w') → service_step w w'
  (** a pass of the relay, whichever rows others have locked *)
  | service_relay locked r : drain_once dialect locked batch_size w = (r, w') → service_step w w'
  (** a pass of a relay that dies before its transaction commits *)
  | service_relay_dies locked n r :
      publish_batch (take n (fetch_pending dialect locked (_batch_size batch_size) (w_db w))) w = (r, w') →
      service_step w w'
  (** time passes, jobs are asked for: nothing is committed or published *)
  | service_elsewhere :
      w_env w' = w_env w → w_db w' = w_db w → w_kafka w' = w_kafka w → (w_uuids w ≤ w_uuids w')%nat →
      in_time secs (w_clock w') → service_step w w'.

Lemma running_step hs w w' : running hs w → service_step w w' → running hs w'.
Proof.
  intros R [body key r Ha E|locked r E|locked n r E|V D K U T].
  - by eapply running_request.
  - by eapply running_relay.
  - by eapply running_relay_dies.
  - by eapply running_elsewhere.
Qed.

Lemma running_serviceable : serviceable topic (resolve_worker_retry_topic s) s in_kafka service_step running.
Proof.
  split.
  - intros hs m w [_ Hm] R. split.
    + destruct (running_message hs w m R Hm) as (Htop & _). unfold deferred_until. rewrite Htop, decide_False; [done|].
      rewrite <- topic_worker. congruence.
    + destruct (running_handle hs m w Hm R) as (w' & E & R' & K). exists w'. split; [done|]. split; [done|].
      intros m' (r & pt & o & Hin & ->). exists r, pt, o. by rewrite K.
  - intros hs w R. split; [apply (ru_calm _ _ R)|]. split; [by eapply running_elsewhere; [done..|apply R]|done].
  - intros hs w w' R H. by eapply running_step.
Qed.

Lemma running_start w :
  calm w → fresh_ids w → in_time secs (w_clock w) → w_db w = empty_db → w_kafka w = [] → running [] w.
Proof.
  intros Hc Hf Ht Hd Hk. split; rewrite ?Hd, ?Hk; try done.
  - split; [constructor|constructor].
  - by intros id [row [=]].
  - intros id Hin. by apply not_elem_of_nil in Hin.
  - by intros id [row [=]].
Qed.

(** *** The end of a run *)

(** Without a further request, the relay's passes empty the outbox, and every job's request is in Kafka. *)
Lemma running_flushed hs w :
  running hs w →
  ∃ ns w', relay_loop dialect ∅ batch_size (length (pending_rows (w_db w))) w = (Ok ns, w')
    ∧ running hs w' ∧ jobs (w_db w') = jobs (w_db w)
    ∧ ∀ id, is_Some (jobs (w_db w') !! id) →
        ∃ r, r ∈ w_kafka w' ∧ r_topic r = topic ∧ r_headers r = None ∧ event_job (r_value r) = Some id.
Proof.
  intros R. assert (Forall (request_row (w_db w)) (pending_rows (w_db w))) as Hp.
  { pose proof (ru_outbox _ _ R) as Ho. rewrite Forall_forall in Ho |- *. intros r [_ Hr]%list_elem_of_filter. by apply Ho. }
  destruct (run_relay_loop dialect batch_size _ w (relayed <$> pending_rows (w_db w)) (ru_calm _ _ R) (ru_ids _ _ R) (le_n _)
    (relayed_records _ _ Hp)) as (ns & w' & E & Hnone & _).
  destruct (running_relay_loop hs _ _ w w' R E) as [R' J]. exists ns, w'. split_and!; [done|done|done|].
  intros id Hid. destruct (ru_covered _ _ R' id Hid) as (r & Hin & Hev & [Hr|Hr]).
  - assert (r ∈ pending_rows (w_db w')) as Hpr by by apply list_elem_of_filter. rewrite Hnone in Hpr.
    by apply not_elem_of_nil in Hpr.
  - exists (relayed r). pose proof (ru_kafka _ _ R') as Hk. rewrite Forall_forall in Hk.
    destruct (Hk _ Hr) as (Ht & Hh & _). by split_and!.
Qed.

(** A job whose message was handled is done. *)
Lemma running_done hs w m id : running hs w → m ∈ hs → event_job (c_value m) = Some id → done_job id (w_db w).
Proof.
  intros R Hin Hev. assert (id ∈ named hs) as Hn by (apply list_elem_of_omap; by exists m).
  pose proof (ru_jobs _ _ R id (ru_named _ _ R id Hn)) as Hj. by rewrite bool_decide_true in Hj.
Qed.

(** What the partitions hold at the end: messages of Kafka, and each record of it at an offset
    that the worker had not read when it started. *)
Record partitions_hold (log : list (tp * consumed)) (start : kstate) (w : world) : Prop := {
  ph_log q m : in_log q m ↔ (q, m) ∈ log;
  ph_sent q m : in_log q m → in_kafka w m;
  ph_stored r : r ∈ w_kafka w →
    ∃ q partition offset, in_log q (consumed_of partition offset r) ∧ position (k_consumer start) q ≤ offset;
}.

(** At any moment a job waits or is done. *)
Lemma running_safe hs w id : running hs w → is_Some (jobs (w_db w) !! id) → waiting_job id (w_db w) ∨ done_job id (w_db w).
Proof. intros R Hid. pose proof (ru_jobs _ _ R id Hid). case_bool_decide; [by right|by left]. Qed.

(** The worker's turns after that. *)
Lemma running_drained start hs st w log :
  alive running start hs st w → partitions_hold log start w →
  (∀ id, is_Some (jobs (w_db w) !! id) →
     ∃ r, r ∈ w_kafka w ∧ r_topic r = topic ∧ r_headers r = None ∧ event_job (r_value r) = Some id) →
  ∃ st' w', turns topic (resolve_worker_retry_topic s) s (length log) st w = (Ok st', w')
    ∧ ∀ id, is_Some (jobs (w_db w) !! id) → done_job id (w_db w').
Proof.
  intros A [Hlog Hsent Hst] Hcov.
  destruct (turns_drain _ _ _ _ _ _ running_serviceable start log Hlog (length log) hs st w A) as (hs' & st' & w' & E & A' & Hu).
  { intros m [q Hm]. by apply (Hsent q). }
  { apply length_filter. }
  exists st', w'. split; [done|]. intros id Hid. destruct (Hcov id Hid) as (r & Hr & _ & _ & Hev).
  destruct (Hst r Hr) as (q & partition & offset & Hin & Hpos).
  apply (running_done hs' w' (consumed_of partition offset r)); [apply A'| |done].
  apply (al_handled _ _ _ _ _ A' q); [done|]. split; [done|].
  destruct (decide (offset < position (k_consumer st') q)) as [|Hn]; [done|].
  assert ((q, consumed_of partition offset r) ∈ unread log st') as Hin'; [|rewrite Hu in Hin'; by apply not_elem_of_nil in Hin'].
  apply list_elem_of_filter. split; [unfold ahead; simpl; lia|by apply Hlog].
Qed.
End service.

(** ** Every accepted job is finished, and exactly once *)

Section theorems.
Context {RS : RedisServer} {IP : IdempotencyPort} {IL : IdempotencyLaws IP} {TP : TaskProcessor} {TL : TaskProcessorLaws TP}.
Context {KC : KafkaConsumer} {KG : ConsumerGroup KC}.

(** C3: every accepted job is finished exactly once, relay and worker crashes or not. The service
    starts with an empty database and an empty topic, a worker of the unified mode joins its
    group, and then, in any order and any number of times: requests are posted, with or without
    an idempotency key, new or repeated, whose payloads the processor can answer; the relay makes a
    pass, or dies after it has published a part of one, so that records are repeated; the worker
    makes a turn, or dies between two messages and reads on from its committed offsets; and time
    passes. If no service fails, then at every moment each job either waits, untouched since its
    request, or has been claimed once, started once and completed once with the
    processor's result; and once requests stop, as many passes of the relay as rows are pending
    and as many turns of the worker as the partitions hold messages complete every job. *)
Theorem accepted_jobs_finish worker_id s p secs dialect batch_size f st w0 st1 w1 :
  build_worker_role s = WorkerService p secs → worker_role s ≠ downstream →
  resolve_worker_retry_topic s ≠ resolve_worker_topic s →
  (∀ payload, stays (keeps_time (in_time secs)) (process payload)) →
  calm w0 → fresh_ids w0 → in_time secs (w_clock w0) → w_db w0 = empty_db → w_kafka w0 = [] →
  let start := restart st in
  let WR := role_handle_event (worker_role_object TP worker_id s) in
  life (WR := WR) (EP := KafkaEventPublisher) (job_service_topic s) (resolve_worker_retry_topic s) s
    in_kafka (service_step s secs dialect batch_size f) start w0 st1 w1 →
  (∀ id, is_Some (jobs (w_db w1) !! id) → waiting_job id (w_db w1) ∨ done_job f id (w_db w1))
  ∧ ∃ ns w2, relay_loop (EP := KafkaEventPublisher) dialect ∅ batch_size (length (pending_rows (w_db w1))) w1 = (Ok ns, w2)
    ∧ jobs (w_db w2) = jobs (w_db w1)
    ∧ ∀ log, partitions_hold log start w2 →
        ∃ st3 w3, turns (WR := WR) (EP := KafkaEventPublisher) (job_service_topic s) (resolve_worker_retry_topic s) s
                    (length log) st1 w2 = (Ok st3, w3)
          ∧ ∀ id, is_Some (jobs (w_db w1) !! id) → done_job f id (w_db w3).
Proof.
  intros Hs Hrole Ht Hp Hc Hfr Hi Hd Hk start WR Hlife.
  pose proof (running_serviceable worker_id s p secs dialect batch_size Hs Hrole Ht Hp f) as Hsv.
  destruct (life_alive _ _ _ _ _ _ Hsv _ _ _ _ Hlife) as [hs A].
  { by apply alive_started, running_start. }
  pose proof (al_holds _ _ _ _ _ A) as R. split; [intros id; by eapply running_safe|].
  destruct (running_flushed s secs dialect batch_size f hs w1 R) as (ns & w2 & E & R2 & J & Hcov).
  exists ns, w2. split; [exact E|]. split; [exact J|]. intros log Hlog.
  assert (alive (running s secs f) start hs st1 w2) as A2 by (destruct A; by split).
  destruct (running_drained worker_id s p secs dialect batch_size Hs Hrole Ht Hp f start hs st1 w2 log A2 Hlog Hcov)
    as (st3 & w3 & E3 & Hdone).
  exists st3, w3. split; [exact E3|]. intros id Hid. apply Hdone. by rewrite J.
Qed.
End theorems.

(** ** The hypotheses can hold *)

(** One request without a key; the relay dies after it has published it, the worker, with the dummy
    processor, after it has handled it, and the relay publishes it again. *)
Definition demo_drawn : world := set_counters 1 0 0 demo_world.
Definition dummy_settings : Settings := with_backend dummy default_settings.
Definition demo_posted : record := MkRecord (u "request-topic") (new_job_event demo_drawn demo_payload) None.
Definition demo_sent : list consumed := [consumed_of 0 0 demo_posted; consumed_of 0 1 demo_posted].

Lemma demo_sent_sorted : Sorted.StronglySorted (λ m m', c_offset m < c_offset m') demo_sent.
Proof. repeat constructor. Qed.

Lemma demo_sent_only : Forall (λ m, (c_topic m, c_partition m) = demo_partition) demo_sent.
Proof. repeat constructor. Qed.

Definition sent_client : KafkaConsumer := log_client demo_partition demo_sent demo_sent_sorted demo_sent_only.
#[local] Existing Instance sent_client.
#[local] Instance sent_group : ConsumerGroup sent_client :=
  log_group demo_partition demo_sent demo_sent_sorted demo_sent_only.
#[local] Existing Instance dummy_process.
#[local] Existing Instance demo_store.
#[local] Existing Instance KafkaEventPublisher.
#[local] Instance dummy_role : WorkerRole := role_handle_event (worker_role_object dummy_process (u "w-1") dummy_settings).

Definition sent_member : kstate := MkKstate (MkLogConsumer (λ _, 0) (λ _, false) (λ _, None) : consumer) ∅.
Definition sent_start : kstate := restart sent_member.

(** What the dummy computes of a payload whose content has a length. *)
Definition dummy_answer (payload : json) : json :=
  match (content ← input_content payload; n ← py_len content; Ok (content, n)) with
  | Ok (content, n) => JDict [(u "message", JStr (u "dummy processing completed")); (u "echo", content); (u "length", JInt n)]
  | Raise _ => JNull
  end.

(** The world after the request, after the dying relay, after the dying worker, after the relay. *)
Definition demo_w1 : world := (create_job_route (u "request-topic") demo_body None demo_world).2.
Definition demo_w2 : world := (publish_batch (take 1 (fetch_pending (u "sqlite") ∅ (_batch_size 100) (w_db demo_w1))) demo_w1).2.
Definition demo_w3 : world :=
  (_handle_message (u "request-topic") (u "retry-topic") dummy_settings (consumed_of 0 0 demo_posted) demo_w2).2.
Definition demo_w4 : world := (relay_loop (u "sqlite") ∅ 100 (length (pending_rows (w_db demo_w3))) demo_w3).2.

Lemma demo_sent_known m : in_log demo_partition m ↔ m ∈ demo_sent.
Proof. split; [by intros [_ H]|by split]. Qed.

Lemma demo_w2_kafka : w_kafka demo_w2 = [demo_posted].
Proof. vm_compute. reflexivity. Qed.
Lemma demo_w4_kafka : w_kafka demo_w4 = [demo_posted; demo_posted].
Proof. vm_compute. reflexivity. Qed.

Lemma demo_service :
  life (u "request-topic") (u "retry-topic") dummy_settings in_kafka
    (service_step dummy_settings 1800 (u "sqlite") 100 dummy_answer) sent_start demo_world (restart sent_start) demo_w3.
Proof.
  apply (life_dies _ _ _ _ _ _ _ sent_start demo_w2 [consumed_of 0 0 demo_posted]).
  - apply (life_others _ _ _ _ _ _ _ _ demo_w1).
    + apply (life_others _ _ _ _ _ _ _ _ demo_world); [constructor|].
      eapply (service_request _ _ _ _ _ _ _ demo_body None); [|apply surjective_pairing].
      by intros payload [= <-] w.
    + eapply (service_relay_dies _ _ _ _ _ _ _ ∅ 1). apply surjective_pairing.
  - repeat constructor.
    + exists demo_partition. apply demo_sent_known. by left.
    + exists demo_posted, 0, 0. rewrite demo_w2_kafka. split; [by left|done].
  - eapply handles_cons; [vm_compute; reflexivity| |constructor].
    unfold demo_w3. rewrite (surjective_pairing (_handle_message _ _ _ _ _)) at 1.
    apply (f_equal2 pair); [vm_compute; reflexivity|reflexivity].
Qed.

Lemma demo_hold : partitions_hold ((λ m, (demo_partition, m)) <$> demo_sent) sent_start demo_w4.
Proof.
  split.
  - intros q m. rewrite list_elem_of_fmap. split; [by intros [-> H]; exists m|by intros (m' & [= -> ->] & H)].
  - intros q m [_ Hin]. exists demo_posted, 0, (c_offset m). rewrite demo_w4_kafka. split; [by left|].
    by apply elem_of_cons in Hin as [->|[->|[]%not_elem_of_nil]%elem_of_cons].
  - intros r. rewrite demo_w4_kafka. intros Hr. assert (r = demo_posted) as ->.
    { by apply elem_of_cons in Hr as [->|[->|[]%not_elem_of_nil]%elem_of_cons]. }
    exists demo_partition, 0, 0. split; [apply demo_sent_known; by left|]. vm_compute. discriminate.
Qed.

Lemma dummy_keeps_time in_time payload : stays (keeps_time in_time) (dummy_process payload).
Proof. unfold dummy_process. stay. Qed.

Lemma accepted_jobs_finish_witness :
  ∃ st3 w3, turns (u "request-topic") (u "retry-topic") dummy_settings 2 (restart sent_start) demo_w4 = (Ok st3, w3)
    ∧ done_job dummy_answer (nth_uuid demo_drawn 0) (w_db w3).
Proof.
  destruct (accepted_jobs_finish (IL := demo_store_laws) (TL := dummy_laws) (u "w-1") dummy_settings
    (build_primary_processor dummy_settings false) 1800 (u "sqlite") 100 dummy_answer sent_member demo_world
    (restart sent_start) demo_w3) as (_ & ns & w2 & E & _ & H).
  - reflexivity.
  - discriminate.
  - discriminate.
  - intros payload. apply dummy_keeps_time.
  - apply calm_env_calm.
  - apply empty_fresh, calm_env_inj.
  - vm_compute. reflexivity.
  - reflexivity.
  - reflexivity.
  - exact demo_service.
  - assert (w2 = demo_w4) as -> by exact (eq_sym (f_equal snd E)).
    destruct (H _ demo_hold) as (st3 & w3 & E3 & Hdone). exists st3, w3. split; [exact E3|].
    apply Hdone. vm_compute. eauto.
Defined.
