(* ===== verification/Recovery.v ===== *)
(** * After a crash: takeover, and the race between retries and the lease

    A worker that dies leaves a row PROCESSING with a lease that will expire, and an uncommitted
    offset. [app/application/worker_service.py] hands an event that meets a live lease
    to the retry path ([app/workers/runner.py]) so that the job can be taken over later.
    Here: an unfinished job whose lease has expired can be finished from every state the
    system reaches; and the takeover happens exactly when one of the counted attempts comes after
    the expiry. The defaults of [app/core/config.py] make them all come before. *)
From S2P Require Import Prelude PyStr PyFloat Json Domain Database WellFormed Ledger Evolution World Effects Ports Fixtures WorkerService PipelineServices Messaging System Fencing Settings Retry EndToEnd.
#[local] Open Scope Z_scope.

(** ** The attempts of an event that meets a lease *)

Section attempts.
Context {RS : RedisServer} (TP : TaskProcessor).
Variables (worker_id : pystr) (s : Settings).

Abbreviation consume_topic := (resolve_worker_topic s).
Abbreviation retry_topic := (resolve_worker_retry_topic s).

(** The time (in milliseconds) before which [_consume_partition] does not handle a message. *)
Definition due_of (message : consumed) : Z :=
  if decide (c_topic message = retry_topic) then _retry_due_at (_decode_headers (c_headers message)) else 0.

(** Time passes until [lag] after the message is due. *)
Definition wait_until (due lag : Z) (w : world) : world :=
  let t := Z.max (w_clock w) (due * 1000) + lag in
  set_clock t (w_db_clock w + (t - w_clock w)) w.

(** The message is handled [lag] after it is due; if that publishes a retry, so is the retry. *)
Fixpoint redelivered (lags : list Z) (message : consumed) : M unit :=
  match lags with
  | [] => mret tt
  | lag :: lags' =>
      modify (wait_until (due_of message) lag) ;;
      before ← reads (λ w, length (w_kafka w));
      worker_consumes TP worker_id s message ;;
      sent ← reads (λ w, drop before (w_kafka w));
      match sent with
      | [r] => if decide (r_topic r = retry_topic) then redelivered lags' (consumed_of 0 0 r) else mret tt
      | _ => mret tt
      end
  end.

Variable pow : float → float → float.

(** [int(delay_seconds * 1000)] before the given attempt. *)
Definition backoff (attempt : Z) : Z :=
  match retry_delay_ms pow s attempt with Ok ms => ms | Raise _ => 0 end.

(** When the attempts are made, and when the retry each would publish is due. *)
Fixpoint attempt_times (due clock count : Z) (lags : list Z) : list (Z * Z) :=
  match lags with
  | [] => []
  | lag :: lags' =>
      let t := Z.max clock (due * 1000) + lag in
      let next := millis t + backoff (count + 1) in
      (t, next) :: attempt_times next t (count + 1) lags'
  end.

Variables (secs : Z) (p : processor).
Hypothesis Hservice : build_worker_role s = WorkerService p secs.

(** The job of the event, held by somebody until [held_until]. *)
Record held_job (w : world) (value : json) (d : list (pystr * json)) (id trace : pystr) (row : job_row) (held_until : Z) : Prop := {
  hj_calm : calm w;
  hj_pow : env_pow (w_env w) = pow;
  hj_fresh : fresh_ids w;
  hj_value : value = JDict d;
  hj_addressed : addressed value id trace;
  hj_row : jobs (w_db w) !! id = Some row;
  hj_status : jr_status row = status_value PROCESSING;
  hj_lease : jr_lease_expires_at row = Some held_until;
  hj_epoch : jr_lease_epoch row < int4_max;
}.

(** What is to hold of the times: the dates exist and the numerals can be read back. *)
Definition time_ok (a : Z * Z) : Prop :=
  is_ok (datetime_add_seconds a.1 secs) = true ∧ printable (Z.abs_N a.2).

Record topics_ok : Prop := {
  to_text : Forall scalar consume_topic;
  to_retry : retry_topic ≠ consume_topic;
  to_dlq : retry_topic ≠ kafka_dlq_topic s;
  to_count : printable (Z.abs_N (retry_max_count s));
  to_backoff : delays_ok s pow;
}.

Lemma held_job_kept w w' value d id trace row held_until :
  w_env w' = w_env w → w_db w' = w_db w → w_uuids w' = w_uuids w →
  held_job w value d id trace row held_until → held_job w' value d id trace row held_until.
Proof.
  intros He Hd Hu [Hc Hp Hf Hv Ha Hr Hs Hl Hep]. split; try done; rewrite ?He, ?Hd; try done.
  - intros n. rewrite He. apply Hc.
  - unfold fresh_ids. by rewrite He, Hd, Hu.
Qed.

#[local] Instance role : WorkerRole := role_handle_event (worker_role_object TP worker_id s).

Lemma handle_worker event : handle_event event = worker_handle_event worker_id secs (u "worker") event.
Proof. unfold handle_event, role. by rewrite role_delegates, Hservice. Qed.

(** An attempt while the lease is live fails with LEASE_HELD and changes nothing. *)
Lemma attempt_held message w d id trace row held_until :
  held_job w (c_value message) d id trace row held_until → w_clock w ≤ held_until →
  is_ok (datetime_add_seconds (w_clock w) secs) = true →
  ∃ w1, fails message (Some (u "LEASE_HELD")) w w1
    ∧ w_env w1 = w_env w ∧ w_db w1 = w_db w ∧ w_uuids w1 = w_uuids w ∧ w_kafka w1 = w_kafka w
    ∧ w_clock w1 = w_clock w.
Proof.
  intros [Hc Hp Hf Hv Ha Hr Hs Hl Hep] Hlive Ht.
  destruct (datetime_add_seconds (w_clock w) secs) as [expires|] eqn:Et; [|done].
  destruct (job_of_row_ok row PROCESSING Hs) as (job & Hj & _ & Hst & _).
  destruct (run_worker_refused (TP := TP) worker_id secs w (c_value message) id trace expires (Some job))
    as (w1 & E & R); [done|done| | |done|].
  { intros row' Hr'. simplify_eq. unfold claimable. rewrite Hs, Hl. rewrite (bool_decide_true (_ = status_value PROCESSING)) by done.
    rewrite !bool_decide_false by (by intros ?%(inj status_value)). simpl. lia. }
  { unfold job_get. by rewrite Hr, Hj. }
  exists w1. split_and!; [|apply R..]. split.
  - rewrite handle_worker, E. unfold refusal, is_success. by rewrite Hst.
  - unfold ready. rewrite (ran_env _ _ _ _ R). apply Hc.
Qed.

(** An attempt after the expiry takes the job over and finishes it. *)
Lemma attempt_takeover message w d id trace row held_until result :
  TaskProcessorLaws TP →
  held_job w (c_value message) d id trace row held_until → held_until < w_clock w →
  is_ok (datetime_add_seconds (w_clock w) secs) = true → computes (c_value message) (Ok result) →
  ∃ w1 row', handle_event (c_value message) w = (Ok (true, None), w1) ∧ w_kafka w1 = w_kafka w
    ∧ jobs (w_db w1) !! id = Some row'
    ∧ finished_row SUCCESS (match result with JNull => jr_result row | _ => Some result end) None row row'.
Proof.
  intros L [Hc Hp Hf Hv Ha Hr Hs Hl Hep] Hover Ht Hcomp.
  destruct (datetime_add_seconds (w_clock w) secs) as [expires|] eqn:Et; [|done].
  destruct (run_worker_success (TP := TP) worker_id secs w (c_value message) id trace row expires result)
    as (w2 & w1 & D2 & E & D1 & K & _); [done| |done|done|].
  { split; [done|done|done| |done|done]. unfold claimable. rewrite Hs, Hl, (bool_decide_true (_ = status_value PROCESSING)) by done.
    rewrite orb_true_iff. right. simpl. lia. }
  eexists w1, _. split; [by rewrite handle_worker|]. split; [done|]. split.
  - rewrite D1. unfold completed_db, finished_db, logged. simpl. apply lookup_insert_eq.
  - by split; destruct result.
Qed.

Lemma wait_until_kafka due lag w : w_kafka (wait_until due lag w) = w_kafka w.
Proof. done. Qed.

(** One round of [redelivered]: what the handling published is delivered next. *)
Lemma run_round lag lags message w w2 rs :
  worker_consumes TP worker_id s message (wait_until (due_of message) lag w) = (Ok tt, w2) →
  w_kafka w2 = w_kafka w ++ rs →
  redelivered (lag :: lags) message w
  = match rs with
    | [r] => if decide (r_topic r = retry_topic) then redelivered lags (consumed_of 0 0 r) w2 else (Ok tt, w2)
    | _ => (Ok tt, w2)
    end.
Proof.
  intros E K. cbn [redelivered]. rewrite (bind_ok _ _ _ _ _ (run_modify _ _)).
  rewrite (bind_ok _ _ _ _ _ (run_reads _ _)). rewrite (bind_ok _ _ _ _ _ E).
  rewrite (bind_ok _ _ _ _ _ (run_reads _ _)). rewrite wait_until_kafka, K, drop_app_length.
  destruct rs as [|r [|r' rs]]; [done| |done]. by destruct (decide _).
Qed.

(** A round after the expiry is the last one: it finishes the job and publishes nothing. *)
Lemma round_takeover lag message w d id trace row held_until result :
  TaskProcessorLaws TP → held_job w (c_value message) d id trace row held_until → computes (c_value message) (Ok result) →
  origin message = consume_topic → held_until < w_clock (wait_until (due_of message) lag w) →
  is_ok (datetime_add_seconds (w_clock (wait_until (due_of message) lag w)) secs) = true →
  ∃ w' row', (∀ lags, redelivered (lag :: lags) message w = (Ok tt, w')) ∧ w_kafka w' = w_kafka w ∧ jobs (w_db w') !! id = Some row'
    ∧ finished_row SUCCESS (match result with JNull => jr_result row | _ => Some result end) None row row'.
Proof.
  intros L Hh Hcomp Ho Hover Ht. set (w0 := wait_until (due_of message) lag w) in *.
  assert (held_job w0 (c_value message) d id trace row held_until) as Hh0 by by apply (held_job_kept w).
  destruct (attempt_takeover message w0 d id trace row held_until result L Hh0 Hover Ht Hcomp) as (w1 & row' & E & K & Hr & F).
  exists w1, row'. split_and!; [|done..]. intros lags. erewrite (run_round _ _ _ _ w1 []); [done| |by rewrite K, app_nil_r].
  unfold worker_consumes, _handle_message. rewrite origin_not_other by done. eapply run_bind; [exact E|reflexivity].
Qed.

(** What [redelivered] comes to. *)
Definition recovered (w w' : world) (id : pystr) (row : job_row) (result : json) (held_until : Z)
    (count : Z) (retries : nat) (times : list (Z * Z)) (rs : list record) : Prop :=
  if bool_decide (Forall (λ a, a.1 ≤ held_until) times)
  then w_db w' = w_db w ∧ routed <$> rs = expected_route retry_topic s count retries
  else Forall (λ r, r_topic r = retry_topic) rs ∧ ∃ row', jobs (w_db w') !! id = Some row'
    ∧ finished_row SUCCESS (match result with JNull => jr_result row | _ => Some result end) None row row'.

Lemma recovered_over w w' id row row' result held_until count retries a times :
  held_until < a.1 → jobs (w_db w') !! id = Some row' →
  finished_row SUCCESS (match result with JNull => jr_result row | _ => Some result end) None row row' →
  recovered w w' id row result held_until count retries (a :: times) [].
Proof.
  intros Ha Hr F. unfold recovered. rewrite bool_decide_false; [split; [constructor|by exists row']|].
  intros [Hle _]%Forall_cons. lia.
Qed.

(** A retry in front. *)
Lemma recovered_retry w w2 w' id row result held_until count retries a times r rs :
  a.1 ≤ held_until → w_db w2 = w_db w → r_topic r = retry_topic → routed r = (retry_topic, count + 1) →
  recovered w2 w' id row result held_until (count + 1) retries times rs →
  recovered w w' id row result held_until count (S retries) (a :: times) (r :: rs).
Proof.
  intros Ha Hd Hr Hro. unfold recovered.
  assert (bool_decide (Forall (λ a, a.1 ≤ held_until) (a :: times)) = bool_decide (Forall (λ a, a.1 ≤ held_until) times)) as ->.
  { apply bool_decide_ext. rewrite Forall_cons. naive_solver. }
  destruct (bool_decide _).
  - intros [D R]. rewrite fmap_cons, R, Hro, D, Hd. split; [done|]. by rewrite expected_route_S.
  - intros [F R]. split; [by constructor|done].
Qed.

(** A round while the lease is live: without retries left the message is isolated, *)
Lemma round_isolated lag message w d id trace row held_until :
  topics_ok → held_job w (c_value message) d id trace row held_until →
  origin message = consume_topic → attempt_count message = retry_max_count s →
  w_clock (wait_until (due_of message) lag w) ≤ held_until →
  is_ok (datetime_add_seconds (w_clock (wait_until (due_of message) lag w)) secs) = true →
  ∃ w' r, redelivered [lag] message w = (Ok tt, w') ∧ w_kafka w' = w_kafka w ++ [r] ∧ w_db w' = w_db w
    ∧ routed r = (kafka_dlq_topic s, retry_max_count s).
Proof.
  intros [Hs1 Hrc Hrd Hpr Hbo] Hh Ho Hn Hlive Ht. set (w0 := wait_until (due_of message) lag w) in *.
  pose proof (parse_retry_count_nonneg (_decode_headers (c_headers message))) as H0; fold (attempt_count message) in H0.
  assert (held_job w0 (c_value message) d id trace row held_until) as Hh0 by by apply (held_job_kept w).
  destruct (attempt_held message w0 d id trace row held_until Hh0 Hlive Ht) as (w1 & Hfail & En1 & D1 & U1 & K1 & C1).
  destruct (run_dead_letter consume_topic retry_topic s message (Some (u "LEASE_HELD")) w0 w1 d)
    as (w2 & r & E2 & K2 & T & V & H & En2 & D2 & _);
    [done|done|lia|done|by apply demo_scalar|apply (hj_value _ _ _ _ _ _ _ Hh)|].
  exists w2, r. split_and!; [|by rewrite K2, K1|by rewrite D2, D1|].
  - erewrite (run_round _ _ _ _ w2 [r]); [|exact E2|by rewrite K2, K1]. by rewrite decide_False by congruence.
  - unfold routed. rewrite T, H, dlq_count_read; [by rewrite Hn|done|by rewrite Hn].
Qed.

(** and otherwise it is published again, to be handled after the next back-off. *)
Lemma round_postponed lag message w d id trace row held_until :
  topics_ok → held_job w (c_value message) d id trace row held_until →
  origin message = consume_topic → attempt_count message < retry_max_count s →
  let w0 := wait_until (due_of message) lag w in
  let next := millis (w_clock w0) + backoff (attempt_count message + 1) in
  w_clock w0 ≤ held_until → time_ok (w_clock w0, next) →
  ∃ w' r, (∀ lags, redelivered (lag :: lags) message w = redelivered lags (consumed_of 0 0 r) w')
    ∧ w_kafka w' = w_kafka w ++ [r] ∧ w_db w' = w_db w ∧ w_clock w' = w_clock w0
    ∧ r_topic r = retry_topic ∧ routed r = (retry_topic, attempt_count message + 1)
    ∧ held_job w' (r_value r) d id trace row held_until ∧ r_value r = c_value message
    ∧ origin (consumed_of 0 0 r) = consume_topic
    ∧ attempt_count (consumed_of 0 0 r) = attempt_count message + 1 ∧ due_of (consumed_of 0 0 r) = next.
Proof.
  intros [Hs1 Hrc Hrd Hpr Hbo] Hh Ho Hn w0 next Hlive [Ht Hnp].
  pose proof (parse_retry_count_nonneg (_decode_headers (c_headers message))) as H0; fold (attempt_count message) in H0.
  assert (held_job w0 (c_value message) d id trace row held_until) as Hh0 by by apply (held_job_kept w).
  destruct (attempt_held message w0 d id trace row held_until Hh0 Hlive Ht) as (w1 & Hfail & En1 & D1 & U1 & K1 & C1).
  assert (retry_delay_ms (env_pow (w_env w1)) s (attempt_count message + 1)
    = Ok (backoff (attempt_count message + 1))) as Hdel.
  { rewrite En1, (hj_pow _ _ _ _ _ _ _ Hh0). specialize (Hbo (attempt_count message + 1) ltac:(lia)).
    unfold backoff. by destruct (retry_delay_ms _ _ _). }
  destruct (run_retry consume_topic retry_topic s message (Some (u "LEASE_HELD")) w0 w1 _ d Ho Hfail Hn Hdel)
    as (w2 & r & E2 & K2 & T & V & H & En2 & D2 & U2 & C2);
    [done|by apply demo_scalar|apply (hj_value _ _ _ _ _ _ _ Hh)|]. rewrite C1 in H. fold next in H.
  assert (printable (Z.abs_N (attempt_count message + 1))) as Hpc.
  { unfold printable in *. eapply N.le_lt_trans; [|exact Hpr]. lia. }
  exists w2, r. split_and!; [|by rewrite K2, K1|by rewrite D2, D1|congruence|done| | |done| | |].
  - intros lags. erewrite (run_round _ _ _ _ w2 [r]); [|exact E2|by rewrite K2, K1]. by rewrite decide_True by done.
  - unfold routed. rewrite T, H, retry_count_read; [done|lia|done].
  - rewrite V. apply (held_job_kept w0); [congruence..|done].
  - unfold origin. change (c_headers (consumed_of 0 0 r)) with (delivered (r_headers r)). by rewrite H.
  - unfold attempt_count at 1. change (c_headers (consumed_of 0 0 r)) with (delivered (r_headers r)).
    rewrite H. by apply retry_count_read; [lia|].
  - unfold due_of. change (c_topic (consumed_of 0 0 r)) with (r_topic r). rewrite T, decide_True by done.
    change (c_headers (consumed_of 0 0 r)) with (delivered (r_headers r)). rewrite H. by apply retry_at_read.
Qed.

Lemma run_redelivered lags lag message w d id trace row held_until result :
  TaskProcessorLaws TP → topics_ok →
  held_job w (c_value message) d id trace row held_until → computes (c_value message) (Ok result) →
  origin message = consume_topic → attempt_count message + Z.of_nat (length lags) = retry_max_count s →
  let times := attempt_times (due_of message) (w_clock w) (attempt_count message) (lag :: lags) in
  Forall time_ok times →
  ∃ w' rs, redelivered (lag :: lags) message w = (Ok tt, w') ∧ w_kafka w' = w_kafka w ++ rs
    ∧ recovered w w' id row result held_until (attempt_count message) (length lags) times rs.
Proof.
  intros L Htop. revert lag message w. induction lags as [|lag' lags IH];
    intros lag message w Hh Hcomp Ho Hn times [Ht Hok]%Forall_cons; unfold times; clear times; cbn [attempt_times];
    (destruct (decide (held_until < w_clock (wait_until (due_of message) lag w))) as [Hover|Hlive%Z.nlt_ge];
      [destruct (round_takeover lag message w d id trace row held_until result L Hh Hcomp Ho Hover (proj1 Ht))
         as (w' & row' & E & K & Hr & F);
       exists w', []; rewrite app_nil_r; split_and!; [apply E|done|by eapply recovered_over]|]).
  - destruct (round_isolated lag message w d id trace row held_until Htop Hh Ho ltac:(simpl in Hn; lia) Hlive (proj1 Ht))
      as (w' & r & E & K & D & R). exists w', [r]. split_and!; [done|done|].
    unfold recovered. rewrite bool_decide_true by (by repeat constructor). split; [done|].
    unfold expected_route. simpl. by rewrite R.
  - destruct (round_postponed lag message w d id trace row held_until Htop Hh Ho ltac:(simpl in Hn; lia) Hlive Ht)
      as (w2 & r & E2 & K2 & D2 & C2 & T & R2 & Hh2 & V & Ho2 & Hc2 & Hd2).
    destruct (IH lag' (consumed_of 0 0 r) w2) as (w' & rs & E & K & R); [done|simpl; by rewrite V|done| | |].
    + rewrite Hc2. simpl in Hn. lia.
    + by rewrite Hd2, Hc2, C2.
    + exists w', (r :: rs). rewrite E2, K, K2, <- app_assoc. split_and!; [done|done|].
      rewrite Hd2, Hc2, C2 in R. by eapply recovered_retry.
Qed.
End attempts.

(** The state of a system whose database is that of a world. *)
Lemma granted_fenced {RS : RedisServer} w w' (h : held) row row' :
  granted (w_db w) h → jobs (w_db w) !! h_job h = Some row → jobs (w_db w') !! h_job h = Some row' →
  jr_lease_epoch row' = jr_lease_epoch row + 1 → fenced_off w' h.
Proof.
  intros (r & Hr & Hle) Hrow Hrow' He. simplify_eq. apply (not_current_fenced _ _ row'); [done|lia].
Qed.

(** A row that is not finished and whose lease has expired can be claimed. *)
Lemma unfinished_claimable now id row :
  row_wf id row → jr_status row ≠ status_value SUCCESS →
  (∀ t, jr_lease_expires_at row = Some t → t < now) → claimable now row = true.
Proof.
  intros W Hs Ht. destruct (wf_status _ _ W) as [s Es]. unfold claimable. rewrite Es in Hs |- *.
  destruct s; [done| |done|done]. simpl. destruct (jr_lease_expires_at row) as [t|] eqn:El; [|done].
  specialize (Ht t eq_refl). apply Z.ltb_lt in Ht. by rewrite Ht.
Qed.

Lemma millis_below t : millis t * 1000 ≤ t.
Proof. unfold millis. pose proof (Z.mul_div_le t 1000). lia. Qed.

Lemma printable_below z : 0 ≤ z ≤ 10 ^ 18 → printable (Z.abs_N z).
Proof.
  intros H. unfold printable. apply N.lt_le_trans with (10 ^ 19)%N; [lia|]. apply N.pow_le_mono_r; [done|].
  by vm_compute.
Qed.

(** *** The defaults *)

Lemma default_topics pow :
  (∀ n, 1 ≤ n ≤ 4 → retry_delay_ms pow default_settings n = Ok (1000 * 2 ^ (n - 1))) → topics_ok default_settings pow.
Proof.
  intros Hp. split; [by apply demo_scalar|done|done|by apply printable_below|].
  intros n Hn. by rewrite Hp by (change (retry_max_count default_settings) with 3 in Hn; lia).
Qed.

Lemma default_backoff pow n :
  (∀ n, 1 ≤ n ≤ 4 → retry_delay_ms pow default_settings n = Ok (1000 * 2 ^ (n - 1))) →
  1 ≤ n ≤ 4 → backoff default_settings pow n = 1000 * 2 ^ (n - 1).
Proof. intros Hp Hn. unfold backoff. by rewrite Hp. Qed.

(** When the four attempts come, at the latest. *)
Lemma default_times pow clock l0 l1 l2 l3 claimed_at :
  (∀ n, 1 ≤ n ≤ 4 → retry_delay_ms pow default_settings n = Ok (1000 * 2 ^ (n - 1))) →
  0 ≤ claimed_at ≤ clock → clock + 7200 * MICROS ≤ datetime_max →
  0 ≤ l0 → 0 ≤ l1 → 0 ≤ l2 → 0 ≤ l3 → (clock - claimed_at) + l0 + l1 + l2 + l3 ≤ (1800 - 7) * MICROS →
  let times := attempt_times default_settings pow 0 clock 0 [l0; l1; l2; l3] in
  Forall (time_ok 1800) times ∧ Forall (λ a, a.1 ≤ claimed_at + 1800 * MICROS) times.
Proof.
  intros Hp H0 Hmax G0 G1 G2 G3 Hsum. cbn [attempt_times]. rewrite !(default_backoff _ _ Hp) by lia.
  change (1000 * 2 ^ (0 + 1 - 1)) with 1000. change (1000 * 2 ^ (0 + 1 + 1 - 1)) with 2000.
  change (1000 * 2 ^ (0 + 1 + 1 + 1 - 1)) with 4000. change (1000 * 2 ^ (0 + 1 + 1 + 1 + 1 - 1)) with 8000.
  unfold datetime_max, MICROS in *.
  set (t0 := Z.max clock (0 * 1000) + l0). assert (t0 = clock + l0) as B0 by lia.
  pose proof (millis_below t0) as M0. set (t1 := Z.max t0 ((millis t0 + 1000) * 1000) + l1).
  assert (t0 ≤ t1 ≤ t0 + 1000000 + l1) as B1 by lia.
  pose proof (millis_below t1) as M1. set (t2 := Z.max t1 ((millis t1 + 2000) * 1000) + l2).
  assert (t1 ≤ t2 ≤ t1 + 2000000 + l2) as B2 by lia.
  pose proof (millis_below t2) as M2. set (t3 := Z.max t2 ((millis t2 + 4000) * 1000) + l3).
  assert (t2 ≤ t3 ≤ t2 + 4000000 + l3) as B3 by lia.
  assert (∀ t n, 0 ≤ t → t ≤ claimed_at + 1800 * 1000000 → 0 ≤ n ≤ 8000 → time_ok 1800 (t, millis t + n)) as Hok.
  { intros t n P1 P2 P3. split; simpl.
    - unfold datetime_add_seconds. simpl. unfold datetime_min, datetime_max, MICROS.
      rewrite (proj2 (andb_true_iff _ _)); [done|]. split; apply Z.leb_le; lia.
    - apply printable_below. change (10 ^ 18) with 1000000000000000000. pose proof (millis_below t).
      assert (0 ≤ millis t) by by apply Z.div_pos. lia. }
  split; repeat constructor; try (apply Hok; lia); simpl; lia.
Qed.

(** ** What becomes of an unfinished job *)

Section theorems.
Context {RS : RedisServer}.

(** C5: no job is beyond recovery. In every state the system reaches, in any interleaving, with
    any crashes and failures: a job that is not finished, and whose lease (if it has one) has expired,
    is completed by the next worker that gets its event and meets no failing service;
    and then no worker that held a lease of it before can change the job: what it records
    under its lease commits nothing, and a hand-off of the inference stage, which is not
    fenced, leaves every job as it is. *)
Theorem unfinished_job_recovers {TP : TaskProcessor} {TL : TaskProcessorLaws TP}
    sys sys' w id trace row worker secs expires event result :
  system_ok sys → db_wf (w_db (s_world sys)) → rtc step sys sys' →
  jobs (w_db (s_world sys')) !! id = Some row → jr_status row ≠ status_value SUCCESS →
  jr_lease_epoch row < int4_max →
  w_db w = w_db (s_world sys') → calm w → fresh_ids w →
  (∀ t, jr_lease_expires_at row = Some t → t < w_clock w) → datetime_add_seconds (w_clock w) secs = Ok expires →
  addressed event id trace → computes event (Ok result) →
  ∃ w' row', worker_handle_event worker secs (u "worker") event w = (Ok (true, None), w')
    ∧ jobs (w_db w') !! id = Some row'
    ∧ finished_row SUCCESS (match result with JNull => jr_result row | _ => Some result end) None row row'
    ∧ ∀ h, h ∈ s_held sys' → h_job h = id → fenced_off w' h.
Proof.
  intros Hok W Hsteps Hr Hs He Hd Hc Hf Ht Hexp Ha Hcomp. destruct (steps_keep _ _ Hsteps Hok) as [Hok' Hev].
  assert (row_wf id row) as Wr by apply (wf_jobs _ (dv_wf _ _ Hev W) id row Hr).
  assert (can_claim secs w id row expires) as Hcc.
  { split; [done|done|by rewrite Hd|by eapply unfinished_claimable|done|done]. }
  destruct (run_worker_success worker secs w event id trace row expires result TL Hcc Ha Hcomp)
    as (w2 & w' & D2 & E & D' & K & _).
  assert (jobs (w_db w') !! id = Some (status_values (w_db_clock w2) SUCCESS
    (success_update result worker (jr_lease_epoch row + 1)) (claimed_row (w_db_clock w) worker expires row))) as Hr'.
  { rewrite D'. simpl. apply lookup_insert_eq. }
  eexists w', _. split_and!; [done|exact Hr'|by split; destruct result|].
  intros h Hin <-. pose proof (ok_granted _ Hok') as Hg. rewrite Forall_forall in Hg.
  eapply (granted_fenced w); [by rewrite Hd; apply Hg|by rewrite Hd|exact Hr'|done].
Qed.

(** C18: a lease is taken over if and only if a retry comes late enough. The event of a job that
    a dead worker holds is delivered again, and each retry is handled some time after its
    back-off. If one of these [1 + retry_max_count] attempts comes after the expiry of the lease,
    the job is finished by it and nothing is isolated; if they all come before, the
    event ends in the dead-letter topic and the job stays as the dead worker left it. *)
Theorem takeover_needs_late_retry (TP : TaskProcessor) (worker_id : pystr) s pow p secs
    lag lags message w d id trace row held_until result :
  TaskProcessorLaws TP → build_worker_role s = WorkerService p secs → topics_ok s pow →
  held_job pow w (c_value message) d id trace row held_until → computes (c_value message) (Ok result) →
  c_topic message = resolve_worker_topic s → c_headers message = None →
  Z.of_nat (length lags) = retry_max_count s →
  let times := attempt_times s pow 0 (w_clock w) 0 (lag :: lags) in
  Forall (time_ok secs) times →
  ∃ w' rs, redelivered TP worker_id s (lag :: lags) message w = (Ok tt, w') ∧ w_kafka w' = w_kafka w ++ rs
    ∧ (Exists (λ a, held_until < a.1) times →
       Forall (λ r, r_topic r = resolve_worker_retry_topic s) rs ∧ ∃ row', jobs (w_db w') !! id = Some row'
       ∧ finished_row SUCCESS (match result with JNull => jr_result row | _ => Some result end) None row row')
    ∧ (Forall (λ a, a.1 ≤ held_until) times → w_db w' = w_db w
       ∧ routed <$> rs = ((λ i : nat, (resolve_worker_retry_topic s, Z.of_nat i)) <$> seq 1 (length lags))
                         ++ [(kafka_dlq_topic s, retry_max_count s)]).
Proof.
  intros L Hs Htop Hh Hcomp Ht Hhd Hn times Hok.
  assert (attempt_count message = 0) as Hc by (unfold attempt_count; by rewrite Hhd).
  assert (due_of s message = 0) as Hd.
  { unfold due_of. rewrite decide_False; [done|]. rewrite Ht. pose proof (to_retry _ _ Htop). congruence. }
  destruct (run_redelivered TP worker_id s pow secs p Hs lags lag message w d id trace row held_until result)
    as (w' & rs & E & K & R); [done..|unfold origin; by rewrite Hhd|by rewrite Hc| |].
  { by rewrite Hc, Hd. }
  rewrite Hc, Hd in R. exists w', rs. split_and!; [done|done| |]; unfold recovered in R; fold times in R.
  - intros Hex. rewrite bool_decide_false in R; [done|]. intros Hall.
    apply Exists_exists in Hex as (a & Hin & Hlt). rewrite Forall_forall in Hall. specialize (Hall a Hin). lia.
  - intros Hall. by rewrite bool_decide_true in R.
Qed.

(** C39: with the default settings a crashed worker's job is lost. The lease lasts half an hour and the
    back-offs are one, two and four seconds. If the event of the job a worker claimed is
    delivered again when the worker has died, and neither the redelivery nor a retry waits so long
    that the delays add up to the lease, then all four attempts meet the lease: the event ends in
    the dead-letter topic, and the job stays PROCESSING, its holder dead. *)
Theorem crashed_job_isolated (TP : TaskProcessor) (worker_id : pystr) l0 l1 l2 l3
    message w d id trace row claimed_at result :
  TaskProcessorLaws TP →
  (∀ n, 1 ≤ n ≤ 4 → retry_delay_ms (env_pow (w_env w)) default_settings n = Ok (1000 * 2 ^ (n - 1))) →
  held_job (env_pow (w_env w)) w (c_value message) d id trace row (claimed_at + 1800 * MICROS) →
  computes (c_value message) (Ok result) →
  c_topic message = resolve_worker_topic default_settings → c_headers message = None →
  0 ≤ claimed_at ≤ w_clock w → w_clock w + 7200 * MICROS ≤ datetime_max →
  0 ≤ l0 → 0 ≤ l1 → 0 ≤ l2 → 0 ≤ l3 →
  (w_clock w - claimed_at) + l0 + l1 + l2 + l3 ≤ (1800 - 7) * MICROS →
  ∃ w' rs, redelivered TP worker_id default_settings [l0; l1; l2; l3] message w = (Ok tt, w')
    ∧ w_kafka w' = w_kafka w ++ rs
    ∧ routed <$> rs = [(u "retry-topic", 1); (u "retry-topic", 2); (u "retry-topic", 3); (u "dlq-topic", 3)]
    ∧ jobs (w_db w') !! id = Some row.
Proof.
  intros L Hpow Hh Hcomp Ht Hhd H0 Hmax G0 G1 G2 G3 Hsum.
  destruct (default_times _ (w_clock w) l0 l1 l2 l3 claimed_at Hpow) as [Hok Hle]; [done..|].
  destruct (run_redelivered TP worker_id default_settings _ 1800 (build_primary_processor default_settings false) eq_refl
    [l1; l2; l3] l0 message w d id trace row _ result L (default_topics _ Hpow) Hh Hcomp) as (w' & rs & E & K & R).
  { unfold origin. by rewrite Hhd. }
  { unfold attempt_count. by rewrite Hhd. }
  { unfold due_of, attempt_count. by rewrite Ht, Hhd. }
  unfold due_of, attempt_count, recovered in R. rewrite Ht, Hhd in R. simpl decide in R.
  exists w', rs. rewrite bool_decide_true in R by exact Hle. destruct R as [D R].
  split_and!; [done|done|exact R|]. rewrite D. apply (hj_row _ _ _ _ _ _ _ _ Hh).
Qed.
End theorems.

(** ** The hypotheses can hold *)

(** A worker has claimed and died; ten minutes later its event is delivered again. *)
Definition demo_crashed : db := one_job PROCESSING (Some (u "w-2")) (Some (start_time + 1800 * MICROS)) 1.
Definition demo_event : json := request_event demo_id.
Definition demo_message : consumed := MkConsumed (u "request-topic") 0 5 demo_event None.
Definition demo_row : job_row := row_in demo_id PROCESSING (Some (u "w-2")) (Some (start_time + 1800 * MICROS)) 1.
Definition demo_result : json := JDict [(u "echo", JDict [(u "input", JDict [(u "content", JStr (u "hi"))])])].
Definition demo_again : world := set_clock (start_time + 600 * MICROS) (start_time + 600 * MICROS) (world_of calm_env demo_crashed).

Lemma demo_held : held_job (env_pow calm_env) demo_again demo_event
  (match demo_event with JDict d => d | _ => [] end) demo_id (u "trace") demo_row (start_time + 1800 * MICROS).
Proof.
  split; [apply calm_env_calm|done|apply one_job_fresh|done|by split|apply one_job_row|done|done|done].
Qed.

Lemma demo_pow n : 1 ≤ n ≤ 4 → retry_delay_ms (env_pow calm_env) default_settings n = Ok (1000 * 2 ^ (n - 1)).
Proof.
  intros Hn. assert (n = 1 ∨ n = 2 ∨ n = 3 ∨ n = 4) as [-> | [-> | [-> | ->]]] by lia; vm_compute; reflexivity.
Qed.

Lemma crashed_job_isolated_witness :
  ∃ w' rs, redelivered echo_processor (u "w-1") default_settings [0; 60 * MICROS; 0; 300 * MICROS] demo_message demo_again
      = (Ok tt, w')
    ∧ routed <$> rs = [(u "retry-topic", 1); (u "retry-topic", 2); (u "retry-topic", 3); (u "dlq-topic", 3)]
    ∧ jobs (w_db w') !! demo_id = Some demo_row.
Proof.
  destruct (crashed_job_isolated echo_processor (u "w-1") 0 (60 * MICROS) 0 (300 * MICROS) demo_message demo_again
    _ demo_id (u "trace") demo_row start_time demo_result echo_laws demo_pow demo_held)
    as (w' & rs & E & _ & R & J); [intros w; reflexivity|done|done|done|done|done|done|done|done|done|].
  exists w', rs. split; [exact E|]. split; [exact R|exact J].
Defined.

(** With a last retry that is read half an hour late, the job is taken over. *)
Lemma takeover_needs_late_retry_witness :
  ∃ w' rs row', redelivered echo_processor (u "w-1") default_settings [0; 0; 0; 1800 * MICROS] demo_message demo_again
      = (Ok tt, w')
    ∧ w_kafka w' = rs ∧ Forall (λ r, r_topic r = u "retry-topic") rs
    ∧ jobs (w_db w') !! demo_id = Some row' ∧ finished_row SUCCESS (Some demo_result) None demo_row row'.
Proof.
  destruct (takeover_needs_late_retry echo_processor (u "w-1") default_settings (env_pow calm_env)
    (build_primary_processor default_settings false) 1800 0 [0; 0; 1800 * MICROS] demo_message demo_again
    _ demo_id (u "trace") demo_row (start_time + 1800 * MICROS) demo_result echo_laws eq_refl (default_topics _ demo_pow) demo_held)
    as (w' & rs & E & K & H & _); [intros w; reflexivity|done|done|done| |].
  - repeat constructor; try (vm_compute; reflexivity); apply printable_below; vm_compute; split; discriminate.
  - destruct H as [F (row' & J & R)].
    + do 3 right. left. vm_compute. reflexivity.
    + exists w', rs, row'. split; [exact E|]. split; [exact K|]. split; [exact F|]. split; [exact J|exact R].
Defined.

(** The job of two workers, both of which may have died. *)
Definition demo_third : world := set_clock (start_time + 600 * MICROS) (start_time + 600 * MICROS) demo_second.

Lemma set_clock_db {RS : RedisServer} t dt w : w_db (set_clock t dt w) = w_db w.
Proof. done. Qed.

Lemma fresh_set_clock {RS : RedisServer} t dt w : fresh_ids w → fresh_ids (set_clock t dt w).
Proof. done. Qed.

Lemma demo_third_fresh : fresh_ids demo_third.
Proof. apply fresh_set_clock, demo_second_fresh. Qed.

Lemma unfinished_job_recovers_witness :
  ∃ w' row', worker_handle_event (TP := echo_processor) (u "w-3") 1800 (u "worker") (request_event demo_id) demo_third
      = (Ok (true, None), w')
    ∧ jobs (w_db w') !! demo_id = Some row' ∧ jr_status row' = status_value SUCCESS
    ∧ jr_lease_epoch row' = 3 ∧ Forall (fenced_off w') demo_holders.
Proof.
  assert (jobs (w_db demo_second) !! demo_id = Some demo_taken_over) as Hrow by (vm_compute; reflexivity).
  destruct (unfinished_job_recovers (TL := echo_laws) (MkSystem demo_start []) (MkSystem demo_second demo_holders) demo_third
    demo_id (u "trace") demo_taken_over (u "w-3") 1800 (start_time + 2400 * MICROS) (request_event demo_id) demo_result)
    as (w' & row' & E & J & F & H).
  - apply initial_ok, demo_initial.
  - apply demo_start_wf.
  - apply demo_reached.
  - exact Hrow.
  - done.
  - done.
  - apply set_clock_db.
  - intros n. vm_compute. reflexivity.
  - apply demo_third_fresh.
  - intros t [= <-]. vm_compute. reflexivity.
  - vm_compute. reflexivity.
  - by split.
  - intros w. reflexivity.
  - exists w', row'. split; [exact E|]. split; [exact J|]. split; [apply F|]. split; [apply F|].
    apply Forall_forall. intros h Hin. apply H; [exact Hin|].
    by apply elem_of_cons in Hin as [->|[->|[]%not_elem_of_nil]%elem_of_cons].
Defined.
