(* ===== verification/LoadScript.v ===== *)
(** * The load test script: [scripts/run_k6_load.py]

    The list of virtual users it parses, the paths it builds and the [docker]
    commands it runs, one after the other until one fails. *)
From S2P Require Import Prelude PyStr PyFloat Json.
#[local] Open Scope N_scope.

(** ** [str.split] and [str.join] on one character *)

Definition comma : N := 44.
Definition slash : N := 47.

(** The text up to the first separator, and the pieces after it. *)
Fixpoint split_on (sep : N) (s : pystr) : pystr * list pystr :=
  match s with
  | [] => ([], [])
  | c :: s' =>
      let '(piece, pieces) := split_on sep s' in
      if c =? sep then ([], piece :: pieces) else (c :: piece, pieces)
  end.

(** [s.split(sep)] *)
Definition split (sep : N) (s : pystr) : list pystr := (split_on sep s).1 :: (split_on sep s).2.

(** [sep.join(pieces)] *)
Fixpoint join (sep : N) (pieces : list pystr) : pystr :=
  match pieces with
  | [] => []
  | [p] => p
  | p :: pieces' => p ++ sep :: join sep pieces'
  end.

Lemma split_on_piece sep p s :
  sep ∉ p → split_on sep (p ++ sep :: s) = (p, (split_on sep s).1 :: (split_on sep s).2).
Proof.
  induction p as [|c p IH]; simpl; intros Hp.
  - destruct (split_on sep s). by rewrite N.eqb_refl.
  - apply not_elem_of_cons in Hp as [Hc Hp]. rewrite IH by done. rewrite (proj2 (N.eqb_neq c sep)) by done. done.
Qed.

Lemma split_on_last sep p : sep ∉ p → split_on sep p = (p, []).
Proof.
  induction p as [|c p IH]; simpl; intros Hp; [done|]. apply not_elem_of_cons in Hp as [Hc Hp].
  rewrite IH by done. by rewrite (proj2 (N.eqb_neq c sep)).
Qed.

(** Splitting a joined list gives the pieces back. *)
Lemma split_join sep p pieces :
  Forall (λ q, sep ∉ q) (p :: pieces) → split sep (join sep (p :: pieces)) = p :: pieces.
Proof.
  revert p. induction pieces as [|q pieces IH]; intros p Hf; apply Forall_cons in Hf as [Hp Hf].
  - unfold split. simpl. by rewrite split_on_last.
  - unfold split in *. change (join sep (p :: q :: pieces)) with (p ++ sep :: join sep (q :: pieces)).
    rewrite split_on_piece by done. simpl. f_equal. by apply IH.
Qed.

(** ** [_parse_vus] *)

Section script.
(** The [ValueError] of [int(token)]; [path.mkdir(parents=True, exist_ok=True)]; and
    [subprocess.run(cmd, cwd=..., check=True)], which may raise [CalledProcessError]. *)
Variable invalid_int : pystr → exn.
Variable mkdir : list pystr → result unit.
Variable execute : list pystr → result unit.

(** The value of a token; an empty one is skipped. *)
Definition parse_token (token : pystr) : result (option Z) :=
  match strip token with
  | [] => Ok None
  | token =>
      match py_int token with
      | None => Raise (invalid_int token)
      | Some value =>
          if (value <=? 0)%Z then Raise (ValueError (u "VUS must be positive: " ++ py_str_int value))
          else Ok (Some value)
      end
  end.

Fixpoint parse_tokens (tokens : list pystr) : result (list Z) :=
  match tokens with
  | [] => Ok []
  | token :: tokens' =>
      value ← parse_token token;
      values ← parse_tokens tokens';
      Ok (match value with Some v => v :: values | None => values end)
  end.

Definition _parse_vus (raw : pystr) : result (list Z) :=
  values ← parse_tokens (split comma raw);
  match values with [] => Raise (ValueError (u "At least one VUS value is required")) | _ => Ok values end.

(** ** Paths

    An absolute path as its components. No component is a symbolic link. *)

(** The components a text contributes: empty ones and ["."] are dropped. *)
Definition components (s : pystr) : list pystr := filter (λ c, c ≠ [] ∧ c ≠ u ".") (split slash s).

(** [path / text] *)
Definition path_join (p : list pystr) (s : pystr) : list pystr :=
  if decide (head s = Some slash) then components s else p ++ components s.

(** [path.resolve()]: [".."] leaves a directory. *)
Fixpoint resolve_from (above : list pystr) (p : list pystr) : list pystr :=
  match p with
  | [] => reverse above
  | c :: p' => if decide (c = u "..") then resolve_from (tail above) p' else resolve_from (c :: above) p'
  end.
Definition resolve (p : list pystr) : list pystr := resolve_from [] p.

(** [path.parent], and [Path(__file__).resolve().parent.parent] *)
Definition parent (p : list pystr) : list pystr := take (length p - 1) p.
Definition repo_root_of (script_file : list pystr) : list pystr := parent (parent (resolve script_file)).

(** [str(path)] *)
Definition path_str (p : list pystr) : pystr := slash :: join slash p.

Definition _build_output_path (out_dir : list pystr) (mode_label : pystr) (vus : Z) : list pystr :=
  let suffix := match mode_label with [] => [] | _ => u "_" ++ mode_label end in
  path_join out_dir (u "k6" ++ suffix ++ u "_vus" ++ py_str_int vus ++ u ".json").

(** ** [main] *)

(** The arguments of the command line. *)
Record arguments := MkArguments {
  a_vus : pystr; a_duration : pystr; a_base_url : pystr; a_mode_label : pystr;
  a_script : pystr; a_out_dir : pystr; a_k6_image : pystr;
}.

Definition default_arguments : arguments := MkArguments (u "20,") (u "1m") (u "http://host.docker.internal:8000")
  [] (u "../tests/perf/jobs_load_test.js") (u "../reports/perf") (u "grafana/k6").

(** [(repo_root / args.out_dir).resolve()] *)
Definition out_dir_of (repo_root : list pystr) (args : arguments) : list pystr :=
  resolve (path_join repo_root (a_out_dir args)).

Definition k6_command (repo_root : list pystr) (args : arguments) (vus : Z) : list pystr :=
  [u "docker"; u "run"; u "--rm"; u "-v"; path_str repo_root ++ u ":/work"; u "-w"; u "/work"; a_k6_image args;
   u "run"; a_script args; u "-e"; u "BASE_URL=" ++ a_base_url args; u "-e"; u "VUS=" ++ py_str_int vus;
   u "-e"; u "DURATION=" ++ a_duration args; u "--summary-export";
   path_str (_build_output_path (out_dir_of repo_root args) (a_mode_label args) vus)].

(** The commands that are run, and how the loop ends. *)
Fixpoint run_commands (cmds : list (list pystr)) : list (list pystr) * result unit :=
  match cmds with
  | [] => ([], Ok tt)
  | cmd :: cmds' =>
      match execute cmd with
      | Ok _ => let '(ran, r) := run_commands cmds' in (cmd :: ran, r)
      | Raise e => ([cmd], Raise e)
      end
  end.

(** [main]: the commands it has run, and its exit status or the exception it raises. *)
Definition main (repo_root : list pystr) (args : arguments) : list (list pystr) * result Z :=
  match (mkdir (out_dir_of repo_root args);; _parse_vus (a_vus args)) with
  | Raise e => ([], Raise e)
  | Ok vus_values =>
      let '(ran, r) := run_commands (k6_command repo_root args <$> vus_values) in
      (ran, r ≫= λ _, Ok 0%Z)
  end.

(** ** Facts *)

Lemma py_str_int_no_comma z : comma ∉ py_str_int z.
Proof.
  assert (∀ n, comma ∉ print_nat n) as H.
  { intros n Hc. pose proof (print_nat_ascii n) as Ha. rewrite Forall_forall in Ha. specialize (Ha _ Hc).
    unfold ascii_digit, comma in Ha. lia. }
  unfold py_str_int. case_match; [|done]. apply not_elem_of_cons. split; [done|apply H].
Qed.

Lemma strip_print_nat n : strip (print_nat n) = print_nat n.
Proof.
  apply strip_by_id. eapply Forall_impl; [apply print_nat_ascii|]. intros c Hc.
  unfold strip_space. rewrite int_space_digit by done. unfold ascii_digit, in_range in *.
  apply andb_false_iff. rewrite !N.leb_gt. lia.
Qed.

Lemma parse_token_str z : (0 < z)%Z → printable (Z.abs_N z) → parse_token (py_str_int z) = Ok (Some z).
Proof.
  intros Hz Hp. pose proof (py_int_str_int z Hp) as E. unfold parse_token, py_str_int in *.
  destruct (Z.ltb_spec z 0); [lia|]. rewrite strip_print_nat.
  destruct (print_nat_cons (Z.abs_N z)) as (c & s & Es & _). rewrite Es in *. rewrite E.
  by rewrite (proj2 (Z.leb_gt z 0)) by done.
Qed.

Lemma parse_tokens_str zs :
  Forall (λ z, (0 < z)%Z ∧ printable (Z.abs_N z)) zs → parse_tokens (py_str_int <$> zs) = Ok zs.
Proof.
  induction 1 as [|z zs [Hz Hp] _ IH]; [done|]. rewrite fmap_cons. simpl. rewrite parse_token_str by done.
  simpl. by rewrite IH.
Qed.

Lemma parse_token_inv token v : parse_token token = Ok (Some v) → (0 < v)%Z.
Proof. unfold parse_token. repeat case_match; intros [= <-]. to_prop. lia. Qed.

Lemma parse_tokens_positive tokens vs : parse_tokens tokens = Ok vs → Forall (λ v, (0 < v)%Z) vs.
Proof.
  revert vs. induction tokens as [|t ts IH]; intros vs; simpl; [intros [= <-]; constructor|].
  intros (o & Eo & (vs' & Ev & [= <-])%result_bind_ok)%result_bind_ok. apply IH in Ev.
  destruct o; [|done]. constructor; [by eapply parse_token_inv|done].
Qed.

Lemma run_commands_all cmds : Forall (λ c, execute c = Ok tt) cmds → run_commands cmds = (cmds, Ok tt).
Proof. induction 1 as [|c cmds Hc _ IH]; simpl; [done|]. by rewrite Hc, IH. Qed.

Lemma run_commands_stops before c after e :
  Forall (λ c, execute c = Ok tt) before → execute c = Raise e →
  run_commands (before ++ c :: after) = (before ++ [c], Raise e).
Proof. intros Hb Hc. induction Hb as [|b bs Hb _ IH]; simpl; [by rewrite Hc|]. by rewrite Hb, IH. Qed.

Lemma first_failure cmds :
  Forall (λ c, execute c = Ok tt) cmds
  ∨ ∃ before c after e, cmds = before ++ c :: after ∧ Forall (λ c, execute c = Ok tt) before ∧ execute c = Raise e.
Proof.
  induction cmds as [|c cmds [IH|(b & c' & a & e & -> & Hb & He)]]; [by left| |];
    destruct (execute c) as [[]|e'] eqn:E.
  - left. by constructor.
  - right. exists [], c, cmds, e'. by split_and!.
  - right. exists (c :: b), c', a, e. split_and!; [done|by constructor|done].
  - right. exists [], c, (b ++ c' :: a), e'. by split_and!.
Qed.

Lemma parse_vus_str vs :
  vs ≠ [] → Forall (λ v, (0 < v)%Z ∧ printable (Z.abs_N v)) vs → _parse_vus (join comma (py_str_int <$> vs)) = Ok vs.
Proof.
  intros Hne Hf. destruct vs as [|v vs]; [done|]. unfold _parse_vus. rewrite fmap_cons, split_join.
  - rewrite <- (fmap_cons py_str_int), parse_tokens_str by done. done.
  - rewrite <- fmap_cons. apply Forall_fmap. eapply Forall_true. intros z. apply py_str_int_no_comma.
Qed.

(** ** Paths with respect to the mount *)

(** A path in the container that is in the mounted directory. *)
Definition mounted (p : list pystr) : Prop := [u "work"] `prefix_of` p.

Lemma resolve_plain above p q :
  u ".." ∉ p → resolve_from above (p ++ q) = resolve_from (reverse p ++ above) q.
Proof.
  revert above. induction p as [|c p IH]; intros above Hp; [done|]. apply not_elem_of_cons in Hp as [Hc Hp].
  simpl. rewrite decide_False by done. rewrite IH by done. by rewrite reverse_cons, <- app_assoc.
Qed.

Lemma default_out_dir base name :
  u ".." ∉ base ++ [name] →
  out_dir_of (base ++ [name]) default_arguments = base ++ [u "reports"; u "perf"].
Proof.
  intros Hr. unfold out_dir_of, resolve.
  change (path_join (base ++ [name]) (a_out_dir default_arguments))
    with ((base ++ [name]) ++ [u ".."; u "reports"; u "perf"]).
  rewrite resolve_plain, reverse_snoc by done. simpl. by rewrite app_nil_r, !reverse_cons, reverse_involutive, <- app_assoc.
Qed.
End script.

(** ** What the script promises *)

(** The list of users survives printing. A non-empty list of positive numbers, joined by
    commas, is parsed back as it was. *)
Theorem vus_round_trip invalid_int vs :
  vs ≠ [] → Forall (λ v, (0 < v)%Z ∧ printable (Z.abs_N v)) vs →
  _parse_vus invalid_int (join comma (py_str_int <$> vs)) = Ok vs.
Proof. apply parse_vus_str. Qed.

(** One test per number of users, in order, up to the first failure. Once the arguments are
    accepted, all numbers are positive and there is at least one; the commands that are
    run are the first ones of the list, one for each number; all of them are run and the
    status is 0, or the last one run is the first that fails, whose exception is raised. *)
Theorem load_tests_in_order invalid_int mkdir execute repo_root args vs :
  mkdir (out_dir_of repo_root args) = Ok tt → _parse_vus invalid_int (a_vus args) = Ok vs →
  let cmds := k6_command repo_root args <$> vs in
  vs ≠ [] ∧ Forall (λ v, (0 < v)%Z) vs
  ∧ (Forall (λ c, execute c = Ok tt) cmds ∧ main invalid_int mkdir execute repo_root args = (cmds, Ok 0%Z)
     ∨ ∃ before c after e, cmds = before ++ c :: after ∧ Forall (λ c, execute c = Ok tt) before
         ∧ execute c = Raise e ∧ main invalid_int mkdir execute repo_root args = (before ++ [c], Raise e)).
Proof.
  intros Hm Hp cmds. split_and!.
  - unfold _parse_vus in Hp. apply result_bind_ok in Hp as (l & _ & E). destruct l; [done|]. by injection E as <-.
  - unfold _parse_vus in Hp. apply result_bind_ok in Hp as (l & Hl & E).
    apply parse_tokens_positive in Hl. destruct l; [done|]. by injection E as <-.
  - unfold main. rewrite Hm. cbn [mbind result_bind]. rewrite Hp. fold cmds.
    destruct (first_failure execute cmds) as [Ha|(b & c & a & e & E & Hb & Hc)].
    + left. by rewrite run_commands_all.
    + right. exists b, c, a, e. rewrite E. by rewrite (run_commands_stops _ _ _ _ e).
Qed.

(** The default paths are outside the mount. With the default arguments, wherever the
    repository is (its parent not under [/work]): the file the summary is exported to
    is a path of the container that is not in the mounted directory, so it is lost with
    the container, and the test script, relative to [/work], is not in it either. *)
Theorem default_paths_unmounted base name vus :
  u ".." ∉ base ++ [name] → head base ≠ Some (u "work") →
  ¬ mounted (_build_output_path (out_dir_of (base ++ [name]) default_arguments) (a_mode_label default_arguments) vus)
  ∧ ¬ mounted (resolve (path_join [u "work"] (a_script default_arguments))).
Proof.
  intros Hr Hb. rewrite default_out_dir by done. split; [|intros [q [=]%eq_sym]].
  intros [q Hq]. unfold _build_output_path, path_join in Hq. rewrite decide_False in Hq by done.
  destruct base as [|b base]; [done|]. injection Hq as ->. done.
Qed.

(** ** The hypotheses can hold *)

Lemma vus_round_trip_witness : _parse_vus (λ _, ValueError []) (u "10,30,50") = Ok [10; 30; 50]%Z.
Proof.
  apply (vus_round_trip (λ _, ValueError []) [10; 30; 50]%Z); [done|].
  repeat (apply Forall_cons_2; [split; [done|by apply N.ltb_lt; vm_compute]|]). constructor.
Defined.

(** The second test fails. *)
Definition demo_root : list pystr := [u "home"; u "dev"; u "morphflow"].
Definition demo_args : arguments := MkArguments (u "10, 30,,50") (u "1m") (u "http://localhost") (u "bmode")
  (u "tests/perf/jobs_load_test.js") (u "reports") (u "grafana/k6").
Definition demo_execute (cmd : list pystr) : result unit :=
  if decide (u "VUS=30" ∈ cmd) then Raise (Exn (u "CalledProcessError") []) else Ok tt.

Lemma load_tests_in_order_witness :
  ([10; 30; 50] ≠ [])%Z
  ∧ ∃ ran, main (λ _, ValueError []) (λ _, Ok tt) demo_execute demo_root demo_args = (ran, Raise (Exn (u "CalledProcessError") [])).
Proof.
  destruct (load_tests_in_order (λ _, ValueError []) (λ _, Ok tt) demo_execute demo_root demo_args [10; 30; 50]%Z)
    as (Hne & _ & H); [reflexivity|vm_compute; reflexivity|]. split; [exact Hne|].
  destruct H as [[Hf _]|(b & c & a & e & _ & _ & He & E)].
  - exfalso. apply Forall_cons in Hf as [_ Hf]. apply Forall_cons in Hf as [Hf _]. vm_compute in Hf. discriminate.
  - eexists. rewrite E. unfold demo_execute in He. destruct (decide _); [|discriminate]. injection He as <-. reflexivity.
Defined.

Lemma default_paths_unmounted_witness :
  ¬ mounted (_build_output_path (out_dir_of demo_root default_arguments) [] 20).
Proof.
  apply (default_paths_unmounted [u "home"; u "dev"] (u "morphflow") 20); [vm_compute; set_solver|done].
Defined.
